(** * EnhanceIO, transparent traffic capture (Driver/enhanceio/eio_ttc.c)

    A shallow embedding of the TTC layer: the registry of cache bindings
    ([eio_ttc_list]), activation and deactivation of a binding, the routing
    function installed as the queue's entry point ([eio_make_request_fn]),
    the overlap splitter, the reference-counted completion of dispatched
    I/O ([eio_dec_count]) and the edit path ([eio_cache_edit],
    [eio_mode_switch], [eio_policy_switch]).

    Conventions.  A C integer is a [Z]; [sector_t] is an unsigned 64-bit
    integer and its arithmetic is wrapped with [u64].  A pointer is a [Z]
    address, [0] being NULL.  A [struct cache_c] lives in a store indexed
    by its address, and the registry lists hold addresses, as the
    intrusive list of the source links the structures themselves.  What
    the kernel or another file of the driver provides is a field of the
    classes [EioHeader] (macros) and [Collaborators] (functions).  A
    call that a failed EIO_ASSERT or a read past the end of an array
    stops has the result [stopped], with the line. *)

From Stdlib Require Import ZArith Bool Lia String Arith List.
Import ListNotations.
Local Open Scope Z_scope.

(** ** Machine arithmetic and error numbers *)

Definition u64 (x : Z) : Z := x mod 2 ^ 64.

Definition u32 (x : Z) : Z := x mod 2 ^ 32.

(** Linux error numbers (include/uapi/asm-generic/errno-base.h, errno.h). *)
Definition EIO : Z := 5.
Definition ENOMEM : Z := 12.
Definition ENODEV : Z := 19.
Definition EINVAL : Z := 22.
Definition EOPNOTSUPP : Z := 95.

(** ** Data model *)

(** [struct block_device], restricted to what the TTC layer reads.  The
    kernel keeps one [block_device] per device number, so the pointer
    comparisons of the source ([bdev == bdev->bd_contains],
    [dmc1->disk_dev->bdev == bdev]) are comparisons of [bd_dev], and
    [bd_contains] is the device number of the whole disk. *)
Record block_device := {
  bd_dev : Z;              (* dev_t of this device *)
  bd_contains : Z;         (* dev_t of bdev->bd_contains *)
  bd_queue : Z;            (* address of bdev->bd_disk->queue, 0 if none *)
  bd_part_start_sect : Z;  (* bdev->bd_part->start_sect *)
  bd_part_nr_sects : Z     (* bdev->bd_part->nr_sects *)
}.

(** A [make_request_fn *]: NULL, the interception function of this file,
    or some driver's own function. *)
Inductive make_request_fn_t :=
| mfn_null
| mfn_eio                 (* eio_make_request_fn *)
| mfn_driver (id : Z).

Definition mfn_eqb (f g : make_request_fn_t) : bool :=
  match f, g with
  | mfn_null, mfn_null => true
  | mfn_eio, mfn_eio => true
  | mfn_driver a, mfn_driver b => a =? b
  | _, _ => false
  end.

(** [dmc->dev_info]; a structure that was never activated holds neither
    of the two values. *)
Inductive dev_info_t :=
| EIO_DEV_UNSET
| EIO_DEV_PARTITION
| EIO_DEV_WHOLE_DISK.

Definition is_whole_disk (i : dev_info_t) : bool :=
  match i with EIO_DEV_WHOLE_DISK => true | _ => false end.

(** [struct cache_c], restricted to the fields this file reads or writes. *)
Record cache_c := {
  cache_name : string;
  disk_dev : option block_device;   (* dmc->disk_dev->bdev, None for NULL *)
  dev_info : dev_info_t;
  dev_start_sect : Z;
  dev_end_sect : Z;
  origmfn : make_request_fn_t;
  mode : Z;
  req_policy : Z;
  policy_ops : Z;                   (* struct eio_policy *, by address *)
  cache_flags : Z;
  nr_ios : Z;
  nr_dirty : Z;
  sysctl_do_clean : Z;              (* sysctl_active.do_clean *)
  sysctl_fast_remove : Z;           (* sysctl_active.fast_remove *)
  sysctl_time_based_clean_interval : Z;
  clean_thread : Z;
  is_clean_aged_sets_sched : Z
}.

Definition set_dev_sect (s e : Z) (d : cache_c) : cache_c :=
  {| cache_name := cache_name d; disk_dev := disk_dev d; dev_info := dev_info d;
     dev_start_sect := s; dev_end_sect := e; origmfn := origmfn d;
     mode := mode d; req_policy := req_policy d; policy_ops := policy_ops d;
     cache_flags := cache_flags d; nr_ios := nr_ios d; nr_dirty := nr_dirty d;
     sysctl_do_clean := sysctl_do_clean d;
     sysctl_fast_remove := sysctl_fast_remove d;
     sysctl_time_based_clean_interval := sysctl_time_based_clean_interval d;
     clean_thread := clean_thread d;
     is_clean_aged_sets_sched := is_clean_aged_sets_sched d |}.

Definition set_origmfn (f : make_request_fn_t) (i : dev_info_t) (d : cache_c) : cache_c :=
  {| cache_name := cache_name d; disk_dev := disk_dev d; dev_info := i;
     dev_start_sect := dev_start_sect d; dev_end_sect := dev_end_sect d;
     origmfn := f;
     mode := mode d; req_policy := req_policy d; policy_ops := policy_ops d;
     cache_flags := cache_flags d; nr_ios := nr_ios d; nr_dirty := nr_dirty d;
     sysctl_do_clean := sysctl_do_clean d;
     sysctl_fast_remove := sysctl_fast_remove d;
     sysctl_time_based_clean_interval := sysctl_time_based_clean_interval d;
     clean_thread := clean_thread d;
     is_clean_aged_sets_sched := is_clean_aged_sets_sched d |}.

Definition set_mode (m : Z) (d : cache_c) : cache_c :=
  {| cache_name := cache_name d; disk_dev := disk_dev d; dev_info := dev_info d;
     dev_start_sect := dev_start_sect d; dev_end_sect := dev_end_sect d;
     origmfn := origmfn d;
     mode := m; req_policy := req_policy d; policy_ops := policy_ops d;
     cache_flags := cache_flags d; nr_ios := nr_ios d; nr_dirty := nr_dirty d;
     sysctl_do_clean := sysctl_do_clean d;
     sysctl_fast_remove := sysctl_fast_remove d;
     sysctl_time_based_clean_interval := sysctl_time_based_clean_interval d;
     clean_thread := clean_thread d;
     is_clean_aged_sets_sched := is_clean_aged_sets_sched d |}.

Definition set_req_policy (p : Z) (d : cache_c) : cache_c :=
  {| cache_name := cache_name d; disk_dev := disk_dev d; dev_info := dev_info d;
     dev_start_sect := dev_start_sect d; dev_end_sect := dev_end_sect d;
     origmfn := origmfn d;
     mode := mode d; req_policy := p; policy_ops := policy_ops d;
     cache_flags := cache_flags d; nr_ios := nr_ios d; nr_dirty := nr_dirty d;
     sysctl_do_clean := sysctl_do_clean d;
     sysctl_fast_remove := sysctl_fast_remove d;
     sysctl_time_based_clean_interval := sysctl_time_based_clean_interval d;
     clean_thread := clean_thread d;
     is_clean_aged_sets_sched := is_clean_aged_sets_sched d |}.

Definition set_policy_ops (p : Z) (d : cache_c) : cache_c :=
  {| cache_name := cache_name d; disk_dev := disk_dev d; dev_info := dev_info d;
     dev_start_sect := dev_start_sect d; dev_end_sect := dev_end_sect d;
     origmfn := origmfn d;
     mode := mode d; req_policy := req_policy d; policy_ops := p;
     cache_flags := cache_flags d; nr_ios := nr_ios d; nr_dirty := nr_dirty d;
     sysctl_do_clean := sysctl_do_clean d;
     sysctl_fast_remove := sysctl_fast_remove d;
     sysctl_time_based_clean_interval := sysctl_time_based_clean_interval d;
     clean_thread := clean_thread d;
     is_clean_aged_sets_sched := is_clean_aged_sets_sched d |}.

Definition set_cache_flags (f : Z) (d : cache_c) : cache_c :=
  {| cache_name := cache_name d; disk_dev := disk_dev d; dev_info := dev_info d;
     dev_start_sect := dev_start_sect d; dev_end_sect := dev_end_sect d;
     origmfn := origmfn d;
     mode := mode d; req_policy := req_policy d; policy_ops := policy_ops d;
     cache_flags := f; nr_ios := nr_ios d; nr_dirty := nr_dirty d;
     sysctl_do_clean := sysctl_do_clean d;
     sysctl_fast_remove := sysctl_fast_remove d;
     sysctl_time_based_clean_interval := sysctl_time_based_clean_interval d;
     clean_thread := clean_thread d;
     is_clean_aged_sets_sched := is_clean_aged_sets_sched d |}.

Definition set_do_clean (c : Z) (d : cache_c) : cache_c :=
  {| cache_name := cache_name d; disk_dev := disk_dev d; dev_info := dev_info d;
     dev_start_sect := dev_start_sect d; dev_end_sect := dev_end_sect d;
     origmfn := origmfn d;
     mode := mode d; req_policy := req_policy d; policy_ops := policy_ops d;
     cache_flags := cache_flags d; nr_ios := nr_ios d; nr_dirty := nr_dirty d;
     sysctl_do_clean := c;
     sysctl_fast_remove := sysctl_fast_remove d;
     sysctl_time_based_clean_interval := sysctl_time_based_clean_interval d;
     clean_thread := clean_thread d;
     is_clean_aged_sets_sched := is_clean_aged_sets_sched d |}.

Definition set_time_based_clean_interval (t : Z) (d : cache_c) : cache_c :=
  {| cache_name := cache_name d; disk_dev := disk_dev d; dev_info := dev_info d;
     dev_start_sect := dev_start_sect d; dev_end_sect := dev_end_sect d;
     origmfn := origmfn d;
     mode := mode d; req_policy := req_policy d; policy_ops := policy_ops d;
     cache_flags := cache_flags d; nr_ios := nr_ios d; nr_dirty := nr_dirty d;
     sysctl_do_clean := sysctl_do_clean d;
     sysctl_fast_remove := sysctl_fast_remove d;
     sysctl_time_based_clean_interval := t;
     clean_thread := clean_thread d;
     is_clean_aged_sets_sched := is_clean_aged_sets_sched d |}.

Definition set_is_clean_aged_sets_sched (s : Z) (d : cache_c) : cache_c :=
  {| cache_name := cache_name d; disk_dev := disk_dev d; dev_info := dev_info d;
     dev_start_sect := dev_start_sect d; dev_end_sect := dev_end_sect d;
     origmfn := origmfn d;
     mode := mode d; req_policy := req_policy d; policy_ops := policy_ops d;
     cache_flags := cache_flags d; nr_ios := nr_ios d; nr_dirty := nr_dirty d;
     sysctl_do_clean := sysctl_do_clean d;
     sysctl_fast_remove := sysctl_fast_remove d;
     sysctl_time_based_clean_interval := sysctl_time_based_clean_interval d;
     clean_thread := clean_thread d;
     is_clean_aged_sets_sched := s |}.

(** [struct bio_vec] and [struct bio]. *)
Record bio_vec := {
  bv_page : Z;
  bv_offset : Z;
  bv_len : Z
}.

Inductive req_op :=
| REQ_OP_READ
| REQ_OP_WRITE
| REQ_OP_DISCARD
| REQ_OP_FLUSH
| REQ_OP_other (n : Z).

Definition is_discard (o : req_op) : bool :=
  match o with REQ_OP_DISCARD => true | _ => false end.

(** [bio->bi_end_io]: the splitter's completion function or the
    submitter's own. *)
Inductive bi_end_io_t :=
| end_io_caller (id : Z)
| end_io_empty_barrier     (* eio_bio_end_empty_barrier *)
| end_io_split.            (* eio_split_endio *)

Record bio := {
  bi_bdev : block_device;
  bi_sector : Z;           (* EIO_BIO_BI_SECTOR, a sector_t *)
  bi_size : Z;             (* EIO_BIO_BI_SIZE, in bytes *)
  bi_op : req_op;          (* bio_op(bio), the operation held in bi_opf *)
  bi_op_flags : Z;         (* the flag bits of bi_opf *)
  bi_io_vec : list bio_vec;
  bi_idx : nat;            (* EIO_BIO_BI_IDX *)
  bi_vcnt : nat;
  bi_end_io : bi_end_io_t;
  bi_private : Z
}.

Definition set_bi_sector (s : Z) (b : bio) : bio :=
  {| bi_bdev := bi_bdev b; bi_sector := s; bi_size := bi_size b;
     bi_op := bi_op b; bi_op_flags := bi_op_flags b;
     bi_io_vec := bi_io_vec b; bi_idx := bi_idx b; bi_vcnt := bi_vcnt b;
     bi_end_io := bi_end_io b; bi_private := bi_private b |}.

(** [struct bio_container], the bookkeeping of an overlap split. *)
Record bio_container := {
  bc_holdcount : Z;
  bc_bio : bio;
  bc_error : Z
}.

(** What a function does to the world outside the registry: the locks it
    takes and releases, the I/O it hands on or completes, the memory it
    releases.  A function of the model returns the events of a call in
    the order the source performs them. *)
Inductive event :=
| ev_down_read (index : nat)
| ev_up_read (index : nat)
| ev_down_write (index : nat)
| ev_up_write (index : nat)
| ev_spin_lock (dmc : Z)            (* spin_lock_irqsave(&dmc->cache_spin_lock) *)
| ev_spin_unlock (dmc : Z)
| ev_eio_map (dmc : Z) (b : bio)    (* eio_map(dmc, q, bio) *)
| ev_make_request (f : make_request_fn_t) (b : bio)  (* origmfn(q, bio) *)
| ev_bio_endio (b : bio) (error : Z)                 (* EIO_BIO_ENDIO(bio, error) *)
| ev_bio_put (b : bio)
| ev_new_container (p : Z) (bc : bio_container)      (* lines 1886-1888 *)
| ev_kfree (p : Z)
| ev_policy_lru_pushblks (ops : Z)
| ev_policy_free (ops : Z)
| ev_procfs_dtr (dmc : Z)
| ev_procfs_ctr (dmc : Z)
| ev_schedule_delayed_work (dmc : Z) (delay : Z).

(** ** What the sources at hand do not define *)

(** Macros and constants of eio.h, eio_ttc.h and the kernel headers. *)
Class EioHeader := {
  EIO_HASHTBL_SIZE : nat;
  EIO_HASH_BDEV : Z -> nat;
  SECTOR_SHIFT : Z;
  eio_to_sector : Z -> Z;
  HZ : Z;
  WRITE_FLUSH : Z;
  CACHE_MODE_WB : Z;
  CACHE_FLAGS_FAILED : Z;           (* the bit CACHE_FAILED_IS_SET tests *)
  CACHE_FLAGS_DEGRADED : Z;         (* the bit CACHE_DEGRADED_IS_SET tests *)
  CACHE_FLAGS_SHUTDOWN_INPROG : Z;
  CACHE_FLAGS_MOD_INPROG : Z;
  EIO_CLEAN_START : Z;
  EIO_CLEAN_KEEP : Z;
  FINISH_NRDIRTY_RETRY_COUNT : Z
}.

(** Functions of the kernel and of the other files of the driver.  One
    that takes the [struct cache_c *] is a transformer of the structure;
    an allocator says whether (and where) the allocation succeeds. *)
Class Collaborators := {
  (* the cache engine: return value and the bio as the call leaves it *)
  eio_map : cache_c -> bio -> Z * bio;
  (* the binding as concurrent I/O leaves it while the caller sleeps *)
  schedule_timeout : cache_c -> cache_c;
  (* the cleaner *)
  eio_clean_all : cache_c -> cache_c;
  eio_stop_async_tasks : cache_c -> cache_c;
  eio_start_clean_thread : cache_c -> Z * cache_c;
  (* write-back resources *)
  eio_allocate_wb_resources : cache_c -> Z * cache_c;
  eio_free_wb_resources : cache_c -> cache_c;
  (* the policy engine *)
  eio_policy_init : cache_c -> Z * cache_c;
  eio_repl_blk_init : Z -> Z;
  eio_repl_sets_init : Z -> Z;
  eio_policy_free : cache_c -> cache_c;
  (* metadata persistence *)
  eio_sb_store : cache_c -> Z;
  (* allocations of the overlap splitter, for the bio being split *)
  kmalloc_bioptr : bio -> Z;
  kmalloc_bio_container : bio -> Z;
  bio_alloc_split : bio -> Z -> bool   (* the sub-I/O at sector snum *)
}.

(** ** Checks that stop a call *)

(** EIO_ASSERT is a macro of eio.h.  In the splitter, in
    eio_dispatch_io_pages and in eio_alloc_pages the assertions on what
    the caller or the allocator hands in are part of the function: a
    failed assertion stops the call where it stands, with the line of
    the assertion, and the call returns nothing.  In the first two a
    read past the end of an array of the caller stops the call in the
    same way, C giving it no value.  The other assertions of the file
    are not part of the model. *)
Inductive stop :=
| assert_failed (line : Z)     (* the EIO_ASSERT at this line of eio_ttc.c *)
| out_of_bounds (line : Z).    (* the array read at this line *)

Inductive checked (A : Type) :=
| stopped (s : stop)
| passed (a : A).

Arguments stopped {A} s.
Arguments passed {A} a.

(** ** The registry *)

Record ttc_state := {
  caches : Z -> cache_c;                        (* the structures, by address *)
  eio_ttc_list : nat -> list Z;                 (* one list head per shard *)
  rq_make_request_fn : Z -> make_request_fn_t   (* q->make_request_fn, by queue *)
}.

Definition upd {A} (f : Z -> A) (k : Z) (v : A) : Z -> A :=
  fun k' => if k' =? k then v else f k'.

Definition upd_nat {A} (f : nat -> A) (k : nat) (v : A) : nat -> A :=
  fun k' => if Nat.eqb k' k then v else f k'.

Definition set_cache (a : Z) (d : cache_c) (st : ttc_state) : ttc_state :=
  {| caches := upd (caches st) a d;
     eio_ttc_list := eio_ttc_list st;
     rq_make_request_fn := rq_make_request_fn st |}.

Definition set_list (i : nat) (l : list Z) (st : ttc_state) : ttc_state :=
  {| caches := caches st;
     eio_ttc_list := upd_nat (eio_ttc_list st) i l;
     rq_make_request_fn := rq_make_request_fn st |}.

Definition set_rq (q : Z) (f : make_request_fn_t) (st : ttc_state) : ttc_state :=
  {| caches := caches st;
     eio_ttc_list := eio_ttc_list st;
     rq_make_request_fn := upd (rq_make_request_fn st) q f |}.

(** [dmc1->disk_dev->bdev->bd_contains == bdev->bd_contains].  A
    structure on a list always has a device: activation refuses one
    without. *)
Definition same_disk (dmc1 : cache_c) (bdev : block_device) : bool :=
  match disk_dev dmc1 with
  | Some b1 => bd_contains b1 =? bd_contains bdev
  | None => false
  end.

(** [dmc1->disk_dev->bdev == bdev]. *)
Definition same_bdev (dmc1 : cache_c) (bdev : block_device) : bool :=
  match disk_dev dmc1 with
  | Some b1 => bd_dev b1 =? bd_dev bdev
  | None => false
  end.

Section TTC.
Context {hdr : EioHeader} {ext : Collaborators}.

Definition CACHE_FAILED_IS_SET (d : cache_c) : bool :=
  negb (Z.land (cache_flags d) CACHE_FLAGS_FAILED =? 0).

Definition CACHE_DEGRADED_IS_SET (d : cache_c) : bool :=
  negb (Z.land (cache_flags d) CACHE_FLAGS_DEGRADED =? 0).

Definition flag_set (flags mask : Z) : bool :=
  negb (Z.land flags mask =? 0).

(** hdd_make_request, lines 95-115, for a kernel whose make_request_fn
    submits the I/O itself (COMPAT_MAKE_REQUEST_FN_SUBMITS_IO). *)
Definition hdd_make_request (f : make_request_fn_t) (b : bio) : list event :=
  if bd_queue (bi_bdev b) =? 0 then [ev_bio_endio b (- EIO)]
  else [ev_make_request f b].

(** eio_cache_lookup, lines 151-167: the scan of one shard, then of all
    shards in index order. *)
Fixpoint lookup_in_list (st : ttc_state) (name : string) (l : list Z) : option Z :=
  match l with
  | [] => None
  | a :: l' =>
      if String.eqb name (cache_name (caches st a)) then Some a
      else lookup_in_list st name l'
  end.

Fixpoint lookup_shards (st : ttc_state) (name : string) (shards : list nat)
  : option Z * list event :=
  match shards with
  | [] => (None, [])
  | i :: rest =>
      match lookup_in_list st name (eio_ttc_list st i) with
      | Some a => (Some a, [ev_down_read i; ev_up_read i])
      | None =>
          let '(r, evs) := lookup_shards st name rest in
          (r, ev_down_read i :: ev_up_read i :: evs)
      end
  end.

Definition eio_cache_lookup (st : ttc_state) (name : string) : option Z * list event :=
  lookup_shards st name (seq 0 EIO_HASHTBL_SIZE).

(** ** Activation, lines 169-256 *)

(** The loop of lines 203-218: the first structure of the list on the
    same disk decides; the result is the conflict flag and the entry
    point taken from a sibling partition. *)
Fixpoint activate_scan (st : ttc_state) (bdev : block_device) (wholedisk : bool)
  (l : list Z) : bool * make_request_fn_t :=
  match l with
  | [] => (false, mfn_null)
  | a1 :: l' =>
      let dmc1 := caches st a1 in
      if negb (same_disk dmc1 bdev) then activate_scan st bdev wholedisk l'
      else if wholedisk || is_whole_disk (dev_info dmc1) || same_bdev dmc1 bdev
      then (true, mfn_null)
      else (false, origmfn dmc1)
  end.

(** The empty flush of eio_issue_empty_barrier_flush, lines 1186-1210,
    sent to the source device. *)
Definition empty_barrier_bio (bdev : block_device) (orig_bio : Z) (op : req_op)
  (op_flags : Z) : bio :=
  {| bi_bdev := bdev; bi_sector := 0; bi_size := 0;
     bi_op := op; bi_op_flags := op_flags;
     bi_io_vec := []; bi_idx := 0%nat; bi_vcnt := 0%nat;
     bi_end_io := end_io_empty_barrier; bi_private := orig_bio |}.

Definition eio_ttc_activate (st : ttc_state) (a : Z) : Z * ttc_state * list event :=
  match disk_dev (caches st a) with
  | None => (- ENODEV, st, [])
  | Some bdev =>
      let rq := bd_queue bdev in
      let wholedisk := bd_dev bdev =? bd_contains bdev in
      let st1 :=
        set_cache a
          (set_dev_sect (bd_part_start_sect bdev)
             (u64 (bd_part_start_sect bdev + bd_part_nr_sects bdev - 1))
             (caches st a)) st in
      let index := EIO_HASH_BDEV (bd_contains bdev) in
      let '(conflict, sibling_mfn) :=
        activate_scan st1 bdev wholedisk (eio_ttc_list st1 index) in
      if conflict then (- EINVAL, st1, [ev_down_write index; ev_up_write index])
      else
        let st2 :=
          if mfn_eqb sibling_mfn mfn_null then
            set_rq rq mfn_eio
              (set_cache a
                 (set_origmfn (rq_make_request_fn st1 rq)
                    (if wholedisk then EIO_DEV_WHOLE_DISK else EIO_DEV_PARTITION)
                    (caches st1 a)) st1)
          else
            set_cache a (set_origmfn sibling_mfn EIO_DEV_PARTITION (caches st1 a)) st1 in
        let st3 := set_list index (eio_ttc_list st2 index ++ [a]) st2 in
        (0, st3,
         [ev_down_write index]
           ++ hdd_make_request (origmfn (caches st3 a))
                (empty_barrier_bio bdev 0 REQ_OP_FLUSH WRITE_FLUSH)
           ++ [ev_up_write index])
  end.

(** ** Draining and deactivation, lines 1212-1270 and 258-334 *)

(** [while (atomic64_read(&dmc->nr_ios) != 0) schedule_timeout(...)]. *)
Fixpoint wait_nr_ios (fuel : nat) (d : cache_c) : option cache_c :=
  if nr_ios d =? 0 then Some d
  else match fuel with
       | O => None
       | S f => wait_nr_ios f (schedule_timeout d)
       end.

(** The do-while loop of lines 1241-1254. *)
Fixpoint clean_loop (fuel : nat) (d : cache_c) : option (Z * cache_c) :=
  match fuel with
  | O => None
  | S f =>
      if CACHE_FAILED_IS_SET d then Some (- ENODEV, d)
      else
        let d1 := if sysctl_fast_remove d =? 0 then eio_clean_all d else d in
        if (sysctl_fast_remove d1 =? 0) && (0 <? nr_dirty d1)
           && negb (flag_set (cache_flags d1) CACHE_FLAGS_SHUTDOWN_INPROG)
        then clean_loop f d1
        else Some (0, d1)
  end.

Definition eio_finish_nrdirty (fuel : nat) (st : ttc_state) (a : Z)
  : option (Z * ttc_state * list event) :=
  let dmc := caches st a in
  match disk_dev dmc with
  | None => None
  | Some bdev =>
      let retry_count := FINISH_NRDIRTY_RETRY_COUNT in
      let index := EIO_HASH_BDEV (bd_contains bdev) in
      match wait_nr_ios fuel dmc with
      | None => None
      | Some d1 =>
          let d2 :=
            set_do_clean
              (Z.lor (sysctl_do_clean d1) (Z.lor EIO_CLEAN_KEEP EIO_CLEAN_START)) d1 in
          match clean_loop fuel d2 with
          | None => None
          | Some (ret, d3) =>
              let d4 :=
                set_do_clean
                  (Z.land (sysctl_do_clean d3) (Z.lnot EIO_CLEAN_START)) d3 in
              let ret' :=
                if (flag_set (cache_flags d4) CACHE_FLAGS_SHUTDOWN_INPROG
                    || (retry_count =? 0)) && (0 <? nr_dirty d4)
                then - EINVAL else ret in
              Some (ret', set_cache a d4 st, [ev_down_write index; ev_up_write index])
          end
      end
  end.

(** The loop of lines 303-320: is another structure of the same disk
    on the list? *)
Fixpoint found_partitions (st : ttc_state) (bdev : block_device) (a : Z)
  (l : list Z) : bool :=
  match l with
  | [] => false
  | a1 :: l' =>
      if a1 =? a then found_partitions st bdev a l'
      else if negb (same_disk (caches st a1) bdev) then found_partitions st bdev a l'
      else true
  end.

(** Lines 295-333, from the label [deactivate]. *)
Definition deactivate_tail (fuel : nat) (st : ttc_state) (a : Z)
  (bdev : block_device) (ret : Z) (evs : list event)
  : option (Z * ttc_state * list event) :=
  let dmc := caches st a in
  let rq := bd_queue bdev in
  let index := EIO_HASH_BDEV (bd_contains bdev) in
  let found :=
    if is_whole_disk (dev_info dmc) then false
    else found_partitions st bdev a (eio_ttc_list st index) in
  let st1 :=
    if is_whole_disk (dev_info dmc) || negb found
    then set_rq rq (origmfn dmc) st else st in
  let st2 := set_list index (remove Z.eq_dec a (eio_ttc_list st1 index)) st1 in
  match wait_nr_ios fuel (caches st2 a) with
  | None => None
  | Some d => Some (ret, set_cache a d st2,
                    evs ++ [ev_down_write index; ev_up_write index])
  end.

Definition eio_ttc_deactivate (fuel : nat) (st : ttc_state) (a : Z) (force : Z)
  : option (Z * ttc_state * list event) :=
  let dmc := caches st a in
  match disk_dev dmc with
  | None => None
  | Some bdev =>
      if negb (force =? 0) then deactivate_tail fuel st a bdev 0 []
      else if mode dmc =? CACHE_MODE_WB then
        if negb (CACHE_FAILED_IS_SET dmc) then
          match eio_finish_nrdirty fuel st a with
          | None => None
          | Some (ret, st1, evs) =>
              if negb (ret =? 0) then Some (ret, st1, evs)
              else deactivate_tail fuel st1 a bdev ret evs
          end
        else deactivate_tail fuel st a bdev 0 []
      else deactivate_tail fuel st a bdev 0 []
  end.

End TTC.

(** ** The routing function, lines 366-479, and the overlap splitter *)

Section Routing.
Context {hdr : EioHeader} {ext : Collaborators}.

(** Last sector of the I/O as the source computes it, in [sector_t]
    arithmetic: [bi_sector + eio_to_sector(bi_size) - 1]. *)
Definition bio_last_sector (b : bio) : Z :=
  u64 (bi_sector b + eio_to_sector (bi_size b) - 1).

(** Line 401: the I/O fits within the cached partition. *)
Definition bio_fits (b : bio) (dmc1 : cache_c) : bool :=
  (dev_start_sect dmc1 <=? bi_sector b)
  && (bio_last_sector b <=? dev_end_sect dmc1).

(** Line 411: the first or the last sector of the I/O is in the
    partition. *)
Definition bio_overlaps (b : bio) (dmc1 : cache_c) : bool :=
  ((dev_start_sect dmc1 <=? bi_sector b) && (bi_sector b <=? dev_end_sect dmc1))
  || ((dev_start_sect dmc1 <=? bio_last_sector b)
      && (bio_last_sector b <=? dev_end_sect dmc1)).

(** The loop of lines 387-424; the result is [dmc], [origmfn] and
    [overlap] as the loop leaves them. *)
Fixpoint ttc_scan (st : ttc_state) (b : bio) (l : list Z)
  (origmfn0 : make_request_fn_t) : option Z * make_request_fn_t * bool :=
  match l with
  | [] => (None, origmfn0, false)
  | a1 :: l' =>
      let dmc1 := caches st a1 in
      if negb (same_disk dmc1 (bi_bdev b)) then ttc_scan st b l' origmfn0
      else if is_whole_disk (dev_info dmc1) then (Some a1, origmfn0, false)
      else
        let origmfn1 :=
          if mfn_eqb origmfn0 mfn_null then origmfn dmc1 else origmfn0 in
        if bio_fits b dmc1 then (Some a1, origmfn1, false)
        else if bio_overlaps b dmc1 then (None, origmfn1, true)
        else ttc_scan st b l' origmfn1
  end.

(** The decision the if/else chain of lines 426-478 takes on the result
    of the scan. *)
Inductive decision :=
| ROUTE_TO_CACHE (dmc : Z)
| ROUTE_SPLIT
| ROUTE_PASSTHROUGH (origmfn : make_request_fn_t).

Definition route (st : ttc_state) (b : bio) : decision :=
  let index := EIO_HASH_BDEV (bd_contains (bi_bdev b)) in
  match ttc_scan st b (eio_ttc_list st index) mfn_null with
  | (_, _, true) => ROUTE_SPLIT
  | (Some a, _, false) => ROUTE_TO_CACHE a
  | (None, f, false) => ROUTE_PASSTHROUGH f
  end.

(** A zeroed [bio_vec], an entry of an array that kzalloc returned. *)
Definition bio_vec_zero : bio_vec :=
  {| bv_page := 0; bv_offset := 0; bv_len := 0 |}.

(** eio_split_new_bio, lines 1917-1952.  The result is the sub-I/O and
    the updated [*bvec_idx] and [*bvec_consumed]; None is a NULL return.
    [bi_io_vec] lists the entries of the array of the I/O: the reads of
    lines 1928 and 1937 past its end stop the call, and so do the three
    assertions of lines 1928, 1931 and 1933. *)
Definition eio_split_new_bio (b : bio) (bc : Z) (bvec_idx : nat)
  (bvec_consumed : Z) (snum : Z) : checked (option (bio * nat * Z)) :=
  let iosize := u32 (Z.shiftl 1 SECTOR_SHIFT) in
  if negb (bio_alloc_split b snum) then passed None
  else
    match nth_error (bi_io_vec b) bvec_idx with
    | None => stopped (out_of_bounds 1928)
    | Some v0 =>
        if negb (iosize <=? bv_len v0) then stopped (assert_failed 1928)
        else
          let used_up := bv_len v0 <=? bvec_consumed in
          if used_up && negb (bv_len v0 =? bvec_consumed)
          then stopped (assert_failed 1931)
          else if used_up && negb (S bvec_idx <? bi_vcnt b)%nat
          then stopped (assert_failed 1933)
          else
            let '(idx, consumed) :=
              if used_up then (S bvec_idx, 0) else (bvec_idx, bvec_consumed) in
            match nth_error (bi_io_vec b) idx with
            | None => stopped (out_of_bounds 1937)
            | Some v =>
                passed
                  (Some ({| bi_bdev := bi_bdev b; bi_sector := snum;
                            bi_size := iosize;
                            bi_op := bi_op b; bi_op_flags := bi_op_flags b;
                            bi_io_vec := [ {| bv_page := bv_page v;
                                              bv_offset := u32 (bv_offset v + consumed);
                                              bv_len := iosize |} ];
                            bi_idx := 0%nat; bi_vcnt := 1%nat;
                            bi_end_io := end_io_split; bi_private := bc |},
                         idx, u32 (consumed + iosize)))
            end
    end.

(** The loop of lines 1891-1898: the sub-I/Os created, and whether all
    [n] remaining ones were; a call of eio_split_new_bio that stops,
    stops the loop. *)
Fixpoint split_loop (n : nat) (b : bio) (bc : Z) (bvec_idx : nat)
  (bvec_consumed : Z) (snum : Z) : checked (list bio * bool) :=
  match n with
  | O => passed ([], true)
  | S n' =>
      match eio_split_new_bio b bc bvec_idx bvec_consumed snum with
      | stopped s => stopped s
      | passed None => passed ([], false)
      | passed (Some (cbio, idx, consumed)) =>
          match split_loop n' b bc idx consumed (u64 (snum + 1)) with
          | stopped s => stopped s
          | passed (rest, ok) => passed (cbio :: rest, ok)
          end
      end
  end.

(** The loop of lines 1909-1910 over a function [mrf] standing for
    [eio_make_request_fn(q, .)]. *)
Fixpoint submit_all (mrf : bio -> option (list event * bio)) (l : list bio)
  : option (list event) :=
  match l with
  | [] => Some []
  | cbio :: rest =>
      match mrf cbio with
      | None => None
      | Some (evs, _) =>
          match submit_all mrf rest with
          | None => None
          | Some evs' => Some (evs ++ evs')
          end
      end
  end.

Definition split_nbios (b : bio) : Z := Z.shiftr (bi_size b) SECTOR_SHIFT.

Definition new_container (b : bio) : bio_container :=
  {| bc_holdcount := split_nbios b; bc_bio := b; bc_error := 0 |}.

(** eio_overlap_split_bio, lines 1863-1915: the events of a call that
    returns, None when a call of [mrf] does not return, or where the
    creation of a sub-I/O stopped. *)
Definition eio_overlap_split_bio (mrf : bio -> option (list event * bio))
  (b : bio) : checked (option (list event)) :=
  let nbios := split_nbios b in
  let snum := bi_sector b in
  let bioptr := kmalloc_bioptr b in
  if bioptr =? 0 then passed (Some [ev_bio_endio b (- ENOMEM)])
  else
    let bc := kmalloc_bio_container b in
    if bc =? 0 then passed (Some [ev_bio_endio b (- ENOMEM); ev_kfree bioptr])
    else
      match split_loop (Z.to_nat nbios) b bc (bi_idx b) 0 snum with
      | stopped s => stopped s
      | passed (subs, ok) =>
          if negb ok then
            passed
              (Some ([ev_new_container bc (new_container b)]
                       ++ map ev_bio_put (rev subs)
                       ++ [ev_bio_endio b (- ENOMEM); ev_kfree bc; ev_kfree bioptr]))
          else
            match submit_all mrf subs with
            | None => passed None
            | Some evs =>
                passed
                  (Some ([ev_new_container bc (new_container b)]
                           ++ evs ++ [ev_kfree bioptr]))
            end
      end.

(** eio_make_request_fn.  [fuel] bounds the passes through [re_lookup]
    and the nesting of splits; None is a call that does not return:
    not within [fuel], or not at all because the splitter stopped.  The
    result is the events of the call and the bio as the call leaves
    it. *)
Fixpoint eio_make_request_fn (fuel : nat) (st : ttc_state) (q : Z) (b : bio)
  : option (list event * bio) :=
  match fuel with
  | O => None
  | S f =>
      let index := EIO_HASH_BDEV (bd_contains (bi_bdev b)) in
      match ttc_scan st b (eio_ttc_list st index) mfn_null with
      | (_, _, true) =>
          if is_discard (bi_op b) then
            Some ([ev_down_read index; ev_up_read index;
                   ev_bio_endio b (- EOPNOTSUPP)], b)
          else
            match eio_overlap_split_bio (eio_make_request_fn f st q) b with
            | passed (Some evs) =>
                Some ([ev_down_read index; ev_up_read index] ++ evs, b)
            | passed None => None
            | stopped _ => None
            end
      | (Some a, _, false) =>
          let dmc := caches st a in
          let b1 :=
            if bi_sector b =? 0 then b
            else set_bi_sector (u64 (bi_sector b - dev_start_sect dmc)) b in
          let '(ret, b2) := eio_map dmc b1 in
          let b3 :=
            if ret =? 0 then b2
            else set_bi_sector (u64 (bi_sector b2 + dev_start_sect dmc)) b2 in
          Some ([ev_down_read index; ev_eio_map a b1; ev_up_read index], b3)
      | (None, origmfn0, false) =>
          let origmfn1 :=
            if mfn_eqb origmfn0 mfn_null then rq_make_request_fn st q
            else origmfn0 in
          if mfn_eqb origmfn1 mfn_eio then
            match eio_make_request_fn f st q b with
            | None => None
            | Some (evs, b') =>
                Some ([ev_down_read index; ev_up_read index] ++ evs, b')
            end
          else
            Some ([ev_down_read index; ev_up_read index]
                    ++ hdd_make_request origmfn1 b, b)
      end
  end.

(** eio_split_endio, lines 1954-1968: the container after the
    completion of one sub-I/O, and what the call emits; at a hold count
    of zero the original I/O is completed and the container released. *)
Definition eio_split_endio (p : Z) (bc : bio_container) (cbio : bio) (error : Z)
  : bio_container * list event :=
  let bc1 :=
    if error =? 0 then bc
    else {| bc_holdcount := bc_holdcount bc; bc_bio := bc_bio bc;
            bc_error := error |} in
  let bc2 :=
    {| bc_holdcount := bc_holdcount bc1 - 1; bc_bio := bc_bio bc1;
       bc_error := bc_error bc1 |} in
  if bc_holdcount bc2 =? 0
  then (bc2, [ev_bio_put cbio; ev_bio_endio (bc_bio bc2) (bc_error bc2); ev_kfree p])
  else (bc2, [ev_bio_put cbio]).

End Routing.

(** ** Completion of dispatched I/O, lines 622-655 and 1039-1154 *)

(** [struct eio_context]. *)
Record eio_context := {
  io_count : Z;
  io_error : Z;
  io_event : bool;       (* io->event != NULL: a waiter, the synchronous mode *)
  io_callback : Z;       (* io->callback *)
  io_context : Z         (* io->context *)
}.

(** What the last decrement does. *)
Inductive io_signal :=
| sig_complete                               (* complete(io->event) *)
| sig_mempool_free                           (* mempool_free(io, _io_pool) *)
| sig_callback (fn : Z) (err : Z) (context : Z).   (* fn(err, context) *)

Definition is_completion (s : io_signal) : bool :=
  match s with
  | sig_complete => true
  | sig_callback _ _ _ => true
  | sig_mempool_free => false
  end.

(** eio_dec_count, lines 623-641. *)
Definition eio_dec_count (io : eio_context) (error : Z)
  : eio_context * list io_signal :=
  let io1 :=
    if error =? 0 then io
    else {| io_count := io_count io; io_error := error; io_event := io_event io;
            io_callback := io_callback io; io_context := io_context io |} in
  let io2 :=
    {| io_count := io_count io1 - 1; io_error := io_error io1;
       io_event := io_event io1; io_callback := io_callback io1;
       io_context := io_context io1 |} in
  if io_count io2 =? 0 then
    if io_event io2 then (io2, [sig_complete])
    else (io2, [sig_mempool_free;
                sig_callback (io_callback io2) (io_error io2) (io_context io2)])
  else (io2, []).

(** One step of a dispatched I/O as the tracker sees it: the dispatcher
    takes a reference and submits a transfer (lines 706-711, 890-891,
    1027-1031), a transfer in flight ends (eio_endio, end_unaligned_free:
    [eio_dec_count(io, error)]), or the dispatcher drops its own
    reference after a dispatch that returned 0 (lines 1090, 1138). *)
Inductive io_step :=
| step_issue
| step_endio (error : Z)
| step_drop.

Definition io_run_step (s : eio_context * list io_signal) (e : io_step)
  : eio_context * list io_signal :=
  let '(io, sigs) := s in
  match e with
  | step_issue =>
      ({| io_count := io_count io + 1; io_error := io_error io;
          io_event := io_event io; io_callback := io_callback io;
          io_context := io_context io |}, sigs)
  | step_endio error =>
      let '(io', out) := eio_dec_count io error in (io', sigs ++ out)
  | step_drop =>
      let '(io', out) := eio_dec_count io 0 in (io', sigs ++ out)
  end.

Definition io_run (io : eio_context) (tr : list io_step)
  : eio_context * list io_signal :=
  fold_left io_run_step tr (io, []).

(** The tracker as eio_sync_io (lines 1103-1108) and eio_async_io (lines
    1051-1056) set it up. *)
Definition sync_context : eio_context :=
  {| io_count := 1; io_error := 0; io_event := true;
     io_callback := 0; io_context := 0 |}.

Definition async_context (notify context : Z) : eio_context :=
  {| io_count := 1; io_error := 0; io_event := false;
     io_callback := notify; io_context := context |}.

(** An interleaving of a dispatch of [k] transfers that returned 0 with
    the completions of the transfers: no transfer ends before it is
    issued, the dispatcher drops its reference once, after the last
    issue, and every transfer has ended when the trace does. *)
Fixpoint schedule_from (k issued ended : nat) (dropped : bool) (tr : list io_step)
  : bool :=
  match tr with
  | [] => Nat.eqb issued k && Nat.eqb ended k && dropped
  | step_issue :: tr' =>
      negb dropped && Nat.ltb issued k
      && schedule_from k (S issued) ended dropped tr'
  | step_endio _ :: tr' =>
      Nat.ltb ended issued && schedule_from k issued (S ended) dropped tr'
  | step_drop :: tr' =>
      negb dropped && Nat.eqb issued k && schedule_from k issued ended true tr'
  end.

Definition schedule_ok (k : nat) (tr : list io_step) : bool :=
  schedule_from k 0 0 false tr.

(** The errors the transfers end with, in the order they end. *)
Fixpoint endio_errors (tr : list io_step) : list Z :=
  match tr with
  | [] => []
  | step_endio e :: tr' => e :: endio_errors tr'
  | _ :: tr' => endio_errors tr'
  end.

(** Number of calls of eio_dec_count in a trace. *)
Fixpoint nr_decrements (tr : list io_step) : nat :=
  match tr with
  | [] => O
  | step_issue :: tr' => nr_decrements tr'
  | _ :: tr' => S (nr_decrements tr')
  end.

Definition first_error (errs : list Z) : Z :=
  match filter (fun e => negb (e =? 0)) errs with
  | [] => 0
  | e :: _ => e
  end.

(** [if (error) io->error = error;]: a non-zero error replaces the one
    recorded before. *)
Definition record_error (recorded error : Z) : Z :=
  if error =? 0 then recorded else error.

Definition last_error (errs : list Z) : Z :=
  fold_left record_error errs 0.

(** The references a tracker holds after [issued] transfers were issued
    and [ended] of them ended: one per transfer in flight, and the
    dispatcher's own until it is dropped. *)
Definition refs (dropped : bool) (issued ended : nat) : Z :=
  (if dropped then 0 else 1) + Z.of_nat issued - Z.of_nat ended.

(** What the last decrement emits, lines 629-639. *)
Definition fire (io : eio_context) : list io_signal :=
  if io_event io then [sig_complete]
  else [sig_mempool_free;
        sig_callback (io_callback io) (io_error io) (io_context io)].

(** eio_sync_io, lines 1094-1145, over the trace of the tracker's steps
    and the value [ret] the dispatch returned.  After a failed dispatch
    the function polls until the count is back to 1 and returns [ret];
    otherwise it drops its reference (a [step_drop] of the trace), waits
    for complete() and returns the recorded error.  None is a call that
    does not return: the count never settles, or complete() is never
    called. *)
Definition eio_sync_io (ret : Z) (tr : list io_step) : option Z :=
  let '(io, sigs) := io_run sync_context tr in
  if negb (ret =? 0) then
    if io_count io =? 1 then Some ret else None
  else if existsb is_completion sigs
  then Some (if io_error io =? 0 then ret else io_error io)
  else None.

(** eio_async_io, lines 1039-1092: the value returned and what the
    tracker is made to do, the callback among it.  After a failed
    dispatch the tracker is released once the count is back to 1. *)
Definition eio_async_io (notify context : Z) (ret : Z) (tr : list io_step)
  : option (Z * list io_signal) :=
  let '(io, sigs) := io_run (async_context notify context) tr in
  if negb (ret =? 0) then
    if io_count io =? 1 then Some (ret, sigs ++ [sig_mempool_free]) else None
  else Some (ret, sigs).

(** The transfers in flight after a trace of issues and ends that
    started with [n] in flight; None if a transfer ends that was not
    issued, or if the dispatcher drops its reference, which it does not
    do after a failed dispatch. *)
Fixpoint in_flight (n : nat) (tr : list io_step) : option nat :=
  match tr with
  | [] => Some n
  | step_issue :: tr' => in_flight (S n) tr'
  | step_endio _ :: tr' =>
      match n with
      | O => None
      | S n' => in_flight n' tr'
      end
  | step_drop :: _ => None
  end.

(** Completion of the sub-I/Os of a split, in the order they end: each
    is a call of eio_split_endio on the shared container. *)
Section SplitCompletion.
Context {hdr : EioHeader} {ext : Collaborators}.

Fixpoint split_complete (p : Z) (bc : bio_container) (ends : list (bio * Z))
  : bio_container * list event :=
  match ends with
  | [] => (bc, [])
  | (cbio, error) :: rest =>
      let '(bc1, evs) := eio_split_endio p bc cbio error in
      let '(bc2, evs') := split_complete p bc1 rest in
      (bc2, evs ++ evs')
  end.

End SplitCompletion.

(** The errors the events complete an I/O with (every [ev_bio_endio]). *)
Fixpoint endio_events (evs : list event) : list (bio * Z) :=
  match evs with
  | [] => []
  | ev_bio_endio b err :: rest => (b, err) :: endio_events rest
  | _ :: rest => endio_events rest
  end.

(** ** The edit path, lines 1272-1517 *)

Section Edit.
Context {hdr : EioHeader} {ext : Collaborators}.

(** eio_mode_switch, lines 1441-1475. *)
Definition eio_mode_switch (d : cache_c) (new_mode : Z) : Z * cache_c :=
  if new_mode =? CACHE_MODE_WB then
    let orig_mode := mode d in
    let '(error, d1) := eio_allocate_wb_resources (set_mode new_mode d) in
    if negb (error =? 0) then (error, set_mode orig_mode d1) else (error, d1)
  else if mode d =? CACHE_MODE_WB then
    (0, set_mode new_mode (eio_free_wb_resources d))
  else (0, set_mode new_mode d).

(** The label [out] of eio_policy_switch, lines 1512-1516. *)
Definition policy_switch_out (old_policy_ops : Z) (error : Z) (d : cache_c)
  : Z * cache_c * list event :=
  if negb (policy_ops d =? old_policy_ops)
  then (error, set_policy_ops old_policy_ops (eio_policy_free d),
        [ev_policy_free (policy_ops d)])
  else (error, set_policy_ops old_policy_ops d, []).

(** eio_policy_switch, lines 1482-1517. *)
Definition eio_policy_switch (d : cache_c) (policy : Z) : Z * cache_c * list event :=
  let old_policy_ops := policy_ops d in
  let '(error, d1) := eio_policy_init d in
  if negb (error =? 0) then policy_switch_out old_policy_ops error d1
  else if negb (eio_repl_blk_init (policy_ops d1) =? 0)
  then policy_switch_out old_policy_ops (- ENOMEM) d1
  else if negb (eio_repl_sets_init (policy_ops d1) =? 0)
  then policy_switch_out old_policy_ops (- ENOMEM) d1
  else (0, set_req_policy policy d1, [ev_policy_lru_pushblks (policy_ops d1)]).

(** The label [out] of eio_cache_edit, lines 1402-1438. *)
Definition edit_out (st : ttc_state) (a : Z) (old_time_thresh : Z)
  (restart_async_task : bool) (error : Z) (evs : list event)
  : Z * ttc_state * list event :=
  let d1 := set_time_based_clean_interval old_time_thresh (caches st a) in
  let d2 :=
    set_do_clean
      (Z.land (sysctl_do_clean d1) (Z.lnot (Z.lor EIO_CLEAN_START EIO_CLEAN_KEEP)))
      d1 in
  let '(error1, d3, evs1) :=
    if (mode d2 =? CACHE_MODE_WB) && restart_async_task then
      let '(ret, d') := eio_start_clean_thread d2 in
      let error' := if negb (ret =? 0) then ret else error in
      if negb (sysctl_time_based_clean_interval d' =? 0) && negb (nr_dirty d' =? 0)
      then (error', set_is_clean_aged_sets_sched 1 d',
            [ev_schedule_delayed_work a
               (sysctl_time_based_clean_interval d' * 60 * HZ)])
      else (error', d', [])
    else (error, d2, []) in
  let d4 :=
    set_cache_flags (Z.land (cache_flags d3) (Z.lnot CACHE_FLAGS_MOD_INPROG)) d3 in
  (error1, set_cache a d4 st, evs ++ evs1 ++ [ev_spin_lock a; ev_spin_unlock a]).

(** Lines 1356-1400: under the write lock of the shard. *)
Definition edit_locked (fuel : nat) (st : ttc_state) (a : Z)
  (new_mode policy : Z) (old_time_thresh : Z) (restart_async_task : bool)
  (evs : list event) : option (Z * ttc_state * list event) :=
  match disk_dev (caches st a), wait_nr_ios fuel (caches st a) with
  | None, _ => None
  | _, None => None
  | Some bdev, Some d0 =>
      let index := EIO_HASH_BDEV (bd_contains bdev) in
      let '(error1, d1, evs1) :=
        if negb (policy =? 0) && negb (policy =? req_policy d0)
        then eio_policy_switch d0 policy else (0, d0, []) in
      if negb (error1 =? 0) then
        Some (edit_out (set_cache a d1 st) a old_time_thresh restart_async_task
                error1 (evs ++ [ev_down_write index] ++ evs1 ++ [ev_up_write index]))
      else
        let '(error2, d2) :=
          if negb (new_mode =? 0) && negb (new_mode =? mode d1)
          then eio_mode_switch d1 new_mode else (0, d1) in
        if negb (error2 =? 0) then
          Some (edit_out (set_cache a d2 st) a old_time_thresh restart_async_task
                  error2 (evs ++ [ev_down_write index] ++ evs1 ++ [ev_up_write index]))
        else
          let d3 := set_time_based_clean_interval old_time_thresh d2 in
          let error3 := eio_sb_store d3 in
          if negb (error3 =? 0) then
            Some (edit_out (set_cache a d3 st) a old_time_thresh restart_async_task
                    error3 (evs ++ [ev_down_write index] ++ evs1))
          else
            Some (edit_out (set_cache a d3 st) a old_time_thresh restart_async_task
                    error3
                    (evs ++ [ev_down_write index] ++ evs1
                       ++ [ev_procfs_dtr a; ev_procfs_ctr a; ev_up_write index]))
  end.

(** eio_cache_edit, lines 1272-1439. *)
Definition eio_cache_edit (fuel : nat) (st : ttc_state) (name : string)
  (new_mode policy : Z) : option (Z * ttc_state * list event) :=
  let '(found, evs0) := eio_cache_lookup st name in
  match found with
  | None => Some (- EINVAL, st, evs0)
  | Some a =>
      let dmc := caches st a in
      if (mode dmc =? new_mode) && (req_policy dmc =? policy) then Some (0, st, evs0)
      else if CACHE_FAILED_IS_SET dmc || CACHE_DEGRADED_IS_SET dmc
      then Some (- EINVAL, st, evs0)
      else if flag_set (cache_flags dmc) CACHE_FLAGS_SHUTDOWN_INPROG
      then Some (- EINVAL, st, evs0 ++ [ev_spin_lock a; ev_spin_unlock a])
      else if flag_set (cache_flags dmc) CACHE_FLAGS_MOD_INPROG
      then Some (- EINVAL, st, evs0 ++ [ev_spin_lock a; ev_spin_unlock a])
      else
        let d1 :=
          set_cache_flags (Z.lor (cache_flags dmc) CACHE_FLAGS_MOD_INPROG) dmc in
        let evs1 := evs0 ++ [ev_spin_lock a; ev_spin_unlock a] in
        let old_time_thresh := sysctl_time_based_clean_interval d1 in
        if (mode d1 =? CACHE_MODE_WB) && CACHE_FAILED_IS_SET d1 then
          Some (edit_out (set_cache a d1 st) a old_time_thresh false (- EINVAL) evs1)
        else
          let restart_async_task := mode d1 =? CACHE_MODE_WB in
          let d2 := if restart_async_task then eio_stop_async_tasks d1 else d1 in
          let st2 := set_cache a d2 st in
          if (mode d2 =? CACHE_MODE_WB) && negb (new_mode =? CACHE_MODE_WB) then
            if CACHE_FAILED_IS_SET d2 then
              Some (edit_out st2 a old_time_thresh restart_async_task
                      (- EINVAL) evs1)
            else
              match eio_finish_nrdirty fuel st2 a with
              | None => None
              | Some (error, st3, evs2) =>
                  if negb (error =? 0) then
                    Some (edit_out st3 a old_time_thresh restart_async_task
                            error (evs1 ++ evs2))
                  else
                    edit_locked fuel st3 a new_mode policy
                      old_time_thresh restart_async_task (evs1 ++ evs2)
              end
          else
            edit_locked fuel st2 a new_mode policy old_time_thresh
              restart_async_task evs1
  end.

End Edit.

(** ** Vocabulary of the properties *)

(** Events that create or hand on I/O. *)
Definition creates_or_submits (e : event) : bool :=
  match e with
  | ev_eio_map _ _ => true
  | ev_make_request _ _ => true
  | ev_new_container _ _ => true
  | _ => false
  end.

(** The locks a sequence of events leaves held. *)
Inductive lock :=
| shard_lock (index : nat)
| cache_spin_lock (dmc : Z).

Definition lock_eqb (x y : lock) : bool :=
  match x, y with
  | shard_lock i, shard_lock j => Nat.eqb i j
  | cache_spin_lock a, cache_spin_lock b => a =? b
  | _, _ => false
  end.

Fixpoint release (x : lock) (held : list lock) : list lock :=
  match held with
  | [] => []
  | y :: rest => if lock_eqb x y then rest else y :: release x rest
  end.

Fixpoint held_locks (held : list lock) (evs : list event) : list lock :=
  match evs with
  | [] => held
  | ev_down_read i :: rest => held_locks (shard_lock i :: held) rest
  | ev_down_write i :: rest => held_locks (shard_lock i :: held) rest
  | ev_up_read i :: rest => held_locks (release (shard_lock i) held) rest
  | ev_up_write i :: rest => held_locks (release (shard_lock i) held) rest
  | ev_spin_lock a :: rest => held_locks (cache_spin_lock a :: held) rest
  | ev_spin_unlock a :: rest => held_locks (release (cache_spin_lock a) held) rest
  | _ :: rest => held_locks held rest
  end.

Section SplitVocabulary.
Context {hdr : EioHeader}.

(** The size of a sub-I/O, [1 << SECTOR_SHIFT] as an unsigned. *)
Definition split_iosize : Z := u32 (Z.shiftl 1 SECTOR_SHIFT).

(** A sub-I/O of [b] for the sector [snum], held by the container at [bc]. *)
Definition is_sub_io (b : bio) (bc : Z) (snum : Z) (c : bio) : Prop :=
  bi_bdev c = bi_bdev b
  /\ bi_sector c = snum
  /\ bi_size c = split_iosize
  /\ bi_op c = bi_op b
  /\ bi_op_flags c = bi_op_flags b
  /\ bi_end_io c = end_io_split
  /\ bi_private c = bc
  /\ bi_vcnt c = 1%nat.

End SplitVocabulary.

(** An entry point a binding may have saved: a driver's own. *)
Definition driver_mfn (f : make_request_fn_t) : Prop :=
  f <> mfn_null /\ f <> mfn_eio.

(** The bindings of the disk of [b] on the list [l] are partitions with
    pairwise disjoint sector ranges. *)
Definition disjoint_partitions (st : ttc_state) (b : bio) (l : list Z) : Prop :=
  (forall a, In a l -> same_disk (caches st a) (bi_bdev b) = true ->
             is_whole_disk (dev_info (caches st a)) = false)
  /\ (forall a a', In a l -> In a' l ->
        same_disk (caches st a) (bi_bdev b) = true ->
        same_disk (caches st a') (bi_bdev b) = true ->
        a <> a' ->
        dev_end_sect (caches st a) < dev_start_sect (caches st a')
        \/ dev_end_sect (caches st a') < dev_start_sect (caches st a)).

(** What activation and deactivation read of a binding. *)
Definition placement (d : cache_c)
  : option block_device * dev_info_t * make_request_fn_t :=
  (disk_dev d, dev_info d, origmfn d).

Inductive ttc_op :=
| op_activate (a : Z)
| op_deactivate (a : Z) (force : Z) (fuel : nat).

Section EntryPointVocabulary.
Context {hdr : EioHeader} {ext : Collaborators}.

(** The disk [D], its queue [Q] and the entry point [orig] the driver of
    the disk installed. *)
Variables (D Q : Z) (orig : make_request_fn_t).

Definition on_disk (d : cache_c) : bool :=
  match disk_dev d with
  | Some b => bd_contains b =? D
  | None => false
  end.

(** The binding at [a] is in the registry, for the disk [D]. *)
Definition bound (st : ttc_state) (a : Z) : Prop :=
  In a (eio_ttc_list st (EIO_HASH_BDEV D)) /\ on_disk (caches st a) = true.

(** The structure at [a] is for a device of the disk [D]. *)
Definition for_disk (st : ttc_state) (a : Z) : Prop :=
  exists bdev,
    disk_dev (caches st a) = Some bdev /\ bd_contains bdev = D /\ bd_queue bdev = Q.

(** One operation on a binding of the disk: the activation of a
    structure that is not linked, or a deactivation, which returns, of
    one that is. *)
Inductive ttc_step : ttc_state -> ttc_op -> ttc_state -> Prop :=
| step_activate (st : ttc_state) (a : Z) :
    for_disk st a ->
    ~ In a (eio_ttc_list st (EIO_HASH_BDEV D)) ->
    ttc_step st (op_activate a) (snd (fst (eio_ttc_activate st a)))
| step_deactivate (st : ttc_state) (a force : Z) (fuel : nat)
    (ret : Z) (st' : ttc_state) (evs : list event) :
    for_disk st a ->
    In a (eio_ttc_list st (EIO_HASH_BDEV D)) ->
    eio_ttc_deactivate fuel st a force = Some (ret, st', evs) ->
    ttc_step st (op_deactivate a force fuel) st'.

Inductive ttc_run : ttc_state -> list ttc_op -> ttc_state -> Prop :=
| run_nil (st : ttc_state) : ttc_run st [] st
| run_cons (st st1 st2 : ttc_state) (op : ttc_op) (ops : list ttc_op) :
    ttc_step st op st1 -> ttc_run st1 ops st2 -> ttc_run st (op :: ops) st2.

(** While a binding of the disk is linked the queue has the
    interception function, every binding of the disk has saved [orig],
    and a whole-disk binding is the only one; with none linked the
    queue has [orig]. *)
Definition entry_point_inv (st : ttc_state) : Prop :=
  (forall a, bound st a ->
     rq_make_request_fn st Q = mfn_eio
     /\ origmfn (caches st a) = orig
     /\ (is_whole_disk (dev_info (caches st a)) = true ->
         forall a', bound st a' -> a' = a))
  /\ ((forall a, ~ bound st a) -> rq_make_request_fn st Q = orig).

(** Two states that activation and deactivation cannot tell apart. *)
Definition same_view (st st' : ttc_state) : Prop :=
  (forall x, placement (caches st' x) = placement (caches st x))
  /\ eio_ttc_list st' = eio_ttc_list st
  /\ rq_make_request_fn st' = rq_make_request_fn st.

End EntryPointVocabulary.

(** The state a deactivation leaves. *)
Definition deactivate_on (h : EioHeader) (c : Collaborators) (fuel : nat)
  (a force : Z) (st : ttc_state) : ttc_state :=
  match @eio_ttc_deactivate h c fuel st a force with
  | Some (_, st', _) => st'
  | None => st
  end.

(** What a deactivation returned: the value, the list of shard 0, the
    entry point of the queue of sda and the dirty count of A. *)
Definition deactivation_summary (r : option (Z * ttc_state * list event))
  : option (Z * list Z * make_request_fn_t * Z) :=
  match r with
  | None => None
  | Some (ret, st', _) =>
      Some (ret, eio_ttc_list st' 0%nat, rq_make_request_fn st' 500,
            nr_dirty (caches st' 1000))
  end.

(** ** A concrete configuration

    Values for the macros, in the manner of a Linux build of the driver,
    collaborators that succeed or fail on demand, and a disk with two
    partitions; the examples below are evaluated on them. *)

Definition sample_header : EioHeader :=
  {| EIO_HASHTBL_SIZE := 4%nat;
     EIO_HASH_BDEV := fun dev => Z.to_nat (dev mod 4);
     SECTOR_SHIFT := 9;
     eio_to_sector := fun n => Z.shiftr n 9;
     HZ := 250;
     WRITE_FLUSH := 1;
     CACHE_MODE_WB := 1;
     CACHE_FLAGS_FAILED := 16;
     CACHE_FLAGS_DEGRADED := 32;
     CACHE_FLAGS_SHUTDOWN_INPROG := 64;
     CACHE_FLAGS_MOD_INPROG := 128;
     EIO_CLEAN_START := 1;
     EIO_CLEAN_KEEP := 2;
     FINISH_NRDIRTY_RETRY_COUNT := 2 |}.

Definition set_nr_ios (n : Z) (d : cache_c) : cache_c :=
  {| cache_name := cache_name d; disk_dev := disk_dev d; dev_info := dev_info d;
     dev_start_sect := dev_start_sect d; dev_end_sect := dev_end_sect d;
     origmfn := origmfn d;
     mode := mode d; req_policy := req_policy d; policy_ops := policy_ops d;
     cache_flags := cache_flags d; nr_ios := n; nr_dirty := nr_dirty d;
     sysctl_do_clean := sysctl_do_clean d;
     sysctl_fast_remove := sysctl_fast_remove d;
     sysctl_time_based_clean_interval := sysctl_time_based_clean_interval d;
     clean_thread := clean_thread d;
     is_clean_aged_sets_sched := is_clean_aged_sets_sched d |}.

Definition set_nr_dirty (n : Z) (d : cache_c) : cache_c :=
  {| cache_name := cache_name d; disk_dev := disk_dev d; dev_info := dev_info d;
     dev_start_sect := dev_start_sect d; dev_end_sect := dev_end_sect d;
     origmfn := origmfn d;
     mode := mode d; req_policy := req_policy d; policy_ops := policy_ops d;
     cache_flags := cache_flags d; nr_ios := nr_ios d; nr_dirty := n;
     sysctl_do_clean := sysctl_do_clean d;
     sysctl_fast_remove := sysctl_fast_remove d;
     sysctl_time_based_clean_interval := sysctl_time_based_clean_interval d;
     clean_thread := clean_thread d;
     is_clean_aged_sets_sched := is_clean_aged_sets_sched d |}.

(** Collaborators: [eio_map] returns [map_ret] and leaves the bio as it
    is, a sleep lets one I/O in flight end, the cleaner writes
    [clean_step] dirty blocks back per call, [eio_policy_init] installs
    the structure at [new_ops] and returns [init_ret], and the two
    allocations of the policy engine return [blk_ret] and [sets_ret]. *)
Definition sample_collaborators (map_ret clean_step init_ret new_ops blk_ret sets_ret : Z)
  : Collaborators :=
  {| eio_map := fun _ b => (map_ret, b);
     schedule_timeout := fun d => set_nr_ios (Z.max 0 (nr_ios d - 1)) d;
     eio_clean_all := fun d => set_nr_dirty (Z.max 0 (nr_dirty d - clean_step)) d;
     eio_stop_async_tasks := fun d => d;
     eio_start_clean_thread := fun d => (0, d);
     eio_allocate_wb_resources := fun d => (0, d);
     eio_free_wb_resources := fun d => d;
     eio_policy_init := fun d => (init_ret, set_policy_ops new_ops d);
     eio_repl_blk_init := fun _ => blk_ret;
     eio_repl_sets_init := fun _ => sets_ret;
     eio_policy_free := fun d => d;
     eio_sb_store := fun _ => 0;
     kmalloc_bioptr := fun _ => 4096;
     kmalloc_bio_container := fun _ => 8192;
     bio_alloc_split := fun _ _ => true |}.

Definition quiet : Collaborators := sample_collaborators 0 1 0 700 0 0.

(** The disk sda (device number 2048, queue at 500) and its partitions
    sda1 = [100, 199] and sda2 = [300, 399]. *)
Definition sda : block_device :=
  {| bd_dev := 2048; bd_contains := 2048; bd_queue := 500;
     bd_part_start_sect := 0; bd_part_nr_sects := 1000 |}.

Definition sda1 : block_device :=
  {| bd_dev := 2049; bd_contains := 2048; bd_queue := 500;
     bd_part_start_sect := 100; bd_part_nr_sects := 100 |}.

Definition sda2 : block_device :=
  {| bd_dev := 2050; bd_contains := 2048; bd_queue := 500;
     bd_part_start_sect := 300; bd_part_nr_sects := 100 |}.

(** A structure as the creation path hands it to activation. *)
Definition fresh_cache (name : string) (bdev : block_device) (m : Z) : cache_c :=
  {| cache_name := name; disk_dev := Some bdev; dev_info := EIO_DEV_UNSET;
     dev_start_sect := 0; dev_end_sect := 0; origmfn := mfn_null;
     mode := m; req_policy := 1; policy_ops := 600;
     cache_flags := 0; nr_ios := 0; nr_dirty := 0;
     sysctl_do_clean := 0; sysctl_fast_remove := 0;
     sysctl_time_based_clean_interval := 0;
     clean_thread := 0; is_clean_aged_sets_sched := 0 |}.

(** No binding anywhere; the structures A, B, C and W wait at the
    addresses 1000, 2000, 3000 and 4000 for sda1, sda2, sda2 again and
    the whole disk; the queue of sda has the driver's entry point 7. *)
Definition st_empty : ttc_state :=
  {| caches := fun a =>
       if a =? 1000 then fresh_cache "A" sda1 3
       else if a =? 2000 then fresh_cache "B" sda2 3
       else if a =? 3000 then fresh_cache "C" sda2 3
       else fresh_cache "W" sda 3;
     eio_ttc_list := fun _ => [];
     rq_make_request_fn := fun _ => mfn_driver 7 |}.

Definition activate_on (h : EioHeader) (c : Collaborators) (a : Z) (st : ttc_state)
  : ttc_state :=
  snd (fst (@eio_ttc_activate h st a)).

(** A activated, then B. *)
Definition st_A : ttc_state := activate_on sample_header quiet 1000 st_empty.
Definition st_AB : ttc_state := activate_on sample_header quiet 2000 st_A.

(** A read of [n] sectors at [sector] of sda. *)
Definition read_at (sector n : Z) : bio :=
  {| bi_bdev := sda; bi_sector := sector; bi_size := n * 512;
     bi_op := REQ_OP_READ; bi_op_flags := 0;
     bi_io_vec := [ {| bv_page := 1; bv_offset := 0; bv_len := n * 512 |} ];
     bi_idx := 0%nat; bi_vcnt := 1%nat;
     bi_end_io := end_io_caller 1; bi_private := 0 |}.

Definition discard_at (sector n : Z) : bio :=
  {| bi_bdev := sda; bi_sector := sector; bi_size := n * 512;
     bi_op := REQ_OP_DISCARD; bi_op_flags := 0;
     bi_io_vec := []; bi_idx := 0%nat; bi_vcnt := 0%nat;
     bi_end_io := end_io_caller 1; bi_private := 0 |}.

(** A with an edit in progress. *)
Definition st_A_busy : ttc_state :=
  set_cache 1000 (set_cache_flags 128 (caches st_A 1000)) st_A.

(** The sub-I/O of a read on sda for the sector [sector], [offset]
    bytes into the page of the read, held by the container at 8192. *)
Definition sub_read (sector offset : Z) : bio :=
  {| bi_bdev := sda; bi_sector := sector; bi_size := 512;
     bi_op := REQ_OP_READ; bi_op_flags := 0;
     bi_io_vec := [ {| bv_page := 1; bv_offset := offset; bv_len := 512 |} ];
     bi_idx := 0%nat; bi_vcnt := 1%nat;
     bi_end_io := end_io_split; bi_private := 8192 |}.

(** A as a write-back binding with five dirty blocks: healthy, marked
    failed, and with a shutdown in progress. *)
Definition st_A_dirty : ttc_state :=
  set_cache 1000 (set_nr_dirty 5 (set_mode 1 (caches st_A 1000))) st_A.


Definition st_A_shutdown : ttc_state :=
  set_cache 1000 (set_cache_flags 64 (caches st_A_dirty 1000)) st_A_dirty.

(** A and B activated, then A deactivated gracefully. *)
Definition st_B : ttc_state := deactivate_on sample_header quiet 3 1000 0 st_AB.

(** ** The rest of the registry interface *)

Definition EEXIST : Z := 17.

Section RegistryQueries.
Context {hdr : EioHeader}.

(** eio_ttc_init, lines 336-344: every list head of the table is made
    empty. *)
Definition eio_ttc_init (st : ttc_state) : ttc_state :=
  {| caches := caches st;
     eio_ttc_list :=
       fun i => if Nat.ltb i EIO_HASHTBL_SIZE then [] else eio_ttc_list st i;
     rq_make_request_fn := rq_make_request_fn st |}.

(** eio_get_cache_count, lines 481-495: [cnt++] in a [uint64_t] for every
    entry of every list, each list under its read lock. *)
Fixpoint count_list (l : list Z) (cnt : Z) : Z :=
  match l with
  | [] => cnt
  | _ :: l' => count_list l' (u64 (cnt + 1))
  end.

Fixpoint count_shards (st : ttc_state) (shards : list nat) (cnt : Z)
  : Z * list event :=
  match shards with
  | [] => (cnt, [])
  | i :: rest =>
      let '(c, evs) := count_shards st rest (count_list (eio_ttc_list st i) cnt) in
      (c, ev_down_read i :: ev_up_read i :: evs)
  end.

Definition eio_get_cache_count (st : ttc_state) : Z * list event :=
  count_shards st (seq 0 EIO_HASHTBL_SIZE) 0.

(** The loop of lines 608-617: unlike the loop of activation it goes on
    past a structure of the same disk that is no conflict. *)
Fixpoint preliminary_scan (st : ttc_state) (bdev : block_device) (wholedisk : bool)
  (l : list Z) : bool :=
  match l with
  | [] => false
  | a1 :: l' =>
      let dmc1 := caches st a1 in
      if negb (same_disk dmc1 bdev) then preliminary_scan st bdev wholedisk l'
      else if wholedisk || is_whole_disk (dev_info dmc1) || same_bdev dmc1 bdev
      then true
      else preliminary_scan st bdev wholedisk l'
  end.

(** eio_do_preliminary_checks, lines 575-620.  [ssd_bdev] is
    [dmc->cache_dev->bdev], which [cache_c] above does not carry; None is
    the dereference of a NULL source device. *)
Definition eio_do_preliminary_checks (st : ttc_state) (a : Z)
  (ssd_bdev : block_device) : option (Z * list event) :=
  let dmc := caches st a in
  match disk_dev dmc with
  | None => None
  | Some bdev =>
      if bd_contains bdev =? bd_contains ssd_bdev then Some (- EINVAL, [])
      else
        let '(found, evs) := eio_cache_lookup st (cache_name dmc) in
        match found with
        | Some _ => Some (- EEXIST, evs)
        | None =>
            let wholedisk := bd_dev bdev =? bd_contains bdev in
            let index := EIO_HASH_BDEV (bd_contains bdev) in
            let error :=
              if preliminary_scan st bdev wholedisk (eio_ttc_list st index)
              then - EINVAL else 0 in
            Some (error, evs ++ [ev_down_read index; ev_up_read index])
        end
  end.

(** The structures the table links, in the order eio_cache_lookup and
    eio_get_cache_count visit them. *)
Definition linked (st : ttc_state) : list Z :=
  flat_map (eio_ttc_list st) (seq 0 EIO_HASHTBL_SIZE).

End RegistryQueries.

(** ** Pages for write-back and metadata I/O, lines 1519-1735 *)

(** Macros of eio.h and of the kernel that the page helpers use, and the
    one allocation of theirs that is not a page: the address kzalloc
    returns for a request of [n] bytes, 0 for NULL. *)
Class PageHeader := {
  PAGE_SIZE : Z;
  to_bytes : Z -> Z;
  BLKSIZE_2K : Z;
  BLKSIZE_4K : Z;
  BLKSIZE_8K : Z;
  MD_MAX_NR_PAGES : Z;
  sizeof_bio_vec : Z;
  kzalloc : Z -> Z
}.

(** What the helpers do to the page allocator and to the heap. *)
Inductive page_event :=
| pg_alloc (page : Z)          (* alloc_page() returned this page *)
| pg_alloc_failed              (* alloc_page() returned NULL *)
| pg_put (page : Z)            (* put_page(page) *)
| pg_kzalloc (size : Z) (p : Z)
| pg_kfree (p : Z).

(** alloc_page: the pool lists what the coming calls return, 0 for a
    failure; a pool that is used up fails. *)
Definition alloc_page (pool : list Z) : Z * list Z :=
  match pool with
  | [] => (0, [])
  | page :: rest => (page, rest)
  end.

(** The assignment [l[i] = v]; an index past the end is not written. *)
Fixpoint set_nth {A : Type} (i : nat) (v : A) (l : list A) : list A :=
  match l, i with
  | [], _ => []
  | _ :: t, O => v :: t
  | h :: t, S i' => h :: set_nth i' v t
  end.

Definition set_bv_page (page : Z) (v : bio_vec) : bio_vec :=
  {| bv_page := page; bv_offset := bv_offset v; bv_len := bv_len v |}.

Definition s32 (x : Z) : Z := (x + 2 ^ 31) mod 2 ^ 32 - 2 ^ 31.

(** The loops below walk an array from the index [i] on: the list is
    the array from that index, [n] the number of passes left.  The
    arrays of the callers are as long as the counts they pass; on a
    shorter one the walk ends with the array. *)

Section Pages.
Context {pg : PageHeader}.

(** eio_free_wb_pages, lines 1519-1530: [put_page(pages[--allocated])]
    down to index 0, then [*pages = NULL]. *)
Fixpoint put_pages_down (pages : list Z) (allocated : nat) : list page_event :=
  match allocated with
  | O => []
  | S n => pg_put (nth n pages 0) :: put_pages_down pages n
  end.

Definition eio_free_wb_pages (pages : list Z) (allocated : Z)
  : list Z * list page_event :=
  if allocated <=? 0 then (pages, [])
  else (set_nth 0 0 pages, put_pages_down pages (Z.to_nat allocated)).

(** The loop of eio_alloc_wb_pages, lines 1655-1662; the number is [i]
    as the loop leaves it. *)
Fixpoint alloc_wb_pages_loop (n i : nat) (pages pool : list Z)
  : nat * list Z * list Z * list page_event :=
  match n, pages with
  | S n', _ :: rest =>
      let '(page, pool1) := alloc_page pool in
      if page =? 0 then (i, pages, pool1, [pg_alloc_failed])
      else
        let '(i', rest', pool', evs) := alloc_wb_pages_loop n' (S i) rest pool1 in
        (i', page :: rest', pool', pg_alloc page :: evs)
  | _, _ => ((i + n)%nat, pages, pool, [])
  end.

(** eio_alloc_wb_pages, lines 1650-1673: the value returned, the array,
    the pool and the events. *)
Definition eio_alloc_wb_pages (pages : list Z) (max : Z) (pool : list Z)
  : Z * list Z * list Z * list page_event :=
  let '(i, pages1, pool1, evs) := alloc_wb_pages_loop (Z.to_nat max) 0 pages pool in
  if negb (Z.of_nat i =? max) then
    let '(pages2, evs2) :=
      if 0 <? Z.of_nat i then eio_free_wb_pages pages1 (Z.of_nat i)
      else (pages1, []) in
    (- ENOMEM, pages2, pool1, evs ++ evs2)
  else (0, pages1, pool1, evs).

(** One pass of the loop of eio_free_wb_bvecs, lines 1539-1568, on
    [bvec[i]]. *)
Definition free_wb_bvec (blksize : Z) (i : nat) (v : bio_vec)
  : bio_vec * list page_event :=
  if blksize =? BLKSIZE_2K then
    if Nat.even i && negb (bv_page v =? 0)
    then (set_bv_page 0 v, [pg_put (bv_page v)])
    else if Nat.odd i then (set_bv_page 0 v, [])
    else (v, [])
  else if (blksize =? BLKSIZE_4K) || (blksize =? BLKSIZE_8K) then
    if negb (bv_page v =? 0)
    then (set_bv_page 0 v, [pg_put (bv_page v)])
    else (v, [])
  else (v, []).

Fixpoint free_wb_bvecs_loop (blksize : Z) (n i : nat) (bvec : list bio_vec)
  : list bio_vec * list page_event :=
  match n, bvec with
  | S n', v :: rest =>
      let '(v', evs) := free_wb_bvec blksize i v in
      let '(rest', evs') := free_wb_bvecs_loop blksize n' (S i) rest in
      (v' :: rest', evs ++ evs')
  | _, _ => (bvec, [])
  end.

(** eio_free_wb_bvecs, lines 1532-1569. *)
Definition eio_free_wb_bvecs (bvec : list bio_vec) (allocated : Z) (blksize : Z)
  : list bio_vec * list page_event :=
  if allocated <=? 0 then (bvec, [])
  else free_wb_bvecs_loop blksize (Z.to_nat allocated) 0 bvec.

(** The loop of eio_alloc_wb_bvecs, lines 1587-1635, with the local
    [page]; the flag says whether the loop was left by [goto err], and
    the number is [i] at that point. *)
Fixpoint alloc_wb_bvecs_loop (blksize : Z) (n i : nat) (page : Z)
  (bvec : list bio_vec) (pool : list Z)
  : bool * nat * list bio_vec * list Z * list page_event :=
  match n, bvec with
  | S n', v0 :: rest =>
      if blksize =? BLKSIZE_2K then
        if Nat.even i then
          let '(page1, pool1) := alloc_page pool in
          if page1 =? 0 then (true, i, bvec, pool1, [pg_alloc_failed])
          else
            let v := {| bv_page := page1; bv_offset := 0;
                        bv_len := u32 (to_bytes blksize) |} in
            let '(err, i', rest', pool', evs) :=
              alloc_wb_bvecs_loop blksize n' (S i) page1 rest pool1 in
            (err, i', v :: rest', pool', pg_alloc page1 :: evs)
        else
          let v := {| bv_page := page;
                      bv_offset := u32 (PAGE_SIZE - to_bytes blksize);
                      bv_len := u32 (to_bytes blksize) |} in
          let '(err, i', rest', pool', evs) :=
            alloc_wb_bvecs_loop blksize n' (S i) 0 rest pool in
          (err, i', v :: rest', pool', evs)
      else if (blksize =? BLKSIZE_4K) || (blksize =? BLKSIZE_8K) then
        let '(page1, pool1) := alloc_page pool in
        if page1 =? 0 then (true, i, bvec, pool1, [pg_alloc_failed])
        else
          let v := {| bv_page := page1; bv_offset := 0; bv_len := u32 PAGE_SIZE |} in
          let '(err, i', rest', pool', evs) :=
            alloc_wb_bvecs_loop blksize n' (S i) 0 rest pool1 in
          (err, i', v :: rest', pool', pg_alloc page1 :: evs)
      else
        let '(err, i', rest', pool', evs) :=
          alloc_wb_bvecs_loop blksize n' (S i) page rest pool in
        (err, i', v0 :: rest', pool', evs)
  | _, _ => (false, (i + n)%nat, bvec, pool, [])
  end.

(** eio_alloc_wb_bvecs, lines 1577-1648. *)
Definition eio_alloc_wb_bvecs (bvec : list bio_vec) (max : Z) (blksize : Z)
  (pool : list Z) : Z * list bio_vec * list Z * list page_event :=
  let '(err, i, bvec1, pool1, evs) :=
    alloc_wb_bvecs_loop blksize (Z.to_nat max) 0 0 bvec pool in
  if err && negb (Z.of_nat i =? max) then
    let '(bvec2, evs2) :=
      if 0 <? Z.of_nat i then eio_free_wb_bvecs bvec1 (Z.of_nat i) blksize
      else (bvec1, []) in
    (- ENOMEM, bvec2, pool1, evs ++ evs2)
  else (0, bvec1, pool1, evs).

(** The loop of eio_alloc_pages, lines 1709-1719. *)
Fixpoint alloc_pages_loop (n : nat) (pages : list bio_vec) (pcount : Z)
  (pool : list Z) : list bio_vec * Z * list Z * list page_event :=
  match n, pages with
  | S n', v0 :: rest =>
      let '(page, pool1) := alloc_page pool in
      if page =? 0 then (set_bv_page 0 v0 :: rest, pcount, pool1, [pg_alloc_failed])
      else
        let v := {| bv_page := page; bv_offset := 0; bv_len := u32 PAGE_SIZE |} in
        let '(rest', pcount', pool', evs) :=
          alloc_pages_loop n' rest (pcount + 1) pool1 in
        (v :: rest', pcount', pool', pg_alloc page :: evs)
  | _, _ => (pages, pcount, pool, [])
  end.

(** eio_alloc_pages, lines 1690-1735: the array and [*page_count], or
    None for a NULL return; the assertion of line 1730 stops the call
    that got some of the pages and not all. *)
Definition eio_alloc_pages (max_pages : Z) (pool : list Z)
  : checked (option (list bio_vec * Z)) * list Z * list page_event :=
  let nr_pages := s32 (Z.min (u32 max_pages) (u32 MD_MAX_NR_PAGES)) in
  let size := u64 (nr_pages * sizeof_bio_vec) in
  let pages := kzalloc size in
  if pages =? 0 then (passed None, pool, [pg_kzalloc size 0])
  else
    let '(bvecs, pcount, pool1, evs) :=
      alloc_pages_loop (Z.to_nat nr_pages)
        (repeat bio_vec_zero (Z.to_nat nr_pages)) 0 pool in
    if pcount =? 0
    then (passed None, pool1, [pg_kzalloc size pages] ++ evs ++ [pg_kfree pages])
    else if negb (pcount =? nr_pages)
    then (stopped (assert_failed 1730), pool1, [pg_kzalloc size pages] ++ evs)
    else (passed (Some (bvecs, pcount)), pool1, [pg_kzalloc size pages] ++ evs).

(** The pages an array of [bio_vec] holds a reference to, from the
    index [i] on: with 2 KiB blocks the entry at an even index (the one
    at the odd index after it shares its page), with 4 and 8 KiB blocks
    every entry. *)
Fixpoint owned_pages (blksize : Z) (i : nat) (bvec : list bio_vec) : list Z :=
  match bvec with
  | [] => []
  | v :: rest =>
      (if blksize =? BLKSIZE_2K then (if Nat.even i then [bv_page v] else [])
       else if (blksize =? BLKSIZE_4K) || (blksize =? BLKSIZE_8K) then [bv_page v]
       else [])
        ++ owned_pages blksize (S i) rest
  end.

(** The block sizes the helpers know. *)
Definition known_blksize (blksize : Z) : bool :=
  (blksize =? BLKSIZE_2K) || (blksize =? BLKSIZE_4K) || (blksize =? BLKSIZE_8K).

(** The two entries that share the page [page] with 2 KiB blocks, and
    the entry of a page with 4 or 8 KiB blocks. *)
Definition shared_pair (blksize : Z) (page : Z) : list bio_vec :=
  [ {| bv_page := page; bv_offset := 0; bv_len := u32 (to_bytes blksize) |};
    {| bv_page := page; bv_offset := u32 (PAGE_SIZE - to_bytes blksize);
       bv_len := u32 (to_bytes blksize) |} ].

Definition whole_page (page : Z) : bio_vec :=
  {| bv_page := page; bv_offset := 0; bv_len := u32 PAGE_SIZE |}.

End Pages.

Definition nonzero (p : Z) : bool := negb (p =? 0).

(** The pages a run of events took from the allocator, and the pages it
    gave back, in order. *)
Fixpoint pages_allocated (evs : list page_event) : list Z :=
  match evs with
  | [] => []
  | pg_alloc page :: rest => page :: pages_allocated rest
  | _ :: rest => pages_allocated rest
  end.

Fixpoint pages_put (evs : list page_event) : list Z :=
  match evs with
  | [] => []
  | pg_put page :: rest => page :: pages_put rest
  | _ :: rest => pages_put rest
  end.

(** A Linux build with 4 KiB pages; block sizes are counted in sectors. *)
Definition sample_pages : PageHeader :=
  {| PAGE_SIZE := 4096;
     to_bytes := fun n => Z.shiftl n 9;
     BLKSIZE_2K := 4;
     BLKSIZE_4K := 8;
     BLKSIZE_8K := 16;
     MD_MAX_NR_PAGES := 16;
     sizeof_bio_vec := 16;
     kzalloc := fun n => 12288 |}.

(** ** Empty flushes, lines 1156-1210 *)

(** The two kinds of device of eio.h. *)
Class DeviceKinds := {
  EIO_HDD_DEVICE : Z;
  EIO_SSD_DEVICE : Z
}.

(** What the flush functions do: what hdd_make_request did, the bio
    handed to submit_bio, the references taken and dropped on the flush,
    and the completion of the original I/O, which the flush knows by its
    address. *)
Inductive flush_event :=
| fl_hdd (e : event)
| fl_submit_bio (b : bio)
| fl_bio_get (b : bio)
| fl_bio_put (b : bio)
| fl_endio_orig (orig_bio : Z) (error : Z).   (* EIO_BIO_ENDIO(orig_bio, error) *)

Section Flush.
Context {dev : DeviceKinds}.

(** eio_bio_end_empty_barrier, lines 1175-1184. *)
Definition eio_bio_end_empty_barrier (b : bio) (error : Z) : list flush_event :=
  (if negb (bi_private b =? 0) then [fl_endio_orig (bi_private b) error] else [])
    ++ [fl_bio_put b].

(** eio_issue_empty_barrier_flush, lines 1186-1210.  [allocated] says
    whether bio_alloc returned a bio.  The flag of the result is false
    when the call did not return: without a bio, line 1197 writes
    through the NULL pointer. *)
Definition eio_issue_empty_barrier_flush (allocated : bool) (bdev : block_device)
  (orig_bio : Z) (device : Z) (origmfn : make_request_fn_t) (op : req_op)
  (op_flags : Z) : list flush_event * bool :=
  if negb allocated then
    (if negb (orig_bio =? 0) then [fl_endio_orig orig_bio (- ENOMEM)] else [], false)
  else
    let b := empty_barrier_bio bdev orig_bio op op_flags in
    ([fl_bio_get b]
       ++ (if device =? EIO_HDD_DEVICE
           then map fl_hdd (hdd_make_request origmfn b)
           else [fl_submit_bio b])
       ++ [fl_bio_put b], true).

(** eio_process_zero_size_bio, lines 1156-1173, for the original I/O at
    the address [origbio]; [ssd_bdev] is [dmc->cache_dev->bdev], and
    [allocated1] and [allocated2] say whether the two bio_alloc
    succeed. *)
Definition eio_process_zero_size_bio (allocated1 allocated2 : bool) (dmc : cache_c)
  (ssd_bdev : block_device) (origbio : Z) (orig : bio)
  : option (list flush_event * bool) :=
  match disk_dev dmc with
  | None => None
  | Some bdev =>
      let op_flags := bi_op_flags orig in
      let op := bi_op orig in
      let '(evs1, returned1) :=
        eio_issue_empty_barrier_flush allocated1 ssd_bdev 0 EIO_SSD_DEVICE
          mfn_null op op_flags in
      if negb returned1 then Some (evs1, false)
      else
        let '(evs2, returned2) :=
          eio_issue_empty_barrier_flush allocated2 bdev origbio EIO_HDD_DEVICE
            (origmfn dmc) op op_flags in
        Some (evs1 ++ evs2, returned2)
  end.

(** The completion of the flushes that were handed on: the block layer
    ends each with an outcome of its own, [error_of], by a call of its
    [bi_end_io]; one that hdd_make_request ended itself is ended with
    the error it was given. *)
Definition flush_ends (error_of : bio -> Z) (e : flush_event) : list flush_event :=
  match e with
  | fl_submit_bio b => eio_bio_end_empty_barrier b (error_of b)
  | fl_hdd (ev_make_request _ b) => eio_bio_end_empty_barrier b (error_of b)
  | fl_hdd (ev_bio_endio b error) => eio_bio_end_empty_barrier b error
  | _ => []
  end.

Definition flush_completions (error_of : bio -> Z) (evs : list flush_event)
  : list flush_event :=
  flat_map (flush_ends error_of) evs.

End Flush.

(** The completions of original I/O among the events, and the bios a
    reference is taken on and dropped from. *)
Fixpoint orig_endios (evs : list flush_event) : list (Z * Z) :=
  match evs with
  | [] => []
  | fl_endio_orig o error :: rest => (o, error) :: orig_endios rest
  | _ :: rest => orig_endios rest
  end.

Fixpoint flush_gets (evs : list flush_event) : list bio :=
  match evs with
  | [] => []
  | fl_bio_get b :: rest => b :: flush_gets rest
  | _ :: rest => flush_gets rest
  end.

Fixpoint flush_puts (evs : list flush_event) : list bio :=
  match evs with
  | [] => []
  | fl_bio_put b :: rest => b :: flush_puts rest
  | _ :: rest => flush_puts rest
  end.

Definition sample_devices : DeviceKinds :=
  {| EIO_HDD_DEVICE := 1; EIO_SSD_DEVICE := 2 |}.

(** The cache device sdb, and a zero-size write with the flush flag. *)
Definition sdb : block_device :=
  {| bd_dev := 2064; bd_contains := 2064; bd_queue := 501;
     bd_part_start_sect := 0; bd_part_nr_sects := 500 |}.

Definition flush_write : bio :=
  {| bi_bdev := sda1; bi_sector := 0; bi_size := 0;
     bi_op := REQ_OP_WRITE; bi_op_flags := 1;
     bi_io_vec := []; bi_idx := 0%nat; bi_vcnt := 0%nat;
     bi_end_io := end_io_caller 1; bi_private := 0 |}.

(** ** Dispatch of a list of pages, lines 657-717 *)

(** What the block layer decides for the dispatcher: the number of
    vectors a bio for the device may hold, and whether bio_add_page
    takes one more page into a bio that bio_alloc made for [nr_vecs]
    vectors. *)
Class BlockLayer := {
  EIO_BIO_GET_NR_VECS : block_device -> Z;
  bio_add_page : Z -> bio -> Z -> Z -> Z -> bool
}.

(** [struct eio_io_region]. *)
Record eio_io_region := {
  rg_bdev : block_device;
  rg_sector : Z;
  rg_count : Z
}.

(** eio_endio as a [bi_end_io]: the completion function of the bios the
    dispatcher builds, a function of this file that [bi_end_io_t] has no
    name for. *)
Definition eio_endio_fn : bi_end_io_t := end_io_caller (-1).

Inductive dispatch_event :=
| dp_bio_alloc (nr_vecs : Z)   (* bio_alloc(GFP_NOIO, nr_vecs) *)
| dp_atomic_inc (io : Z)       (* atomic_inc(&io->count) *)
| dp_hdd (e : event)           (* what hdd_make_request did *)
| dp_submit_bio (b : bio).

(** A bio after bio_add_page took [len] bytes of [page] at [offset]. *)
Definition bio_with_page (b : bio) (page len offset : Z) : bio :=
  {| bi_bdev := bi_bdev b; bi_sector := bi_sector b;
     bi_size := bi_size b + len;
     bi_op := bi_op b; bi_op_flags := bi_op_flags b;
     bi_io_vec := bi_io_vec b
                    ++ [ {| bv_page := page; bv_offset := offset; bv_len := len |} ];
     bi_idx := bi_idx b; bi_vcnt := S (bi_vcnt b);
     bi_end_io := bi_end_io b; bi_private := bi_private b |}.

Section DispatchPages.
Context {hdr : EioHeader} {pg : PageHeader} {blk : BlockLayer}.

(** The inner loop, lines 691-704: the bio, [remaining], [pindex] and
    [remaining_bvecs] as the loop leaves them; None when it has not
    ended within [fuel].  [pagelist] lists the entries of the array of
    the caller: the read of line 692 past its end stops the call. *)
Fixpoint add_pages (fuel : nat) (nr_vecs : Z) (b : bio) (remaining : Z)
  (pindex : nat) (remaining_bvecs : Z) (pagelist : list Z)
  : option (checked (bio * Z * nat * Z)) :=
  if remaining =? 0 then Some (passed (b, remaining, pindex, remaining_bvecs))
  else
    match fuel with
    | O => None
    | S f =>
        match nth_error pagelist pindex with
        | None => Some (stopped (out_of_bounds 692))
        | Some page =>
            let len := Z.min (u64 PAGE_SIZE) (u64 (to_bytes remaining)) in
            if negb (bio_add_page nr_vecs b page len 0)
            then Some (passed (b, remaining, pindex, remaining_bvecs))
            else
              add_pages f nr_vecs (bio_with_page b page len 0)
                (u64 (remaining - eio_to_sector len)) (S pindex)
                (s32 (remaining_bvecs - 1)) pagelist
        end
    end.

(** The do-while loop, lines 673-713: the events of the passes made
    within [fuel], and how the loop ends: None when it has not ended
    within [fuel], [remaining_bvecs] as it leaves it, or where the inner
    loop stopped. *)
Fixpoint dispatch_pages_loop (fuel : nat) (dmc : cache_c) (where_ : eio_io_region)
  (op : req_op) (op_flags : Z) (pagelist : list Z) (io : Z) (hddio : bool)
  (remaining : Z) (pindex : nat) (remaining_bvecs : Z)
  : list dispatch_event * option (checked Z) :=
  match fuel with
  | O => ([], None)
  | S f =>
      let num_bvecs :=
        Z.min (s32 (EIO_BIO_GET_NR_VECS (rg_bdev where_))) remaining_bvecs in
      let sector := u64 (rg_sector where_ + (rg_count where_ - remaining)) in
      let b :=
        {| bi_bdev := rg_bdev where_;
           bi_sector := if hddio then u64 (sector + dev_start_sect dmc) else sector;
           bi_size := 0; bi_op := op; bi_op_flags := op_flags;
           bi_io_vec := []; bi_idx := 0%nat; bi_vcnt := 0%nat;
           bi_end_io := eio_endio_fn; bi_private := io |} in
      match add_pages (S f) num_bvecs b remaining pindex remaining_bvecs pagelist with
      | None => ([dp_bio_alloc num_bvecs], None)
      | Some (stopped s) => ([dp_bio_alloc num_bvecs], Some (stopped s))
      | Some (passed (b', remaining', pindex', remaining_bvecs')) =>
          let evs :=
            [dp_bio_alloc num_bvecs; dp_atomic_inc io]
              ++ (if hddio then map dp_hdd (hdd_make_request (origmfn dmc) b')
                  else [dp_submit_bio b']) in
          if remaining' =? 0 then (evs, Some (passed remaining_bvecs'))
          else
            let '(evs', over) :=
              dispatch_pages_loop f dmc where_ op op_flags pagelist io hddio
                remaining' pindex' remaining_bvecs' in
            (evs ++ evs', over)
      end
  end.

(** eio_dispatch_io_pages, lines 657-717: the events of the call within
    [fuel] passes of the loop, and how it ends: None when it has not
    ended within them, the value returned, or where it stopped, in the
    loop or at the assertion of line 715 on vectors that are left
    over. *)
Definition eio_dispatch_io_pages (fuel : nat) (dmc : cache_c) (where_ : eio_io_region)
  (op : req_op) (op_flags : Z) (pagelist : list Z) (io : Z) (hddio : bool)
  (num_vecs : Z) : list dispatch_event * option (checked Z) :=
  let '(evs, over) :=
    dispatch_pages_loop fuel dmc where_ op op_flags pagelist io hddio
      (rg_count where_) 0 num_vecs in
  (evs,
   match over with
   | None => None
   | Some (stopped s) => Some (stopped s)
   | Some (passed remaining_bvecs) =>
       if negb (remaining_bvecs =? 0) then Some (stopped (assert_failed 715))
       else Some (passed 0)
   end).

End DispatchPages.

(** The bios a dispatch handed on, in order, and the references it took
    on the tracker. *)
Fixpoint dispatched (evs : list dispatch_event) : list bio :=
  match evs with
  | [] => []
  | dp_submit_bio b :: rest => b :: dispatched rest
  | dp_hdd (ev_make_request _ b) :: rest => b :: dispatched rest
  | dp_hdd (ev_bio_endio b _) :: rest => b :: dispatched rest
  | _ :: rest => dispatched rest
  end.

Fixpoint tracker_refs (evs : list dispatch_event) : nat :=
  match evs with
  | [] => O
  | dp_atomic_inc _ :: rest => S (tracker_refs rest)
  | _ :: rest => tracker_refs rest
  end.

(** Bios that follow one another on the device from the sector [s] on. *)
Fixpoint contiguous {hdr : EioHeader} (s : Z) (bios : list bio) : Prop :=
  match bios with
  | [] => True
  | b :: rest =>
      bi_sector b = s /\ contiguous (u64 (s + eio_to_sector (bi_size b))) rest
  end.

(** The pages [count] sectors take at [spp] sectors a page. *)
Definition pages_needed (spp count : Z) : Z := (count + spp - 1) / spp.

Definition bios_size (bios : list bio) : Z :=
  fold_right (fun b acc => bi_size b + acc) 0 bios.

(** The sector of the bio the dispatcher makes with [remaining] sectors
    left, lines 682-686. *)
Definition start_at (dmc : cache_c) (where_ : eio_io_region) (hddio : bool)
  (remaining : Z) : Z :=
  let sector := u64 (rg_sector where_ + (rg_count where_ - remaining)) in
  if hddio then u64 (sector + dev_start_sect dmc) else sector.

(** The state of the inner loop after it took pages of [spp] sectors
    into the bio [b], from [remaining] down to [remaining']. *)
Definition took_pages {pg : PageHeader} (spp : Z) (pagelist : list Z)
  (b : bio) (remaining : Z) (pindex : nat) (remaining_bvecs : Z)
  (b' : bio) (remaining' : Z) (pindex' : nat) (remaining_bvecs' : Z) : Prop :=
  0 <= remaining' <= remaining
  /\ bi_size b' = bi_size b + to_bytes (remaining - remaining')
  /\ Z.of_nat pindex' - Z.of_nat pindex
     = pages_needed spp remaining - pages_needed spp remaining'
  /\ remaining_bvecs' = remaining_bvecs - (Z.of_nat pindex' - Z.of_nat pindex)
  /\ map bv_page (bi_io_vec b')
     = map bv_page (bi_io_vec b)
         ++ map (fun i => nth i pagelist 0) (seq pindex (pindex' - pindex))
  /\ bi_bdev b' = bi_bdev b /\ bi_sector b' = bi_sector b
  /\ bi_op b' = bi_op b /\ bi_op_flags b' = bi_op_flags b
  /\ bi_end_io b' = bi_end_io b /\ bi_private b' = bi_private b
  /\ (pindex <= pindex')%nat.

(** A block layer whose bios take as many pages as they were made for. *)
Definition sample_block_layer : BlockLayer :=
  {| EIO_BIO_GET_NR_VECS := fun _ => 2;
     bio_add_page := fun nr_vecs b _ _ _ => Z.of_nat (bi_vcnt b) <? nr_vecs |}.

(** ** The buffers of the sub-I/Os of a split *)

(** The pieces of [iosize] bytes of the buffer of one vector, from the
    byte [from] of the vector on, and the pieces of the vectors of an
    I/O from the position ([idx], [from]) on. *)
Definition vec_slices (iosize : Z) (v : bio_vec) (from : Z) : list bio_vec :=
  map (fun j => {| bv_page := bv_page v;
                   bv_offset := u32 (bv_offset v + (from + Z.of_nat j * iosize));
                   bv_len := iosize |})
      (seq 0 (Z.to_nat ((bv_len v - from) / iosize))).

Definition slices_from (iosize : Z) (vecs : list bio_vec) (idx : nat) (from : Z)
  : list bio_vec :=
  vec_slices iosize (nth idx vecs bio_vec_zero) from
    ++ flat_map (fun v => vec_slices iosize v 0) (skipn (S idx) vecs).

(** A vector the splitter can cut: a whole number of pieces, at least
    one, in a length that fits an unsigned. *)
Definition sliceable (iosize : Z) (v : bio_vec) : Prop :=
  0 < bv_len v < 2 ^ 32 /\ bv_len v mod iosize = 0.

(** An I/O the splitter can take apart: [bi_vcnt] counts the entries of
    [bi_io_vec], every entry can be cut into sectors, and from the
    current entry on they hold the sectors [bi_size] counts. *)
Definition splittable {hdr : EioHeader} (b : bio) : Prop :=
  bi_vcnt b = length (bi_io_vec b)
  /\ Forall (sliceable split_iosize) (bi_io_vec b)
  /\ (Z.to_nat (split_nbios b)
      <= length (slices_from split_iosize (bi_io_vec b) (bi_idx b) 0))%nat.

(** A sub-I/O with its one vector. *)
Definition one_vector (c : bio) : Prop :=
  bi_vcnt c = 1%nat /\ length (bi_io_vec c) = 1%nat.

(** A write of one sector of data over [n] sectors of sda (the shape of
    a WRITE SAME, operation 7): [bi_size] counts [n] sectors, the one
    vector holds 512 bytes. *)
Definition write_same_at (sector n : Z) : bio :=
  {| bi_bdev := sda; bi_sector := sector; bi_size := n * 512;
     bi_op := REQ_OP_other 7; bi_op_flags := 0;
     bi_io_vec := [ {| bv_page := 1; bv_offset := 0; bv_len := 512 |} ];
     bi_idx := 0%nat; bi_vcnt := 1%nat;
     bi_end_io := end_io_caller 1; bi_private := 0 |}.

(** A read of sda over two vectors, three sectors on page 1 and two on
    page 2. *)
Definition read_two_vecs (sector : Z) : bio :=
  {| bi_bdev := sda; bi_sector := sector; bi_size := 2560;
     bi_op := REQ_OP_READ; bi_op_flags := 0;
     bi_io_vec := [ {| bv_page := 1; bv_offset := 1024; bv_len := 1536 |};
                    {| bv_page := 2; bv_offset := 0; bv_len := 1024 |} ];
     bi_idx := 0%nat; bi_vcnt := 2%nat;
     bi_end_io := end_io_caller 1; bi_private := 0 |}.

(** ** More of the concrete configuration *)

(** Collaborators as [quiet], with a superblock that cannot be written. *)
Definition store_fails : Collaborators :=
  {| eio_map := fun _ b => (0, b);
     schedule_timeout := fun d => set_nr_ios (Z.max 0 (nr_ios d - 1)) d;
     eio_clean_all := fun d => set_nr_dirty (Z.max 0 (nr_dirty d - 1)) d;
     eio_stop_async_tasks := fun d => d;
     eio_start_clean_thread := fun d => (0, d);
     eio_allocate_wb_resources := fun d => (0, d);
     eio_free_wb_resources := fun d => d;
     eio_policy_init := fun d => (0, set_policy_ops 700 d);
     eio_repl_blk_init := fun _ => 0;
     eio_repl_sets_init := fun _ => 0;
     eio_policy_free := fun d => d;
     eio_sb_store := fun _ => - EIO;
     kmalloc_bioptr := fun _ => 4096;
     kmalloc_bio_container := fun _ => 8192;
     bio_alloc_split := fun _ _ => true |}.


(** W, the binding of the whole of sda, activated alone. *)
Definition st_W : ttc_state := activate_on sample_header quiet 4000 st_empty.

(** An array of four zeroed entries, and ten sectors at sector 40 of
    sda1. *)
Definition four_bvecs : list bio_vec := repeat bio_vec_zero 4.

Definition ten_sectors : eio_io_region :=
  {| rg_bdev := sda1; rg_sector := 40; rg_count := 10 |}.

(** * Properties *)

(** ** Routing *)

(** The scenario of the specification: with A on [100, 199], an I/O on
    [100, 150] goes to the cache, one on [50, 120] is split and one on
    [0, 50] is passed to the driver's entry point. *)
Example route_scenario :
  @route sample_header st_A (read_at 100 51) = ROUTE_TO_CACHE 1000
  /\ @route sample_header st_A (read_at 50 71) = ROUTE_SPLIT
  /\ @route sample_header st_A (read_at 0 51) = ROUTE_PASSTHROUGH (mfn_driver 7).
Proof. repeat split; vm_compute; reflexivity. Qed.

Section RoutingProperties.
Context {hdr : EioHeader} {ext : Collaborators}.

Lemma route_split_scan (st : ttc_state) (b : bio) :
  route st b = ROUTE_SPLIT ->
  exists f,
    ttc_scan st b (eio_ttc_list st (EIO_HASH_BDEV (bd_contains (bi_bdev b)))) mfn_null
    = (None, f, true).
Proof.
  unfold route.
  generalize (eio_ttc_list st (EIO_HASH_BDEV (bd_contains (bi_bdev b)))); intro l.
  generalize mfn_null.
  induction l as [|a1 l IH]; intros f0; simpl.
  - discriminate.
  - destruct (same_disk (caches st a1) (bi_bdev b)); simpl.
    + destruct (is_whole_disk (dev_info (caches st a1))); [discriminate|].
      destruct (bio_fits b (caches st a1)); [discriminate|].
      destruct (bio_overlaps b (caches st a1)).
      * intros _. eexists; reflexivity.
      * apply IH.
    + apply IH.
Qed.

Lemma route_to_cache_scan (st : ttc_state) (b : bio) (a : Z) :
  route st b = ROUTE_TO_CACHE a ->
  exists f,
    ttc_scan st b (eio_ttc_list st (EIO_HASH_BDEV (bd_contains (bi_bdev b)))) mfn_null
    = (Some a, f, false).
Proof.
  unfold route.
  destruct (ttc_scan st b _ mfn_null) as [[[a'|] f] [|]]; try discriminate.
  intros H; inversion H; subst. eexists; reflexivity.
Qed.

(** C6.  A discard that the scan classifies as overlapping a binding is
    not split: the call returns after completing the I/O itself with
    -EOPNOTSUPP, between taking and releasing the read lock of the shard
    nothing else happens, no container or sub-I/O is created and nothing
    is handed to the cache engine or to the device. *)
Theorem discard_overlap_not_split (fuel : nat) (st : ttc_state) (q : Z) (b : bio) :
  route st b = ROUTE_SPLIT ->
  bi_op b = REQ_OP_DISCARD ->
  exists evs,
    eio_make_request_fn (S fuel) st q b = Some (evs, b)
    /\ evs = [ev_down_read (EIO_HASH_BDEV (bd_contains (bi_bdev b)));
              ev_up_read (EIO_HASH_BDEV (bd_contains (bi_bdev b)));
              ev_bio_endio b (- EOPNOTSUPP)]
    /\ endio_events evs = [(b, - EOPNOTSUPP)]
    /\ existsb creates_or_submits evs = false.
Proof.
  intros Hsplit Hop.
  destruct (route_split_scan st b Hsplit) as [f Hscan].
  eexists. split.
  - simpl. rewrite Hscan, Hop. simpl. reflexivity.
  - repeat split.
Qed.

Lemma u64_rebase_restore (s d : Z) :
  0 <= s < 2 ^ 64 -> u64 (u64 (s - d) + d) = s.
Proof.
  intros Hs. unfold u64.
  rewrite Zplus_mod_idemp_l.
  replace (s - d + d) with s by ring.
  apply Z.mod_small; exact Hs.
Qed.

Lemma set_bi_sector_restore (s : Z) (b : bio) :
  set_bi_sector (bi_sector b) (set_bi_sector s b) = b.
Proof. destruct b; reflexivity. Qed.

(** C10.  An I/O with a nonzero start sector that is routed to a cached
    binding reaches the cache engine with its start sector lowered by
    the start of the binding's partition and nothing else changed.  When
    eio_map returns an error, the start of the partition is added back
    to the bio as eio_map left it; if the failing eio_map left the bio
    as it received it, the call returns the bio exactly as it came in. *)
Theorem map_error_restores_sector (fuel : nat) (st : ttc_state) (q : Z)
  (b : bio) (a : Z) :
  route st b = ROUTE_TO_CACHE a ->
  bi_sector b <> 0 ->
  0 <= bi_sector b < 2 ^ 64 ->
  let dmc := caches st a in
  let b1 := set_bi_sector (u64 (bi_sector b - dev_start_sect dmc)) b in
  let ret := fst (eio_map dmc b1) in
  let b2 := snd (eio_map dmc b1) in
  exists evs b',
    eio_make_request_fn (S fuel) st q b = Some (evs, b')
    /\ evs = [ev_down_read (EIO_HASH_BDEV (bd_contains (bi_bdev b)));
              ev_eio_map a b1;
              ev_up_read (EIO_HASH_BDEV (bd_contains (bi_bdev b)))]
    /\ (ret = 0 -> b' = b2)
    /\ (ret <> 0 -> b' = set_bi_sector (u64 (bi_sector b2 + dev_start_sect dmc)) b2)
    /\ (ret <> 0 -> b2 = b1 -> b' = b).
Proof.
  intros Hroute Hnz Hrange dmc b1 ret b2.
  destruct (route_to_cache_scan st b a Hroute) as [f Hscan].
  assert (Hb1 : (if bi_sector b =? 0 then b else b1) = b1).
  { destruct (Z.eqb_spec (bi_sector b) 0); [contradiction|reflexivity]. }
  simpl. rewrite Hscan. fold dmc. fold b1. rewrite Hb1.
  subst ret b2. destruct (eio_map dmc b1) as [r bm] eqn:Hmap. simpl.
  eexists; eexists; split; [reflexivity|].
  split; [reflexivity|].
  destruct (Z.eqb_spec r 0) as [Hr|Hr].
  - split; [|split]; intros; [reflexivity|contradiction|contradiction].
  - split; [|split]; intros; [contradiction|reflexivity|].
    subst bm. subst b1. simpl.
    rewrite u64_rebase_restore by exact Hrange.
    apply set_bi_sector_restore.
Qed.

End RoutingProperties.

(** C10, on sda with A active and an engine that fails with -EIO: the
    read of [120, 129] reaches the engine at sector 20 and comes back at
    sector 120. *)
Lemma map_error_restores_sector_witness :
  exists evs b',
    @eio_make_request_fn sample_header (sample_collaborators (-5) 1 0 700 0 0)
      2 st_A 500 (read_at 120 10) = Some (evs, b')
    /\ evs = [ev_down_read 0%nat;
              ev_eio_map 1000 (set_bi_sector 20 (read_at 120 10));
              ev_up_read 0%nat]
    /\ b' = read_at 120 10.
Proof.
  destruct (@map_error_restores_sector sample_header
              (sample_collaborators (-5) 1 0 700 0 0) 1 st_A 500
              (read_at 120 10) 1000)
    as (evs & b' & Hrun & Hevs & _ & _ & Hback).
  - vm_compute; reflexivity.
  - vm_compute; discriminate.
  - vm_compute; split; [discriminate|reflexivity].
  - exists evs, b'. split; [exact Hrun|]. split.
    + exact Hevs.
    + apply Hback; [vm_compute; discriminate|reflexivity].
Defined.

(** C6, on sda with A active: a discard of [50, 120]. *)
Lemma discard_overlap_not_split_witness :
  exists evs,
    @eio_make_request_fn sample_header quiet 1 st_A 500 (discard_at 50 71)
    = Some (evs, discard_at 50 71)
    /\ endio_events evs = [(discard_at 50 71, -95)].
Proof.
  destruct (@discard_overlap_not_split sample_header quiet 0 st_A 500
              (discard_at 50 71))
    as (evs & Hrun & _ & Hend & _).
  - vm_compute; reflexivity.
  - reflexivity.
  - exists evs. split; [exact Hrun|exact Hend].
Defined.

(** C1.  With A on [100, 199] the I/O on [50, 250] contains the whole
    range of the binding, so it intersects the range without being
    contained in it; the scan tests only whether the first or the last
    sector of the I/O lies in the range, finds neither, and the I/O is
    passed to the driver's entry point unsplit. *)
Theorem route_misses_enclosing_io :
  let b := read_at 50 201 in
  let A := caches st_A 1000 in
  dev_info A = EIO_DEV_PARTITION
  /\ dev_start_sect A = 100 /\ dev_end_sect A = 199
  /\ bi_sector b = 50 /\ @bio_last_sector sample_header b = 250
  /\ @route sample_header st_A b = ROUTE_PASSTHROUGH (mfn_driver 7)
  /\ @eio_make_request_fn sample_header quiet 1 st_A 500 b
     = Some ([ev_down_read 0%nat; ev_up_read 0%nat;
              ev_make_request (mfn_driver 7) b], b).
Proof. repeat split; vm_compute; reflexivity. Qed.

(** ** Activation conflicts *)

(** C4.  With A on sda1 and B on sda2 linked in this order, activating C
    on sda2 again is a second binding of the identical partition.  The
    loop of eio_ttc_activate leaves at the first structure of the same
    disk, A, which is no conflict, and never looks at B: the call
    returns 0 and links C. *)
Theorem activate_misses_later_duplicate :
  eio_ttc_list st_AB 0%nat = [1000; 2000]
  /\ same_bdev (caches st_AB 2000) sda2 = true
  /\ disk_dev (caches st_AB 3000) = Some sda2
  /\ fst (fst (@eio_ttc_activate sample_header st_AB 3000)) = 0
  /\ eio_ttc_list (snd (fst (@eio_ttc_activate sample_header st_AB 3000))) 0%nat
     = [1000; 2000; 3000].
Proof. repeat split; vm_compute; reflexivity. Qed.

(** ** The edit path *)

Section EditProperties.
Context {hdr : EioHeader} {ext : Collaborators}.

Lemma lookup_shards_releases (st : ttc_state) (name : string) (shards : list nat)
  (held : list lock) :
  held_locks held (snd (lookup_shards st name shards)) = held.
Proof.
  induction shards as [|i rest IH]; simpl.
  - reflexivity.
  - destruct (lookup_in_list st name (eio_ttc_list st i)).
    + simpl. rewrite Nat.eqb_refl. reflexivity.
    + destruct (lookup_shards st name rest) as [r evs] eqn:Hrest.
      simpl in *. rewrite Nat.eqb_refl. exact IH.
Qed.

Lemma held_locks_app (held : list lock) (evs evs' : list event) :
  held_locks held (evs ++ evs') = held_locks (held_locks held evs) evs'.
Proof.
  revert held. induction evs as [|e evs IH]; intros held; simpl.
  - reflexivity.
  - destruct e; apply IH.
Qed.

(** C8, as the code has it.  An edit that names a linked binding and
    asks for a mode or a policy other than the current ones, while the
    binding's CACHE_FLAGS_MOD_INPROG or CACHE_FLAGS_SHUTDOWN_INPROG bit
    is set, returns -EINVAL and leaves the registry and every structure
    as they were.  Unless the binding is failed or degraded (an earlier
    test, with the same result), the flags are tested between
    spin_lock_irqsave and spin_unlock_irqrestore of the binding's own
    lock, and at that point every shard lock the lookup took has been
    released. *)
Theorem edit_rejected_while_in_progress (fuel : nat) (st : ttc_state)
  (name : string) (new_mode policy : Z) (a : Z) :
  fst (eio_cache_lookup st name) = Some a ->
  ~ (mode (caches st a) = new_mode /\ req_policy (caches st a) = policy) ->
  flag_set (cache_flags (caches st a)) CACHE_FLAGS_MOD_INPROG = true
  \/ flag_set (cache_flags (caches st a)) CACHE_FLAGS_SHUTDOWN_INPROG = true ->
  exists evs,
    eio_cache_edit fuel st name new_mode policy = Some (- EINVAL, st, evs)
    /\ (CACHE_FAILED_IS_SET (caches st a) = false ->
        CACHE_DEGRADED_IS_SET (caches st a) = false ->
        evs = snd (eio_cache_lookup st name) ++ [ev_spin_lock a; ev_spin_unlock a]
        /\ held_locks [] (snd (eio_cache_lookup st name) ++ [ev_spin_lock a])
           = [cache_spin_lock a]
        /\ held_locks [] evs = []).
Proof.
  intros Hfound Hdiff Hbusy.
  unfold eio_cache_edit.
  destruct (eio_cache_lookup st name) as [found evs0] eqn:Hlook.
  simpl in Hfound. subst found.
  assert (Hbal : forall h, held_locks h evs0 = h).
  { intros h. unfold eio_cache_lookup in Hlook.
    pose proof (lookup_shards_releases st name (seq 0 EIO_HASHTBL_SIZE) h) as Hr.
    rewrite Hlook in Hr. exact Hr. }
  assert (Hne : (mode (caches st a) =? new_mode)
                && (req_policy (caches st a) =? policy) = false).
  { apply andb_false_iff.
    destruct (Z.eqb_spec (mode (caches st a)) new_mode) as [Hm|Hm];
      [|left; reflexivity].
    destruct (Z.eqb_spec (req_policy (caches st a)) policy) as [Hp|Hp];
      [|right; reflexivity].
    exfalso. apply Hdiff. split; assumption. }
  rewrite Hne.
  destruct (CACHE_FAILED_IS_SET (caches st a)) eqn:Hfail; simpl.
  { eexists. split; [reflexivity|]. intros Hc; discriminate. }
  destruct (CACHE_DEGRADED_IS_SET (caches st a)) eqn:Hdeg; simpl.
  { eexists. split; [reflexivity|]. intros _ Hc; discriminate. }
  assert (Hlocks :
    held_locks [] (evs0 ++ [ev_spin_lock a]) = [cache_spin_lock a]
    /\ held_locks [] (evs0 ++ [ev_spin_lock a; ev_spin_unlock a]) = []).
  { rewrite !held_locks_app, !Hbal. simpl. rewrite Z.eqb_refl. split; reflexivity. }
  destruct (flag_set (cache_flags (caches st a)) CACHE_FLAGS_SHUTDOWN_INPROG) eqn:Hshut.
  { eexists. split; [reflexivity|]. intros _ _. split; [reflexivity|exact Hlocks]. }
  destruct Hbusy as [Hmod|Hc]; [|discriminate].
  rewrite Hmod.
  eexists. split; [reflexivity|]. intros _ _. split; [reflexivity|exact Hlocks].
Qed.

(** C9.  eio_policy_switch either commits or undoes.  If eio_policy_init,
    eio_repl_blk_init or eio_repl_sets_init fails, the call returns a
    non-zero error, [policy_ops] is the pointer it was before the call,
    the structure eio_policy_init installed (if it installed another
    one) is released with eio_policy_free and nothing else is, and
    [req_policy] is what it was, given that the two collaborators that
    receive the binding leave that field alone.  If all three succeed,
    the call returns 0 with [req_policy] set to the requested policy. *)
Theorem policy_switch_commits_or_restores (d : cache_c) (policy : Z) :
  (forall d0, req_policy (snd (eio_policy_init d0)) = req_policy d0) ->
  (forall d0, req_policy (eio_policy_free d0) = req_policy d0) ->
  let d1 := snd (eio_policy_init d) in
  let failed :=
    negb (fst (eio_policy_init d) =? 0)
    || negb (eio_repl_blk_init (policy_ops d1) =? 0)
    || negb (eio_repl_sets_init (policy_ops d1) =? 0) in
  let error := fst (fst (eio_policy_switch d policy)) in
  let d' := snd (fst (eio_policy_switch d policy)) in
  let evs := snd (eio_policy_switch d policy) in
  (failed = true ->
   error <> 0
   /\ policy_ops d' = policy_ops d
   /\ req_policy d' = req_policy d
   /\ evs = (if policy_ops d1 =? policy_ops d then []
             else [ev_policy_free (policy_ops d1)]))
  /\ (failed = false ->
      error = 0
      /\ req_policy d' = policy
      /\ policy_ops d' = policy_ops d1
      /\ evs = [ev_policy_lru_pushblks (policy_ops d1)]).
Proof.
  intros Hinit Hfree d1 failed error d' evs.
  subst failed error d' evs. unfold eio_policy_switch.
  pose proof (Hinit d) as Hreq. fold d1 in Hreq.
  subst d1. destruct (eio_policy_init d) as [e d1] eqn:Hi. simpl in *.
  assert (Hout : forall err, err <> 0 ->
    let r := policy_switch_out (policy_ops d) err d1 in
    fst (fst r) <> 0
    /\ policy_ops (snd (fst r)) = policy_ops d
    /\ req_policy (snd (fst r)) = req_policy d
    /\ snd r = (if policy_ops d1 =? policy_ops d then []
                else [ev_policy_free (policy_ops d1)])).
  { intros err Herr. unfold policy_switch_out.
    destruct (policy_ops d1 =? policy_ops d); simpl.
    - repeat split; [exact Herr|exact Hreq].
    - repeat split; [exact Herr|]. rewrite Hfree. exact Hreq. }
  destruct (Z.eqb_spec e 0) as [He|He]; simpl.
  - destruct (Z.eqb_spec (eio_repl_blk_init (policy_ops d1)) 0) as [Hb|Hb]; simpl.
    + destruct (Z.eqb_spec (eio_repl_sets_init (policy_ops d1)) 0) as [Hs|Hs]; simpl.
      * split; [discriminate|]. intros _. repeat split.
      * split; [|discriminate]. intros _. apply Hout. discriminate.
    + split; [|discriminate]. intros _. apply Hout. discriminate.
  - split; [|discriminate]. intros _. apply Hout. exact He.
Qed.

End EditProperties.

(** C9, with a policy engine whose block allocation fails: the switch
    from policy 1 to policy 2 returns -ENOMEM, releases the structure
    at 700 and leaves the binding on the structure at 600 and policy 1. *)
Lemma policy_switch_commits_or_restores_witness :
  let r := @eio_policy_switch (sample_collaborators 0 1 0 700 (-12) 0)
             (fresh_cache "A" sda1 3) 2 in
  fst (fst r) <> 0
  /\ policy_ops (snd (fst r)) = 600
  /\ req_policy (snd (fst r)) = 1
  /\ snd r = [ev_policy_free 700].
Proof.
  refine ((fun H => _)
    (proj1 (@policy_switch_commits_or_restores
              (sample_collaborators 0 1 0 700 (-12) 0)
              (fresh_cache "A" sda1 3) 2 _ _) _)).
  - exact H.
  - intros d0; reflexivity.
  - intros d0; reflexivity.
  - reflexivity.
Defined.

(** C8, on A with an edit in progress: a second edit to mode 1 is
    refused and nothing changes. *)
Lemma edit_rejected_while_in_progress_witness :
  exists evs,
    @eio_cache_edit sample_header quiet 5 st_A_busy "A" 1 0
    = Some (- EINVAL, st_A_busy, evs)
    /\ held_locks [] evs = [].
Proof.
  destruct (@edit_rejected_while_in_progress sample_header quiet 5 st_A_busy
              "A" 1 0 1000) as (evs & Hrun & Hlocks).
  - vm_compute; reflexivity.
  - vm_compute. intros [H _]; discriminate.
  - left; vm_compute; reflexivity.
  - exists evs. split; [exact Hrun|].
    apply Hlocks; vm_compute; reflexivity.
Defined.

(** C8 as stated fails: an edit that asks for the mode and the policy
    the binding already has returns 0 before the flags are looked at,
    although CACHE_FLAGS_MOD_INPROG is set. *)
Lemma edit_same_settings_returns_zero :
  flag_set (cache_flags (caches st_A_busy 1000))
    (@CACHE_FLAGS_MOD_INPROG sample_header) = true
  /\ fst (@eio_cache_lookup sample_header st_A_busy "A") = Some 1000
  /\ option_map (fun r => fst (fst r))
       (@eio_cache_edit sample_header quiet 5 st_A_busy "A" 3 1) = Some 0.
Proof. repeat split; vm_compute; reflexivity. Qed.

(** ** Completion of a dispatched I/O *)

Lemma eio_dec_count_spec (io : eio_context) (error : Z) :
  let io' := fst (eio_dec_count io error) in
  io_count io' = io_count io - 1
  /\ io_error io' = record_error (io_error io) error
  /\ io_event io' = io_event io
  /\ io_callback io' = io_callback io
  /\ io_context io' = io_context io
  /\ snd (eio_dec_count io error) = (if io_count io - 1 =? 0 then fire io' else []).
Proof.
  unfold eio_dec_count, record_error, fire.
  destruct (error =? 0); simpl;
    destruct (io_count io - 1 =? 0); simpl;
    destruct (io_event io); simpl; repeat split.
Qed.

Lemma schedule_more_refs (k i e : nat) (d : bool) (h : io_step) (t : list io_step) :
  schedule_from k i e d (h :: t) = true -> (e <= i)%nat -> 0 < refs d i e.
Proof.
  unfold refs. intros H Hle. destruct h; simpl in H.
  - apply andb_prop in H as [H _]. apply andb_prop in H as [Hd _].
    destruct d; [discriminate|]. lia.
  - apply andb_prop in H as [Hlt _]. apply Nat.ltb_lt in Hlt.
    destruct d; lia.
  - apply andb_prop in H as [H _]. apply andb_prop in H as [Hd _].
    destruct d; [discriminate|]. lia.
Qed.

(** One valid step: the count follows [refs], and a signal is emitted
    exactly when the count reaches zero. *)
Lemma schedule_step (k i e : nat) (d : bool) (h : io_step) (t : list io_step)
  (io : eio_context) (sigs : list io_signal) :
  schedule_from k i e d (h :: t) = true ->
  (e <= i)%nat -> (i <= k)%nat ->
  io_count io = refs d i e ->
  exists i' e' d' io',
    schedule_from k i' e' d' t = true
    /\ (e' <= i')%nat /\ (i' <= k)%nat
    /\ io_count io' = refs d' i' e'
    /\ io_run_step (io, sigs) h
       = (io', sigs ++ (if refs d' i' e' =? 0 then fire io' else []))
    /\ io_error io' = fold_left record_error (endio_errors [h]) (io_error io)
    /\ io_event io' = io_event io
    /\ io_callback io' = io_callback io
    /\ io_context io' = io_context io
    /\ ((k - e) + (if d then 0 else 1)
        = nr_decrements [h] + ((k - e') + (if d' then 0 else 1)))%nat.
Proof.
  intros H Hle Hik Hcnt.
  pose proof (schedule_more_refs _ _ _ _ _ _ H Hle) as Hpos.
  destruct h; simpl in H.
  - apply andb_prop in H as [H Ht]. apply andb_prop in H as [Hd Hlt].
    apply Nat.ltb_lt in Hlt. destruct d; [discriminate|].
    exists (S i), e, false.
    eexists. split; [exact Ht|]. split; [lia|]. split; [lia|].
    split; [|split].
    2:{ simpl.
        replace (refs false (S i) e =? 0) with false
          by (symmetry; apply Z.eqb_neq; unfold refs in *; lia).
        rewrite app_nil_r. reflexivity. }
    + simpl. unfold refs in *. lia.
    + simpl. repeat split.
  - apply andb_prop in H as [Hlt Ht]. apply Nat.ltb_lt in Hlt.
    destruct (eio_dec_count_spec io error) as (Hc & He & Hev & Hcb & Hcx & Hs).
    exists i, (S e), d, (fst (eio_dec_count io error)).
    split; [exact Ht|]. split; [lia|]. split; [lia|].
    assert (Hrefs : refs d i (S e) = io_count io - 1) by (unfold refs in *; lia).
    split; [rewrite Hc; lia|]. split.
    + simpl. destruct (eio_dec_count io error) as [io' out] eqn:Hdec.
      simpl in *. rewrite Hs, Hrefs. reflexivity.
    + simpl. repeat split; try assumption. destruct d; lia.
  - apply andb_prop in H as [H Ht]. apply andb_prop in H as [Hd Hk].
    apply Nat.eqb_eq in Hk. destruct d; [discriminate|].
    destruct (eio_dec_count_spec io 0) as (Hc & He & Hev & Hcb & Hcx & Hs).
    exists i, e, true, (fst (eio_dec_count io 0)).
    split; [exact Ht|]. split; [lia|]. split; [lia|].
    assert (Hrefs : refs true i e = io_count io - 1) by (unfold refs in *; lia).
    split; [rewrite Hc; lia|]. split.
    + simpl. destruct (eio_dec_count io 0) as [io' out] eqn:Hdec.
      simpl in *. rewrite Hs, Hrefs. reflexivity.
    + simpl. repeat split; try assumption. lia.
Qed.

Lemma schedule_end (k i e : nat) (d : bool) :
  schedule_from k i e d [] = true -> refs d i e = 0 /\ e = k /\ d = true.
Proof.
  simpl. intros H. apply andb_prop in H as [H Hd].
  apply andb_prop in H as [Hi He].
  apply Nat.eqb_eq in Hi, He. subst. unfold refs. split; [lia|]. split; reflexivity.
Qed.

(** A valid trace run to its end: the count is zero, the signal was
    emitted once, by the last step, and the error is the last non-zero
    one. *)
Lemma schedule_run (k : nat) (tr : list io_step) :
  forall (i e : nat) (d : bool) (io : eio_context) (sigs : list io_signal),
    schedule_from k i e d tr = true ->
    (e <= i)%nat -> (i <= k)%nat ->
    io_count io = refs d i e ->
    tr <> [] ->
    exists io',
      fold_left io_run_step tr (io, sigs) = (io', sigs ++ fire io')
      /\ io_count io' = 0
      /\ io_error io' = fold_left record_error (endio_errors tr) (io_error io)
      /\ io_event io' = io_event io
      /\ io_callback io' = io_callback io
      /\ io_context io' = io_context io
      /\ ((k - e) + (if d then 0 else 1) = nr_decrements tr)%nat.
Proof.
  induction tr as [|h t IH]; intros i e d io sigs H Hle Hik Hcnt Hne.
  - contradiction.
  - destruct (schedule_step k i e d h t io sigs H Hle Hik Hcnt)
      as (i' & e' & d' & io1 & Ht & Hle' & Hik' & Hcnt' & Hstep & Herr & Hev & Hcb & Hcx & Hn).
    cbn [fold_left]. rewrite Hstep.
    destruct t as [|h' t'].
    + destruct (schedule_end _ _ _ _ Ht) as (Hz & Hek & Hd). rewrite Hz. simpl.
      exists io1. split; [reflexivity|]. split; [lia|].
      split; [exact Herr|]. repeat split; try assumption.
      rewrite Hn. subst. simpl. rewrite Nat.sub_diag.
      destruct h; simpl; lia.
    + pose proof (schedule_more_refs _ _ _ _ _ _ Ht Hle') as Hpos.
      replace (refs d' i' e' =? 0) with false by (symmetry; apply Z.eqb_neq; lia).
      rewrite app_nil_r.
      destruct (IH i' e' d' io1 sigs Ht Hle' Hik' Hcnt')
        as (io' & Hrun & Hz & Herr' & Hev' & Hcb' & Hcx' & Hn');
        [discriminate|].
      exists io'. split; [exact Hrun|]. split; [exact Hz|].
      split.
      { rewrite Herr'. rewrite Herr.
        destruct h; simpl; reflexivity. }
      split; [congruence|]. split; [congruence|]. split; [congruence|].
      rewrite Hn, Hn'. destruct h; simpl; lia.
Qed.

(** Before the end of a valid trace nothing is signalled and the count
    is positive. *)
Lemma schedule_prefix_silent (k : nat) (p : list io_step) :
  forall (s : list io_step) (i e : nat) (d : bool) (io : eio_context)
    (sigs : list io_signal),
    schedule_from k i e d (p ++ s) = true ->
    s <> [] ->
    (e <= i)%nat -> (i <= k)%nat ->
    io_count io = refs d i e ->
    exists io', fold_left io_run_step p (io, sigs) = (io', sigs) /\ 0 < io_count io'.
Proof.
  induction p as [|h p IH]; intros s i e d io sigs H Hs Hle Hik Hcnt.
  - simpl in *. exists io. split; [reflexivity|].
    destruct s as [|h t]; [contradiction|].
    rewrite Hcnt. eapply schedule_more_refs; eassumption.
  - simpl app in H.
    destruct (schedule_step k i e d h (p ++ s) io sigs H Hle Hik Hcnt)
      as (i' & e' & d' & io1 & Ht & Hle' & Hik' & Hcnt' & Hstep & _).
    cbn [fold_left]. rewrite Hstep.
    assert (Hpos : 0 < refs d' i' e').
    { destruct (p ++ s) as [|h' t'] eqn:Hps.
      - destruct p; [simpl in Hps; subst; contradiction|discriminate].
      - eapply schedule_more_refs; eassumption. }
    replace (refs d' i' e' =? 0) with false by (symmetry; apply Z.eqb_neq; lia).
    rewrite app_nil_r.
    apply (IH s i' e' d' io1 sigs Ht Hs Hle' Hik' Hcnt').
Qed.

(** The error recorded last: 0 if every transfer ended with 0,
    otherwise the error of the last transfer that ended with a non-zero
    one. *)
Lemma last_error_spec (errs : list Z) :
  (Forall (fun e => e = 0) errs /\ last_error errs = 0)
  \/ (exists pre e post,
        errs = pre ++ e :: post /\ e <> 0
        /\ Forall (fun x => x = 0) post /\ last_error errs = e).
Proof.
  unfold last_error.
  induction errs as [|e errs IH] using rev_ind.
  - left. split; [constructor|reflexivity].
  - rewrite fold_left_app. simpl.
    assert (Hrec : record_error (fold_left record_error errs 0) e
                   = if e =? 0 then fold_left record_error errs 0 else e)
      by reflexivity.
    rewrite Hrec. clear Hrec.
    destruct (Z.eqb_spec e 0) as [->|He].
    + destruct IH as [[Hall Hz]|(pre & x & post & -> & Hx & Hpost & Hl)].
      * left. split; [|exact Hz].
        apply Forall_app. split; [exact Hall|repeat constructor].
      * right. exists pre, x, (post ++ [0]).
        split; [rewrite <- app_assoc; reflexivity|]. split; [exact Hx|].
        split; [|exact Hl].
        apply Forall_app. split; [exact Hpost|repeat constructor].
    + right. exists errs, e, [].
      split; [reflexivity|]. split; [exact He|]. split; [constructor|reflexivity].
Qed.

(** C2, as the code has it.  For a dispatch that returned 0 after
    issuing [k] transfers, and any interleaving of its steps with the
    completions of the transfers: eio_dec_count runs [k + 1] times (once
    per transfer and once for the dispatcher's own reference); the
    waiter is completed (synchronous mode) or the callback called
    (asynchronous mode) exactly once, by the step that brings the count
    to zero, which is the last; before it the count is positive and
    nothing is signalled; and the error handed over is the one recorded
    last, the error of the last transfer that ended with a non-zero
    error, or 0 if none did. *)
Theorem dispatch_completion_last_error (k : nat) (tr : list io_step)
  (notify context : Z) :
  schedule_ok k tr = true ->
  nr_decrements tr = S k
  /\ snd (io_run sync_context tr) = [sig_complete]
  /\ io_count (fst (io_run sync_context tr)) = 0
  /\ eio_sync_io 0 tr = Some (last_error (endio_errors tr))
  /\ eio_async_io notify context 0 tr
     = Some (0, [sig_mempool_free;
                 sig_callback notify (last_error (endio_errors tr)) context])
  /\ io_count (fst (io_run (async_context notify context) tr)) = 0
  /\ (forall p s, tr = p ++ s -> s <> [] ->
      snd (io_run sync_context p) = []
      /\ 0 < io_count (fst (io_run sync_context p))
      /\ snd (io_run (async_context notify context) p) = []
      /\ 0 < io_count (fst (io_run (async_context notify context) p))).
Proof.
  intros Hok. unfold schedule_ok in Hok.
  assert (Hne : tr <> []).
  { intros ->. simpl in Hok. rewrite andb_false_r in Hok. discriminate. }
  destruct (schedule_run k tr 0 0 false sync_context [] Hok (le_n 0) (Nat.le_0_l k)
              eq_refl Hne)
    as (ios & Hruns & Hzs & Herrs & Hevs & _ & _ & Hn).
  destruct (schedule_run k tr 0 0 false (async_context notify context) [] Hok
              (le_n 0) (Nat.le_0_l k) eq_refl Hne)
    as (ioa & Hruna & Hza & Herra & Heva & Hcba & Hcxa & _).
  simpl in Hruns, Hruna, Herrs, Herra, Hevs, Heva, Hcba, Hcxa.
  unfold fire in Hruns, Hruna. rewrite Hevs in Hruns. rewrite Heva in Hruna.
  rewrite Hcba, Hcxa in Hruna.
  fold (last_error (endio_errors tr)) in Herrs, Herra.
  split; [rewrite <- Hn; lia|].
  unfold eio_sync_io, eio_async_io, io_run.
  rewrite Hruns, Hruna. simpl.
  split; [reflexivity|]. split; [exact Hzs|].
  split.
  { rewrite Herrs. destruct (last_error (endio_errors tr) =? 0) eqn:Hz.
    - apply Z.eqb_eq in Hz. rewrite Hz. reflexivity.
    - reflexivity. }
  split; [rewrite Herra; reflexivity|]. split; [exact Hza|].
  intros p s Htr Hs. subst tr.
  destruct (schedule_prefix_silent k p s 0 0 false sync_context [] Hok Hs
              (le_n 0) (Nat.le_0_l k) eq_refl) as (io1 & Hp1 & Hpos1).
  destruct (schedule_prefix_silent k p s 0 0 false (async_context notify context)
              [] Hok Hs (le_n 0) (Nat.le_0_l k) eq_refl) as (io2 & Hp2 & Hpos2).
  rewrite Hp1, Hp2. simpl. repeat split; assumption.
Qed.

(** C2, for two transfers that end before the dispatcher drops its
    reference, the second with -ENOMEM. *)
Lemma dispatch_completion_last_error_witness :
  eio_sync_io 0 [step_issue; step_issue; step_endio 0; step_endio (-12); step_drop]
  = Some (-12)
  /\ eio_async_io 9 77 0
       [step_issue; step_issue; step_endio 0; step_endio (-12); step_drop]
     = Some (0, [sig_mempool_free; sig_callback 9 (-12) 77]).
Proof.
  pose proof (dispatch_completion_last_error 2
                [step_issue; step_issue; step_endio 0; step_endio (-12); step_drop]
                9 77 eq_refl) as (_ & _ & _ & Hs & Ha & _).
  split; [exact Hs|exact Ha].
Defined.

(** C2 as stated fails: of two transfers that end with -EIO and then
    with -ENOMEM, the first error observed is -EIO, and both modes
    report -ENOMEM. *)
Lemma first_error_not_reported :
  let tr := [step_issue; step_issue; step_endio (-5); step_endio (-12); step_drop] in
  schedule_ok 2 tr = true
  /\ first_error (endio_errors tr) = -5
  /\ eio_sync_io 0 tr = Some (-12)
  /\ eio_async_io 9 77 0 tr
     = Some (0, [sig_mempool_free; sig_callback 9 (-12) 77])
  /\ eio_sync_io 0 tr <> Some (first_error (endio_errors tr)).
Proof.
  repeat split; try (vm_compute; reflexivity).
  vm_compute. discriminate.
Qed.

(** ** A dispatch that fails *)

Lemma in_flight_run (tr : list io_step) :
  forall (n m : nat) (io : eio_context) (sigs : list io_signal),
    in_flight n tr = Some m ->
    io_count io = 1 + Z.of_nat n ->
    exists io',
      fold_left io_run_step tr (io, sigs) = (io', sigs)
      /\ io_count io' = 1 + Z.of_nat m.
Proof.
  induction tr as [|h t IH]; intros n m io sigs H Hc; simpl in H.
  - inversion H; subst. exists io. split; [reflexivity|exact Hc].
  - destruct h.
    + cbn [fold_left io_run_step].
      apply (IH (S n) m); [exact H|]. simpl io_count. lia.
    + destruct n as [|n']; [discriminate|].
      cbn [fold_left io_run_step].
      destruct (eio_dec_count_spec io error) as (Hcnt & _ & _ & _ & _ & Hs).
      destruct (eio_dec_count io error) as [io1 out] eqn:Hd. simpl in Hcnt, Hs.
      replace (io_count io - 1 =? 0) with false in Hs
        by (symmetry; apply Z.eqb_neq; lia).
      rewrite Hs, app_nil_r.
      apply (IH n' m); [exact H|]. lia.
    + discriminate.
Qed.

(** After a dispatch that returned the error [ret] no completion is
    signalled, whatever the order of the issues and the ends; the
    synchronous call returns [ret], and the asynchronous one releases
    the tracker and returns [ret], once every transfer that was issued
    has ended, and not before. *)
Theorem failed_dispatch_waits (tr : list io_step) (m : nat) (ret notify context : Z) :
  ret <> 0 ->
  in_flight 0 tr = Some m ->
  snd (io_run sync_context tr) = []
  /\ snd (io_run (async_context notify context) tr) = []
  /\ eio_sync_io ret tr = (if Nat.eqb m 0 then Some ret else None)
  /\ eio_async_io notify context ret tr
     = (if Nat.eqb m 0 then Some (ret, [sig_mempool_free]) else None).
Proof.
  intros Hret Hfl.
  destruct (in_flight_run tr 0 m sync_context [] Hfl eq_refl) as (ios & Hs & Hcs).
  destruct (in_flight_run tr 0 m (async_context notify context) [] Hfl eq_refl)
    as (ioa & Ha & Hca).
  assert (Hone : forall c, c = 1 + Z.of_nat m -> (c =? 1) = Nat.eqb m 0).
  { intros c ->. destruct m as [|m']; [reflexivity|].
    apply Z.eqb_neq. lia. }
  unfold eio_sync_io, eio_async_io, io_run. rewrite Hs, Ha.
  apply Z.eqb_neq in Hret. rewrite Hret. cbn [negb snd].
  rewrite (Hone _ Hcs), (Hone _ Hca).
  repeat split.
Qed.

(** Two transfers were issued before the dispatch failed with -ENOMEM:
    the call returns once both have ended. *)
Lemma failed_dispatch_waits_witness :
  eio_sync_io (-12) [step_issue; step_issue; step_endio 0; step_endio (-5)]
  = Some (-12)
  /\ eio_sync_io (-12) [step_issue; step_issue; step_endio 0] = None.
Proof.
  split.
  - apply (failed_dispatch_waits
             [step_issue; step_issue; step_endio 0; step_endio (-5)] 0 (-12) 0 0);
      [discriminate|reflexivity].
  - apply (failed_dispatch_waits
             [step_issue; step_issue; step_endio 0] 1 (-12) 0 0);
      [discriminate|reflexivity].
Defined.

(** ** The overlap splitter *)

Section SplitProperties.
Context {hdr : EioHeader} {ext : Collaborators}.

Lemma u64_small (x : Z) : 0 <= x < 2 ^ 64 -> u64 x = x.
Proof. intros H. apply Z.mod_small; exact H. Qed.

Lemma u64_range (x : Z) : 0 <= u64 x < 2 ^ 64.
Proof. unfold u64. apply Z.mod_pos_bound. lia. Qed.

Lemma u64_succ (x : Z) (i : nat) :
  u64 (u64 (x + 1) + Z.of_nat i) = u64 (x + Z.of_nat (S i)).
Proof.
  unfold u64. rewrite Zplus_mod_idemp_l. f_equal. lia.
Qed.

(** What one call of eio_split_new_bio gives when it creates a sub-I/O:
    the vector it read is an entry of the array, the sub-I/O is for the
    sector [snum] and has the piece of that entry at [consumed]. *)
Lemma split_new_bio_spec (b : bio) (bc : Z) (idx : nat) (consumed snum : Z)
  (c : bio) (idx' : nat) (consumed' : Z) :
  eio_split_new_bio b bc idx consumed snum = passed (Some (c, idx', consumed')) ->
  exists v from,
    nth_error (bi_io_vec b) idx' = Some v
    /\ consumed' = u32 (from + split_iosize)
    /\ c = {| bi_bdev := bi_bdev b; bi_sector := snum; bi_size := split_iosize;
              bi_op := bi_op b; bi_op_flags := bi_op_flags b;
              bi_io_vec := [ {| bv_page := bv_page v;
                                bv_offset := u32 (bv_offset v + from);
                                bv_len := split_iosize |} ];
              bi_idx := 0%nat; bi_vcnt := 1%nat;
              bi_end_io := end_io_split; bi_private := bc |}.
Proof.
  unfold eio_split_new_bio. fold split_iosize.
  destruct (bio_alloc_split b snum); cbn [negb]; [|discriminate].
  destruct (nth_error (bi_io_vec b) idx) as [v0|]; [|discriminate].
  destruct (split_iosize <=? bv_len v0); cbn [negb]; [|discriminate].
  destruct (bv_len v0 <=? consumed); cbn [andb].
  - destruct (bv_len v0 =? consumed); cbn [negb]; [|discriminate].
    destruct (S idx <? bi_vcnt b)%nat; cbn [negb]; [|discriminate].
    destruct (nth_error (bi_io_vec b) (S idx)) as [v|] eqn:Hv; [|discriminate].
    intros H. injection H as <- <- <-. exists v, 0. rewrite Hv. repeat split.
  - destruct (nth_error (bi_io_vec b) idx) as [v|] eqn:Hv; [|discriminate].
    intros H. injection H as <- <- <-. exists v, consumed. rewrite Hv. repeat split.
Qed.

(** The sub-I/Os the loop of the splitter creates, as far as it gets:
    the i-th is for the sector [snum + i], and when none is missing
    there are [n]. *)
Lemma split_loop_subs (b : bio) (bc : Z) :
  forall (n : nat) (idx : nat) (consumed snum : Z) (subs : list bio) (ok : bool),
    0 <= snum < 2 ^ 64 ->
    split_loop n b bc idx consumed snum = passed (subs, ok) ->
    (ok = true -> length subs = n)
    /\ (forall i c, nth_error subs i = Some c ->
          is_sub_io b bc (u64 (snum + Z.of_nat i)) c).
Proof.
  induction n as [|n IH]; intros idx consumed snum subs ok Hs Hrun;
    cbn [split_loop] in Hrun.
  - injection Hrun as <- <-. split; [reflexivity|].
    intros [|i] c H; discriminate.
  - destruct (eio_split_new_bio b bc idx consumed snum) as [s|[[[c0 idx'] consumed']|]]
      eqn:Hnew; [discriminate| |].
    + destruct (split_loop n b bc idx' consumed' (u64 (snum + 1)))
        as [s|[rest ok']] eqn:Hrest; [discriminate|].
      injection Hrun as <- <-.
      destruct (IH _ _ _ _ _ (u64_range _) Hrest) as [Hlen Hsub].
      split; [intros Hok; cbn [length]; rewrite (Hlen Hok); reflexivity|].
      intros [|i] c Hc; cbn [nth_error] in Hc.
      * injection Hc as <-.
        destruct (split_new_bio_spec _ _ _ _ _ _ _ _ Hnew) as (v & from & _ & _ & ->).
        unfold is_sub_io. cbn. rewrite Z.add_0_r, (u64_small _ Hs). repeat split.
      * rewrite <- u64_succ. apply Hsub. exact Hc.
    + injection Hrun as <- <-. split; [discriminate|].
      intros [|i] c H; discriminate.
Qed.

(** Each of them has one vector. *)
Lemma split_loop_one_vector (b : bio) (bc : Z) :
  forall (n : nat) (idx : nat) (consumed snum : Z) (subs : list bio) (ok : bool),
    split_loop n b bc idx consumed snum = passed (subs, ok) ->
    Forall one_vector subs.
Proof.
  induction n as [|n IH]; intros idx consumed snum subs ok Hrun;
    cbn [split_loop] in Hrun.
  - injection Hrun as <- <-. constructor.
  - destruct (eio_split_new_bio b bc idx consumed snum) as [s|[[[c0 idx'] consumed']|]]
      eqn:Hnew; [discriminate| |].
    + destruct (split_loop n b bc idx' consumed' (u64 (snum + 1)))
        as [s|[rest ok']] eqn:Hrest; [discriminate|].
      injection Hrun as <- <-.
      constructor; [|exact (IH _ _ _ _ _ Hrest)].
      destruct (split_new_bio_spec _ _ _ _ _ _ _ _ Hnew) as (v & from & _ & _ & ->).
      split; reflexivity.
    + injection Hrun as <- <-. constructor.
Qed.

Lemma vec_slices_cons (iosize : Z) (v : bio_vec) (from : Z) :
  0 < iosize -> 0 <= from -> from + iosize <= bv_len v ->
  bv_len v mod iosize = 0 -> from mod iosize = 0 ->
  vec_slices iosize v from
  = {| bv_page := bv_page v; bv_offset := u32 (bv_offset v + from); bv_len := iosize |}
      :: vec_slices iosize v (from + iosize).
Proof.
  intros Hio Hfrom Hle Hlen Hmod. unfold vec_slices.
  assert (Hdiv : (bv_len v - from) / iosize = (bv_len v - (from + iosize)) / iosize + 1).
  { replace (bv_len v - from) with (bv_len v - (from + iosize) + 1 * iosize) by lia.
    rewrite Z.div_add by lia. reflexivity. }
  assert (Hnn : 0 <= (bv_len v - (from + iosize)) / iosize)
    by (apply Z.div_pos; lia).
  rewrite Hdiv, Z2Nat.inj_add by lia.
  change (Z.to_nat 1) with 1%nat. rewrite Nat.add_1_r.
  cbn [seq map]. f_equal.
  - f_equal. f_equal. lia.
  - rewrite <- seq_shift, map_map. apply map_ext. intros j.
    f_equal. f_equal. lia.
Qed.

Lemma vec_slices_end (iosize : Z) (v : bio_vec) :
  0 < iosize -> vec_slices iosize v (bv_len v) = [].
Proof.
  intros Hio. unfold vec_slices. rewrite Z.sub_diag, Z.div_0_l by lia. reflexivity.
Qed.

Lemma skipn_nth_cons {A : Type} (d : A) :
  forall (l : list A) (i : nat),
    (i < length l)%nat -> skipn i l = nth i l d :: skipn (S i) l.
Proof.
  induction l as [|x l IH]; intros i Hi; [simpl in Hi; lia|].
  destruct i as [|i]; [reflexivity|].
  simpl. apply IH. simpl in Hi. lia.
Qed.

Lemma slices_from_next (iosize : Z) (vecs : list bio_vec) (idx : nat) :
  0 < iosize ->
  slices_from iosize vecs idx (bv_len (nth idx vecs bio_vec_zero))
  = if (S idx <? length vecs)%nat then slices_from iosize vecs (S idx) 0 else [].
Proof.
  intros Hio. unfold slices_from. rewrite vec_slices_end by exact Hio. cbn [app].
  destruct (Nat.ltb_spec (S idx) (length vecs)) as [Hlt|Hge].
  - rewrite (skipn_nth_cons bio_vec_zero vecs (S idx) Hlt). reflexivity.
  - rewrite skipn_all2 by lia. reflexivity.
Qed.


(** On an I/O that can be taken apart the loop never stops: it creates
    sub-I/Os until one cannot be allocated, and their vectors are the
    pieces of the buffers of the I/O, in order. *)
Lemma split_loop_slices (b : bio) (bc : Z) :
  0 < split_iosize ->
  bi_vcnt b = length (bi_io_vec b) ->
  Forall (sliceable split_iosize) (bi_io_vec b) ->
  forall (n : nat) (idx : nat) (consumed snum : Z),
    (idx < length (bi_io_vec b))%nat ->
    0 <= consumed <= bv_len (nth idx (bi_io_vec b) bio_vec_zero) ->
    consumed mod split_iosize = 0 ->
    (n <= length (slices_from split_iosize (bi_io_vec b) idx consumed))%nat ->
    exists subs ok,
      split_loop n b bc idx consumed snum = passed (subs, ok)
      /\ flat_map bi_io_vec subs
         = firstn (length subs) (slices_from split_iosize (bi_io_vec b) idx consumed)
      /\ (ok = true -> length subs = n)
      /\ ((forall s, bio_alloc_split b s = true) -> ok = true).
Proof.
  intros Hio Hvcnt Hall.
  assert (Hnth : forall i, (i < length (bi_io_vec b))%nat ->
                           sliceable split_iosize (nth i (bi_io_vec b) bio_vec_zero)).
  { intros i Hi. rewrite Forall_forall in Hall. apply Hall. apply nth_In. exact Hi. }
  assert (Hwhole : forall x, 0 < x -> x mod split_iosize = 0 -> split_iosize <= x).
  { intros x Hx Hm. destruct (Z.lt_ge_cases x split_iosize) as [Hs|Hs]; [|lia].
    rewrite Z.mod_small in Hm by lia. lia. }
  induction n as [|n IH]; intros idx consumed snum Hidx Hcons Hmod Hn.
  - exists [], true. repeat split; reflexivity.
  - cbn [split_loop]. unfold eio_split_new_bio. fold split_iosize.
    destruct (bio_alloc_split b snum) eqn:Halloc; cbn [negb].
    2:{ exists [], false. split; [reflexivity|]. split; [reflexivity|].
        split; [discriminate|]. intros H. rewrite H in Halloc. discriminate. }
    rewrite (nth_error_nth' _ bio_vec_zero Hidx).
    set (v := nth idx (bi_io_vec b) bio_vec_zero) in *.
    destruct (Hnth idx Hidx) as [Hvlen Hvmod]. fold v in Hvlen, Hvmod.
    replace (split_iosize <=? bv_len v) with true
      by (symmetry; apply Z.leb_le; apply Hwhole; lia).
    cbn [negb].
    destruct (Z.leb_spec (bv_len v) consumed) as [Hfull|Hroom]; cbn [andb].
    + assert (Hc : consumed = bv_len v) by lia. subst consumed.
      rewrite Z.eqb_refl. cbn [negb].
      unfold v in Hn. rewrite slices_from_next in Hn by exact Hio.
      destruct (Nat.ltb_spec (S idx) (length (bi_io_vec b))) as [Hlt|Hge];
        [|simpl in Hn; lia].
      replace (S idx <? bi_vcnt b)%nat with true
        by (symmetry; apply Nat.ltb_lt; rewrite Hvcnt; exact Hlt).
      cbn [negb].
      rewrite (nth_error_nth' _ bio_vec_zero Hlt).
      set (v' := nth (S idx) (bi_io_vec b) bio_vec_zero) in *.
      destruct (Hnth (S idx) Hlt) as [Hvlen' Hvmod']. fold v' in Hvlen', Hvmod'.
      assert (Hfit : split_iosize <= bv_len v') by (apply Hwhole; lia).
      assert (Hu : u32 (0 + split_iosize) = split_iosize)
        by (unfold u32; apply Z.mod_small; lia).
      assert (Hslices : slices_from split_iosize (bi_io_vec b) (S idx) 0
                        = {| bv_page := bv_page v'; bv_offset := u32 (bv_offset v' + 0);
                             bv_len := split_iosize |}
                            :: slices_from split_iosize (bi_io_vec b) (S idx)
                                 (u32 (0 + split_iosize))).
      { unfold slices_from at 1. fold v'.
        rewrite (vec_slices_cons split_iosize v' 0) by (try lia; apply Z.mod_0_l; lia).
        rewrite Hu. reflexivity. }
      destruct (IH (S idx) (u32 (0 + split_iosize)) (u64 (snum + 1)))
        as (subs & ok & Hrun & Hvecs & Hlen & Hok).
      * exact Hlt.
      * fold v'. rewrite Hu. lia.
      * rewrite Hu. apply Z.mod_same. lia.
      * rewrite Hslices in Hn. cbn [length] in Hn. lia.
      * rewrite Hrun. eexists; eexists. split; [reflexivity|].
        split; [|split; [intros H; cbn [length]; rewrite (Hlen H); reflexivity|exact Hok]].
        cbn [flat_map bi_io_vec app length]. rewrite Hvecs.
        unfold v. rewrite slices_from_next by exact Hio.
        replace (S idx <? length (bi_io_vec b))%nat with true
          by (symmetry; apply Nat.ltb_lt; exact Hlt).
        rewrite Hslices. reflexivity.
    + rewrite (nth_error_nth' _ bio_vec_zero Hidx). fold v.
      assert (Hfit : consumed + split_iosize <= bv_len v).
      { assert (Hd : (bv_len v - consumed) mod split_iosize = 0).
        { rewrite Zminus_mod, Hvmod, Hmod. simpl. apply Z.mod_0_l. lia. }
        assert (split_iosize <= bv_len v - consumed) by (apply Hwhole; lia). lia. }
      assert (Hu : u32 (consumed + split_iosize) = consumed + split_iosize)
        by (unfold u32; apply Z.mod_small; lia).
      assert (Hslices : slices_from split_iosize (bi_io_vec b) idx consumed
                        = {| bv_page := bv_page v; bv_offset := u32 (bv_offset v + consumed);
                             bv_len := split_iosize |}
                            :: slices_from split_iosize (bi_io_vec b) idx
                                 (u32 (consumed + split_iosize))).
      { unfold slices_from. fold v.
        rewrite (vec_slices_cons split_iosize v consumed) by lia.
        rewrite Hu. reflexivity. }
      destruct (IH idx (u32 (consumed + split_iosize)) (u64 (snum + 1)))
        as (subs & ok & Hrun & Hvecs & Hlen & Hok).
      * exact Hidx.
      * fold v. rewrite Hu. lia.
      * rewrite Hu, Zplus_mod, Hmod, Z.mod_same by lia. simpl. apply Z.mod_0_l. lia.
      * rewrite Hslices in Hn. cbn [length] in Hn. lia.
      * rewrite Hrun. eexists; eexists. split; [reflexivity|].
        split; [|split; [intros H; cbn [length]; rewrite (Hlen H); reflexivity|exact Hok]].
        cbn [flat_map bi_io_vec app length]. rewrite Hvecs, Hslices. reflexivity.
Qed.

(** The loop on an I/O that can be taken apart, from its current vector. *)
Lemma split_loop_passes (b : bio) (bc : Z) (snum : Z) :
  splittable b ->
  exists subs ok,
    split_loop (Z.to_nat (split_nbios b)) b bc (bi_idx b) 0 snum = passed (subs, ok)
    /\ ((forall s, bio_alloc_split b s = true) -> ok = true).
Proof.
  intros (Hvcnt & Hall & Hn).
  destruct (Z.to_nat (split_nbios b)) as [|n] eqn:En.
  - exists [], true. split; reflexivity.
  - assert (Hidx : (bi_idx b < length (bi_io_vec b))%nat).
    { destruct (Nat.lt_ge_cases (bi_idx b) (length (bi_io_vec b))) as [H|H];
        [exact H|].
      unfold slices_from in Hn. rewrite nth_overflow, skipn_all2 in Hn by lia.
      cbn in Hn. lia. }
    assert (Hs : sliceable split_iosize (nth (bi_idx b) (bi_io_vec b) bio_vec_zero)).
    { rewrite Forall_forall in Hall. apply Hall. apply nth_In. exact Hidx. }
    destruct Hs as [Hl Hm].
    assert (Hio : 0 < split_iosize).
    { assert (H0 : 0 <= split_iosize)
        by (unfold split_iosize, u32; apply Z.mod_pos_bound; lia).
      destruct (Z.eq_dec split_iosize 0) as [E|E]; [|lia].
      rewrite E, Z.mod_0_r in Hm. lia. }
    destruct (split_loop_slices b bc Hio Hvcnt Hall (S n) (bi_idx b) 0 snum)
      as (subs & ok & Hrun & _ & _ & Hok).
    + exact Hidx.
    + lia.
    + apply Z.mod_0_l. lia.
    + exact Hn.
    + exists subs, ok. split; [exact Hrun|exact Hok].
Qed.

(** An I/O of one sector that touches a partition lies within it. *)
Lemma single_sector_fits (c : bio) (d : cache_c) :
  eio_to_sector (bi_size c) = 1 ->
  0 <= bi_sector c < 2 ^ 64 ->
  bio_overlaps c d = true -> bio_fits c d = true.
Proof.
  intros H1 Hs. unfold bio_overlaps, bio_fits, bio_last_sector.
  rewrite H1. replace (bi_sector c + 1 - 1) with (bi_sector c) by ring.
  rewrite (u64_small _ Hs). intros H.
  apply orb_prop in H. destruct H; assumption.
Qed.

Lemma scan_single_sector (st : ttc_state) (c : bio) :
  eio_to_sector (bi_size c) = 1 ->
  0 <= bi_sector c < 2 ^ 64 ->
  forall l f0, snd (ttc_scan st c l f0) = false.
Proof.
  intros H1 Hs. induction l as [|a1 l IH]; intros f0; simpl.
  - reflexivity.
  - destruct (same_disk (caches st a1) (bi_bdev c)); simpl; [|apply IH].
    destruct (is_whole_disk (dev_info (caches st a1))); [reflexivity|].
    destruct (bio_fits c (caches st a1)) eqn:Hfit; [reflexivity|].
    destruct (bio_overlaps c (caches st a1)) eqn:Hov; [|apply IH].
    rewrite (single_sector_fits c _ H1 Hs Hov) in Hfit. discriminate.
Qed.

Lemma mfn_eqb_eq (f g : make_request_fn_t) : mfn_eqb f g = true <-> f = g.
Proof.
  destruct f, g; simpl; split; intros H; try discriminate; try reflexivity.
  - apply Z.eqb_eq in H. congruence.
  - inversion H. apply Z.eqb_refl.
Qed.

Lemma mfn_eqb_neq (f g : make_request_fn_t) : mfn_eqb f g = false <-> f <> g.
Proof.
  split.
  - intros H Heq. apply mfn_eqb_eq in Heq. congruence.
  - intros H. destruct (mfn_eqb f g) eqn:E; [|reflexivity].
    apply mfn_eqb_eq in E. contradiction.
Qed.

(** The entry point the scan hands to the passthrough path is one saved
    by a binding of the disk, if the list has any. *)
Lemma scan_passthrough_origmfn (st : ttc_state) (c : bio) :
  forall l f0 f,
    (forall a, In a l -> same_disk (caches st a) (bi_bdev c) = true ->
               driver_mfn (origmfn (caches st a))) ->
    f0 = mfn_null \/ driver_mfn f0 ->
    ttc_scan st c l f0 = (None, f, false) ->
    driver_mfn f
    \/ (f = mfn_null
        /\ forall a, In a l -> same_disk (caches st a) (bi_bdev c) = false).
Proof.
  induction l as [|a1 l IH]; intros f0 f Hok Hf0 Hscan; simpl in Hscan.
  - inversion Hscan; subst. destruct Hf0 as [->|Hd]; [right|left; exact Hd].
    split; [reflexivity|]. intros a [].
  - destruct (same_disk (caches st a1) (bi_bdev c)) eqn:Hsame; simpl in Hscan.
    + destruct (is_whole_disk (dev_info (caches st a1))); [discriminate|].
      destruct (bio_fits c (caches st a1)); [discriminate|].
      destruct (bio_overlaps c (caches st a1)); [discriminate|].
      assert (Hd : driver_mfn
                (if mfn_eqb f0 mfn_null then origmfn (caches st a1) else f0)).
      { destruct (mfn_eqb f0 mfn_null) eqn:E.
        - apply Hok; [left; reflexivity|exact Hsame].
        - destruct Hf0 as [->|Hd]; [discriminate|exact Hd]. }
      destruct (IH _ f (fun a Ha => Hok a (or_intror Ha)) (or_intror Hd) Hscan)
        as [Hf|[Hf _]]; [left; exact Hf|].
      subst f. left.
      (* the scan never resets a saved entry point *)
      clear - Hd Hscan. exfalso.
      revert Hd Hscan.
      generalize (if mfn_eqb f0 mfn_null then origmfn (caches st a1) else f0).
      induction l as [|a2 l IHl]; intros g Hg Hscan; simpl in Hscan.
      * inversion Hscan; subst. destruct Hg as [Hg _]. apply Hg; reflexivity.
      * destruct (same_disk (caches st a2) (bi_bdev c)); simpl in Hscan;
          [|exact (IHl g Hg Hscan)].
        destruct (is_whole_disk (dev_info (caches st a2))); [discriminate|].
        destruct (bio_fits c (caches st a2)); [discriminate|].
        destruct (bio_overlaps c (caches st a2)); [discriminate|].
        assert (E : mfn_eqb g mfn_null = false)
          by (apply mfn_eqb_neq; apply Hg).
        rewrite E in Hscan. exact (IHl g Hg Hscan).
    + destruct (IH f0 f (fun a Ha => Hok a (or_intror Ha)) Hf0 Hscan)
        as [Hf|[Hf Hnone]]; [left; exact Hf|right].
      split; [exact Hf|]. intros a [<-|Ha]; [exact Hsame|apply Hnone; exact Ha].
Qed.

Lemma scan_overlap_same_disk (st : ttc_state) (b : bio) :
  forall l f0,
    snd (ttc_scan st b l f0) = true ->
    exists a, In a l /\ same_disk (caches st a) (bi_bdev b) = true.
Proof.
  induction l as [|a1 l IH]; intros f0 H; simpl in H.
  - discriminate.
  - destruct (same_disk (caches st a1) (bi_bdev b)) eqn:Hsame; simpl in H.
    + exists a1. split; [left; reflexivity|exact Hsame].
    + destruct (IH f0 H) as (a & Ha & Hs). exists a. split; [right; exact Ha|exact Hs].
Qed.

(** Routing returns for an I/O of one sector, on the first pass, when
    the bindings of its disk hold a driver's entry point and there is at
    least one. *)
Lemma single_sector_returns (fuel : nat) (st : ttc_state) (q : Z) (c : bio) :
  eio_to_sector (bi_size c) = 1 ->
  0 <= bi_sector c < 2 ^ 64 ->
  (forall a, In a (eio_ttc_list st (EIO_HASH_BDEV (bd_contains (bi_bdev c)))) ->
             same_disk (caches st a) (bi_bdev c) = true ->
             driver_mfn (origmfn (caches st a))) ->
  (exists a, In a (eio_ttc_list st (EIO_HASH_BDEV (bd_contains (bi_bdev c))))
             /\ same_disk (caches st a) (bi_bdev c) = true) ->
  exists evs c',
    eio_make_request_fn (S fuel) st q c = Some (evs, c')
    /\ existsb (fun e => match e with ev_new_container _ _ => true | _ => false end)
         evs = false.
Proof.
  intros H1 Hs Hok (a0 & Ha0 & Hsame0). simpl.
  pose proof (scan_single_sector st c H1 Hs
                (eio_ttc_list st (EIO_HASH_BDEV (bd_contains (bi_bdev c)))) mfn_null)
    as Hnov.
  destruct (ttc_scan st c _ mfn_null) as [[r f] ov] eqn:Hscan.
  simpl in Hnov. subst ov.
  destruct r as [a|].
  - destruct (eio_map _ _) as [ret b2]. eexists; eexists; split; reflexivity.
  - destruct (scan_passthrough_origmfn st c _ _ _ Hok (or_introl eq_refl) Hscan)
      as [[Hn He]|[_ Hnone]].
    + apply mfn_eqb_neq in Hn, He. rewrite Hn, He.
      unfold hdd_make_request.
      destruct (bd_queue (bi_bdev c) =? 0);
        eexists; eexists; split; reflexivity.
    + rewrite (Hnone a0 Ha0) in Hsame0. discriminate.
Qed.

Lemma submit_all_returns (mrf : bio -> option (list event * bio)) (l : list bio) :
  (forall c, In c l -> exists evs c', mrf c = Some (evs, c')) ->
  exists evs, submit_all mrf l = Some evs.
Proof.
  induction l as [|c l IH]; intros H; simpl.
  - eexists; reflexivity.
  - destruct (H c (or_introl eq_refl)) as (evs & c' & Hc). rewrite Hc.
    destruct (IH (fun x Hx => H x (or_intror Hx))) as (evs' & Hl). rewrite Hl.
    eexists; reflexivity.
Qed.

Lemma endio_events_app (evs evs' : list event) :
  endio_events (evs ++ evs') = endio_events evs ++ endio_events evs'.
Proof.
  induction evs as [|e evs IH]; simpl; [reflexivity|].
  destruct e; simpl; rewrite ?IH; reflexivity.
Qed.

Lemma eio_split_endio_spec (p : Z) (bc : bio_container) (cbio : bio) (error : Z) :
  let r := eio_split_endio p bc cbio error in
  bc_holdcount (fst r) = bc_holdcount bc - 1
  /\ bc_error (fst r) = record_error (bc_error bc) error
  /\ bc_bio (fst r) = bc_bio bc
  /\ endio_events (snd r)
     = (if bc_holdcount bc - 1 =? 0
        then [(bc_bio bc, record_error (bc_error bc) error)] else []).
Proof.
  unfold eio_split_endio, record_error.
  destruct (error =? 0); simpl; destruct (bc_holdcount bc - 1 =? 0); simpl;
    repeat split.
Qed.

(** The completions of all sub-I/Os: the original I/O is completed
    once, with the error recorded last. *)
Lemma split_complete_run (p : Z) (ends : list (bio * Z)) :
  forall bc,
    bc_holdcount bc = Z.of_nat (length ends) ->
    ends <> [] ->
    bc_holdcount (fst (split_complete p bc ends)) = 0
    /\ endio_events (snd (split_complete p bc ends))
       = [(bc_bio bc, fold_left record_error (map snd ends) (bc_error bc))].
Proof.
  induction ends as [|[c e] rest IH]; intros bc Hc Hne; [contradiction|].
  simpl.
  destruct (eio_split_endio_spec p bc c e) as (Hh & He & Hb & Hev).
  destruct (eio_split_endio p bc c e) as [bc1 evs] eqn:H1. simpl in *.
  destruct (split_complete p bc1 rest) as [bc2 evs'] eqn:H2. simpl.
  rewrite endio_events_app, Hev.
  destruct rest as [|x rest'].
  - simpl in *. inversion H2; subst bc2 evs'.
    replace (bc_holdcount bc - 1 =? 0) with true by (symmetry; apply Z.eqb_eq; lia).
    split; [lia|]. reflexivity.
  - replace (bc_holdcount bc - 1 =? 0) with false
      by (symmetry; apply Z.eqb_neq; simpl length in Hc; lia).
    destruct (IH bc1) as (Hz & Hevs); [simpl length in *; lia|discriminate|].
    rewrite H2 in Hz, Hevs. simpl in Hz, Hevs.
    split; [exact Hz|]. rewrite Hevs, Hb, He. reflexivity.
Qed.

(** Before the last sub-I/O ends, the original I/O is not completed. *)
Lemma split_complete_prefix (p : Z) (pre : list (bio * Z)) :
  forall post bc,
    bc_holdcount bc = Z.of_nat (length (pre ++ post)) ->
    post <> [] ->
    endio_events (snd (split_complete p bc pre)) = []
    /\ 0 < bc_holdcount (fst (split_complete p bc pre)).
Proof.
  induction pre as [|[c e] rest IH]; intros post bc Hc Hne.
  - simpl in *. split; [reflexivity|].
    destruct post; [contradiction|]. simpl length in Hc. lia.
  - simpl.
    destruct (eio_split_endio_spec p bc c e) as (Hh & He & Hb & Hev).
    destruct (eio_split_endio p bc c e) as [bc1 evs] eqn:H1. simpl in *.
    destruct (IH post bc1) as (Hevs & Hpos).
    { rewrite Hh, Hc. lia. }
    { exact Hne. }
    destruct (split_complete p bc1 rest) as [bc2 evs'] eqn:H2. simpl in *.
    rewrite endio_events_app, Hev, Hevs.
    replace (bc_holdcount bc - 1 =? 0) with false.
    + split; [reflexivity|exact Hpos].
    + symmetry. apply Z.eqb_neq. rewrite Hc, length_app.
      destruct post; [contradiction|]. simpl length. lia.
Qed.

End SplitProperties.

Section SplitTheorem.
Context {hdr : EioHeader} {ext : Collaborators}.

Lemma make_request_split_eq (fuel : nat) (st : ttc_state) (q : Z) (b : bio)
  (f : make_request_fn_t) :
  ttc_scan st b (eio_ttc_list st (EIO_HASH_BDEV (bd_contains (bi_bdev b)))) mfn_null
  = (None, f, true) ->
  is_discard (bi_op b) = false ->
  eio_make_request_fn (S fuel) st q b
  = match eio_overlap_split_bio (eio_make_request_fn fuel st q) b with
    | passed (Some evs) =>
        Some ([ev_down_read (EIO_HASH_BDEV (bd_contains (bi_bdev b)));
               ev_up_read (EIO_HASH_BDEV (bd_contains (bi_bdev b)))] ++ evs, b)
    | passed None => None
    | stopped _ => None
    end.
Proof. intros Hscan Hd. simpl. rewrite Hscan, Hd. reflexivity. Qed.

(** C5, as the code has it.  A non-discard I/O of N >= 1 sectors that
    the scan classifies as overlapping, whose vectors hold these N
    sectors in whole sectors (on another I/O an assertion of
    eio_split_new_bio stops the splitter, see [split_stops_short_of_data]
    below), when the splitter's allocations
    succeed: N sub-I/Os are created, the i-th for the single sector
    [bi_sector + i], all pointing to one container whose hold count
    starts at N and whose error starts at 0; each sub-I/O is handed to
    eio_make_request_fn again, in order, and (the bindings of the disk
    holding a driver's entry point) each of these calls returns, so the
    split returns too; and whatever the order in which the N sub-I/Os
    end, each end lowers the hold count by one and a non-zero error
    replaces the recorded one, the original I/O is completed exactly
    once, by the end that brings the count to zero, the last, with the
    error recorded last (0 if every sub-I/O ended with 0). *)
Theorem overlap_split_per_sector (fuel : nat) (st : ttc_state) (q : Z) (b : bio) :
  route st b = ROUTE_SPLIT ->
  is_discard (bi_op b) = false ->
  0 <= bi_sector b < 2 ^ 64 ->
  1 <= split_nbios b ->
  splittable b ->
  kmalloc_bioptr b <> 0 ->
  kmalloc_bio_container b <> 0 ->
  (forall s, bio_alloc_split b s = true) ->
  eio_to_sector split_iosize = 1 ->
  (forall a, In a (eio_ttc_list st (EIO_HASH_BDEV (bd_contains (bi_bdev b)))) ->
             same_disk (caches st a) (bi_bdev b) = true ->
             driver_mfn (origmfn (caches st a))) ->
  let n := Z.to_nat (split_nbios b) in
  let bc := kmalloc_bio_container b in
  let container := {| bc_holdcount := Z.of_nat n; bc_bio := b; bc_error := 0 |} in
  exists subs evs,
    length subs = n
    /\ (forall i c, nth_error subs i = Some c ->
        is_sub_io b bc (u64 (bi_sector b + Z.of_nat i)) c)
    /\ submit_all (eio_make_request_fn (S fuel) st q) subs = Some evs
    /\ eio_make_request_fn (S (S fuel)) st q b
       = Some ([ev_down_read (EIO_HASH_BDEV (bd_contains (bi_bdev b)));
                ev_up_read (EIO_HASH_BDEV (bd_contains (bi_bdev b)));
                ev_new_container bc container]
                 ++ evs ++ [ev_kfree (kmalloc_bioptr b)], b)
    /\ (forall ends, length ends = n ->
        endio_events (snd (split_complete bc container ends))
        = [(b, last_error (map snd ends))]
        /\ bc_holdcount (fst (split_complete bc container ends)) = 0
        /\ (forall pre post, ends = pre ++ post -> post <> [] ->
            endio_events (snd (split_complete bc container pre)) = []
            /\ 0 < bc_holdcount (fst (split_complete bc container pre)))).
Proof.
  intros Hsplit Hd Hs Hn Hvecs Hptr Hbc Halloc Hone Hok n bc container.
  destruct (route_split_scan st b Hsplit) as [f Hscan].
  destruct (split_loop_passes b bc (bi_sector b) Hvecs) as (subs & ok & Hloop & Hall).
  rewrite (Hall Halloc) in Hloop. clear ok Hall.
  destruct (split_loop_subs b bc _ _ _ _ _ _ Hs Hloop) as [Hlen Hsub].
  specialize (Hlen eq_refl). fold n in Hlen, Hloop.
  assert (Hex : exists a,
             In a (eio_ttc_list st (EIO_HASH_BDEV (bd_contains (bi_bdev b))))
             /\ same_disk (caches st a) (bi_bdev b) = true).
  { apply (scan_overlap_same_disk st b _ mfn_null). rewrite Hscan. reflexivity. }
  destruct (submit_all_returns (eio_make_request_fn (S fuel) st q) subs) as [evs Hevs].
  { intros c Hc. apply In_nth_error in Hc. destruct Hc as [i Hi].
    destruct (Hsub i c Hi) as (Hbd & Hsec & Hsz & _).
    destruct (single_sector_returns fuel st q c) as (e & c' & Hr & _).
    - rewrite Hsz. exact Hone.
    - rewrite Hsec. apply u64_range.
    - rewrite Hbd. exact Hok.
    - rewrite Hbd. exact Hex.
    - exists e, c'. exact Hr. }
  assert (Hcont : new_container b = container).
  { unfold new_container, container, n. rewrite Z2Nat.id by lia. reflexivity. }
  exists subs, evs.
  split; [exact Hlen|]. split; [exact Hsub|]. split; [exact Hevs|].
  split.
  - rewrite (make_request_split_eq (S fuel) st q b f Hscan Hd).
    unfold eio_overlap_split_bio.
    apply Z.eqb_neq in Hptr, Hbc. rewrite Hptr, Hbc.
    fold bc n. rewrite Hloop. cbn [negb]. rewrite Hevs, Hcont. reflexivity.
  - intros ends Hends.
    assert (Hne : ends <> []).
    { intros ->. simpl in Hends. unfold n in Hends.
      assert (0 < Z.to_nat (split_nbios b))%nat by lia. lia. }
    destruct (split_complete_run bc ends container) as (Hz & Hev);
      [simpl; congruence|exact Hne|].
    split; [exact Hev|]. split; [exact Hz|].
    intros pre post -> Hpost.
    apply (split_complete_prefix bc pre post container); [simpl; congruence|exact Hpost].
Qed.

End SplitTheorem.

(** The read of [99, 100] on sda with A active crosses the start of
    sda1: it is split in two, the sub-I/O for sector 99 goes to the
    driver and the one for sector 100 to the cache engine as sector 0. *)
Example overlap_split_example :
  @eio_make_request_fn sample_header quiet 2 st_A 500 (read_at 99 2)
  = Some ([ev_down_read 0%nat; ev_up_read 0%nat;
           ev_new_container 8192
             {| bc_holdcount := 2; bc_bio := read_at 99 2; bc_error := 0 |};
           ev_down_read 0%nat; ev_up_read 0%nat;
           ev_make_request (mfn_driver 7) (sub_read 99 0);
           ev_down_read 0%nat; ev_eio_map 1000 (sub_read 0 512);
           ev_up_read 0%nat;
           ev_kfree 4096], read_at 99 2).
Proof. vm_compute. reflexivity. Qed.

(** C5, on the same read: two sub-I/Os, and when the first to end does
    so with -ENOMEM and the second with 0 the read is completed once,
    with -ENOMEM. *)
Lemma overlap_split_per_sector_witness :
  exists (subs : list bio) (evs : list event) (container : bio_container),
    length subs = 2%nat
    /\ @eio_make_request_fn sample_header quiet 2 st_A 500 (read_at 99 2)
       = Some ([ev_down_read 0%nat; ev_up_read 0%nat;
                ev_new_container 8192 container]
                 ++ evs ++ [ev_kfree 4096], read_at 99 2)
    /\ (forall c1 c2,
        endio_events (snd (@split_complete 8192 container [(c1, -12); (c2, 0)]))
        = [(read_at 99 2, -12)]).
Proof.
  destruct (@overlap_split_per_sector sample_header quiet 0 st_A 500 (read_at 99 2))
    as (subs & evs & Hlen & Hsub & Hsubmit & Hrun & Hdone).
  - vm_compute; reflexivity.
  - reflexivity.
  - vm_compute; split; [discriminate|reflexivity].
  - vm_compute; discriminate.
  - split; [reflexivity|]. split; [|vm_compute; lia].
    repeat constructor; vm_compute; try reflexivity; discriminate.
  - vm_compute; discriminate.
  - vm_compute; discriminate.
  - reflexivity.
  - vm_compute; reflexivity.
  - intros a Ha _. vm_compute in Ha. destruct Ha as [<-|[]].
    vm_compute. split; discriminate.
  - exists subs, evs. eexists.
    split; [exact Hlen|]. split; [exact Hrun|].
    intros c1 c2. apply (Hdone [(c1, -12); (c2, 0)] eq_refl).
Defined.

(** C5 as stated fails: when the sub-I/O for sector 99 ends with -EIO
    and then the one for sector 100 with -ENOMEM, the first non-zero
    error observed is -EIO and the original I/O is completed with
    -ENOMEM. *)
Lemma split_first_error_not_recorded :
  let b := read_at 99 2 in
  let container := @new_container sample_header b in
  let ends := [(set_bi_sector 99 b, -5); (set_bi_sector 100 b, -12)] in
  @route sample_header st_A b = ROUTE_SPLIT
  /\ bc_holdcount container = 2
  /\ first_error (map snd ends) = -5
  /\ endio_events (snd (@split_complete 8192 container ends)) = [(b, -12)].
Proof. repeat split; vm_compute; reflexivity. Qed.

(** ** Deactivation *)

Section DeactivateProperties.
Context {hdr : EioHeader} {ext : Collaborators}.





Lemma clean_loop_zero (fuel : nat) :
  forall d ret d',
    clean_loop fuel d = Some (ret, d') ->
    ret = 0 ->
    nr_dirty d' <= 0 \/ sysctl_fast_remove d' <> 0
    \/ flag_set (cache_flags d') CACHE_FLAGS_SHUTDOWN_INPROG = true.
Proof.
  induction fuel as [|f IH]; intros d ret d' H Hret; simpl in H; [discriminate|].
  destruct (CACHE_FAILED_IS_SET d).
  { inversion H; subst. discriminate. }
  set (d1 := if sysctl_fast_remove d =? 0 then eio_clean_all d else d) in *.
  destruct (Z.eqb_spec (sysctl_fast_remove d1) 0) as [Hfr|Hfr]; simpl in H.
  - destruct (Z.ltb_spec 0 (nr_dirty d1)) as [Hnd|Hnd]; simpl in H.
    + destruct (flag_set (cache_flags d1) CACHE_FLAGS_SHUTDOWN_INPROG) eqn:Hsh;
        simpl in H.
      * inversion H; subst. right. right. exact Hsh.
      * eapply IH; eassumption.
    + inversion H; subst. left. exact Hnd.
  - inversion H; subst. right. left. exact Hfr.
Qed.

(** The drain returns 0 only with no dirty block left, unless
    sysctl_active.fast_remove is set. *)
Lemma finish_nrdirty_zero (fuel : nat) (st : ttc_state) (a : Z) :
  forall st1 evs,
    eio_finish_nrdirty fuel st a = Some (0, st1, evs) ->
    nr_dirty (caches st1 a) <= 0 \/ sysctl_fast_remove (caches st1 a) <> 0.
Proof.
  intros st1 evs. unfold eio_finish_nrdirty.
  destruct (disk_dev (caches st a)); [|discriminate].
  destruct (wait_nr_ios fuel (caches st a)) as [d1|]; [|discriminate].
  destruct (clean_loop fuel _) as [[r d3]|] eqn:Hc; [|discriminate].
  simpl.
  destruct (Z.ltb_spec 0 (nr_dirty d3)) as [Hnd|Hnd].
  - destruct (flag_set (cache_flags d3) CACHE_FLAGS_SHUTDOWN_INPROG) eqn:Hsh; simpl.
    + intros H; inversion H.
    + destruct (FINISH_NRDIRTY_RETRY_COUNT =? 0); simpl.
      * intros H; inversion H.
      * intros H; inversion H; subst. simpl. unfold upd. rewrite Z.eqb_refl. simpl.
        destruct (clean_loop_zero _ _ _ _ Hc eq_refl) as [Hz|[Hf|Hs]].
        -- left. exact Hz.
        -- right. exact Hf.
        -- simpl in Hs. congruence.
  - rewrite andb_false_r. intros H; inversion H; subst. simpl. unfold upd.
    rewrite Z.eqb_refl. simpl. left. exact Hnd.
Qed.


End DeactivateProperties.

(** A graceful deactivation drains the five dirty blocks and unlinks A;
    with a shutdown in progress the drain gives up, the call returns
    -EINVAL and A stays linked behind the interception function. *)
Example deactivate_graceful_examples :
  deactivation_summary (@eio_ttc_deactivate sample_header quiet 9 st_A_dirty 1000 0)
  = Some (0, [], mfn_driver 7, 0)
  /\ deactivation_summary
       (@eio_ttc_deactivate sample_header quiet 9 st_A_shutdown 1000 0)
     = Some (-22, [1000], mfn_eio, 4).
Proof. split; vm_compute; reflexivity. Qed.



(** ** The entry point of the device queue *)

Section EntryPoint.
Context {hdr : EioHeader} {ext : Collaborators}.

(** The disk [D], its queue [Q] and the entry point [orig] the driver of
    the disk installed. *)
Variables (D Q : Z) (orig : make_request_fn_t).

Lemma placement_on_disk (d d' : cache_c) :
  placement d' = placement d -> on_disk D d' = on_disk D d.
Proof. unfold placement, on_disk. intros H. inversion H. reflexivity. Qed.

Lemma same_view_bound (st st' : ttc_state) (a : Z) :
  same_view st st' -> (bound D st' a <-> bound D st a).
Proof.
  intros (Hp & Hl & _). unfold bound.
  rewrite Hl, (placement_on_disk _ _ (Hp a)). reflexivity.
Qed.

Lemma same_view_inv (st st' : ttc_state) :
  same_view st st' -> entry_point_inv D Q orig st -> entry_point_inv D Q orig st'.
Proof.
  intros Hv [H1 H2]. pose proof Hv as (Hp & Hl & Hrq). split.
  - intros a Ha. apply (same_view_bound _ _ _ Hv) in Ha.
    destruct (H1 a Ha) as (Hq & Ho & Hw).
    pose proof (Hp a) as Hpa. unfold placement in Hpa. inversion Hpa as [[Hd Hi Hm]].
    rewrite Hrq, Hi, Hm. split; [exact Hq|]. split; [exact Ho|].
    intros Hwd a' Ha'. apply Hw; [exact Hwd|].
    apply (same_view_bound _ _ _ Hv). exact Ha'.
  - intros Hnone. rewrite Hrq. apply H2.
    intros a Ha. apply (Hnone a). apply (same_view_bound _ _ _ Hv). exact Ha.
Qed.

Lemma same_disk_on_disk (d : cache_c) (bdev : block_device) :
  bd_contains bdev = D -> same_disk d bdev = on_disk D d.
Proof. intros H. unfold same_disk, on_disk. rewrite H. reflexivity. Qed.

(** What the loop of activation found when it reports no conflict. *)
Lemma activate_scan_spec (st : ttc_state) (bdev : block_device) (w : bool) :
  forall l f,
    activate_scan st bdev w l = (false, f) ->
    (f = mfn_null
     /\ forall a1, In a1 l -> same_disk (caches st a1) bdev = false)
    \/ (exists p, In p l
          /\ same_disk (caches st p) bdev = true
          /\ f = origmfn (caches st p)
          /\ w = false
          /\ is_whole_disk (dev_info (caches st p)) = false).
Proof.
  induction l as [|a1 l IH]; intros f H; simpl in H.
  - inversion H; subst. left. split; [reflexivity|]. intros a1 [].
  - destruct (same_disk (caches st a1) bdev) eqn:Hsame; simpl in H.
    + destruct w; simpl in H; [discriminate|].
      destruct (is_whole_disk (dev_info (caches st a1))) eqn:Hw; simpl in H;
        [discriminate|].
      destruct (same_bdev (caches st a1) bdev); simpl in H; [discriminate|].
      inversion H; subst. right. exists a1.
      split; [left; reflexivity|]. repeat split; assumption.
    + destruct (IH f H) as [[Hf Hnone]|(p & Hp & Hrest)].
      * left. split; [exact Hf|].
        intros x [<-|Hx]; [exact Hsame|apply Hnone; exact Hx].
      * right. exists p. split; [right; exact Hp|exact Hrest].
Qed.

Lemma found_partitions_spec (st : ttc_state) (bdev : block_device) (a : Z) :
  forall l,
    found_partitions st bdev a l = true
    <-> exists x, In x l /\ x <> a /\ same_disk (caches st x) bdev = true.
Proof.
  induction l as [|a1 l IH]; simpl.
  - split; [discriminate|]. intros (x & [] & _).
  - destruct (Z.eqb_spec a1 a) as [->|Hne].
    + rewrite IH. split.
      * intros (x & Hx & Hrest). exists x. split; [right; exact Hx|exact Hrest].
      * intros (x & [<-|Hx] & Hxa & Hs); [contradiction|].
        exists x. repeat split; assumption.
    + destruct (same_disk (caches st a1) bdev) eqn:Hsame; simpl.
      * split; [|reflexivity]. intros _. exists a1.
        split; [left; reflexivity|]. split; assumption.
      * rewrite IH. split.
        -- intros (x & Hx & Hrest). exists x. split; [right; exact Hx|exact Hrest].
        -- intros (x & [<-|Hx] & Hxa & Hs); [congruence|].
           exists x. repeat split; assumption.
Qed.

Hypothesis orig_not_eio : orig <> mfn_eio.
Hypothesis orig_not_null : orig <> mfn_null.

(** Activation keeps the invariant. *)
Lemma activate_preserves (st : ttc_state) (a : Z) :
  for_disk D Q st a ->
  ~ In a (eio_ttc_list st (EIO_HASH_BDEV D)) ->
  entry_point_inv D Q orig st ->
  entry_point_inv D Q orig (snd (fst (eio_ttc_activate st a))).
Proof.
  intros (bdev & Hdev & HD & HQ) Hfresh Hinv.
  unfold eio_ttc_activate. rewrite Hdev, HD, HQ.
  set (st1 := set_cache a _ st).
  assert (Hv : same_view st st1).
  { split; [|split; reflexivity].
    intros x. subst st1. simpl. unfold upd.
    destruct (Z.eqb_spec x a) as [->|Hx]; reflexivity. }
  pose proof (same_view_inv _ _ Hv Hinv) as Hinv1.
  assert (Hdev1 : disk_dev (caches st1 a) = Some bdev).
  { subst st1. simpl. unfold upd. rewrite Z.eqb_refl. simpl. exact Hdev. }
  assert (Hl1 : eio_ttc_list st1 (EIO_HASH_BDEV D) = eio_ttc_list st (EIO_HASH_BDEV D))
    by reflexivity.
  assert (Hfresh1 : ~ In a (eio_ttc_list st1 (EIO_HASH_BDEV D)))
    by (rewrite Hl1; exact Hfresh).
  clearbody st1. clear Hv Hinv Hdev Hl1 Hfresh.
  assert (Hon' : forall f i, on_disk D (set_origmfn f i (caches st1 a)) = true).
  { intros f i. unfold on_disk. simpl. rewrite Hdev1. apply Z.eqb_eq. exact HD. }
  destruct (activate_scan st1 bdev (bd_dev bdev =? D) (eio_ttc_list st1 (EIO_HASH_BDEV D)))
    as [c f] eqn:Hscan.
  destruct c; [exact Hinv1|].
  destruct Hinv1 as [H1 H2].
  destruct (activate_scan_spec _ _ _ _ _ Hscan)
    as [[Hf Hnone]|(p & Hp & Hsame & Hf & Hw & Hpw)].
  - (* no binding of the disk yet *)
    subst f. simpl mfn_eqb. cbv iota.
    assert (Hfree : forall x, ~ bound D st1 x).
    { intros x [Hx Hxd]. rewrite <- (same_disk_on_disk _ bdev HD) in Hxd.
      rewrite (Hnone x Hx) in Hxd. discriminate. }
    pose proof (H2 Hfree) as Hrq.
    assert (Hb : forall x,
               bound D (set_list (EIO_HASH_BDEV D)
                        (eio_ttc_list st1 (EIO_HASH_BDEV D) ++ [a])
                        (set_rq Q mfn_eio
                           (set_cache a
                              (set_origmfn (rq_make_request_fn st1 Q)
                                 (if bd_dev bdev =? D then EIO_DEV_WHOLE_DISK
                                  else EIO_DEV_PARTITION) (caches st1 a)) st1))) x
               <-> x = a).
    { intros x. unfold bound. simpl. unfold upd_nat, upd. rewrite Nat.eqb_refl.
      destruct (Z.eqb_spec x a) as [->|Hx].
      - split; [reflexivity|]. intros _. split; [|apply Hon'].
        apply in_or_app. right. left. reflexivity.
      - split; [|contradiction]. intros [Hin Hd]. exfalso.
        apply in_app_or in Hin. destruct Hin as [Hin|[Hin|[]]]; [|congruence].
        apply (Hfree x). split; assumption. }
    split.
    + intros x Hx. pose proof (proj1 (Hb x) Hx) as ->. clear Hx.
      simpl. unfold upd. rewrite !Z.eqb_refl. simpl.
      split; [reflexivity|]. split; [exact Hrq|].
      intros _ a' Ha'. apply (Hb a'). exact Ha'.
    + intros Hn. exfalso. apply (Hn a). apply Hb. reflexivity.
  - (* a sibling partition is linked *)
    assert (Hpb : bound D st1 p).
    { split; [exact Hp|]. rewrite <- (same_disk_on_disk _ bdev HD). exact Hsame. }
    destruct (H1 p Hpb) as (Hrq & Hpo & _).
    assert (Hfo : f = orig) by congruence.
    assert (Hfn : mfn_eqb f mfn_null = false).
    { apply mfn_eqb_neq. rewrite Hfo. exact orig_not_null. }
    rewrite Hfn.
    assert (Hb : forall x,
               bound D (set_list (EIO_HASH_BDEV D)
                        (eio_ttc_list st1 (EIO_HASH_BDEV D) ++ [a])
                        (set_cache a (set_origmfn f EIO_DEV_PARTITION (caches st1 a))
                           st1)) x
               <-> x = a \/ (x <> a /\ bound D st1 x)).
    { intros x. unfold bound. simpl. unfold upd_nat, upd. rewrite Nat.eqb_refl.
      destruct (Z.eqb_spec x a) as [->|Hx].
      - split; [left; reflexivity|]. intros _. split; [|apply Hon'].
        apply in_or_app. right. left. reflexivity.
      - split.
        + intros [Hin Hd]. right. split; [exact Hx|].
          apply in_app_or in Hin. destruct Hin as [Hin|[Hin|[]]]; [|congruence].
          split; assumption.
        + intros [Heq|[_ [Hin Hd]]]; [contradiction|].
          split; [apply in_or_app; left; exact Hin|exact Hd]. }
    split.
    + intros x Hx. apply Hb in Hx. simpl. unfold upd.
      destruct Hx as [->|[Hxa Hxb]].
      * rewrite Z.eqb_refl. simpl. split; [exact Hrq|]. split; [exact Hfo|].
        discriminate.
      * apply Z.eqb_neq in Hxa. rewrite Hxa.
        destruct (H1 x Hxb) as (_ & Hxo & Hxw).
        split; [exact Hrq|]. split; [exact Hxo|].
        intros Hwd. exfalso.
        pose proof (Hxw Hwd p Hpb) as Hpx. subst p. congruence.
    + intros Hn. exfalso. apply (Hn a). apply Hb. left. reflexivity.
Qed.

(** The collaborators that run during a deactivation leave alone what
    the registry reads of a binding. *)
Hypothesis schedule_timeout_placement :
  forall d, placement (schedule_timeout d) = placement d.
Hypothesis eio_clean_all_placement :
  forall d, placement (eio_clean_all d) = placement d.

Lemma wait_nr_ios_placement (fuel : nat) :
  forall d d', wait_nr_ios fuel d = Some d' -> placement d' = placement d.
Proof.
  induction fuel as [|f IH]; intros d d' H; simpl in H.
  - destruct (nr_ios d =? 0); [|discriminate]. inversion H; reflexivity.
  - destruct (nr_ios d =? 0); [inversion H; reflexivity|].
    rewrite (IH _ _ H). apply schedule_timeout_placement.
Qed.

Lemma clean_loop_placement (fuel : nat) :
  forall d ret d', clean_loop fuel d = Some (ret, d') -> placement d' = placement d.
Proof.
  induction fuel as [|f IH]; intros d ret d' H; simpl in H; [discriminate|].
  destruct (CACHE_FAILED_IS_SET d); [inversion H; reflexivity|].
  assert (Hd1 : placement (if sysctl_fast_remove d =? 0 then eio_clean_all d else d)
                = placement d).
  { destruct (sysctl_fast_remove d =? 0);
      [apply eio_clean_all_placement|reflexivity]. }
  destruct (_ && _ && _) in H.
  - rewrite (IH _ _ _ H). exact Hd1.
  - inversion H; subst. exact Hd1.
Qed.

Lemma finish_nrdirty_view (fuel : nat) (st : ttc_state) (a : Z) :
  forall ret st1 evs,
    eio_finish_nrdirty fuel st a = Some (ret, st1, evs) -> same_view st st1.
Proof.
  intros ret st1 evs. unfold eio_finish_nrdirty.
  destruct (disk_dev (caches st a)); [|discriminate].
  destruct (wait_nr_ios fuel (caches st a)) as [d1|] eqn:Hw; [|discriminate].
  destruct (clean_loop fuel _) as [[r d3]|] eqn:Hc; [|discriminate].
  intros H; inversion H; subst; clear H.
  split; [|split; reflexivity].
  intros x. simpl. unfold upd. destruct (Z.eqb_spec x a) as [->|Hx]; [|reflexivity].
  apply wait_nr_ios_placement in Hw. apply clean_loop_placement in Hc.
  unfold placement in *. simpl in *. congruence.
Qed.

(** The removal keeps the invariant. *)
Lemma deactivate_tail_preserves (fuel : nat) (st : ttc_state) (a : Z)
  (bdev : block_device) (r : Z) (evs : list event) :
  disk_dev (caches st a) = Some bdev ->
  bd_contains bdev = D -> bd_queue bdev = Q ->
  In a (eio_ttc_list st (EIO_HASH_BDEV D)) ->
  entry_point_inv D Q orig st ->
  forall ret st' evs',
    deactivate_tail fuel st a bdev r evs = Some (ret, st', evs') ->
    entry_point_inv D Q orig st'.
Proof.
  intros Hdev HD HQ Hin [H1 H2] ret st' evs'.
  assert (Hab : bound D st a).
  { split; [exact Hin|]. unfold on_disk. rewrite Hdev. apply Z.eqb_eq. exact HD. }
  destruct (H1 a Hab) as (Hrq & Ho & Hw).
  unfold deactivate_tail. rewrite HD, HQ, Ho.
  set (found := if is_whole_disk (dev_info (caches st a)) then false
                else found_partitions st bdev a (eio_ttc_list st (EIO_HASH_BDEV D))).
  set (restore := is_whole_disk (dev_info (caches st a)) || negb found).
  assert (Hcaches : caches (if restore then set_rq Q orig st else st) = caches st)
    by (destruct restore; reflexivity).
  assert (Hlist : eio_ttc_list (if restore then set_rq Q orig st else st)
                  = eio_ttc_list st)
    by (destruct restore; reflexivity).
  cbn [set_list caches]. rewrite Hcaches, Hlist.
  destruct (wait_nr_ios fuel (caches st a)) as [d|]; [|discriminate].
  intros H; inversion H; subst ret st' evs'; clear H.
  assert (Hb : forall x,
             bound D (set_cache a d
                      (set_list (EIO_HASH_BDEV D)
                         (remove Z.eq_dec a (eio_ttc_list st (EIO_HASH_BDEV D)))
                         (if restore then set_rq Q orig st else st))) x
             <-> x <> a /\ bound D st x).
  { intros x. unfold bound. simpl. unfold upd_nat, upd. rewrite Nat.eqb_refl.
    split.
    - intros [Hx Hd]. apply in_remove in Hx. destruct Hx as [Hx Hxa].
      split; [exact Hxa|]. apply Z.eqb_neq in Hxa. rewrite Hxa, Hcaches in Hd.
      split; assumption.
    - intros [Hxa [Hx Hd]]. split; [apply in_in_remove; assumption|].
      apply Z.eqb_neq in Hxa. rewrite Hxa, Hcaches. exact Hd. }
  assert (Hrq' : rq_make_request_fn
                   (set_cache a d
                      (set_list (EIO_HASH_BDEV D)
                         (remove Z.eq_dec a (eio_ttc_list st (EIO_HASH_BDEV D)))
                         (if restore then set_rq Q orig st else st))) Q
                 = if restore then orig else mfn_eio).
  { destruct restore; simpl; [|exact Hrq]. unfold upd. rewrite Z.eqb_refl.
    reflexivity. }
  destruct restore eqn:Hres.
  - (* the entry point is restored: no other binding of the disk is linked *)
    assert (Hnone : forall x, ~ (x <> a /\ bound D st x)).
    { intros x [Hxa Hxb]. subst restore.
      destruct (is_whole_disk (dev_info (caches st a))) eqn:Hwd.
      - apply Hxa. apply Hw; [reflexivity|exact Hxb].
      - simpl in Hres. apply negb_true_iff in Hres. subst found.
        assert (Hf : found_partitions st bdev a (eio_ttc_list st (EIO_HASH_BDEV D))
                     = true).
        { apply found_partitions_spec. exists x. destruct Hxb as [Hx Hd].
          split; [exact Hx|]. split; [exact Hxa|].
          rewrite (same_disk_on_disk _ bdev HD). exact Hd. }
        congruence. }
    split.
    + intros x Hx. apply Hb in Hx. exfalso. exact (Hnone x Hx).
    + intros _. exact Hrq'.
  - (* another partition of the disk stays linked *)
    subst restore. apply orb_false_iff in Hres. destruct Hres as [Hwd Hf].
    apply negb_false_iff in Hf. subst found. rewrite Hwd in Hf.
    apply found_partitions_spec in Hf. destruct Hf as (x0 & Hx0 & Hx0a & Hx0d).
    rewrite (same_disk_on_disk _ bdev HD) in Hx0d.
    split.
    + intros x Hx. apply Hb in Hx. destruct Hx as [Hxa Hxb].
      destruct (H1 x Hxb) as (_ & Hxo & Hxw).
      split; [exact Hrq'|]. split.
      * simpl. unfold upd. apply Z.eqb_neq in Hxa. rewrite Hxa. exact Hxo.
      * simpl. unfold upd. apply Z.eqb_neq in Hxa. rewrite Hxa.
        intros Hxwd a' Ha'. apply Hb in Ha'. apply Hxw; [exact Hxwd|apply Ha'].
    + intros Hn. exfalso. apply (Hn x0). apply Hb.
      split; [exact Hx0a|]. split; assumption.
Qed.

Lemma deactivate_preserves (fuel : nat) (st : ttc_state) (a force : Z) :
  for_disk D Q st a ->
  In a (eio_ttc_list st (EIO_HASH_BDEV D)) ->
  entry_point_inv D Q orig st ->
  forall ret st' evs,
    eio_ttc_deactivate fuel st a force = Some (ret, st', evs) ->
    entry_point_inv D Q orig st'.
Proof.
  intros (bdev & Hdev & HD & HQ) Hin Hinv ret st' evs.
  unfold eio_ttc_deactivate. rewrite Hdev.
  assert (Htail : forall r0 evs0,
             deactivate_tail fuel st a bdev r0 evs0 = Some (ret, st', evs) ->
             entry_point_inv D Q orig st').
  { intros r0 evs0. apply deactivate_tail_preserves; assumption. }
  destruct (force =? 0); simpl; [|apply Htail].
  destruct (mode (caches st a) =? CACHE_MODE_WB); [|apply Htail].
  destruct (CACHE_FAILED_IS_SET (caches st a)); simpl; [apply Htail|].
  destruct (eio_finish_nrdirty fuel st a) as [[[r st1] evs1]|] eqn:Hf; [|discriminate].
  pose proof (finish_nrdirty_view _ _ _ _ _ _ Hf) as Hv.
  pose proof (same_view_inv _ _ Hv Hinv) as Hinv1.
  destruct (negb (r =? 0)).
  - intros H; inversion H; subst. exact Hinv1.
  - destruct Hv as (Hp & Hl & _).
    apply deactivate_tail_preserves; try assumption.
    + pose proof (Hp a) as Hpa. unfold placement in Hpa. inversion Hpa. congruence.
    + rewrite Hl. exact Hin.
Qed.

(** C3.  Start with no binding of the disk linked and the queue on the
    driver's entry point [orig].  After any sequence of activations and
    deactivations of bindings of the disk, the queue has the
    interception function if and only if a binding of the disk is
    linked, it has [orig] if and only if none is, and every linked
    binding of the disk has [orig] as its saved entry point: the first
    activation saved it, the activation of a sibling copied it. *)
Theorem entry_point_tracks_bindings (st0 st : ttc_state) (ops : list ttc_op) :
  (forall a, ~ bound D st0 a) ->
  rq_make_request_fn st0 Q = orig ->
  ttc_run D Q st0 ops st ->
  (rq_make_request_fn st Q = mfn_eio <-> exists a, bound D st a)
  /\ (rq_make_request_fn st Q = orig <-> ~ exists a, bound D st a)
  /\ (forall a, bound D st a -> origmfn (caches st a) = orig).
Proof.
  intros Hnone Hrq Hrun.
  assert (Hinv0 : entry_point_inv D Q orig st0).
  { split; [|intros _; exact Hrq]. intros a Ha. exfalso. exact (Hnone a Ha). }
  assert (Hinv : entry_point_inv D Q orig st).
  { clear Hnone Hrq. induction Hrun as [st|st st1 st2 op ops Hstep Hrun IH].
    - exact Hinv0.
    - apply IH. destruct Hstep as [st a Hfor Hfresh|st a force fuel ret st' evs Hfor Hin Hd].
      + apply activate_preserves; assumption.
      + eapply deactivate_preserves; eassumption. }
  destruct Hinv as [H1 H2].
  assert (Hdec : (exists a, bound D st a) \/ (forall a, ~ bound D st a)).
  { unfold bound.
    induction (eio_ttc_list st (EIO_HASH_BDEV D)) as [|x l IHl].
    - right. intros a [[] _].
    - destruct (on_disk D (caches st x)) eqn:Hx.
      + left. exists x. split; [left; reflexivity|exact Hx].
      + destruct IHl as [(a & Ha & Hd)|Hn].
        * left. exists a. split; [right; exact Ha|exact Hd].
        * right. intros a [[<-|Ha] Hd]; [congruence|].
          apply (Hn a). split; assumption. }
  split; [|split].
  - split.
    + intros Heio. destruct Hdec as [Hex|Hn]; [exact Hex|].
      exfalso. apply orig_not_eio. rewrite <- (H2 Hn). exact Heio.
    + intros (a & Ha). apply (H1 a Ha).
  - split.
    + intros Horig (a & Ha). apply orig_not_eio.
      rewrite <- Horig. apply (H1 a Ha).
    + intros Hn. apply H2. intros a Ha. apply Hn. exists a. exact Ha.
  - intros a Ha. apply (H1 a Ha).
Qed.

End EntryPoint.

Lemma deactivate_on_step (h : EioHeader) (c : Collaborators) (D Q : Z)
  (fuel : nat) (a force : Z) (st : ttc_state) :
  @eio_ttc_deactivate h c fuel st a force <> None ->
  for_disk D Q st a ->
  In a (eio_ttc_list st (EIO_HASH_BDEV D)) ->
  @ttc_step h c D Q st (op_deactivate a force fuel) (deactivate_on h c fuel a force st).
Proof.
  intros Hsome Hfor Hin. unfold deactivate_on.
  destruct (eio_ttc_deactivate fuel st a force) as [[[ret st'] evs]|] eqn:Hd;
    [|contradiction].
  eapply step_deactivate; eassumption.
Qed.

(** C3, on sda: after activating A and B and deactivating A, the queue
    still has the interception function, B is linked and holds the
    driver's entry point. *)
Lemma entry_point_tracks_bindings_witness :
  (rq_make_request_fn st_B 500 = mfn_eio <-> exists a, @bound sample_header 2048 st_B a)
  /\ (rq_make_request_fn st_B 500 = mfn_driver 7
      <-> ~ exists a, @bound sample_header 2048 st_B a)
  /\ (forall a, @bound sample_header 2048 st_B a ->
                origmfn (caches st_B a) = mfn_driver 7).
Proof.
  apply (@entry_point_tracks_bindings sample_header quiet 2048 500 (mfn_driver 7))
    with (st0 := st_empty)
         (ops := [op_activate 1000; op_activate 2000; op_deactivate 1000 0 3]).
  - discriminate.
  - discriminate.
  - intros d; reflexivity.
  - intros d; reflexivity.
  - intros a [[] _].
  - reflexivity.
  - apply run_cons with (st1 := st_A).
    { apply (@step_activate sample_header quiet 2048 500 st_empty 1000).
      - exists sda1. repeat split.
      - intros []. }
    apply run_cons with (st1 := st_AB).
    { apply (@step_activate sample_header quiet 2048 500 st_A 2000).
      - exists sda2. repeat split.
      - vm_compute. intros [H|[]]; discriminate. }
    apply run_cons with (st1 := st_B).
    { apply deactivate_on_step.
      - vm_compute; discriminate.
      - exists sda1. repeat split.
      - vm_compute. left; reflexivity. }
    apply run_nil.
Defined.

(** The whole life of the two bindings: the interception function is
    installed by the first activation, stays while either binding is
    linked, and the driver's entry point is back after the last
    deactivation. *)
Example entry_point_scenario :
  rq_make_request_fn st_empty 500 = mfn_driver 7
  /\ rq_make_request_fn st_A 500 = mfn_eio
  /\ rq_make_request_fn st_AB 500 = mfn_eio
  /\ origmfn (caches st_AB 1000) = mfn_driver 7
  /\ origmfn (caches st_AB 2000) = mfn_driver 7
  /\ rq_make_request_fn st_B 500 = mfn_eio
  /\ eio_ttc_list st_B 0%nat = [2000]
  /\ rq_make_request_fn (deactivate_on sample_header quiet 3 2000 1 st_B) 500
     = mfn_driver 7
  /\ eio_ttc_list (deactivate_on sample_header quiet 3 2000 1 st_B) 0%nat = [].
Proof. repeat split; vm_compute; reflexivity. Qed.

(** ** Routing over disjoint partitions *)

Section RoutingPartitions.
Context {hdr : EioHeader} {ext : Collaborators}.

Lemma bio_fits_iff (b : bio) (d : cache_c) :
  bio_fits b d = true
  <-> dev_start_sect d <= bi_sector b /\ bio_last_sector b <= dev_end_sect d.
Proof. unfold bio_fits. rewrite andb_true_iff, !Z.leb_le. reflexivity. Qed.

Lemma bio_overlaps_iff (b : bio) (d : cache_c) :
  bio_overlaps b d = true
  <-> (dev_start_sect d <= bi_sector b <= dev_end_sect d)
      \/ (dev_start_sect d <= bio_last_sector b <= dev_end_sect d).
Proof.
  unfold bio_overlaps. rewrite orb_true_iff, !andb_true_iff, !Z.leb_le. reflexivity.
Qed.

Lemma disjoint_partitions_tail (st : ttc_state) (b : bio) (a1 : Z) (l : list Z) :
  disjoint_partitions st b (a1 :: l) -> disjoint_partitions st b l.
Proof.
  intros [Hp Hd]. split.
  - intros a Ha. apply Hp. right; exact Ha.
  - intros a a' Ha Ha'. apply Hd; right; assumption.
Qed.

(** What the scan returns over disjoint partitions, for an I/O that
    covers at least one sector. *)
Lemma scan_disjoint (st : ttc_state) (b : bio) :
  bi_sector b <= bio_last_sector b ->
  forall l f0,
    disjoint_partitions st b l ->
    match ttc_scan st b l f0 with
    | (Some a, _, false) =>
        In a l /\ same_disk (caches st a) (bi_bdev b) = true
        /\ bio_fits b (caches st a) = true
    | (None, _, true) =>
        (forall a, In a l -> same_disk (caches st a) (bi_bdev b) = true ->
                   bio_fits b (caches st a) = false)
        /\ exists a, In a l /\ same_disk (caches st a) (bi_bdev b) = true
                     /\ bio_overlaps b (caches st a) = true
    | (None, _, false) =>
        forall a, In a l -> same_disk (caches st a) (bi_bdev b) = true ->
                  bio_overlaps b (caches st a) = false
    | (Some _, _, true) => False
    end.
Proof.
  intros Hne. induction l as [|a1 l IH]; intros f0 Hdis; simpl.
  - intros a [].
  - destruct (same_disk (caches st a1) (bi_bdev b)) eqn:Hsame; simpl.
    + rewrite (proj1 Hdis a1 (or_introl eq_refl) Hsame).
      destruct (bio_fits b (caches st a1)) eqn:Hfit.
      { split; [left; reflexivity|]. split; assumption. }
      destruct (bio_overlaps b (caches st a1)) eqn:Hov.
      { split.
        - intros a [<-|Ha] Hs; [exact Hfit|].
          destruct (bio_fits b (caches st a)) eqn:Hfa; [|reflexivity].
          exfalso.
          assert (Hneq : a <> a1) by (intros ->; congruence).
          apply bio_fits_iff in Hfa. apply bio_overlaps_iff in Hov.
          destruct (proj2 Hdis a a1 (or_intror Ha) (or_introl eq_refl) Hs Hsame Hneq);
            lia.
        - exists a1. split; [left; reflexivity|]. split; assumption. }
      specialize (IH (if mfn_eqb f0 mfn_null then origmfn (caches st a1) else f0)
                    (disjoint_partitions_tail _ _ _ _ Hdis)).
      destruct (ttc_scan st b l _) as [[[a|] f] [|]].
      * exact IH.
      * destruct IH as (Ha & Hs & Hf). split; [right; exact Ha|]. split; assumption.
      * destruct IH as (Hnofit & a & Ha & Hs & Ho). split.
        -- intros x [<-|Hx] Hxs; [exact Hfit|apply Hnofit; assumption].
        -- exists a. split; [right; exact Ha|]. split; assumption.
      * intros x [<-|Hx] Hxs; [exact Hov|apply IH; assumption].
    + specialize (IH f0 (disjoint_partitions_tail _ _ _ _ Hdis)).
      destruct (ttc_scan st b l f0) as [[[a|] f] [|]].
      * exact IH.
      * destruct IH as (Ha & Hs & Hf). split; [right; exact Ha|]. split; assumption.
      * destruct IH as (Hnofit & a & Ha & Hs & Ho). split.
        -- intros x [<-|Hx] Hxs; [congruence|apply Hnofit; assumption].
        -- exists a. split; [right; exact Ha|]. split; assumption.
      * intros x [<-|Hx] Hxs; [congruence|apply IH; assumption].
Qed.

(** Routing over partition bindings with disjoint ranges, for an I/O
    that covers at least one sector and does not wrap: the I/O goes to
    the binding [a] exactly when its range lies within the range of [a];
    it is split exactly when it lies within no binding's range and its
    first or its last sector is in some binding's range; it is passed
    through exactly when neither its first nor its last sector is in any
    binding's range.  An I/O that reaches over a whole partition from
    both sides is in the third case. *)
Theorem route_disjoint_partitions (st : ttc_state) (b : bio) :
  let l := eio_ttc_list st (EIO_HASH_BDEV (bd_contains (bi_bdev b))) in
  let bindings a := In a l /\ same_disk (caches st a) (bi_bdev b) = true in
  bi_sector b <= bio_last_sector b ->
  disjoint_partitions st b l ->
  (forall a, route st b = ROUTE_TO_CACHE a
             <-> bindings a /\ bio_fits b (caches st a) = true)
  /\ (route st b = ROUTE_SPLIT
      <-> (forall a, bindings a -> bio_fits b (caches st a) = false)
          /\ exists a, bindings a /\ bio_overlaps b (caches st a) = true)
  /\ ((exists f, route st b = ROUTE_PASSTHROUGH f)
      <-> forall a, bindings a -> bio_overlaps b (caches st a) = false).
Proof.
  intros l bindings Hne Hdis.
  pose proof (scan_disjoint st b Hne l mfn_null Hdis) as Hscan.
  assert (Hfo : forall a, bio_fits b (caches st a) = true ->
                          bio_overlaps b (caches st a) = true).
  { intros a Hf. apply bio_fits_iff in Hf. apply bio_overlaps_iff. lia. }
  unfold route. fold l.
  destruct (ttc_scan st b l mfn_null) as [[[a0|] f] [|]]; [contradiction| | |].
  - destruct Hscan as (Ha0 & Hs0 & Hf0).
    split; [|split].
    + intros a. split.
      * intros H; inversion H; subst. split; [split|]; assumption.
      * intros [[Ha Hs] Hf]. f_equal.
        destruct (Z.eq_dec a0 a) as [Heq|Hneq]; [exact Heq|exfalso].
        apply bio_fits_iff in Hf, Hf0.
        destruct (proj2 Hdis a0 a Ha0 Ha Hs0 Hs Hneq); lia.
    + split; [discriminate|]. intros [Hno _].
      rewrite (Hno a0 (conj Ha0 Hs0)) in Hf0. discriminate.
    + split; [intros [g Hg]; discriminate|]. intros Hnone.
      pose proof (Hfo a0 Hf0) as Ho0.
      rewrite (Hnone a0 (conj Ha0 Hs0)) in Ho0. discriminate.
  - destruct Hscan as (Hnofit & a1 & Ha1 & Hs1 & Ho1).
    split; [|split].
    + intros a. split; [discriminate|]. intros [[Ha Hs] Hf].
      rewrite (Hnofit a Ha Hs) in Hf. discriminate.
    + split; [|reflexivity]. intros _. split.
      * intros a [Ha Hs]. apply Hnofit; assumption.
      * exists a1. split; [split|]; assumption.
    + split; [intros [g Hg]; discriminate|]. intros Hnone.
      rewrite (Hnone a1 (conj Ha1 Hs1)) in Ho1. discriminate.
  - split; [|split].
    + intros a. split; [discriminate|]. intros [[Ha Hs] Hf].
      pose proof (Hfo a Hf) as Hoa.
      rewrite (Hscan a Ha Hs) in Hoa. discriminate.
    + split; [discriminate|]. intros [_ (a & [Ha Hs] & Ho)].
      rewrite (Hscan a Ha Hs) in Ho. discriminate.
    + split; [|exists f; reflexivity]. intros _ a [Ha Hs]. apply Hscan; assumption.
Qed.

End RoutingPartitions.

(** On sda with A and B active the read of [310, 329] lies within the
    range of B. *)
Lemma route_disjoint_partitions_witness :
  @route sample_header st_AB (read_at 310 20) = ROUTE_TO_CACHE 2000.
Proof.
  destruct (@route_disjoint_partitions sample_header st_AB (read_at 310 20))
    as (Hcache & _ & _).
  - vm_compute; discriminate.
  - split.
    + intros a Ha _. vm_compute in Ha.
      destruct Ha as [<-|[<-|[]]]; reflexivity.
    + intros a a' Ha Ha' _ _ Hne. vm_compute in Ha, Ha'.
      destruct Ha as [<-|[<-|[]]], Ha' as [<-|[<-|[]]];
        try congruence; vm_compute; [left|right]; reflexivity.
  - apply Hcache. split; [split|].
    + vm_compute. right; left; reflexivity.
    + reflexivity.
    + vm_compute; reflexivity.
Defined.

(** ** What activation checks *)

Section ActivationProperties.
Context {hdr : EioHeader} {ext : Collaborators}.

Lemma activate_scan_conflict (st : ttc_state) (bdev : block_device) (w : bool) :
  forall l f,
    activate_scan st bdev w l = (true, f) ->
    exists a1, In a1 l
      /\ same_disk (caches st a1) bdev = true
      /\ (w = true \/ is_whole_disk (dev_info (caches st a1)) = true
          \/ same_bdev (caches st a1) bdev = true).
Proof.
  induction l as [|a1 l IH]; intros f H; simpl in H; [discriminate|].
  destruct (same_disk (caches st a1) bdev) eqn:Hsame; simpl in H.
  - exists a1. split; [left; reflexivity|]. split; [exact Hsame|].
    destruct w; [left; reflexivity|].
    destruct (is_whole_disk (dev_info (caches st a1))); [right; left; reflexivity|].
    destruct (same_bdev (caches st a1) bdev); [right; right; reflexivity|].
    discriminate.
  - destruct (IH f H) as (a & Ha & Hrest). exists a. split; [right; exact Ha|exact Hrest].
Qed.

(** The loop reports a conflict when the new binding is for a whole disk
    of which a binding is linked, and when every linked binding of the
    disk is a whole-disk one. *)
Lemma activate_scan_whole_disk (st : ttc_state) (bdev : block_device) (w : bool) :
  forall l,
    (exists a1, In a1 l /\ same_disk (caches st a1) bdev = true) ->
    w = true
    \/ (forall a1, In a1 l -> same_disk (caches st a1) bdev = true ->
                   is_whole_disk (dev_info (caches st a1)) = true) ->
    fst (activate_scan st bdev w l) = true.
Proof.
  induction l as [|a1 l IH]; intros (x & Hx & Hs) Hw; [destruct Hx|].
  simpl. destruct (same_disk (caches st a1) bdev) eqn:Hsame; simpl.
  - destruct Hw as [->|Hall]; [reflexivity|].
    rewrite (Hall a1 (or_introl eq_refl) Hsame).
    rewrite orb_true_r. reflexivity.
  - apply IH.
    + destruct Hx as [<-|Hx]; [congruence|]. exists x. split; assumption.
    + destruct Hw as [Hw|Hall]; [left; exact Hw|right].
      intros a Ha. apply Hall. right; exact Ha.
Qed.

Lemma set_dev_sect_same_disk (st : ttc_state) (a : Z) (s e : Z)
  (bdev : block_device) (x : Z) :
  same_disk (caches (set_cache a (set_dev_sect s e (caches st a)) st) x) bdev
  = same_disk (caches st x) bdev
  /\ same_bdev (caches (set_cache a (set_dev_sect s e (caches st a)) st) x) bdev
     = same_bdev (caches st x) bdev
  /\ dev_info (caches (set_cache a (set_dev_sect s e (caches st a)) st) x)
     = dev_info (caches st x).
Proof.
  simpl. unfold upd. destruct (Z.eqb_spec x a) as [->|Hx]; repeat split.
Qed.

Lemma activate_scan_ext (st st' : ttc_state) (bdev : block_device) (w : bool) :
  (forall x, same_disk (caches st' x) bdev = same_disk (caches st x) bdev
             /\ same_bdev (caches st' x) bdev = same_bdev (caches st x) bdev
             /\ dev_info (caches st' x) = dev_info (caches st x)) ->
  forall l, fst (activate_scan st' bdev w l) = fst (activate_scan st bdev w l).
Proof.
  intros Hext. induction l as [|a1 l IH]; simpl; [reflexivity|].
  destruct (Hext a1) as (-> & -> & ->).
  destruct (same_disk (caches st a1) bdev); simpl; [|exact IH].
  destruct (_ || _ || _); reflexivity.
Qed.

(** Activation returns 0 or -EINVAL for a structure with a device.  On
    -EINVAL the lists and the entry points are as before the call, and
    a linked binding of the same disk is in conflict: the new binding is
    for the whole disk, or that binding is, or it is for the same
    device.  On 0 the structure is linked at the tail of its shard and
    the other shards are as before.  A whole-disk binding is refused
    while any binding of the disk is linked, and any binding is refused
    while the linked bindings of the disk are whole-disk ones. *)
Theorem activate_conflicts (st : ttc_state) (a : Z) (bdev : block_device) :
  disk_dev (caches st a) = Some bdev ->
  let index := EIO_HASH_BDEV (bd_contains bdev) in
  let l := eio_ttc_list st index in
  let wholedisk := bd_dev bdev =? bd_contains bdev in
  let error := fst (fst (eio_ttc_activate st a)) in
  let st' := snd (fst (eio_ttc_activate st a)) in
  (error = - EINVAL \/ error = 0)
  /\ (error = - EINVAL ->
      eio_ttc_list st' = eio_ttc_list st
      /\ rq_make_request_fn st' = rq_make_request_fn st
      /\ exists a1, In a1 l
           /\ same_disk (caches st a1) bdev = true
           /\ (wholedisk = true
               \/ is_whole_disk (dev_info (caches st a1)) = true
               \/ same_bdev (caches st a1) bdev = true))
  /\ (error = 0 ->
      eio_ttc_list st' index = l ++ [a]
      /\ forall i, i <> index -> eio_ttc_list st' i = eio_ttc_list st i)
  /\ ((exists a1, In a1 l /\ same_disk (caches st a1) bdev = true) ->
      wholedisk = true
      \/ (forall a1, In a1 l -> same_disk (caches st a1) bdev = true ->
                     is_whole_disk (dev_info (caches st a1)) = true) ->
      error = - EINVAL).
Proof.
  intros Hdev index l wholedisk error st'.
  subst error st'. unfold eio_ttc_activate. rewrite Hdev.
  fold index wholedisk.
  set (st1 := set_cache a _ st).
  assert (Hext := set_dev_sect_same_disk st a (bd_part_start_sect bdev)
                    (u64 (bd_part_start_sect bdev + bd_part_nr_sects bdev - 1)) bdev).
  fold st1 in Hext.
  assert (Hl1 : eio_ttc_list st1 = eio_ttc_list st) by reflexivity.
  assert (Hrq1 : rq_make_request_fn st1 = rq_make_request_fn st) by reflexivity.
  rewrite Hl1. fold l.
  pose proof (activate_scan_ext st st1 bdev wholedisk Hext l) as Hfst.
  destruct (activate_scan st1 bdev wholedisk l) as [c f] eqn:Hscan.
  simpl in Hfst.
  destruct c; simpl.
  - split; [left; reflexivity|]. split; [|split].
    + intros _. split; [exact Hl1|]. split; [exact Hrq1|].
      destruct (activate_scan_conflict _ _ _ _ _ Hscan) as (a1 & Ha1 & Hs & Hc).
      destruct (Hext a1) as (Es & Eb & Ei). rewrite Es in Hs. rewrite Eb, Ei in Hc.
      exists a1. split; [exact Ha1|]. split; assumption.
    + unfold EINVAL. discriminate.
    + reflexivity.
  - split; [right; reflexivity|]. split; [|split].
    + unfold EINVAL. discriminate.
    + intros _. clearbody st1.
      destruct (mfn_eqb f mfn_null); simpl; unfold upd_nat; rewrite Nat.eqb_refl;
        rewrite Hl1; (split; [reflexivity|]);
        intros i Hi; apply Nat.eqb_neq in Hi; rewrite Hi; reflexivity.
    + intros Hex Hw. exfalso.
      pose proof (activate_scan_whole_disk st bdev wholedisk l Hex Hw) as Ht.
      congruence.
Qed.

End ActivationProperties.

(** On sda with A active, the activation of W for the whole disk is
    refused and nothing changes. *)
Lemma activate_conflicts_witness :
  fst (fst (@eio_ttc_activate sample_header st_A 4000)) = -22
  /\ eio_ttc_list (snd (fst (@eio_ttc_activate sample_header st_A 4000)))
     = eio_ttc_list st_A
  /\ rq_make_request_fn (snd (fst (@eio_ttc_activate sample_header st_A 4000)))
     = rq_make_request_fn st_A.
Proof.
  destruct (@activate_conflicts sample_header st_A 4000 sda eq_refl)
    as (_ & Herr & _ & Hwhole).
  assert (He : fst (fst (@eio_ttc_activate sample_header st_A 4000)) = - EINVAL).
  { apply Hwhole.
    - exists 1000. split; [vm_compute; left; reflexivity|reflexivity].
    - left. reflexivity. }
  destruct (Herr He) as (Hl & Hrq & _).
  split; [exact He|]. split; assumption.
Defined.

(** ** Routing returns *)

Section RoutingReturns.
Context {hdr : EioHeader} {ext : Collaborators}.

Lemma make_request_unfold (f : nat) (st : ttc_state) (q : Z) (b : bio) :
  eio_make_request_fn (S f) st q b
  = let index := EIO_HASH_BDEV (bd_contains (bi_bdev b)) in
    match ttc_scan st b (eio_ttc_list st index) mfn_null with
    | (_, _, true) =>
        if is_discard (bi_op b) then
          Some ([ev_down_read index; ev_up_read index;
                 ev_bio_endio b (- EOPNOTSUPP)], b)
        else
          match eio_overlap_split_bio (eio_make_request_fn f st q) b with
          | passed (Some evs) =>
              Some ([ev_down_read index; ev_up_read index] ++ evs, b)
          | passed None => None
          | stopped _ => None
          end
    | (Some a, _, false) =>
        let dmc := caches st a in
        let b1 :=
          if bi_sector b =? 0 then b
          else set_bi_sector (u64 (bi_sector b - dev_start_sect dmc)) b in
        let '(ret, b2) := eio_map dmc b1 in
        let b3 :=
          if ret =? 0 then b2
          else set_bi_sector (u64 (bi_sector b2 + dev_start_sect dmc)) b2 in
        Some ([ev_down_read index; ev_eio_map a b1; ev_up_read index], b3)
    | (None, origmfn0, false) =>
        let origmfn1 :=
          if mfn_eqb origmfn0 mfn_null then rq_make_request_fn st q
          else origmfn0 in
        if mfn_eqb origmfn1 mfn_eio then
          match eio_make_request_fn f st q b with
          | None => None
          | Some (evs, b') =>
              Some ([ev_down_read index; ev_up_read index] ++ evs, b')
          end
        else
          Some ([ev_down_read index; ev_up_read index]
                  ++ hdd_make_request origmfn1 b, b)
    end.
Proof. reflexivity. Qed.

(** eio_make_request_fn returns, after at most one split and without a
    second pass: for a registry in which the bindings of the disk hold a
    driver's entry point, a queue that has the interception function
    only while a binding of the disk is linked, and an I/O that, if it
    is one the splitter gets, has vectors that hold its sectors in whole
    sectors. *)
Theorem make_request_returns (fuel : nat) (st : ttc_state) (q : Z) (b : bio) :
  let l := eio_ttc_list st (EIO_HASH_BDEV (bd_contains (bi_bdev b))) in
  eio_to_sector split_iosize = 1 ->
  0 <= bi_sector b < 2 ^ 64 ->
  (route st b = ROUTE_SPLIT -> is_discard (bi_op b) = false -> splittable b) ->
  (forall a, In a l -> same_disk (caches st a) (bi_bdev b) = true ->
             driver_mfn (origmfn (caches st a))) ->
  (exists a, In a l /\ same_disk (caches st a) (bi_bdev b) = true)
  \/ rq_make_request_fn st q <> mfn_eio ->
  exists evs b', eio_make_request_fn (S (S fuel)) st q b = Some (evs, b').
Proof.
  intros l Hone Hs Hvecs Hok Hlive.
  rewrite make_request_unfold. cbv zeta. fold l.
  assert (Hroute : forall r f,
             ttc_scan st b l mfn_null = (r, f, true) -> route st b = ROUTE_SPLIT).
  { intros r f H. unfold route. fold l. rewrite H. destruct r; reflexivity. }
  destruct (ttc_scan st b l mfn_null) as [[r f] ov] eqn:Hscan.
  destruct ov.
  - destruct (is_discard (bi_op b)) eqn:Hd;
      [destruct r; eexists; eexists; reflexivity|].
    assert (Hex : exists a, In a l /\ same_disk (caches st a) (bi_bdev b) = true).
    { apply (scan_overlap_same_disk st b l mfn_null). rewrite Hscan. reflexivity. }
    assert (Hsplit : exists evs,
               eio_overlap_split_bio (eio_make_request_fn (S fuel) st q) b
               = passed (Some evs)).
    { unfold eio_overlap_split_bio.
      destruct (kmalloc_bioptr b =? 0); [eexists; reflexivity|].
      destruct (kmalloc_bio_container b =? 0); [eexists; reflexivity|].
      destruct (split_loop_passes b (kmalloc_bio_container b) (bi_sector b)
                  (Hvecs (Hroute r f eq_refl) eq_refl))
        as (subs & ok & Hloop & _).
      rewrite Hloop.
      destruct ok; cbn [negb]; [|eexists; reflexivity].
      destruct (submit_all_returns (eio_make_request_fn (S fuel) st q) subs)
        as [evs Hevs].
      { intros c Hc. apply In_nth_error in Hc. destruct Hc as [i Hi].
        destruct (split_loop_subs b _ _ _ _ _ _ _ Hs Hloop) as [_ Hsub].
        destruct (Hsub i c Hi) as (Hbd & Hsec & Hsz & _).
        destruct (single_sector_returns fuel st q c) as (e & c' & Hr & _).
        - rewrite Hsz. exact Hone.
        - rewrite Hsec. apply u64_range.
        - rewrite Hbd. exact Hok.
        - rewrite Hbd. exact Hex.
        - exists e, c'. exact Hr. }
      rewrite Hevs. eexists; reflexivity. }
    destruct Hsplit as [evs Hevs]. rewrite Hevs.
    destruct r; eexists; eexists; reflexivity.
  - destruct r as [a|].
    + cbv zeta. destruct (eio_map _ _) as [ret b2]. eexists; eexists; reflexivity.
    + destruct (scan_passthrough_origmfn st b l mfn_null f Hok (or_introl eq_refl) Hscan)
        as [[Hn He]|[Hf Hnone]].
      * apply mfn_eqb_neq in Hn, He. cbv zeta. rewrite Hn, He.
        eexists; eexists; reflexivity.
      * subst f. cbv zeta. simpl mfn_eqb. cbv iota.
        destruct Hlive as [(a & Ha & Hsa)|Hrq].
        -- rewrite (Hnone a Ha) in Hsa. discriminate.
        -- apply mfn_eqb_neq in Hrq. rewrite Hrq. eexists; eexists; reflexivity.
Qed.

End RoutingReturns.

(** On sda with A active the read of [50, 120] is split into seventy-one
    sub-I/Os and the call returns. *)
Lemma make_request_returns_witness :
  exists evs b',
    @eio_make_request_fn sample_header quiet 2 st_A 500 (read_at 50 71)
    = Some (evs, b').
Proof.
  apply (@make_request_returns sample_header quiet 0 st_A 500 (read_at 50 71)).
  - reflexivity.
  - vm_compute; split; [discriminate|reflexivity].
  - intros _ _. split; [reflexivity|]. split; [|vm_compute; lia].
    repeat constructor; vm_compute; try reflexivity; discriminate.
  - intros a Ha _. vm_compute in Ha. destruct Ha as [<-|[]].
    vm_compute. split; discriminate.
  - left. exists 1000. split; [vm_compute; left; reflexivity|reflexivity].
Defined.

(** ** Lookup by name *)

Section LookupProperties.
Context {hdr : EioHeader} {ext : Collaborators}.

Lemma lookup_in_list_spec (st : ttc_state) (name : string) :
  forall l,
    match lookup_in_list st name l with
    | Some a =>
        exists pre post,
          l = pre ++ a :: post
          /\ cache_name (caches st a) = name
          /\ forall x, In x pre -> cache_name (caches st x) <> name
    | None => forall x, In x l -> cache_name (caches st x) <> name
    end.
Proof.
  induction l as [|a l IH]; simpl.
  - intros x [].
  - destruct (String.eqb_spec name (cache_name (caches st a))) as [Heq|Hne].
    + exists [], l. split; [reflexivity|]. split; [symmetry; exact Heq|].
      intros x [].
    + destruct (lookup_in_list st name l) as [a'|].
      * destruct IH as (pre & post & -> & Hn & Hpre).
        exists (a :: pre), post. split; [reflexivity|]. split; [exact Hn|].
        intros x [<-|Hx]; [congruence|apply Hpre; exact Hx].
      * intros x [<-|Hx]; [congruence|apply IH; exact Hx].
Qed.

Lemma lookup_shards_spec (st : ttc_state) (name : string) :
  forall shards,
    match fst (lookup_shards st name shards) with
    | Some a =>
        exists before i after pre post,
          shards = before ++ i :: after
          /\ eio_ttc_list st i = pre ++ a :: post
          /\ cache_name (caches st a) = name
          /\ (forall x, In x pre -> cache_name (caches st x) <> name)
          /\ (forall j x, In j before -> In x (eio_ttc_list st j) ->
                          cache_name (caches st x) <> name)
    | None =>
        forall j x, In j shards -> In x (eio_ttc_list st j) ->
                    cache_name (caches st x) <> name
    end.
Proof.
  induction shards as [|i rest IH]; simpl.
  - intros j x [].
  - pose proof (lookup_in_list_spec st name (eio_ttc_list st i)) as Hi.
    destruct (lookup_in_list st name (eio_ttc_list st i)) as [a|]; simpl.
    + destruct Hi as (pre & post & Hl & Hn & Hpre).
      exists [], i, rest, pre, post. repeat split; try assumption.
      intros j x [].
    + destruct (lookup_shards st name rest) as [[a|] evs]; simpl in *.
      * destruct IH as (before & k & after & pre & post & -> & Hl & Hn & Hpre & Hb).
        exists (i :: before), k, after, pre, post.
        split; [reflexivity|]. split; [exact Hl|]. split; [exact Hn|].
        split; [exact Hpre|].
        intros j x [<-|Hj] Hx; [apply Hi; exact Hx|apply (Hb j); assumption].
      * intros j x [<-|Hj] Hx; [apply Hi; exact Hx|apply (IH j); assumption].
Qed.

(** eio_cache_lookup returns the first structure with the name, in the
    order of the shards and of each list, or NULL if no linked structure
    has it; every shard lock it took is released when it returns. *)
Theorem cache_lookup_first_match (st : ttc_state) (name : string) :
  match fst (eio_cache_lookup st name) with
  | Some a =>
      exists i pre post,
        (i < EIO_HASHTBL_SIZE)%nat
        /\ eio_ttc_list st i = pre ++ a :: post
        /\ cache_name (caches st a) = name
        /\ (forall x, In x pre -> cache_name (caches st x) <> name)
        /\ (forall j x, (j < i)%nat -> In x (eio_ttc_list st j) ->
                        cache_name (caches st x) <> name)
  | None =>
      forall j x, (j < EIO_HASHTBL_SIZE)%nat -> In x (eio_ttc_list st j) ->
                  cache_name (caches st x) <> name
  end
  /\ held_locks [] (snd (eio_cache_lookup st name)) = [].
Proof.
  split; [|apply lookup_shards_releases].
  unfold eio_cache_lookup.
  pose proof (lookup_shards_spec st name (seq 0 EIO_HASHTBL_SIZE)) as H.
  destruct (fst (lookup_shards st name (seq 0 EIO_HASHTBL_SIZE))) as [a|].
  - destruct H as (before & i & after & pre & post & Hseq & Hl & Hn & Hpre & Hb).
    exists i, pre, post.
    assert (Hi : In i (seq 0 EIO_HASHTBL_SIZE)).
    { rewrite Hseq. apply in_or_app. right. left. reflexivity. }
    apply in_seq in Hi.
    split; [lia|]. split; [exact Hl|]. split; [exact Hn|]. split; [exact Hpre|].
    intros j x Hj Hx. apply (Hb j); [|exact Hx].
    assert (Hlen : length before = i).
    { assert (Hnth : nth (length before) (seq 0 EIO_HASHTBL_SIZE) 0%nat = i).
      { rewrite Hseq, app_nth2, Nat.sub_diag by lia. reflexivity. }
      rewrite seq_nth in Hnth; [simpl in Hnth; exact Hnth|].
      assert (Hlen' : length (seq 0 EIO_HASHTBL_SIZE)
                      = length (before ++ i :: after)) by (rewrite Hseq; reflexivity).
      rewrite length_seq, length_app in Hlen'. simpl in Hlen'. lia. }
    assert (Hbefore : before = seq 0 i).
    { assert (Hf : firstn i (seq 0 EIO_HASHTBL_SIZE) = before).
      { rewrite Hseq, <- Hlen, firstn_app, Nat.sub_diag, firstn_all. simpl.
        apply app_nil_r. }
      rewrite <- Hf.
      replace EIO_HASHTBL_SIZE with (i + (EIO_HASHTBL_SIZE - i))%nat at 1 by lia.
      rewrite seq_app, firstn_app, length_seq, Nat.sub_diag. simpl.
      rewrite app_nil_r. apply firstn_all2. rewrite length_seq. lia. }
    rewrite Hbefore. apply in_seq. lia.
  - intros j x Hj Hx. apply (H j); [|exact Hx]. apply in_seq. lia.
Qed.

End LookupProperties.

(** ** The registry queries *)

Section RegistryProperties.
Context {hdr : EioHeader} {ext : Collaborators}.

Lemma u64_add_l (x y : Z) : u64 (u64 x + y) = u64 (x + y).
Proof. unfold u64. apply Zplus_mod_idemp_l. Qed.

Lemma count_list_length (l : list Z) :
  forall cnt, count_list l (u64 cnt) = u64 (cnt + Z.of_nat (length l)).
Proof.
  induction l as [|x l IH]; intros cnt.
  - simpl. rewrite Z.add_0_r. reflexivity.
  - cbn [count_list length]. rewrite u64_add_l, IH. f_equal. lia.
Qed.

Lemma count_shards_length (st : ttc_state) (shards : list nat) :
  forall cnt held,
    fst (count_shards st shards (u64 cnt))
    = u64 (cnt + Z.of_nat (length (flat_map (eio_ttc_list st) shards)))
    /\ held_locks held (snd (count_shards st shards (u64 cnt))) = held.
Proof.
  induction shards as [|i rest IH]; intros cnt held.
  - simpl. rewrite Z.add_0_r. split; reflexivity.
  - cbn [count_shards flat_map]. rewrite count_list_length.
    destruct (IH (cnt + Z.of_nat (length (eio_ttc_list st i))) held) as [Hc Hl].
    destruct (count_shards st rest _) as [c evs]. simpl in Hc, Hl. simpl.
    rewrite Nat.eqb_refl. split; [|exact Hl].
    rewrite Hc, length_app. f_equal. lia.
Qed.

Lemma cache_count_linked (st : ttc_state) :
  fst (eio_get_cache_count st) = u64 (Z.of_nat (length (linked st)))
  /\ held_locks [] (snd (eio_get_cache_count st)) = [].
Proof.
  unfold eio_get_cache_count, linked.
  change 0 with (u64 0) at 1 2.
  apply (count_shards_length st (seq 0 EIO_HASHTBL_SIZE) 0 []).
Qed.

(** Two tables that differ in the list of one shard. *)
Lemma flat_map_length_upd (f g : nat -> list Z) (k : nat) :
  (forall i, i <> k -> g i = f i) ->
  forall n s,
    (length (flat_map g (seq s n)) + (if (s <=? k) && (k <? s + n) then length (f k) else 0)
     = length (flat_map f (seq s n)) + (if (s <=? k) && (k <? s + n) then length (g k) else 0))%nat.
Proof.
  intros Hfg. induction n as [|n IH]; intros s.
  - simpl. destruct (s <=? k)%nat eqn:H1, (k <? s + 0)%nat eqn:H2; simpl; try reflexivity.
    apply Nat.leb_le in H1. apply Nat.ltb_lt in H2. lia.
  - cbn [seq flat_map]. rewrite !length_app. specialize (IH (S s)).
    destruct (Nat.eq_dec s k) as [->|Hne].
    + replace ((S k <=? k)%nat) with false in IH by (symmetry; apply Nat.leb_gt; lia).
      simpl in IH.
      replace ((k <=? k)%nat) with true by (symmetry; apply Nat.leb_le; lia).
      replace ((k <? k + S n)%nat) with true by (symmetry; apply Nat.ltb_lt; lia).
      simpl. lia.
    + rewrite (Hfg s Hne).
      replace ((s <=? k)%nat && (k <? s + S n)%nat)
        with ((S s <=? k)%nat && (k <? S s + n)%nat).
      * lia.
      * destruct (Nat.leb_spec (S s) k), (Nat.ltb_spec k (S s + n)),
          (Nat.leb_spec s k), (Nat.ltb_spec k (s + S n)); simpl; try reflexivity; lia.
Qed.

Lemma linked_length_upd (st st' : ttc_state) (k : nat) :
  (k < EIO_HASHTBL_SIZE)%nat ->
  (forall i, i <> k -> eio_ttc_list st' i = eio_ttc_list st i) ->
  (length (linked st') + length (eio_ttc_list st k)
   = length (linked st) + length (eio_ttc_list st' k))%nat.
Proof.
  intros Hk H. unfold linked.
  pose proof (flat_map_length_upd (eio_ttc_list st) (eio_ttc_list st') k H
                EIO_HASHTBL_SIZE 0%nat) as E.
  replace ((0 <=? k)%nat) with true in E by reflexivity.
  replace ((k <? 0 + EIO_HASHTBL_SIZE)%nat) with true in E
    by (symmetry; apply Nat.ltb_lt; lia).
  exact E.
Qed.

Lemma u64_of_nat_succ (n m : nat) :
  (m = S n)%nat -> u64 (Z.of_nat m) = u64 (u64 (Z.of_nat n) + 1).
Proof.
  intros ->. rewrite u64_add_l. f_equal. lia.
Qed.

Lemma remove_length_nodup (a : Z) (l : list Z) :
  NoDup l -> In a l -> S (length (remove Z.eq_dec a l)) = length l.
Proof.
  induction l as [|x l IH]; intros Hnd Hin; [destruct Hin|].
  inversion Hnd as [|? ? Hx Hnd']; subst. simpl.
  destruct (Z.eq_dec a x) as [->|Hne].
  - rewrite notin_remove by exact Hx. reflexivity.
  - simpl. f_equal. apply IH; [exact Hnd'|].
    destruct Hin as [->|Hin]; [congruence|exact Hin].
Qed.

Lemma activate_lists (st : ttc_state) (a : Z) (bdev : block_device)
  (ret : Z) (st' : ttc_state) (evs : list event) :
  disk_dev (caches st a) = Some bdev ->
  eio_ttc_activate st a = (ret, st', evs) ->
  (ret = 0
   /\ eio_ttc_list st' (EIO_HASH_BDEV (bd_contains bdev))
      = eio_ttc_list st (EIO_HASH_BDEV (bd_contains bdev)) ++ [a]
   /\ (forall i, i <> EIO_HASH_BDEV (bd_contains bdev) ->
                 eio_ttc_list st' i = eio_ttc_list st i)
   /\ (forall x, cache_name (caches st' x) = cache_name (caches st x)))
  \/ (ret = - EINVAL /\ eio_ttc_list st' = eio_ttc_list st).
Proof.
  intros Hdev. unfold eio_ttc_activate. rewrite Hdev.
  set (st1 := set_cache a _ st).
  assert (Hn1 : forall x, cache_name (caches st1 x) = cache_name (caches st x)).
  { intros x. subst st1. simpl. unfold upd. destruct (x =? a) eqn:E; [|reflexivity].
    apply Z.eqb_eq in E. subst x. reflexivity. }
  assert (Hl1 : eio_ttc_list st1 = eio_ttc_list st) by reflexivity.
  clearbody st1.
  destruct (activate_scan st1 bdev _ _) as [c f]. destruct c.
  - intros H; inversion H; subst. right. split; [reflexivity|exact Hl1].
  - intros H; inversion H; subst. left. split; [reflexivity|].
    destruct (mfn_eqb f mfn_null); simpl; unfold upd_nat; rewrite Nat.eqb_refl, Hl1;
      (split; [reflexivity|]);
      (split; [intros i Hi; apply Nat.eqb_neq in Hi; rewrite Hi; reflexivity|]);
      intros x; unfold upd; destruct (x =? a) eqn:E; try apply Hn1;
      apply Z.eqb_eq in E; subst x; simpl; apply Hn1.
Qed.

Lemma deactivate_lists (fuel : nat) (st : ttc_state) (a force : Z)
  (bdev : block_device) (ret : Z) (st' : ttc_state) (evs : list event) :
  disk_dev (caches st a) = Some bdev ->
  eio_ttc_deactivate fuel st a force = Some (ret, st', evs) ->
  (ret <> 0 /\ eio_ttc_list st' = eio_ttc_list st)
  \/ (ret = 0
      /\ eio_ttc_list st' (EIO_HASH_BDEV (bd_contains bdev))
         = remove Z.eq_dec a (eio_ttc_list st (EIO_HASH_BDEV (bd_contains bdev)))
      /\ forall i, i <> EIO_HASH_BDEV (bd_contains bdev) ->
                   eio_ttc_list st' i = eio_ttc_list st i).
Proof.
  intros Hdev.
  assert (Htail : forall st0 r0 evs0,
             eio_ttc_list st0 = eio_ttc_list st ->
             deactivate_tail fuel st0 a bdev r0 evs0 = Some (ret, st', evs) ->
             ret = r0
             /\ eio_ttc_list st' (EIO_HASH_BDEV (bd_contains bdev))
                = remove Z.eq_dec a (eio_ttc_list st (EIO_HASH_BDEV (bd_contains bdev)))
             /\ forall i, i <> EIO_HASH_BDEV (bd_contains bdev) ->
                          eio_ttc_list st' i = eio_ttc_list st i).
  { intros st0 r0 evs0 Hl. unfold deactivate_tail.
    match goal with
    | |- context [if ?c then set_rq _ _ _ else _] => destruct c
    end; cbn [set_list set_rq caches eio_ttc_list];
      (destruct (wait_nr_ios fuel _) as [d|]; [|discriminate]);
      intros H; inversion H; subst; clear H;
      (split; [reflexivity|]); simpl; unfold upd_nat;
      rewrite Nat.eqb_refl, Hl; (split; [reflexivity|]);
      intros i Hi; apply Nat.eqb_neq in Hi; rewrite Hi; reflexivity. }
  unfold eio_ttc_deactivate. rewrite Hdev.
  destruct (negb (force =? 0)).
  { intros H. right. apply (Htail st 0 [] eq_refl H). }
  destruct (mode (caches st a) =? CACHE_MODE_WB).
  2:{ intros H. right. apply (Htail st 0 [] eq_refl H). }
  destruct (negb (CACHE_FAILED_IS_SET (caches st a))).
  2:{ intros H. right. apply (Htail st 0 [] eq_refl H). }
  destruct (eio_finish_nrdirty fuel st a) as [[[r st1] evs1]|] eqn:Hf; [|discriminate].
  assert (Hl1 : eio_ttc_list st1 = eio_ttc_list st).
  { revert Hf. unfold eio_finish_nrdirty. rewrite Hdev.
    destruct (wait_nr_ios fuel (caches st a)); [|discriminate].
    destruct (clean_loop fuel _) as [[r' d3]|]; [|discriminate].
    intros H; inversion H; subst. reflexivity. }
  destruct (Z.eqb_spec r 0) as [Hr|Hr]; simpl.
  - subst r. intros H. right. apply (Htail st1 0 evs1 Hl1 H).
  - intros H; inversion H; subst. left. split; assumption.
Qed.

(** eio_get_cache_count follows the table: it is 0 after eio_ttc_init,
    one more (in a [uint64_t]) after an activation that returned 0 and
    unchanged after one that was refused, unchanged after a deactivation
    that returned an error and one less after one that returned 0 for a
    structure its list linked once. *)
Theorem cache_count_tracks_registry (st : ttc_state) (a : Z) (bdev : block_device) :
  disk_dev (caches st a) = Some bdev ->
  (EIO_HASH_BDEV (bd_contains bdev) < EIO_HASHTBL_SIZE)%nat ->
  let index := EIO_HASH_BDEV (bd_contains bdev) in
  let count := fun s => fst (eio_get_cache_count s) in
  count (eio_ttc_init st) = 0
  /\ (forall ret st' evs,
        eio_ttc_activate st a = (ret, st', evs) ->
        (ret = 0 -> count st' = u64 (count st + 1))
        /\ (ret <> 0 -> count st' = count st))
  /\ (forall fuel force ret st' evs,
        eio_ttc_deactivate fuel st a force = Some (ret, st', evs) ->
        (ret <> 0 -> count st' = count st)
        /\ (ret = 0 -> NoDup (eio_ttc_list st index) ->
            In a (eio_ttc_list st index) ->
            count st = u64 (count st' + 1))).
Proof.
  intros Hdev Hidx index count. subst count index. cbv beta.
  split; [|split].
  - rewrite (proj1 (cache_count_linked _)).
    assert (Hnil : linked (eio_ttc_init st) = []).
    { unfold linked, eio_ttc_init. cbn [eio_ttc_list].
      assert (H : forall n s, (s + n <= EIO_HASHTBL_SIZE)%nat ->
                 flat_map (fun i => if (i <? EIO_HASHTBL_SIZE)%nat then []
                                    else eio_ttc_list st i) (seq s n) = []).
      { induction n as [|n IH]; intros s Hs; [reflexivity|].
        cbn [seq flat_map].
        replace ((s <? EIO_HASHTBL_SIZE)%nat) with true
          by (symmetry; apply Nat.ltb_lt; lia).
        simpl. apply IH. lia. }
      apply H. lia. }
    rewrite Hnil. reflexivity.
  - intros ret st' evs Hact.
    rewrite !(proj1 (cache_count_linked _)).
    destruct (activate_lists st a bdev ret st' evs Hdev Hact)
      as [(-> & Hl & Ho & _)|(-> & Hl)].
    + split; [intros _|intros H; congruence].
      apply u64_of_nat_succ.
      pose proof (linked_length_upd st st' _ Hidx Ho) as E.
      rewrite Hl, length_app in E. simpl in E. lia.
    + split; [unfold EINVAL; discriminate|intros _].
      unfold linked. rewrite Hl. reflexivity.
  - intros fuel force ret st' evs Hde.
    rewrite !(proj1 (cache_count_linked _)).
    destruct (deactivate_lists fuel st a force bdev ret st' evs Hdev Hde)
      as [(Hr & Hl)|(-> & Hl & Ho)].
    + split; [intros _|intros H; congruence].
      unfold linked. rewrite Hl. reflexivity.
    + split; [intros H; congruence|intros _ Hnd Hin].
      apply u64_of_nat_succ.
      pose proof (linked_length_upd st st' _ Hidx Ho) as E.
      rewrite Hl in E.
      pose proof (remove_length_nodup a _ Hnd Hin) as E'. lia.
Qed.

(** ** Lookup after activation *)

Lemma lookup_in_list_app (st : ttc_state) (name : string) (a : Z) :
  forall l,
    lookup_in_list st name (l ++ [a])
    = match lookup_in_list st name l with
      | Some x => Some x
      | None => if String.eqb name (cache_name (caches st a)) then Some a else None
      end.
Proof.
  induction l as [|x l IH]; simpl.
  - destruct (String.eqb name (cache_name (caches st a))); reflexivity.
  - destruct (String.eqb name (cache_name (caches st x))); [reflexivity|exact IH].
Qed.

Lemma lookup_in_list_names (st st' : ttc_state) (name : string) :
  (forall x, cache_name (caches st' x) = cache_name (caches st x)) ->
  forall l, lookup_in_list st' name l = lookup_in_list st name l.
Proof.
  intros Hn. induction l as [|x l IH]; simpl; [reflexivity|].
  rewrite Hn, IH. reflexivity.
Qed.

Lemma lookup_shards_fst (st : ttc_state) (name : string) (i : nat) (rest : list nat) :
  fst (lookup_shards st name (i :: rest))
  = match lookup_in_list st name (eio_ttc_list st i) with
    | Some a => Some a
    | None => fst (lookup_shards st name rest)
    end.
Proof.
  simpl. destruct (lookup_in_list st name (eio_ttc_list st i)); [reflexivity|].
  destruct (lookup_shards st name rest); reflexivity.
Qed.

Lemma lookup_shards_congr (st st' : ttc_state) (name : string) :
  forall shards,
    (forall i, In i shards ->
       lookup_in_list st' name (eio_ttc_list st' i)
       = lookup_in_list st name (eio_ttc_list st i)) ->
    fst (lookup_shards st' name shards) = fst (lookup_shards st name shards).
Proof.
  induction shards as [|i rest IH]; intros H; [reflexivity|].
  rewrite !lookup_shards_fst, (H i (or_introl eq_refl)), IH; [reflexivity|].
  intros j Hj. apply H. right. exact Hj.
Qed.

Lemma lookup_shards_none (st : ttc_state) (name : string) :
  forall shards,
    fst (lookup_shards st name shards) = None ->
    forall i, In i shards -> lookup_in_list st name (eio_ttc_list st i) = None.
Proof.
  induction shards as [|i rest IH]; intros H j Hj; [destruct Hj|].
  rewrite lookup_shards_fst in H.
  destruct (lookup_in_list st name (eio_ttc_list st i)) eqn:Hi; [discriminate|].
  destruct Hj as [<-|Hj]; [exact Hi|apply IH; assumption].
Qed.

Lemma lookup_shards_one (st : ttc_state) (name : string) (k : nat) (a : Z) :
  forall shards,
    In k shards ->
    lookup_in_list st name (eio_ttc_list st k) = Some a ->
    (forall i, In i shards -> i <> k ->
               lookup_in_list st name (eio_ttc_list st i) = None) ->
    fst (lookup_shards st name shards) = Some a.
Proof.
  induction shards as [|i rest IH]; intros Hk Ha Hnone; [destruct Hk|].
  rewrite lookup_shards_fst.
  destruct (Nat.eq_dec i k) as [->|Hne].
  - rewrite Ha. reflexivity.
  - rewrite (Hnone i (or_introl eq_refl) Hne). apply IH.
    + destruct Hk as [Hk|Hk]; [congruence|exact Hk].
    + exact Ha.
    + intros j Hj. apply Hnone. right. exact Hj.
Qed.

Lemma activate_lookup (st : ttc_state) (a : Z) (bdev : block_device)
  (st' : ttc_state) (evs : list event) :
  disk_dev (caches st a) = Some bdev ->
  (EIO_HASH_BDEV (bd_contains bdev) < EIO_HASHTBL_SIZE)%nat ->
  eio_ttc_activate st a = (0, st', evs) ->
  (fst (eio_cache_lookup st (cache_name (caches st a))) = None ->
   fst (eio_cache_lookup st' (cache_name (caches st a))) = Some a)
  /\ (forall name, name <> cache_name (caches st a) ->
        fst (eio_cache_lookup st' name) = fst (eio_cache_lookup st name))
  /\ (forall name x, fst (eio_cache_lookup st name) = Some x ->
        exists y, fst (eio_cache_lookup st' name) = Some y).
Proof.
  intros Hdev Hidx Hact.
  destruct (activate_lists st a bdev 0 st' evs Hdev Hact)
    as [(_ & Hl & Ho & Hn)|(He & _)]; [|unfold EINVAL in He; discriminate].
  set (k := EIO_HASH_BDEV (bd_contains bdev)) in *.
  assert (Hat : forall name i,
             lookup_in_list st' name (eio_ttc_list st' i)
             = if Nat.eqb i k
               then match lookup_in_list st name (eio_ttc_list st i) with
                    | Some x => Some x
                    | None => if String.eqb name (cache_name (caches st a))
                              then Some a else None
                    end
               else lookup_in_list st name (eio_ttc_list st i)).
  { intros name i. rewrite (lookup_in_list_names st st' name Hn).
    destruct (Nat.eqb_spec i k) as [->|Hne].
    - rewrite Hl. apply lookup_in_list_app.
    - rewrite (Ho i Hne). reflexivity. }
  unfold eio_cache_lookup. split; [|split].
  - intros Hnone.
    pose proof (lookup_shards_none st _ _ Hnone) as Hall.
    apply (lookup_shards_one st' _ k a).
    + apply in_seq. lia.
    + rewrite Hat, Nat.eqb_refl, Hall by (apply in_seq; lia).
      rewrite String.eqb_refl. reflexivity.
    + intros i Hi Hne. rewrite Hat. apply Nat.eqb_neq in Hne. rewrite Hne.
      apply Hall. exact Hi.
  - intros name Hname. apply lookup_shards_congr. intros i _.
    rewrite Hat. destruct (Nat.eqb i k); [|reflexivity].
    destruct (lookup_in_list st name (eio_ttc_list st i)); [reflexivity|].
    apply String.eqb_neq in Hname. rewrite Hname. reflexivity.
  - intros name x. generalize (seq 0 EIO_HASHTBL_SIZE). intros shards.
    induction shards as [|i rest IH]; [discriminate|].
    rewrite !lookup_shards_fst, Hat.
    destruct (lookup_in_list st name (eio_ttc_list st i)) as [z|].
    + intros _. destruct (Nat.eqb i k); eexists; reflexivity.
    + intros H. destruct (Nat.eqb i k); [|exact (IH H)].
      destruct (String.eqb name (cache_name (caches st a)));
        [eexists; reflexivity|exact (IH H)].
Qed.

(** A structure that was activated is found by its name: after an
    activation that returned 0, eio_cache_lookup finds the structure
    under its name if no linked structure had the name before, every
    other name resolves as it did, and no name that resolved is lost. *)
Theorem activate_then_lookup (st : ttc_state) (a : Z) (bdev : block_device)
  (st' : ttc_state) (evs : list event) :
  disk_dev (caches st a) = Some bdev ->
  (EIO_HASH_BDEV (bd_contains bdev) < EIO_HASHTBL_SIZE)%nat ->
  eio_ttc_activate st a = (0, st', evs) ->
  (fst (eio_cache_lookup st (cache_name (caches st a))) = None ->
   fst (eio_cache_lookup st' (cache_name (caches st a))) = Some a)
  /\ (forall name, name <> cache_name (caches st a) ->
        fst (eio_cache_lookup st' name) = fst (eio_cache_lookup st name))
  /\ (forall name x, fst (eio_cache_lookup st name) = Some x ->
        exists y, fst (eio_cache_lookup st' name) = Some y).
Proof.
  intros Hdev Hidx Hact.
  destruct (activate_lookup st a bdev st' evs Hdev Hidx Hact) as (H1 & H2 & H3).
  split; [exact H1|]. split; [exact H2|exact H3].
Qed.

(** ** The checks before creation *)

Lemma preliminary_scan_spec (st : ttc_state) (bdev : block_device) (w : bool) :
  forall l,
    preliminary_scan st bdev w l = true
    <-> exists a1, In a1 l
          /\ same_disk (caches st a1) bdev = true
          /\ (w = true \/ is_whole_disk (dev_info (caches st a1)) = true
              \/ same_bdev (caches st a1) bdev = true).
Proof.
  induction l as [|a1 l IH]; simpl.
  - split; [discriminate|intros (x & [] & _)].
  - destruct (same_disk (caches st a1) bdev) eqn:Hs; simpl.
    + destruct (w || is_whole_disk (dev_info (caches st a1))
                || same_bdev (caches st a1) bdev) eqn:Hc.
      * split; [intros _|reflexivity]. exists a1.
        split; [left; reflexivity|]. split; [exact Hs|].
        destruct w; [left; reflexivity|]. simpl in Hc.
        destruct (is_whole_disk _); [right; left; reflexivity|].
        right; right. exact Hc.
      * apply orb_false_elim in Hc. destruct Hc as [Hc Hb].
        apply orb_false_elim in Hc. destruct Hc as [Hw Hi].
        rewrite IH. split.
        -- intros (x & Hx & Hr). exists x. split; [right; exact Hx|exact Hr].
        -- intros (x & [<-|Hx] & Hsx & Hr).
           ++ destruct Hr as [Hr|[Hr|Hr]]; congruence.
           ++ exists x. split; [exact Hx|]. split; assumption.
    + rewrite IH. split.
      * intros (x & Hx & Hr). exists x. split; [right; exact Hx|exact Hr].
      * intros (x & [<-|Hx] & Hsx & Hr); [congruence|].
        exists x. split; [exact Hx|]. split; assumption.
Qed.

(** The loop of activation reports no conflict that the loop of the
    checks does not. *)
Lemma activate_scan_preliminary (st : ttc_state) (bdev : block_device) (w : bool) :
  forall l, preliminary_scan st bdev w l = false ->
            fst (activate_scan st bdev w l) = false.
Proof.
  induction l as [|a1 l IH]; simpl; [reflexivity|].
  destruct (same_disk (caches st a1) bdev); simpl; [|exact IH].
  destruct (w || is_whole_disk (dev_info (caches st a1))
            || same_bdev (caches st a1) bdev); [discriminate|reflexivity].
Qed.

(** eio_do_preliminary_checks, in full: -EINVAL when the source and the
    cache device are on one disk; otherwise -EEXIST when a linked
    structure has the name; otherwise -EINVAL when some linked binding
    of the disk, wherever it is on the list, is in conflict (the new
    binding is for the whole disk, or that binding is, or it is for the
    same device); otherwise 0.  Every lock taken is released. *)
Theorem preliminary_checks_spec (st : ttc_state) (a : Z)
  (ssd_bdev bdev : block_device) :
  disk_dev (caches st a) = Some bdev ->
  let name_linked :=
    exists i x, (i < EIO_HASHTBL_SIZE)%nat /\ In x (eio_ttc_list st i)
                /\ cache_name (caches st x) = cache_name (caches st a) in
  let conflict :=
    exists a1, In a1 (eio_ttc_list st (EIO_HASH_BDEV (bd_contains bdev)))
      /\ same_disk (caches st a1) bdev = true
      /\ ((bd_dev bdev =? bd_contains bdev) = true
          \/ is_whole_disk (dev_info (caches st a1)) = true
          \/ same_bdev (caches st a1) bdev = true) in
  exists ret evs,
    eio_do_preliminary_checks st a ssd_bdev = Some (ret, evs)
    /\ held_locks [] evs = []
    /\ (ret = - EINVAL <->
        bd_contains bdev = bd_contains ssd_bdev \/ (~ name_linked /\ conflict))
    /\ (ret = - EEXIST <->
        bd_contains bdev <> bd_contains ssd_bdev /\ name_linked)
    /\ (ret = 0 <->
        bd_contains bdev <> bd_contains ssd_bdev /\ ~ name_linked /\ ~ conflict).
Proof.
  intros Hdev name_linked conflict.
  unfold eio_do_preliminary_checks. rewrite Hdev.
  destruct (Z.eqb_spec (bd_contains bdev) (bd_contains ssd_bdev)) as [Hssd|Hssd].
  { exists (- EINVAL), []. split; [reflexivity|]. split; [reflexivity|].
    split; [|split].
    - split; [intros _; left; exact Hssd|reflexivity].
    - split; [unfold EINVAL, EEXIST; discriminate|intros [H _]; contradiction].
    - split; [unfold EINVAL; discriminate|intros [H _]; contradiction]. }
  pose proof (lookup_shards_spec st (cache_name (caches st a))
                (seq 0 EIO_HASHTBL_SIZE)) as Hspec.
  pose proof (lookup_shards_releases st (cache_name (caches st a))
                (seq 0 EIO_HASHTBL_SIZE) []) as Hrel.
  unfold eio_cache_lookup.
  destruct (lookup_shards st (cache_name (caches st a)) (seq 0 EIO_HASHTBL_SIZE))
    as [[x|] evs0]; simpl in Hspec, Hrel.
  - assert (Hname : name_linked).
    { destruct Hspec as (before & i & after & pre & post & Hseq & Hl & Hn & _).
      exists i, x. split; [|split; [|exact Hn]].
      - assert (Hi : In i (seq 0 EIO_HASHTBL_SIZE))
          by (rewrite Hseq; apply in_or_app; right; left; reflexivity).
        apply in_seq in Hi. lia.
      - rewrite Hl. apply in_or_app. right. left. reflexivity. }
    exists (- EEXIST), evs0. split; [reflexivity|]. split; [exact Hrel|].
    split; [|split].
    + split; [unfold EINVAL, EEXIST; discriminate|].
      intros [H|[H _]]; contradiction.
    + split; [intros _; split; assumption|reflexivity].
    + split; [unfold EEXIST; discriminate|intros (_ & H & _); contradiction].
  - assert (Hname : ~ name_linked).
    { intros (i & y & Hi & Hy & Hn). apply (Hspec i y); [apply in_seq; lia|exact Hy|exact Hn]. }
    pose proof (preliminary_scan_spec st bdev (bd_dev bdev =? bd_contains bdev)
                  (eio_ttc_list st (EIO_HASH_BDEV (bd_contains bdev)))) as Hscan.
    fold conflict in Hscan.
    assert (Hlocks : held_locks [] (evs0 ++ [ev_down_read (EIO_HASH_BDEV (bd_contains bdev));
                                             ev_up_read (EIO_HASH_BDEV (bd_contains bdev))]) = []).
    { rewrite held_locks_app, Hrel. simpl. rewrite Nat.eqb_refl. reflexivity. }
    destruct (preliminary_scan st bdev _ _).
    + exists (- EINVAL). eexists. split; [reflexivity|]. split; [exact Hlocks|].
      assert (Hc : conflict) by (apply Hscan; reflexivity).
      split; [|split].
      * split; [intros _; right; split; assumption|reflexivity].
      * split; [unfold EINVAL, EEXIST; discriminate|intros [_ H]; contradiction].
      * split; [unfold EINVAL; discriminate|intros (_ & _ & H); contradiction].
    + exists 0. eexists. split; [reflexivity|]. split; [exact Hlocks|].
      assert (Hc : ~ conflict) by (intros H; apply Hscan in H; discriminate).
      split; [|split].
      * split; [unfold EINVAL; discriminate|].
        intros [H|[_ H]]; contradiction.
      * split; [unfold EEXIST; discriminate|intros [_ H]; contradiction].
      * split; [intros _; repeat split; assumption|reflexivity].
Qed.

(** Checks that returned 0 clear the way: on the same table,
    eio_ttc_activate returns 0, links the structure at the tail of its
    shard, and eio_cache_lookup then finds it under its name. *)
Theorem preliminary_checks_allow_activation (st : ttc_state) (a : Z)
  (ssd_bdev bdev : block_device) (evs : list event) :
  disk_dev (caches st a) = Some bdev ->
  (EIO_HASH_BDEV (bd_contains bdev) < EIO_HASHTBL_SIZE)%nat ->
  eio_do_preliminary_checks st a ssd_bdev = Some (0, evs) ->
  exists st' evs',
    eio_ttc_activate st a = (0, st', evs')
    /\ eio_ttc_list st' (EIO_HASH_BDEV (bd_contains bdev))
       = eio_ttc_list st (EIO_HASH_BDEV (bd_contains bdev)) ++ [a]
    /\ fst (eio_cache_lookup st' (cache_name (caches st a))) = Some a.
Proof.
  intros Hdev Hidx Hpre.
  unfold eio_do_preliminary_checks in Hpre. rewrite Hdev in Hpre.
  destruct (bd_contains bdev =? bd_contains ssd_bdev);
    [unfold EINVAL in Hpre; discriminate|].
  destruct (eio_cache_lookup st (cache_name (caches st a))) as [[x|] evs0] eqn:Hlook;
    [unfold EEXIST in Hpre; discriminate|].
  destruct (preliminary_scan st bdev _ _) eqn:Hscan;
    [unfold EINVAL in Hpre; discriminate|].
  pose proof (activate_scan_preliminary st bdev _ _ Hscan) as Hact.
  destruct (eio_ttc_activate st a) as [[ret st'] evs'] eqn:Ha.
  assert (Hret : ret = 0).
  { revert Ha. unfold eio_ttc_activate. rewrite Hdev.
    set (st1 := set_cache a _ st).
    pose proof (activate_scan_ext st st1 bdev (bd_dev bdev =? bd_contains bdev)
                  (set_dev_sect_same_disk st a _ _ bdev)
                  (eio_ttc_list st (EIO_HASH_BDEV (bd_contains bdev)))) as Hext.
    change (eio_ttc_list st1) with (eio_ttc_list st).
    rewrite Hact in Hext. clearbody st1.
    destruct (activate_scan st1 bdev _ _) as [c f]. simpl in Hext. subst c.
    intros H; inversion H; reflexivity. }
  subst ret. exists st', evs'. split; [reflexivity|].
  destruct (activate_lists st a bdev 0 st' evs' Hdev Ha)
    as [(_ & Hl & _)|(He & _)]; [|unfold EINVAL in He; discriminate].
  split; [exact Hl|].
  apply (proj1 (activate_lookup st a bdev st' evs' Hdev Hidx Ha)).
  rewrite Hlook. reflexivity.
Qed.

End RegistryProperties.

(** On the empty table, for A on sda1: the count is 0 after
    eio_ttc_init and 1 after the activation. *)
Lemma cache_count_tracks_registry_witness :
  fst (@eio_get_cache_count sample_header (@eio_ttc_init sample_header st_empty)) = 0
  /\ fst (@eio_get_cache_count sample_header st_A)
     = u64 (fst (@eio_get_cache_count sample_header st_empty) + 1).
Proof.
  destruct (@cache_count_tracks_registry sample_header quiet st_empty 1000 sda1)
    as (Hinit & Hact & _).
  - reflexivity.
  - vm_compute. lia.
  - split; [exact Hinit|].
    destruct (@eio_ttc_activate sample_header st_empty 1000) as [[ret st'] evs] eqn:Ha.
    assert (Hret : ret = 0) by (vm_compute in Ha; congruence).
    subst ret. destruct (Hact 0 st' evs eq_refl) as [Hone _].
    assert (Hst : st' = st_A).
    { unfold st_A, activate_on. rewrite Ha. reflexivity. }
    rewrite <- Hst. apply Hone. reflexivity.
Defined.

(** On the empty table, A is found by its name once activated. *)
Lemma activate_then_lookup_witness :
  fst (@eio_cache_lookup sample_header st_A "A") = Some 1000.
Proof.
  destruct (@eio_ttc_activate sample_header st_empty 1000) as [[ret st'] evs] eqn:Ha.
  assert (Hret : ret = 0) by (vm_compute in Ha; congruence).
  subst ret.
  assert (Hst : st' = st_A).
  { unfold st_A, activate_on. rewrite Ha. reflexivity. }
  destruct (@activate_then_lookup sample_header st_empty 1000 sda1 st' evs)
    as (Hfind & _).
  - reflexivity.
  - vm_compute. lia.
  - exact Ha.
  - rewrite <- Hst. apply Hfind. reflexivity.
Defined.

(** With A active, the checks for B (on sda2, cache on sdb) pass. *)
Lemma preliminary_checks_spec_witness :
  exists evs, @eio_do_preliminary_checks sample_header st_A 2000 sdb = Some (0, evs).
Proof.
  destruct (@preliminary_checks_spec sample_header st_A 2000 sdb sda2 eq_refl)
    as (ret & evs & Hrun & _ & _ & _ & Hzero).
  assert (Hret : ret = 0).
  { vm_compute in Hrun. congruence. }
  subst ret. exists evs. exact Hrun.
Defined.

(** With A active, B passes the checks and is then activated and found. *)
Lemma preliminary_checks_allow_activation_witness :
  exists st' evs',
    @eio_ttc_activate sample_header st_A 2000 = (0, st', evs')
    /\ eio_ttc_list st' 0%nat = [1000; 2000]
    /\ fst (@eio_cache_lookup sample_header st' "B") = Some 2000.
Proof.
  destruct (@eio_do_preliminary_checks sample_header st_A 2000 sdb) as [[ret evs]|] eqn:Hpre;
    [|vm_compute in Hpre; discriminate].
  assert (Hret : ret = 0) by (vm_compute in Hpre; congruence).
  subst ret.
  destruct (@preliminary_checks_allow_activation sample_header st_A 2000 sdb sda2 evs)
    as (st' & evs' & Hact & Hl & Hlook).
  - reflexivity.
  - vm_compute. lia.
  - exact Hpre.
  - exists st', evs'. split; [exact Hact|]. split; [exact Hl|exact Hlook].
Defined.

(** ** The edit path: locks, the in-progress flag, the mode *)

Section EditPathProperties.
Context {hdr : EioHeader} {ext : Collaborators}.

Lemma flag_cleared (flags mask : Z) :
  flag_set (Z.land flags (Z.lnot mask)) mask = false.
Proof.
  unfold flag_set. rewrite <- Z.land_assoc, (Z.land_comm (Z.lnot mask)).
  rewrite Z.land_lnot_diag, Z.land_0_r. reflexivity.
Qed.

Lemma edit_out_spec (st : ttc_state) (a : Z) (t : Z) (r : bool) (error : Z)
  (evs : list event) :
  forall ret st' evs',
    edit_out st a t r error evs = (ret, st', evs') ->
    (forall held, held_locks held evs' = held_locks held evs)
    /\ (error <> 0 -> ret <> 0)
    /\ flag_set (cache_flags (caches st' a)) CACHE_FLAGS_MOD_INPROG = false.
Proof.
  intros ret st' evs'. unfold edit_out.
  assert (Hspin : forall held l l1,
             (forall h, held_locks h l1 = h) ->
             held_locks held (l ++ l1 ++ [ev_spin_lock a; ev_spin_unlock a])
             = held_locks held l).
  { intros held l l1 H1. rewrite !held_locks_app, H1. simpl.
    rewrite Z.eqb_refl. reflexivity. }
  match goal with
  | |- context [if ?c then _ else (error, ?d, [])] => destruct c
  end.
  - destruct (eio_start_clean_thread _) as [ret0 d'].
    match goal with
    | |- context [if ?c then _ else (_, d', [])] => destruct c
    end; intros H; injection H as <- <- <-; (split; [|split]).
    + intros held. apply (Hspin held evs [_]). reflexivity.
    + intros He. destruct (Z.eqb_spec ret0 0); simpl; assumption.
    + simpl. unfold upd. rewrite Z.eqb_refl. apply flag_cleared.
    + intros held. apply (Hspin held evs []). reflexivity.
    + intros He. destruct (Z.eqb_spec ret0 0); simpl; assumption.
    + simpl. unfold upd. rewrite Z.eqb_refl. apply flag_cleared.
  - intros H; injection H as <- <- <-. split; [|split].
    + intros held. apply (Hspin held evs []). reflexivity.
    + intros He; exact He.
    + simpl. unfold upd. rewrite Z.eqb_refl. apply flag_cleared.
Qed.

Lemma policy_switch_no_lock (d : cache_c) (policy : Z) (held : list lock) :
  held_locks held (snd (eio_policy_switch d policy)) = held.
Proof.
  unfold eio_policy_switch, policy_switch_out.
  destruct (eio_policy_init d) as [error d1].
  repeat match goal with
         | |- context [if ?c then _ else _] => destruct c
         end; reflexivity.
Qed.

Lemma finish_nrdirty_no_lock (fuel : nat) (st : ttc_state) (a : Z) :
  forall ret st1 evs held,
    eio_finish_nrdirty fuel st a = Some (ret, st1, evs) ->
    held_locks held evs = held.
Proof.
  intros ret st1 evs held. unfold eio_finish_nrdirty.
  destruct (disk_dev (caches st a)); [|discriminate].
  destruct (wait_nr_ios fuel (caches st a)); [|discriminate].
  destruct (clean_loop fuel _) as [[r d3]|]; [|discriminate].
  intros H; inversion H; subst. simpl. rewrite Nat.eqb_refl. reflexivity.
Qed.

(** Lines 1356-1400 return with the write lock of the shard released,
    except after a failed eio_sb_store. *)
Lemma edit_locked_locks (fuel : nat) (st : ttc_state) (a : Z) (new_mode policy : Z)
  (t : Z) (r : bool) (evs : list event) :
  forall ret st' evs',
    edit_locked fuel st a new_mode policy t r evs = Some (ret, st', evs') ->
    held_locks [] evs = [] ->
    flag_set (cache_flags (caches st' a)) CACHE_FLAGS_MOD_INPROG = false
    /\ (held_locks [] evs' = []
        \/ (ret <> 0
            /\ (exists d, eio_sb_store d <> 0)
            /\ exists index, held_locks [] evs' = [shard_lock index])).
Proof.
  intros ret st' evs'. unfold edit_locked.
  destruct (disk_dev (caches st a)) as [bdev|]; [|discriminate].
  destruct (wait_nr_ios fuel (caches st a)) as [d0|]; [|discriminate].
  set (index := EIO_HASH_BDEV (bd_contains bdev)).
  assert (Hpol : forall held, held_locks held
             (snd (if negb (policy =? 0) && negb (policy =? req_policy d0)
                   then eio_policy_switch d0 policy else (0, d0, []))) = held).
  { intros held. destruct (_ && _); [apply policy_switch_no_lock|reflexivity]. }
  destruct (if negb (policy =? 0) && negb (policy =? req_policy d0)
            then eio_policy_switch d0 policy else (0, d0, []))
    as [[error1 d1] evs1].
  simpl in Hpol.
  assert (Hbal : held_locks [] evs = [] ->
                 held_locks [] (evs ++ [ev_down_write index] ++ evs1 ++ [ev_up_write index])
                 = []).
  { intros He. rewrite held_locks_app, He. simpl.
    rewrite held_locks_app, Hpol. simpl. rewrite Nat.eqb_refl. reflexivity. }
  destruct (Z.eqb_spec error1 0) as [E1|E1]; cbn [negb].
  2:{ intros H He. injection H as H.
      destruct (edit_out_spec _ _ _ _ _ _ _ _ _ H) as (Hl & _ & Hf).
      split; [exact Hf|]. left. rewrite Hl. apply Hbal. exact He. }
  destruct (if negb (new_mode =? 0) && negb (new_mode =? mode d1)
            then eio_mode_switch d1 new_mode else (0, d1)) as [error2 d2].
  destruct (Z.eqb_spec error2 0) as [E2|E2]; cbn [negb].
  2:{ intros H He. injection H as H.
      destruct (edit_out_spec _ _ _ _ _ _ _ _ _ H) as (Hl & _ & Hf).
      split; [exact Hf|]. left. rewrite Hl. apply Hbal. exact He. }
  destruct (Z.eqb_spec (eio_sb_store (set_time_based_clean_interval t d2)) 0)
    as [E3|E3]; cbn [negb].
  - intros H He. injection H as H.
    destruct (edit_out_spec _ _ _ _ _ _ _ _ _ H) as (Hl & _ & Hf).
    split; [exact Hf|]. left. rewrite Hl.
    rewrite held_locks_app, He. simpl.
    rewrite held_locks_app, Hpol. simpl. rewrite Nat.eqb_refl. reflexivity.
  - intros H He. injection H as H.
    destruct (edit_out_spec _ _ _ _ _ _ _ _ _ H) as (Hl & Hr & Hf).
    split; [exact Hf|]. right. split; [exact (Hr E3)|].
    split; [eexists; exact E3|]. exists index. rewrite Hl.
    rewrite held_locks_app, He. simpl. apply Hpol.
Qed.

(** eio_cache_edit and its locks.  A call that returns has released the
    spin lock of the binding and every shard lock it took, with one
    exception: when eio_sb_store fails the call returns the error with
    the write lock of the binding's shard still held. *)
Theorem edit_lock_discipline (fuel : nat) (st : ttc_state) (name : string)
  (new_mode policy : Z) (ret : Z) (st' : ttc_state) (evs : list event) :
  eio_cache_edit fuel st name new_mode policy = Some (ret, st', evs) ->
  (held_locks [] evs = []
   \/ (ret <> 0 /\ exists index, held_locks [] evs = [shard_lock index]))
  /\ ((forall d, eio_sb_store d = 0) -> held_locks [] evs = []).
Proof.
  intros Hedit.
  assert (Hmain : held_locks [] evs = []
                  \/ (ret <> 0
                      /\ (exists d, eio_sb_store d <> 0)
                      /\ exists index, held_locks [] evs = [shard_lock index])).
  { revert Hedit. unfold eio_cache_edit, eio_cache_lookup.
    pose proof (lookup_shards_releases st name (seq 0 EIO_HASHTBL_SIZE) []) as Hrel.
    destruct (lookup_shards st name (seq 0 EIO_HASHTBL_SIZE)) as [[a|] evs0];
      simpl in Hrel.
    2:{ intros H; injection H as <- <- <-. left. exact Hrel. }
    assert (Hspin : held_locks [] (evs0 ++ [ev_spin_lock a; ev_spin_unlock a]) = []).
    { rewrite held_locks_app, Hrel. simpl. rewrite Z.eqb_refl. reflexivity. }
    destruct (_ && _).
    { intros H; injection H as <- <- <-. left. exact Hrel. }
    destruct (_ || _).
    { intros H; injection H as <- <- <-. left. exact Hrel. }
    destruct (flag_set _ CACHE_FLAGS_SHUTDOWN_INPROG).
    { intros H; injection H as <- <- <-. left. exact Hspin. }
    destruct (flag_set _ CACHE_FLAGS_MOD_INPROG).
    { intros H; injection H as <- <- <-. left. exact Hspin. }
    match goal with
    | |- context [if ?c then Some (edit_out _ _ _ false _ _) else _] => destruct c
    end.
    { intros H; injection H as H.
      destruct (edit_out_spec _ _ _ _ _ _ _ _ _ H) as (Hl & _).
      left. rewrite Hl. exact Hspin. }
    match goal with
    | |- context [if ?c then (if _ then _ else match eio_finish_nrdirty _ _ _ with _ => _ end)
                  else _] => destruct c
    end.
    - match goal with
      | |- context [if ?c then Some _ else _] => destruct c
      end.
      { intros H; injection H as H.
        destruct (edit_out_spec _ _ _ _ _ _ _ _ _ H) as (Hl & _).
        left. rewrite Hl. exact Hspin. }
      destruct (eio_finish_nrdirty fuel _ a) as [[[error st3] evs2]|] eqn:Hfin;
        [|discriminate].
      assert (Hev : held_locks [] ((evs0 ++ [ev_spin_lock a; ev_spin_unlock a]) ++ evs2) = []).
      { rewrite held_locks_app, Hspin.
        apply (finish_nrdirty_no_lock _ _ _ _ _ _ [] Hfin). }
      destruct (negb (error =? 0)).
      + intros H; injection H as H.
        destruct (edit_out_spec _ _ _ _ _ _ _ _ _ H) as (Hl & _).
        left. rewrite Hl. exact Hev.
      + intros H. apply (edit_locked_locks _ _ _ _ _ _ _ _ _ _ _ H Hev).
    - intros H. apply (edit_locked_locks _ _ _ _ _ _ _ _ _ _ _ H Hspin). }
  split.
  - destruct Hmain as [H|(Hr & _ & Hi)]; [left; exact H|right; split; assumption].
  - intros Hsb. destruct Hmain as [H|(_ & (d & Hd) & _)]; [exact H|].
    exfalso. apply Hd. apply Hsb.
Qed.

(** An edit does not leave the binding locked against the next one: if
    the in-progress flag was clear when the call found the binding, it
    is clear when the call returns, whatever the call did and however
    it ended. *)
Theorem edit_clears_mod_inprog (fuel : nat) (st : ttc_state) (name : string)
  (new_mode policy : Z) (a : Z) (ret : Z) (st' : ttc_state) (evs : list event) :
  fst (eio_cache_lookup st name) = Some a ->
  flag_set (cache_flags (caches st a)) CACHE_FLAGS_MOD_INPROG = false ->
  eio_cache_edit fuel st name new_mode policy = Some (ret, st', evs) ->
  flag_set (cache_flags (caches st' a)) CACHE_FLAGS_MOD_INPROG = false.
Proof.
  intros Hfound Hclear. unfold eio_cache_edit.
  destruct (eio_cache_lookup st name) as [found evs0]. simpl in Hfound. subst found.
  destruct (_ && _).
  { intros H; injection H as <- <- <-. exact Hclear. }
  destruct (_ || _).
  { intros H; injection H as <- <- <-. exact Hclear. }
  destruct (flag_set _ CACHE_FLAGS_SHUTDOWN_INPROG).
  { intros H; injection H as <- <- <-. exact Hclear. }
  rewrite Hclear.
  match goal with
  | |- context [if ?c then Some (edit_out _ _ _ false _ _) else _] => destruct c
  end.
  { intros H; injection H as H.
    apply (edit_out_spec _ _ _ _ _ _ _ _ _ H). }
  match goal with
  | |- context [if ?c then (if _ then _ else match eio_finish_nrdirty _ _ _ with _ => _ end)
                else _] => destruct c
  end.
  - match goal with
    | |- context [if ?c then Some _ else _] => destruct c
    end.
    { intros H; injection H as H. apply (edit_out_spec _ _ _ _ _ _ _ _ _ H). }
    destruct (eio_finish_nrdirty fuel _ a) as [[[error st3] evs2]|]; [|discriminate].
    destruct (negb (error =? 0)).
    + intros H; injection H as H. apply (edit_out_spec _ _ _ _ _ _ _ _ _ H).
    + unfold edit_locked.
      destruct (disk_dev (caches st3 a)); [|discriminate].
      destruct (wait_nr_ios fuel (caches st3 a)) as [d0|]; [|discriminate].
      destruct (if _ && _ then eio_policy_switch d0 policy else _) as [[e1 d1] ev1].
      destruct (negb (e1 =? 0)).
      { intros H; injection H as H. apply (edit_out_spec _ _ _ _ _ _ _ _ _ H). }
      destruct (if _ && _ then eio_mode_switch d1 new_mode else _) as [e2 d2].
      destruct (negb (e2 =? 0)).
      { intros H; injection H as H. apply (edit_out_spec _ _ _ _ _ _ _ _ _ H). }
      destruct (negb (_ =? 0));
        intros H; injection H as H; apply (edit_out_spec _ _ _ _ _ _ _ _ _ H).
  - unfold edit_locked.
    match goal with
    | |- context [disk_dev ?x] => destruct (disk_dev x); [|discriminate]
    end.
    match goal with
    | |- context [wait_nr_ios fuel ?x] =>
        destruct (wait_nr_ios fuel x) as [d0|]; [|discriminate]
    end.
    destruct (if _ && _ then eio_policy_switch d0 policy else _) as [[e1 d1] ev1].
    destruct (negb (e1 =? 0)).
    { intros H; injection H as H. apply (edit_out_spec _ _ _ _ _ _ _ _ _ H). }
    destruct (if _ && _ then eio_mode_switch d1 new_mode else _) as [e2 d2].
    destruct (negb (e2 =? 0)).
    { intros H; injection H as H. apply (edit_out_spec _ _ _ _ _ _ _ _ _ H). }
    destruct (negb (_ =? 0));
      intros H; injection H as H; apply (edit_out_spec _ _ _ _ _ _ _ _ _ H).
Qed.


End EditPathProperties.

(** ** A binding of the whole disk *)

Section WholeDisk.
Context {hdr : EioHeader} {ext : Collaborators}.

Lemma scan_whole_disk (st : ttc_state) (b : bio) (a : Z) :
  forall l f,
    In a l ->
    same_disk (caches st a) (bi_bdev b) = true ->
    is_whole_disk (dev_info (caches st a)) = true ->
    (forall a', In a' l -> same_disk (caches st a') (bi_bdev b) = true -> a' = a) ->
    ttc_scan st b l f = (Some a, f, false).
Proof.
  induction l as [|a1 l IH]; intros f Hin Hs Hw Honly; [destruct Hin|].
  simpl. destruct (same_disk (caches st a1) (bi_bdev b)) eqn:Hs1; simpl.
  - rewrite (Honly a1 (or_introl eq_refl) Hs1), Hw. reflexivity.
  - apply IH; try assumption.
    + destruct Hin as [->|Hin]; [congruence|exact Hin].
    + intros a' Ha'. apply Honly. right. exact Ha'.
Qed.

(** A whole-disk binding that is the only binding of its disk takes
    every I/O of the disk, whatever its sectors: the I/O is never split
    and never passed on to the driver; it goes to the cache engine under
    the read lock of the shard, its start sector rebased on the start of
    the binding unless it is zero. *)
Theorem whole_disk_binding_takes_all (fuel : nat) (st : ttc_state) (q : Z)
  (b : bio) (a : Z) :
  let index := EIO_HASH_BDEV (bd_contains (bi_bdev b)) in
  let dmc := caches st a in
  let b1 :=
    if bi_sector b =? 0 then b
    else set_bi_sector (u64 (bi_sector b - dev_start_sect dmc)) b in
  In a (eio_ttc_list st index) ->
  same_disk dmc (bi_bdev b) = true ->
  is_whole_disk (dev_info dmc) = true ->
  (forall a', In a' (eio_ttc_list st index) ->
              same_disk (caches st a') (bi_bdev b) = true -> a' = a) ->
  route st b = ROUTE_TO_CACHE a
  /\ exists b',
       eio_make_request_fn (S fuel) st q b
       = Some ([ev_down_read index; ev_eio_map a b1; ev_up_read index], b').
Proof.
  intros index dmc b1 Hin Hs Hw Honly.
  pose proof (scan_whole_disk st b a _ mfn_null Hin Hs Hw Honly) as Hscan.
  split.
  - unfold route. fold index. rewrite Hscan. reflexivity.
  - rewrite make_request_unfold. cbv zeta. fold index. rewrite Hscan.
    fold dmc. fold b1. destruct (eio_map dmc b1) as [r b2].
    eexists. reflexivity.
Qed.

End WholeDisk.

(** An edit of A to mode 1 on healthy collaborators returns with no lock
    held. *)
Lemma edit_lock_discipline_witness :
  exists ret st' evs,
    @eio_cache_edit sample_header quiet 3 st_A "A" 1 0 = Some (ret, st', evs)
    /\ held_locks [] evs = [].
Proof.
  destruct (@eio_cache_edit sample_header quiet 3 st_A "A" 1 0)
    as [[[ret st'] evs]|] eqn:He; [|vm_compute in He; discriminate].
  exists ret, st', evs. split; [reflexivity|].
  apply (@edit_lock_discipline sample_header quiet 3 st_A "A" 1 0 ret st' evs He).
  reflexivity.
Defined.

(** The exception is real: when the superblock cannot be written, the
    same edit returns -EIO with the write lock of shard 0 held. *)
Example edit_leaves_shard_lock :
  match @eio_cache_edit sample_header store_fails 3 st_A "A" 1 0 with
  | Some (ret, _, evs) => ret = -5 /\ held_locks [] evs = [shard_lock 0%nat]
  | None => False
  end.
Proof. vm_compute. split; reflexivity. Qed.

(** After an edit of A to mode 1, the in-progress flag of A is clear. *)
Lemma edit_clears_mod_inprog_witness :
  exists ret st' evs,
    @eio_cache_edit sample_header quiet 3 st_A "A" 1 0 = Some (ret, st', evs)
    /\ @flag_set (cache_flags (caches st' 1000)) (@CACHE_FLAGS_MOD_INPROG sample_header)
       = false.
Proof.
  destruct (@eio_cache_edit sample_header quiet 3 st_A "A" 1 0)
    as [[[ret st'] evs]|] eqn:He; [|vm_compute in He; discriminate].
  exists ret, st', evs. split; [reflexivity|].
  apply (@edit_clears_mod_inprog sample_header quiet 3 st_A "A" 1 0 1000 ret st' evs).
  - reflexivity.
  - reflexivity.
  - exact He.
Defined.


(** With W active for the whole of sda, the read of [50, 250] goes to
    the cache engine in one piece. *)
Lemma whole_disk_binding_takes_all_witness :
  @route sample_header st_W (read_at 50 201) = ROUTE_TO_CACHE 4000.
Proof.
  apply (@whole_disk_binding_takes_all sample_header quiet 0 st_W 500
           (read_at 50 201) 4000).
  - vm_compute. left. reflexivity.
  - reflexivity.
  - reflexivity.
  - intros a' Ha' _. vm_compute in Ha'. destruct Ha' as [<-|[]]. reflexivity.
Defined.

(** ** Pages for write-back and metadata I/O *)

Lemma pages_allocated_app (evs evs' : list page_event) :
  pages_allocated (evs ++ evs') = pages_allocated evs ++ pages_allocated evs'.
Proof.
  induction evs as [|e evs IH]; [reflexivity|].
  destruct e; simpl; rewrite IH; reflexivity.
Qed.

Lemma pages_put_app (evs evs' : list page_event) :
  pages_put (evs ++ evs') = pages_put evs ++ pages_put evs'.
Proof.
  induction evs as [|e evs IH]; [reflexivity|].
  destruct e; simpl; rewrite IH; reflexivity.
Qed.

Section PageProperties.
Context {pg : PageHeader}.

Lemma skipn_set_nth0 {A : Type} (v : A) (l : list A) (m : nat) :
  (0 < m)%nat -> skipn m (set_nth 0 v l) = skipn m l.
Proof. intros Hm. destruct l, m; try reflexivity; lia. Qed.

Lemma put_pages_down_spec (pages : list Z) :
  forall n,
    (n <= length pages)%nat ->
    pages_put (put_pages_down pages n) = rev (firstn n pages)
    /\ pages_allocated (put_pages_down pages n) = [].
Proof.
  induction n as [|n IH]; intros Hn; [split; reflexivity|].
  destruct IH as [IHp IHa]; [lia|].
  cbn [put_pages_down pages_put pages_allocated]. rewrite IHp, IHa.
  split; [|reflexivity].
  assert (Hf : firstn (S n) pages = firstn n pages ++ [nth n pages 0]).
  { clear IHp IHa. revert n Hn. induction pages as [|x l IHl]; intros n Hn.
    - simpl in Hn. lia.
    - destruct n as [|n]; [reflexivity|].
      simpl. f_equal. apply IHl. simpl in Hn. lia. }
  rewrite Hf, rev_app_distr. reflexivity.
Qed.

Lemma alloc_wb_pages_loop_spec :
  forall (n i : nat) (pages pool : list Z) i' pages' pool' evs,
    alloc_wb_pages_loop n i pages pool = (i', pages', pool', evs) ->
    (n <= length pages)%nat ->
    exists k : nat,
      i' = (i + k)%nat /\ (k <= n)%nat
      /\ pages_allocated evs = firstn k pool
      /\ length (firstn k pool) = k
      /\ Forall (fun p => p <> 0) (firstn k pool)
      /\ pages_put evs = []
      /\ pages' = firstn k pool ++ skipn k pages
      /\ ((k < n)%nat -> nth k pool 0 = 0 /\ evs = map pg_alloc (firstn k pool) ++ [pg_alloc_failed])
      /\ (k = n -> pool' = skipn k pool).
Proof.
  induction n as [|n IH]; intros i pages pool i' pages' pool' evs H Hlen.
  - simpl in H. injection H as <- <- <- <-. exists 0%nat.
    rewrite Nat.add_0_r. simpl. repeat split; try constructor; try lia; reflexivity.
  - destruct pages as [|p0 rest]; [simpl in Hlen; lia|].
    cbn [alloc_wb_pages_loop] in H.
    destruct pool as [|page pool1]; cbn [alloc_page] in H.
    + simpl in H. injection H as <- <- <- <-. exists 0%nat.
      rewrite Nat.add_0_r. simpl.
      repeat split; try constructor; try lia; reflexivity.
    + destruct (Z.eqb_spec page 0) as [Hz|Hnz].
      * injection H as <- <- <- <-. exists 0%nat. rewrite Nat.add_0_r. simpl.
        repeat split; try constructor; try lia; try reflexivity; exact Hz.
      * destruct (alloc_wb_pages_loop n (S i) rest pool1) as [[[i1 rest1] pool2] evs1] eqn:Hl.
        injection H as <- <- <- <-.
        destruct (IH _ _ _ _ _ _ _ Hl) as (k & Hi & Hk & Ha & Hlen' & Hnz' & Hp & Hr & Hfail & Hfull);
          [simpl in Hlen; lia|].
        exists (S k). cbn [firstn skipn pages_allocated pages_put length app nth map].
        split; [lia|]. split; [lia|]. split; [rewrite Ha; reflexivity|].
        split; [rewrite Hlen'; reflexivity|].
        split; [constructor; assumption|]. split; [exact Hp|].
        split; [rewrite Hr; reflexivity|]. split.
        -- intros Hlt. destruct Hfail as [Hf1 Hf2]; [lia|].
           split; [exact Hf1|rewrite Hf2; reflexivity].
        -- intros He. apply Hfull. lia.
Qed.

(** eio_alloc_wb_pages is all or nothing.  It returns 0 with [max]
    pages taken from the allocator, stored in order in the first [max]
    entries and none given back, or -ENOMEM with every page it took
    given back once, in the reverse order.  After a failure only the
    first entry of the array is NULL: the entries after it still hold
    the pages that were given back. *)
Theorem alloc_wb_pages_all_or_nothing (pages : list Z) (max : Z) (pool : list Z)
  (ret : Z) (pages' pool' : list Z) (evs : list page_event) :
  0 <= max <= Z.of_nat (length pages) ->
  eio_alloc_wb_pages pages max pool = (ret, pages', pool', evs) ->
  Forall (fun p => p <> 0) (pages_allocated evs)
  /\ skipn (Z.to_nat max) pages' = skipn (Z.to_nat max) pages
  /\ ((ret = 0
       /\ length (pages_allocated evs) = Z.to_nat max
       /\ pages_allocated evs = firstn (Z.to_nat max) pool
       /\ pool' = skipn (Z.to_nat max) pool
       /\ pages_put evs = []
       /\ firstn (Z.to_nat max) pages' = pages_allocated evs)
      \/ (ret = - ENOMEM
          /\ (length (pages_allocated evs) < Z.to_nat max)%nat
          /\ nth (length (pages_allocated evs)) pool 0 = 0
          /\ pages_put evs = rev (pages_allocated evs)
          /\ firstn (length (pages_allocated evs)) pages'
             = firstn (length (pages_allocated evs)) (0 :: tl (pages_allocated evs)))).
Proof.
  intros Hmax. unfold eio_alloc_wb_pages.
  destruct (alloc_wb_pages_loop (Z.to_nat max) 0 pages pool)
    as [[[i pages1] pool1] evs1] eqn:Hl.
  destruct (alloc_wb_pages_loop_spec _ _ _ _ _ _ _ _ Hl)
    as (k & Hi & Hk & Ha & Hlen & Hnz & Hp & Hr & Hfail & Hfull); [lia|].
  simpl in Hi. subst i.
  assert (Hsk : forall m, (k <= m)%nat ->
             skipn m (firstn k pool ++ skipn k pages) = skipn m pages).
  { intros m Hm. rewrite skipn_app, Hlen, skipn_all2 by lia.
    rewrite skipn_skipn. simpl. f_equal. lia. }
  assert (Hfk : firstn k (firstn k pool ++ skipn k pages) = firstn k pool).
  { rewrite firstn_app, Hlen, Nat.sub_diag, firstn_all2 by lia. simpl.
    apply app_nil_r. }
  destruct (Z.eqb_spec (Z.of_nat k) max) as [He|Hne]; cbn [negb].
  - intros H; injection H as <- <- <- <-.
    assert (Hkm : k = Z.to_nat max) by lia. rewrite <- Hkm.
    split; [rewrite Ha; exact Hnz|]. split; [rewrite Hr; apply Hsk; lia|].
    left. split; [reflexivity|]. split; [rewrite Ha; exact Hlen|].
    split; [exact Ha|]. split; [apply Hfull; exact Hkm|].
    split; [exact Hp|]. rewrite Hr, Ha. exact Hfk.
  - assert (Hlt : (k < Z.to_nat max)%nat) by lia.
    destruct (Hfail Hlt) as [Hz Hevs].
    destruct (Z.ltb_spec 0 (Z.of_nat k)) as [Hpos|Hzero].
    + unfold eio_free_wb_pages.
      replace (Z.of_nat k <=? 0) with false by (symmetry; apply Z.leb_gt; lia).
      rewrite Nat2Z.id.
      intros H; injection H as <- <- <- <-.
      destruct (put_pages_down_spec pages1 k) as [Hput Hnoalloc].
      { rewrite Hr, length_app, Hlen. lia. }
      rewrite pages_allocated_app, pages_put_app, Hnoalloc, Hp, app_nil_r, Ha, Hput.
      rewrite Hr, Hfk, Hlen.
      split; [exact Hnz|]. split.
      * change (skipn (Z.to_nat max) (set_nth 0 0 (firstn k pool ++ skipn k pages))
                = skipn (Z.to_nat max) pages).
        rewrite skipn_set_nth0 by lia. apply Hsk. lia.
      * right. split; [reflexivity|]. split; [exact Hlt|]. split; [exact Hz|].
        split; [reflexivity|].
        destruct (firstn k pool) as [|x l] eqn:Hf; [simpl in Hlen; lia|].
        destruct k as [|k']; [lia|]. simpl. f_equal.
        simpl in Hlen. injection Hlen as Hlen.
        rewrite firstn_app, Hlen, Nat.sub_diag. simpl.
        rewrite app_nil_r. reflexivity.
    + assert (Hk0 : k = 0%nat) by lia. subst k.
      intros H; injection H as <- <- <- <-.
      rewrite app_nil_r, Ha, Hp, Hr. simpl.
      split; [constructor|]. split; [reflexivity|].
      right. repeat split; try reflexivity; try lia.
Qed.

(** *** Arrays of bio_vec *)

Lemma filter_nonzero (l : list Z) :
  Forall (fun p => p <> 0) l -> filter nonzero l = l.
Proof.
  induction 1 as [|x l Hx _ IH]; [reflexivity|].
  simpl. unfold nonzero at 1. apply Z.eqb_neq in Hx. rewrite Hx. simpl.
  rewrite IH. reflexivity.
Qed.

Lemma free_wb_bvec_spec (blksize : Z) (i : nat) (v : bio_vec) :
  pages_put (snd (free_wb_bvec blksize i v))
  = filter nonzero (owned_pages blksize i [v])
  /\ pages_allocated (snd (free_wb_bvec blksize i v)) = []
  /\ bv_offset (fst (free_wb_bvec blksize i v)) = bv_offset v
  /\ bv_len (fst (free_wb_bvec blksize i v)) = bv_len v
  /\ (known_blksize blksize = true -> bv_page (fst (free_wb_bvec blksize i v)) = 0).
Proof.
  unfold free_wb_bvec, known_blksize, nonzero. simpl. rewrite <- Nat.negb_even.
  destruct (blksize =? BLKSIZE_2K); simpl.
  - destruct (Nat.even i); simpl.
    + destruct (Z.eqb_spec (bv_page v) 0) as [Hz|Hz]; simpl; repeat split; auto.
    + repeat split; auto.
  - destruct ((blksize =? BLKSIZE_4K) || (blksize =? BLKSIZE_8K)); simpl.
    + destruct (Z.eqb_spec (bv_page v) 0) as [Hz|Hz]; simpl; repeat split; auto.
    + repeat split; auto. discriminate.
Qed.

Lemma owned_pages_cons (blksize : Z) (i : nat) (v : bio_vec) (l : list bio_vec) :
  owned_pages blksize i (v :: l)
  = owned_pages blksize i [v] ++ owned_pages blksize (S i) l.
Proof. simpl. rewrite app_nil_r. reflexivity. Qed.

Lemma free_wb_bvecs_loop_spec (blksize : Z) :
  forall (n i : nat) (bvec : list bio_vec),
    let r := free_wb_bvecs_loop blksize n i bvec in
    pages_put (snd r) = filter nonzero (owned_pages blksize i (firstn n bvec))
    /\ pages_allocated (snd r) = []
    /\ skipn n (fst r) = skipn n bvec
    /\ length (fst r) = length bvec
    /\ (known_blksize blksize = true ->
        Forall (fun v => bv_page v = 0) (firstn n (fst r))).
Proof.
  induction n as [|n IH]; intros i bvec; cbv zeta.
  - simpl. repeat split; try reflexivity. intros _. constructor.
  - destruct bvec as [|v rest].
    + simpl. repeat split; try reflexivity. intros _. constructor.
    + cbn [free_wb_bvecs_loop firstn].
      destruct (free_wb_bvec_spec blksize i v) as (Hp & Ha & _ & _ & Hz).
      destruct (free_wb_bvec blksize i v) as [v' evs]. cbn [fst snd] in Hp, Ha, Hz.
      specialize (IH (S i) rest). cbv zeta in IH.
      destruct (free_wb_bvecs_loop blksize n (S i) rest) as [rest' evs'].
      simpl in IH. destruct IH as (IHp & IHa & IHs & IHl & IHz).
      cbn [fst snd skipn length firstn].
      rewrite pages_put_app, pages_allocated_app, Hp, Ha, IHp, IHa.
      rewrite (owned_pages_cons blksize i v (firstn n rest)), filter_app.
      split; [reflexivity|]. split; [reflexivity|]. split; [exact IHs|].
      split; [rewrite IHl; reflexivity|].
      intros Hk. constructor; [apply Hz; exact Hk|apply IHz; exact Hk].
Qed.

Lemma alloc_wb_bvecs_loop_spec (blksize : Z) :
  forall (n i : nat) (page : Z) (bvec : list bio_vec) (pool : list Z)
         err i' bvec' pool' evs,
    alloc_wb_bvecs_loop blksize n i page bvec pool = (err, i', bvec', pool', evs) ->
    (n <= length bvec)%nat ->
    exists k : nat,
      i' = (i + k)%nat /\ (k <= n)%nat
      /\ (err = false -> k = n)
      /\ (err = true -> (k < n)%nat)
      /\ pages_put evs = []
      /\ skipn k bvec' = skipn k bvec
      /\ length bvec' = length bvec
      /\ pages_allocated evs = owned_pages blksize i (firstn k bvec')
      /\ Forall (fun p => p <> 0) (pages_allocated evs).
Proof.
  induction n as [|n IH]; intros i page bvec pool err i' bvec' pool' evs H Hlen.
  - destruct bvec; simpl in H; injection H as <- <- <- <- <-;
      exists 0%nat; repeat split; try reflexivity; try lia; try constructor;
      discriminate.
  - destruct bvec as [|v0 rest]; [simpl in Hlen; lia|].
    assert (Hlen' : (n <= length rest)%nat) by (simpl in Hlen; lia).
    assert (Hfail : forall pool1,
               (true, i, v0 :: rest, pool1, [pg_alloc_failed])
               = (err, i', bvec', pool', evs) ->
               exists k : nat,
                 i' = (i + k)%nat /\ (k <= S n)%nat
                 /\ (err = false -> k = S n)
                 /\ (err = true -> (k < S n)%nat)
                 /\ pages_put evs = []
                 /\ skipn k bvec' = skipn k (v0 :: rest)
                 /\ length bvec' = length (v0 :: rest)
                 /\ pages_allocated evs = owned_pages blksize i (firstn k bvec')
                 /\ Forall (fun p => p <> 0) (pages_allocated evs)).
    { intros pool1 E. injection E as <- <- <- <- <-. exists 0%nat.
      repeat split; try reflexivity; try lia; try constructor; discriminate. }
    assert (Hstep : forall v page2 pool1 (allocs : list page_event),
               (allocs = [] \/ exists p, allocs = [pg_alloc p] /\ p <> 0) ->
               pages_allocated allocs = owned_pages blksize i [v] ->
               (let '(err0, i0, rest0, pool0, evs0) :=
                  alloc_wb_bvecs_loop blksize n (S i) page2 rest pool1 in
                (err0, i0, v :: rest0, pool0, allocs ++ evs0))
               = (err, i', bvec', pool', evs) ->
               exists k : nat,
                 i' = (i + k)%nat /\ (k <= S n)%nat
                 /\ (err = false -> k = S n)
                 /\ (err = true -> (k < S n)%nat)
                 /\ pages_put evs = []
                 /\ skipn k bvec' = skipn k (v0 :: rest)
                 /\ length bvec' = length (v0 :: rest)
                 /\ pages_allocated evs = owned_pages blksize i (firstn k bvec')
                 /\ Forall (fun p => p <> 0) (pages_allocated evs)).
    { intros v page2 pool1 allocs Hallocs Hown E.
      destruct (alloc_wb_bvecs_loop blksize n (S i) page2 rest pool1)
        as [[[[err0 i0] rest0] pool0] evs0] eqn:Hl.
      injection E as <- <- <- <- <-.
      destruct (IH _ _ _ _ _ _ _ _ _ Hl Hlen')
        as (k & Hi & Hk & Hok & Herr & Hp & Hs & Hlen0 & Ha & Hnz).
      exists (S k). cbn [skipn firstn length].
      rewrite pages_put_app, pages_allocated_app, Hp, app_nil_r.
      rewrite (owned_pages_cons blksize i v (firstn k rest0)), <- Ha, <- Hown.
      split; [lia|]. split; [lia|].
      split; [intros E; specialize (Hok E); lia|].
      split; [intros E; specialize (Herr E); lia|].
      split; [destruct Hallocs as [->|(p & -> & _)]; reflexivity|].
      split; [exact Hs|]. split; [rewrite Hlen0; reflexivity|].
      split; [reflexivity|].
      apply Forall_app. split; [|exact Hnz].
      destruct Hallocs as [->|(p & -> & Hp0)]; simpl; repeat constructor.
      exact Hp0. }
    cbn [alloc_wb_bvecs_loop] in H.
    destruct (blksize =? BLKSIZE_2K) eqn:H2k.
    + destruct (Nat.even i) eqn:Hev.
      * destruct pool as [|page1 pool1]; cbn [alloc_page] in H.
        -- simpl in H. apply (Hfail _ H).
        -- destruct (Z.eqb_spec page1 0) as [Hz|Hz]; [apply (Hfail _ H)|].
           refine (Hstep _ page1 pool1 [pg_alloc page1] _ _ H).
           ++ right. exists page1. split; [reflexivity|exact Hz].
           ++ simpl. rewrite H2k, Hev. reflexivity.
      * refine (Hstep _ 0 pool [] (or_introl eq_refl) _ H).
        simpl. rewrite H2k, Hev. reflexivity.
    + destruct ((blksize =? BLKSIZE_4K) || (blksize =? BLKSIZE_8K)) eqn:H48.
      * destruct pool as [|page1 pool1]; cbn [alloc_page] in H.
        -- simpl in H. apply (Hfail _ H).
        -- destruct (Z.eqb_spec page1 0) as [Hz|Hz]; [apply (Hfail _ H)|].
           refine (Hstep _ 0 pool1 [pg_alloc page1] _ _ H).
           ++ right. exists page1. split; [reflexivity|exact Hz].
           ++ simpl. rewrite H2k, H48. reflexivity.
      * refine (Hstep v0 page pool [] (or_introl eq_refl) _ H).
        simpl. rewrite H2k, H48. reflexivity.
Qed.

Lemma alloc_wb_bvecs_loop_err (blksize : Z) :
  forall (n i : nat) (page : Z) (bvec : list bio_vec) (pool : list Z)
         i' bvec' pool' evs,
    alloc_wb_bvecs_loop blksize n i page bvec pool = (true, i', bvec', pool', evs) ->
    known_blksize blksize = true.
Proof.
  unfold known_blksize.
  induction n as [|n IH]; intros i page bvec pool i' bvec' pool' evs H.
  - destruct bvec; discriminate.
  - destruct bvec as [|v0 rest]; [discriminate|].
    cbn [alloc_wb_bvecs_loop] in H.
    destruct (blksize =? BLKSIZE_2K); [reflexivity|].
    destruct ((blksize =? BLKSIZE_4K) || (blksize =? BLKSIZE_8K)) eqn:E;
      [exact E|].
    destruct (alloc_wb_bvecs_loop blksize n (S i) page rest pool)
      as [[[[e0 i0] r0] p0] ev0] eqn:Hl.
    injection H as -> _ _ _ _.
    apply IH in Hl. simpl in Hl. exact Hl.
Qed.

Lemma alloc_wb_bvecs_held (bvec : list bio_vec) (max blksize : Z)
  (pool : list Z) (bvec' : list bio_vec) (pool' : list Z)
  (evs : list page_event) :
  0 <= max <= Z.of_nat (length bvec) ->
  eio_alloc_wb_bvecs bvec max blksize pool = (0, bvec', pool', evs) ->
  Forall (fun p => p <> 0) (pages_allocated evs)
  /\ skipn (Z.to_nat max) bvec' = skipn (Z.to_nat max) bvec
  /\ pages_put evs = []
  /\ pages_allocated evs = owned_pages blksize 0 (firstn (Z.to_nat max) bvec').
Proof.
  intros Hmax. unfold eio_alloc_wb_bvecs.
  destruct (alloc_wb_bvecs_loop blksize (Z.to_nat max) 0 0 bvec pool)
    as [[[[err i] bvec1] pool1] evs1] eqn:Hl.
  destruct (alloc_wb_bvecs_loop_spec blksize _ _ _ _ _ _ _ _ _ _ Hl)
    as (k & Hi & Hk & Hok & Herr & Hp & Hs & Hlen & Ha & Hnz); [lia|].
  destruct err; cbn [andb].
  - specialize (Herr eq_refl). simpl in Hi. subst i.
    replace (Z.of_nat k =? max) with false by (symmetry; apply Z.eqb_neq; lia).
    cbn [negb]. destruct (if 0 <? Z.of_nat k then _ else _).
    unfold ENOMEM. discriminate.
  - specialize (Hok eq_refl). subst k.
    intros H; injection H as <- <- <-. repeat split; assumption.
Qed.

(** eio_alloc_wb_bvecs is all or nothing, for every block size: it
    returns 0 and has given no page back, the array holding a reference
    to every page taken, or it returns -ENOMEM and has given back every
    page it took, each once, leaving NULL in every entry it had filled.
    It never writes an entry from [max] on. *)
Theorem alloc_wb_bvecs_all_or_nothing (bvec : list bio_vec) (max blksize : Z)
  (pool : list Z) (ret : Z) (bvec' : list bio_vec) (pool' : list Z)
  (evs : list page_event) :
  0 <= max <= Z.of_nat (length bvec) ->
  eio_alloc_wb_bvecs bvec max blksize pool = (ret, bvec', pool', evs) ->
  Forall (fun p => p <> 0) (pages_allocated evs)
  /\ skipn (Z.to_nat max) bvec' = skipn (Z.to_nat max) bvec
  /\ length bvec' = length bvec
  /\ ((ret = 0
       /\ pages_put evs = []
       /\ pages_allocated evs = owned_pages blksize 0 (firstn (Z.to_nat max) bvec'))
      \/ (ret = - ENOMEM
          /\ known_blksize blksize = true
          /\ pages_put evs = pages_allocated evs
          /\ exists k : nat,
               (k < Z.to_nat max)%nat
               /\ Forall (fun v => bv_page v = 0) (firstn k bvec')
               /\ skipn k bvec' = skipn k bvec)).
Proof.
  intros Hmax. unfold eio_alloc_wb_bvecs.
  destruct (alloc_wb_bvecs_loop blksize (Z.to_nat max) 0 0 bvec pool)
    as [[[[err i] bvec1] pool1] evs1] eqn:Hl.
  destruct (alloc_wb_bvecs_loop_spec blksize _ _ _ _ _ _ _ _ _ _ Hl)
    as (k & Hi & Hk & Hok & Herr & Hp & Hs & Hlen & Ha & Hnz); [lia|].
  simpl in Hi. subst i.
  assert (Hskip : forall l : list bio_vec,
             skipn k l = skipn k bvec ->
             skipn (Z.to_nat max) l = skipn (Z.to_nat max) bvec).
  { intros l E. replace (Z.to_nat max) with ((Z.to_nat max - k) + k)%nat by lia.
    rewrite <- !skipn_skipn, E. reflexivity. }
  destruct err; cbn [andb].
  - specialize (Herr eq_refl).
    replace (Z.of_nat k =? max) with false by (symmetry; apply Z.eqb_neq; lia).
    cbn [negb].
    pose proof (alloc_wb_bvecs_loop_err blksize _ _ _ _ _ _ _ _ _ Hl) as Hknown.
    destruct (Z.ltb_spec 0 (Z.of_nat k)) as [Hpos|Hzero].
    + unfold eio_free_wb_bvecs.
      replace (Z.of_nat k <=? 0) with false by (symmetry; apply Z.leb_gt; lia).
      rewrite Nat2Z.id.
      pose proof (free_wb_bvecs_loop_spec blksize k 0 bvec1) as Hfree.
      cbv zeta in Hfree.
      destruct (free_wb_bvecs_loop blksize k 0 bvec1) as [bvec2 evs2].
      simpl in Hfree. destruct Hfree as (Fp & Fa & Fs & Fl & Fz).
      intros H; injection H as <- <- <- <-.
      rewrite pages_allocated_app, pages_put_app, Fa, Hp, app_nil_r, Fp, <- Ha.
      rewrite (filter_nonzero _ Hnz). simpl.
      split; [exact Hnz|]. split; [apply Hskip; congruence|].
      split; [congruence|]. right.
      split; [reflexivity|]. split; [exact Hknown|]. split; [reflexivity|].
      exists k. split; [exact Herr|]. split; [apply Fz; exact Hknown|congruence].
    + assert (Hk0 : k = 0%nat) by lia. subst k.
      intros H; injection H as <- <- <- <-.
      rewrite app_nil_r, Hp, Ha. simpl.
      split; [constructor|]. split; [apply Hskip; exact Hs|].
      split; [exact Hlen|]. right.
      split; [reflexivity|]. split; [exact Hknown|]. split; [reflexivity|].
      exists 0%nat. split; [exact Herr|]. split; [constructor|exact Hs].
  - specialize (Hok eq_refl). subst k.
    intros H; injection H as <- <- <- <-.
    split; [exact Hnz|]. split; [exact Hs|]. split; [exact Hlen|].
    left. split; [reflexivity|]. split; [exact Hp|exact Ha].
Qed.

Lemma alloc_wb_bvecs_success (bvec : list bio_vec) (max blksize : Z)
  (pool : list Z) (bvec' : list bio_vec) (pool' : list Z) (evs : list page_event) :
  0 <= max <= Z.of_nat (length bvec) ->
  eio_alloc_wb_bvecs bvec max blksize pool = (0, bvec', pool', evs) ->
  exists i,
    alloc_wb_bvecs_loop blksize (Z.to_nat max) 0 0 bvec pool
    = (false, i, bvec', pool', evs).
Proof.
  intros Hmax. unfold eio_alloc_wb_bvecs.
  destruct (alloc_wb_bvecs_loop blksize (Z.to_nat max) 0 0 bvec pool)
    as [[[[err i] bvec1] pool1] evs1] eqn:Hl.
  destruct (alloc_wb_bvecs_loop_spec blksize _ _ _ _ _ _ _ _ _ _ Hl)
    as (k & Hi & Hk & Hok & Herr & _); [lia|].
  destruct err; cbn [andb].
  - specialize (Herr eq_refl). simpl in Hi. subst i.
    replace (Z.of_nat k =? max) with false by (symmetry; apply Z.eqb_neq; lia).
    cbn [negb]. destruct (if 0 <? Z.of_nat k then _ else _).
    unfold ENOMEM. discriminate.
  - intros H; injection H as <- <- <-. exists i. reflexivity.
Qed.

Lemma alloc_wb_bvecs_loop_2k (blksize : Z) :
  (blksize =? BLKSIZE_2K) = true ->
  forall (n i : nat) (page : Z) (bvec : list bio_vec) (pool : list Z)
         i' bvec' pool' evs,
    alloc_wb_bvecs_loop blksize n i page bvec pool = (false, i', bvec', pool', evs) ->
    (n <= length bvec)%nat ->
    firstn n bvec'
    = firstn n ((if Nat.even i then [] else skipn 1 (shared_pair blksize page))
                  ++ flat_map (shared_pair blksize) (pages_allocated evs))
    /\ length (pages_allocated evs) = (if Nat.even i then Nat.div2 (S n) else Nat.div2 n)
    /\ pages_allocated evs = firstn (length (pages_allocated evs)) pool
    /\ pool' = skipn (length (pages_allocated evs)) pool.
Proof.
  intros H2k. induction n as [|n IH]; intros i page bvec pool i' bvec' pool' evs H Hlen.
  - destruct bvec; simpl in H; injection H as <- <- <- <-; simpl;
      destruct (Nat.even i); repeat split; reflexivity.
  - destruct bvec as [|v0 rest]; [simpl in Hlen; lia|].
    assert (Hlen' : (n <= length rest)%nat) by (simpl in Hlen; lia).
    cbn [alloc_wb_bvecs_loop] in H. rewrite H2k in H.
    destruct (Nat.even i) eqn:Hev.
    + destruct pool as [|page1 pool1]; cbn [alloc_page] in H; [discriminate|].
      destruct (page1 =? 0); [discriminate|].
      destruct (alloc_wb_bvecs_loop blksize n (S i) page1 rest pool1)
        as [[[[e0 i0] r0] p0] ev0] eqn:Hl.
      injection H as -> <- <- <- <-.
      destruct (IH _ _ _ _ _ _ _ _ Hl Hlen') as (Hf & Hn & Hp & Hs).
      rewrite Nat.even_succ, <- Nat.negb_even, Hev in Hf, Hn. cbn [negb] in Hf, Hn.
      cbn [pages_allocated length firstn skipn flat_map app shared_pair].
      cbn [shared_pair skipn app] in Hf.
      split; [rewrite Hf; reflexivity|].
      split; [rewrite Hn; reflexivity|].
      split; [rewrite <- Hp; reflexivity|exact Hs].
    + destruct (alloc_wb_bvecs_loop blksize n (S i) 0 rest pool)
        as [[[[e0 i0] r0] p0] ev0] eqn:Hl.
      injection H as -> <- <- <- <-.
      destruct (IH _ _ _ _ _ _ _ _ Hl Hlen') as (Hf & Hn & Hp & Hs).
      rewrite Nat.even_succ, <- Nat.negb_even, Hev in Hf, Hn. cbn [negb] in Hf, Hn.
      cbn [shared_pair skipn app firstn]. cbn [app] in Hf.
      split; [rewrite Hf; reflexivity|].
      split; [exact Hn|]. split; [exact Hp|exact Hs].
Qed.

Lemma alloc_wb_bvecs_loop_4k (blksize : Z) :
  (blksize =? BLKSIZE_2K) = false ->
  (blksize =? BLKSIZE_4K) || (blksize =? BLKSIZE_8K) = true ->
  forall (n i : nat) (page : Z) (bvec : list bio_vec) (pool : list Z)
         i' bvec' pool' evs,
    alloc_wb_bvecs_loop blksize n i page bvec pool = (false, i', bvec', pool', evs) ->
    (n <= length bvec)%nat ->
    firstn n bvec' = map whole_page (pages_allocated evs)
    /\ length (pages_allocated evs) = n
    /\ pages_allocated evs = firstn n pool
    /\ pool' = skipn n pool.
Proof.
  intros H2k H48.
  induction n as [|n IH]; intros i page bvec pool i' bvec' pool' evs H Hlen.
  - destruct bvec; simpl in H; injection H as <- <- <- <-; repeat split; reflexivity.
  - destruct bvec as [|v0 rest]; [simpl in Hlen; lia|].
    assert (Hlen' : (n <= length rest)%nat) by (simpl in Hlen; lia).
    cbn [alloc_wb_bvecs_loop] in H. rewrite H2k, H48 in H.
    destruct pool as [|page1 pool1]; cbn [alloc_page] in H; [discriminate|].
    destruct (page1 =? 0); [discriminate|].
    destruct (alloc_wb_bvecs_loop blksize n (S i) 0 rest pool1)
      as [[[[e0 i0] r0] p0] ev0] eqn:Hl.
    injection H as -> <- <- <- <-.
    destruct (IH _ _ _ _ _ _ _ _ Hl Hlen') as (Hf & Hn & Hp & Hs).
    cbn [pages_allocated length firstn skipn map].
    split; [rewrite Hf; reflexivity|]. split; [rewrite Hn; reflexivity|].
    split; [rewrite <- Hp; reflexivity|exact Hs].
Qed.

Lemma alloc_wb_bvecs_loop_unknown (blksize : Z) :
  known_blksize blksize = false ->
  forall (n i : nat) (page : Z) (bvec : list bio_vec) (pool : list Z),
    alloc_wb_bvecs_loop blksize n i page bvec pool = (false, (i + n)%nat, bvec, pool, []).
Proof.
  unfold known_blksize. intros Hk.
  apply orb_false_elim in Hk. destruct Hk as [Hk H8].
  apply orb_false_elim in Hk. destruct Hk as [H2 H4].
  induction n as [|n IH]; intros i page bvec pool.
  - destruct bvec; reflexivity.
  - destruct bvec as [|v0 rest]; [reflexivity|].
    cbn [alloc_wb_bvecs_loop]. rewrite H2, H4, H8. cbn [orb]. rewrite IH.
    replace (i + S n)%nat with (S i + n)%nat by lia. reflexivity.
Qed.

(** What eio_alloc_wb_bvecs builds when it returns 0.  The pages are
    the first ones of the pool, in order.  With 2 KiB blocks each page
    is shared by two consecutive entries, the one at the even index at
    offset 0 and the one after it at PAGE_SIZE minus the block size, so
    that [max] entries take [(max + 1) / 2] pages; with 4 and 8 KiB
    blocks every entry has a page of its own, whole; with any other
    block size the call returns 0 having taken no page and written no
    entry. *)
Theorem alloc_wb_bvecs_layout (bvec : list bio_vec) (max blksize : Z)
  (pool : list Z) (bvec' : list bio_vec) (pool' : list Z) (evs : list page_event) :
  0 <= max <= Z.of_nat (length bvec) ->
  eio_alloc_wb_bvecs bvec max blksize pool = (0, bvec', pool', evs) ->
  let pages := pages_allocated evs in
  let n := Z.to_nat max in
  pages = firstn (length pages) pool
  /\ pool' = skipn (length pages) pool
  /\ (if blksize =? BLKSIZE_2K then
        firstn n bvec' = firstn n (flat_map (shared_pair blksize) pages)
        /\ length pages = Nat.div2 (S n)
      else if (blksize =? BLKSIZE_4K) || (blksize =? BLKSIZE_8K) then
        firstn n bvec' = map whole_page pages
        /\ length pages = n
      else bvec' = bvec /\ pages = []).
Proof.
  intros Hmax Hret pages n. subst pages n.
  destruct (alloc_wb_bvecs_success _ _ _ _ _ _ _ Hmax Hret) as [i Hl].
  destruct (blksize =? BLKSIZE_2K) eqn:H2k.
  - destruct (alloc_wb_bvecs_loop_2k blksize H2k _ _ _ _ _ _ _ _ _ Hl)
      as (Hf & Hn & Hp & Hs); [lia|].
    simpl in Hf, Hn. repeat split; assumption.
  - destruct ((blksize =? BLKSIZE_4K) || (blksize =? BLKSIZE_8K)) eqn:H48.
    + destruct (alloc_wb_bvecs_loop_4k blksize H2k H48 _ _ _ _ _ _ _ _ _ Hl)
        as (Hf & Hn & Hp & Hs); [lia|].
      rewrite Hn. repeat split; assumption.
    + rewrite alloc_wb_bvecs_loop_unknown in Hl
        by (unfold known_blksize; rewrite H2k; exact H48).
      injection Hl as _ <- <- <-. repeat split; reflexivity.
Qed.

Lemma owned_pages_null (blksize : Z) :
  forall (l : list bio_vec) (i : nat),
    Forall (fun v => bv_page v = 0) l ->
    filter nonzero (owned_pages blksize i l) = [].
Proof.
  induction l as [|v l IH]; intros i H; [reflexivity|].
  inversion H as [|? ? Hv Hl]; subst.
  rewrite (owned_pages_cons blksize i v l), filter_app, (IH (S i) Hl), app_nil_r.
  simpl. rewrite Hv.
  destruct (blksize =? BLKSIZE_2K); [destruct (Nat.even i); reflexivity|].
  destruct (_ || _); reflexivity.
Qed.

Lemma owned_pages_unknown (blksize : Z) :
  known_blksize blksize = false ->
  forall (l : list bio_vec) (i : nat), owned_pages blksize i l = [].
Proof.
  unfold known_blksize. intros Hk.
  apply orb_false_elim in Hk. destruct Hk as [Hk H8].
  apply orb_false_elim in Hk. destruct Hk as [H2 H4].
  induction l as [|v l IH]; intros i; [reflexivity|].
  simpl. rewrite H2, H4, H8, IH. reflexivity.
Qed.

(** Allocation and release of an array of bio_vec undo each other.
    After eio_alloc_wb_bvecs returned 0, eio_free_wb_bvecs with the same
    count and block size gives back exactly the pages that were taken,
    each once and in the order they were taken (a page two entries share
    is given back once), and leaves NULL in each of the [max] entries;
    a second release then gives nothing back. *)
Theorem wb_bvecs_round_trip (bvec : list bio_vec) (max blksize : Z)
  (pool : list Z) (bvec' : list bio_vec) (pool' : list Z) (evs : list page_event) :
  0 <= max <= Z.of_nat (length bvec) ->
  eio_alloc_wb_bvecs bvec max blksize pool = (0, bvec', pool', evs) ->
  let released := eio_free_wb_bvecs bvec' max blksize in
  pages_put (snd released) = pages_allocated evs
  /\ pages_allocated (snd released) = []
  /\ (known_blksize blksize = true ->
      Forall (fun v => bv_page v = 0) (firstn (Z.to_nat max) (fst released)))
  /\ skipn (Z.to_nat max) (fst released) = skipn (Z.to_nat max) bvec
  /\ pages_put (snd (eio_free_wb_bvecs (fst released) max blksize)) = [].
Proof.
  intros Hmax Hret released. subst released.
  destruct (alloc_wb_bvecs_held _ _ _ _ _ _ _ Hmax Hret)
    as (Hnz & Hskip & _ & Hown).
  unfold eio_free_wb_bvecs.
  destruct (Z.leb_spec max 0) as [Hz|Hpos].
  - assert (Hm : Z.to_nat max = 0%nat) by lia. rewrite Hm in *.
    simpl in Hown. rewrite Hown. simpl.
    repeat split; try reflexivity; try assumption. intros _. constructor.
  - pose proof (free_wb_bvecs_loop_spec blksize (Z.to_nat max) 0 bvec') as Hfree.
    cbv zeta in Hfree.
    destruct (free_wb_bvecs_loop blksize (Z.to_nat max) 0 bvec') as [bvec2 evs2].
    simpl in Hfree. destruct Hfree as (Fp & Fa & Fs & Fl & Fz). simpl.
    split; [rewrite Fp, <- Hown; apply filter_nonzero; exact Hnz|].
    split; [exact Fa|]. split; [exact Fz|]. split; [congruence|].
    rewrite (proj1 (free_wb_bvecs_loop_spec blksize (Z.to_nat max) 0 bvec2)).
    destruct (known_blksize blksize) eqn:Hk.
    + apply owned_pages_null. apply Fz. reflexivity.
    + rewrite owned_pages_unknown by exact Hk. reflexivity.
Qed.

(** *** Pages for metadata I/O *)

Lemma alloc_pages_loop_spec :
  forall (n : nat) (pcount : Z) (pool : list Z) pages' pcount' pool' evs,
    alloc_pages_loop n (repeat bio_vec_zero n) pcount pool
    = (pages', pcount', pool', evs) ->
    exists k : nat,
      (k <= n)%nat
      /\ pcount' = pcount + Z.of_nat k
      /\ pages' = map whole_page (firstn k pool) ++ repeat bio_vec_zero (n - k)
      /\ length (firstn k pool) = k
      /\ Forall (fun p => p <> 0) (firstn k pool)
      /\ pages_allocated evs = firstn k pool
      /\ pages_put evs = []
      /\ ((k < n)%nat -> nth k pool 0 = 0).
Proof.
  induction n as [|n IH]; intros pcount pool pages' pcount' pool' evs H.
  - simpl in H. injection H as <- <- <- <-. exists 0%nat.
    rewrite Z.add_0_r. simpl. repeat split; try constructor; try lia.
  - cbn [repeat alloc_pages_loop] in H.
    destruct pool as [|page pool1]; cbn [alloc_page] in H.
    + simpl in H. injection H as <- <- <- <-. exists 0%nat.
      rewrite Z.add_0_r. simpl. repeat split; try constructor; try lia.
    + destruct (Z.eqb_spec page 0) as [Hz|Hz].
      * injection H as <- <- <- <-. exists 0%nat.
        rewrite Z.add_0_r. simpl. repeat split; try constructor; try lia.
      * destruct (alloc_pages_loop n (repeat bio_vec_zero n) (pcount + 1) pool1)
          as [[[r0 c0] p0] ev0] eqn:Hl.
        injection H as <- <- <- <-.
        destruct (IH _ _ _ _ _ _ Hl) as (k & Hk & Hc & Hr & Hlen & Hnz & Ha & Hp & Hf).
        exists (S k). cbn [firstn map app length pages_allocated pages_put nth].
        split; [lia|]. split; [lia|].
        split; [rewrite Hr; reflexivity|].
        split; [rewrite Hlen; reflexivity|].
        split; [constructor; assumption|].
        split; [rewrite Ha; reflexivity|]. split; [exact Hp|].
        intros Hlt. apply Hf. lia.
Qed.

Lemma alloc_pages_loop_no_kfree :
  forall (n : nat) (pages : list bio_vec) (pcount : Z) (pool : list Z) (p : Z),
    ~ In (pg_kfree p) (snd (alloc_pages_loop n pages pcount pool)).
Proof.
  induction n as [|n IH]; intros pages pcount pool p.
  - destruct pages; intros [].
  - destruct pages as [|v0 rest]; [intros []|].
    cbn [alloc_pages_loop]. destruct (alloc_page pool) as [page p1].
    destruct (page =? 0).
    + intros [Hin|[]]. discriminate.
    + specialize (IH rest (pcount + 1) p1 p).
      destruct (alloc_pages_loop n rest (pcount + 1) p1) as [[[r0 c0] p0] ev0].
      intros [Hin|Hin]; [discriminate|exact (IH Hin)].
Qed.

(** eio_alloc_pages hands out all the pages or none.  It asks for
    min(max_pages, MD_MAX_NR_PAGES) pages.  An array it returns has
    every one of them: [*page_count] is that number, every entry has its
    own page, covering the whole of it from offset 0, and the array is
    not released.  It returns NULL, holding no page and with the array
    released, when the array cannot be allocated, when no page is asked
    for and when the first page cannot be had.  When the first page is
    had and a later one is not, it does not return: the assertion of
    line 1730 stops it, the pages it got still held.  It never puts a
    page. *)
Theorem alloc_pages_spec (max_pages : Z) (pool : list Z) :
  let nr_pages := s32 (Z.min (u32 max_pages) (u32 MD_MAX_NR_PAGES)) in
  let array := kzalloc (u64 (nr_pages * sizeof_bio_vec)) in
  let evs := snd (eio_alloc_pages max_pages pool) in
  pages_put evs = []
  /\ match fst (fst (eio_alloc_pages max_pages pool)) with
     | passed (Some (pages, pcount)) =>
         array <> 0
         /\ 1 <= nr_pages
         /\ pcount = nr_pages
         /\ pages = map whole_page (firstn (Z.to_nat nr_pages) pool)
         /\ length pages = Z.to_nat nr_pages
         /\ pages_allocated evs = firstn (Z.to_nat nr_pages) pool
         /\ Forall (fun p => p <> 0) (pages_allocated evs)
         /\ ~ In (pg_kfree array) evs
     | passed None =>
         pages_allocated evs = []
         /\ (array = 0 \/ nr_pages <= 0 \/ nth 0 pool 0 = 0)
         /\ (array <> 0 -> In (pg_kfree array) evs)
     | stopped s =>
         s = assert_failed 1730
         /\ array <> 0
         /\ (exists k : nat,
               0 < Z.of_nat k < nr_pages
               /\ pages_allocated evs = firstn k pool
               /\ length (pages_allocated evs) = k
               /\ Forall (fun p => p <> 0) (pages_allocated evs)
               /\ nth k pool 0 = 0)
         /\ ~ In (pg_kfree array) evs
     end.
Proof.
  intros nr_pages array evs. subst evs. unfold eio_alloc_pages.
  fold nr_pages. fold array.
  destruct (Z.eqb_spec array 0) as [Hz|Hnz].
  { simpl. split; [reflexivity|]. split; [reflexivity|].
    split; [left; exact Hz|intros H; contradiction]. }
  destruct (alloc_pages_loop (Z.to_nat nr_pages) _ 0 pool)
    as [[[bvecs pcount] pool1] evs1] eqn:Hl.
  destruct (alloc_pages_loop_spec _ _ _ _ _ _ _ Hl)
    as (k & Hk & Hc & Hr & Hlen & Hnzp & Ha & Hp & Hf).
  simpl in Hc. subst pcount.
  assert (Hfree : ~ In (pg_kfree array)
                      ([pg_kzalloc (u64 (nr_pages * sizeof_bio_vec)) array] ++ evs1)).
  { intros [Hin|Hin]; [discriminate|].
    apply (alloc_pages_loop_no_kfree (Z.to_nat nr_pages)
             (repeat bio_vec_zero (Z.to_nat nr_pages)) 0 pool array).
    rewrite Hl. exact Hin. }
  destruct (Z.eqb_spec (Z.of_nat k) 0) as [Hk0|Hk0].
  - assert (k = 0%nat) by lia. subst k. cbn [fst snd].
    rewrite !pages_put_app, !pages_allocated_app, Hp, Ha. simpl.
    split; [reflexivity|]. split; [reflexivity|]. split.
    + destruct (Z.leb_spec nr_pages 0) as [Hle|Hgt]; [right; left; exact Hle|].
      right. right. apply Hf. lia.
    + intros _. right. apply in_or_app. right. left. reflexivity.
  - destruct (Z.eqb_spec (Z.of_nat k) nr_pages) as [Hall|Hshort]; cbn [negb fst snd];
      rewrite !pages_put_app, !pages_allocated_app, Hp, Ha; cbn [pages_put pages_allocated app].
    + assert (Hkn : Z.to_nat nr_pages = k) by lia.
      split; [reflexivity|]. split; [exact Hnz|]. split; [lia|].
      split; [exact Hall|].
      split; [rewrite Hr, Hkn, Nat.sub_diag; cbn [repeat]; apply app_nil_r|].
      split; [rewrite Hr, length_app, length_map, repeat_length, Hlen; lia|].
      split; [rewrite Hkn; reflexivity|].
      split; [exact Hnzp|exact Hfree].
    + split; [reflexivity|]. split; [reflexivity|]. split; [exact Hnz|].
      split; [|exact Hfree].
      exists k. split; [lia|]. split; [reflexivity|].
      split; [exact Hlen|]. split; [exact Hnzp|]. apply Hf. lia.
Qed.

End PageProperties.

(** Three pages asked for and a pool that gives two: the two are given
    back, last first, and the second entry still holds the page 20. *)
Lemma alloc_wb_pages_all_or_nothing_witness :
  exists pages' pool' evs,
    eio_alloc_wb_pages [0; 0; 0] 3 [10; 20] = (-12, pages', pool', evs)
    /\ pages_allocated evs = [10; 20]
    /\ pages_put evs = [20; 10]
    /\ pages' = [0; 20; 0].
Proof.
  destruct (eio_alloc_wb_pages [0; 0; 0] 3 [10; 20]) as [[[ret pages'] pool'] evs] eqn:Ha.
  assert (Hret : ret = -12) by (vm_compute in Ha; congruence).
  assert (Hal : pages_allocated evs = [10; 20])
    by (vm_compute in Ha; injection Ha as <- <- <- <-; reflexivity).
  assert (Hpg : pages' = [0; 20; 0])
    by (vm_compute in Ha; injection Ha as <- <- <- <-; reflexivity).
  destruct (alloc_wb_pages_all_or_nothing [0; 0; 0] 3 [10; 20] ret pages' pool' evs)
    as (_ & _ & [(H0 & _)|(_ & _ & _ & Hput & _)]).
  - simpl. lia.
  - exact Ha.
  - lia.
  - subst ret. exists pages', pool', evs. split; [reflexivity|].
    split; [exact Hal|]. split; [|exact Hpg]. rewrite Hput, Hal. reflexivity.
Defined.

(** Four entries of 2 KiB asked for and a pool that gives one page: the
    page is given back and the two entries that shared it are NULL. *)
Lemma alloc_wb_bvecs_all_or_nothing_witness :
  exists bvec' pool' evs,
    @eio_alloc_wb_bvecs sample_pages four_bvecs 4 4 [10] = (-12, bvec', pool', evs)
    /\ pages_allocated evs = [10]
    /\ pages_put evs = [10].
Proof.
  destruct (@eio_alloc_wb_bvecs sample_pages four_bvecs 4 4 [10])
    as [[[ret bvec'] pool'] evs] eqn:Ha.
  assert (Hret : ret = -12) by (vm_compute in Ha; congruence).
  assert (Hal : pages_allocated evs = [10])
    by (vm_compute in Ha; injection Ha as <- <- <- <-; reflexivity).
  destruct (@alloc_wb_bvecs_all_or_nothing sample_pages four_bvecs 4 4 [10]
              ret bvec' pool' evs)
    as (_ & _ & _ & [(H0 & _)|(_ & _ & Hput & _)]).
  - simpl. lia.
  - exact Ha.
  - lia.
  - subst ret. exists bvec', pool', evs. split; [reflexivity|].
    split; [exact Hal|]. rewrite Hput. exact Hal.
Defined.

(** Three entries of 2 KiB on a full pool take two pages. *)
Lemma alloc_wb_bvecs_layout_witness :
  exists bvec' pool' evs,
    @eio_alloc_wb_bvecs sample_pages four_bvecs 3 4 [10; 20; 30] = (0, bvec', pool', evs)
    /\ length (pages_allocated evs) = 2%nat
    /\ pool' = skipn (length (pages_allocated evs)) [10; 20; 30].
Proof.
  destruct (@eio_alloc_wb_bvecs sample_pages four_bvecs 3 4 [10; 20; 30])
    as [[[ret bvec'] pool'] evs] eqn:Ha.
  assert (Hret : ret = 0) by (vm_compute in Ha; congruence).
  subst ret.
  destruct (@alloc_wb_bvecs_layout sample_pages four_bvecs 3 4 [10; 20; 30]
              bvec' pool' evs) as (_ & Hpool & Hlay).
  - simpl. lia.
  - exact Ha.
  - exists bvec', pool', evs. split; [reflexivity|].
    split; [|exact Hpool]. simpl in Hlay. apply Hlay.
Defined.

(** Three entries of 2 KiB: the release gives back the two pages. *)
Lemma wb_bvecs_round_trip_witness :
  exists bvec' pool' evs,
    @eio_alloc_wb_bvecs sample_pages four_bvecs 3 4 [10; 20; 30] = (0, bvec', pool', evs)
    /\ pages_put (snd (@eio_free_wb_bvecs sample_pages bvec' 3 4)) = pages_allocated evs.
Proof.
  destruct (@eio_alloc_wb_bvecs sample_pages four_bvecs 3 4 [10; 20; 30])
    as [[[ret bvec'] pool'] evs] eqn:Ha.
  assert (Hret : ret = 0) by (vm_compute in Ha; congruence).
  subst ret.
  destruct (@wb_bvecs_round_trip sample_pages four_bvecs 3 4 [10; 20; 30]
              bvec' pool' evs) as (Hput & _).
  - simpl. lia.
  - exact Ha.
  - exists bvec', pool', evs. split; [reflexivity|exact Hput].
Defined.

(** Four pages asked for and a pool that gives two: the call stops at
    the assertion, with the two pages taken and nothing released. *)
Example alloc_pages_short_of_pages :
  @eio_alloc_pages sample_pages 4 [10; 20]
  = (stopped (assert_failed 1730), [],
     [pg_kzalloc 64 12288; pg_alloc 10; pg_alloc 20; pg_alloc_failed]).
Proof. vm_compute. reflexivity. Qed.

(** ** Empty flushes *)

Section FlushProperties.
Context {dev : DeviceKinds}.

(** A zero-size I/O is answered once, by the flush of the source
    device.  eio_process_zero_size_bio sends an empty flush to the cache
    device and one to the source device, each with the operation and the
    flags of the original.  However the two end, the original I/O is
    completed exactly once, with the outcome of the flush of the source
    device (-EIO when that device has no queue); the outcome of the
    flush of the cache device is dropped.  On each flush one reference
    is taken and dropped by the issuing call, and the completion drops
    the one of the allocation. *)
Theorem zero_size_bio_answered_once (dmc : cache_c) (ssd_bdev bdev : block_device)
  (origbio : Z) (orig : bio) (error_of : bio -> Z) :
  EIO_HDD_DEVICE <> EIO_SSD_DEVICE ->
  disk_dev dmc = Some bdev ->
  origbio <> 0 ->
  let ssd_flush := empty_barrier_bio ssd_bdev 0 (bi_op orig) (bi_op_flags orig) in
  let hdd_flush := empty_barrier_bio bdev origbio (bi_op orig) (bi_op_flags orig) in
  exists evs,
    eio_process_zero_size_bio true true dmc ssd_bdev origbio orig = Some (evs, true)
    /\ evs = [fl_bio_get ssd_flush; fl_submit_bio ssd_flush; fl_bio_put ssd_flush;
              fl_bio_get hdd_flush]
               ++ map fl_hdd (hdd_make_request (origmfn dmc) hdd_flush)
               ++ [fl_bio_put hdd_flush]
    /\ orig_endios evs = []
    /\ orig_endios (flush_completions error_of evs)
       = [(origbio, if bd_queue bdev =? 0 then - EIO else error_of hdd_flush)]
    /\ flush_gets evs = [ssd_flush; hdd_flush]
    /\ flush_puts evs = [ssd_flush; hdd_flush]
    /\ flush_puts (flush_completions error_of evs) = [ssd_flush; hdd_flush].
Proof.
  intros Hkinds Hdev Horig ssd_flush hdd_flush.
  unfold eio_process_zero_size_bio, eio_issue_empty_barrier_flush.
  rewrite Hdev. cbn [negb].
  rewrite Z.eqb_refl.
  replace (EIO_SSD_DEVICE =? EIO_HDD_DEVICE) with false
    by (symmetry; apply Z.eqb_neq; congruence).
  fold ssd_flush hdd_flush. eexists. split; [reflexivity|].
  split; [reflexivity|].
  apply Z.eqb_neq in Horig.
  unfold hdd_make_request, flush_completions.
  assert (Hq : bd_queue (bi_bdev hdd_flush) = bd_queue bdev) by reflexivity.
  rewrite Hq.
  destruct (bd_queue bdev =? 0); simpl; unfold eio_bio_end_empty_barrier;
    cbn [hdd_flush empty_barrier_bio bi_private]; rewrite Horig; simpl; repeat split.
Qed.

(** Without memory for the flush of the source device the original I/O
    is completed with -ENOMEM and the call does not return: it goes on
    to write through the NULL pointer. *)
Lemma zero_size_bio_no_memory (allocated1 : bool) (dmc : cache_c)
  (ssd_bdev bdev : block_device) (origbio : Z) (orig : bio) :
  disk_dev dmc = Some bdev ->
  origbio <> 0 ->
  exists evs,
    eio_process_zero_size_bio allocated1 false dmc ssd_bdev origbio orig
    = Some (evs, false)
    /\ orig_endios evs = if allocated1 then [(origbio, - ENOMEM)] else [].
Proof.
  intros Hdev Horig. apply Z.eqb_neq in Horig.
  unfold eio_process_zero_size_bio, eio_issue_empty_barrier_flush. rewrite Hdev.
  destruct allocated1; cbn [negb]; rewrite ?Z.eqb_refl, ?Horig; simpl.
  - destruct (EIO_SSD_DEVICE =? EIO_HDD_DEVICE); simpl;
      eexists; (split; [reflexivity|]).
    + unfold hdd_make_request. destruct (bd_queue _ =? 0); reflexivity.
    + reflexivity.
  - eexists. split; reflexivity.
Qed.

End FlushProperties.

(** For A on sda1 with its cache on sdb: the zero-size write is
    answered once, with the outcome of the flush of sda1. *)
Lemma zero_size_bio_answered_once_witness :
  exists evs,
    @eio_process_zero_size_bio sample_devices true true
      (caches st_A 1000) sdb 9000 flush_write = Some (evs, true)
    /\ orig_endios (flush_completions (fun b => if bi_private b =? 0 then -5 else 0) evs)
       = [(9000, 0)].
Proof.
  destruct (@zero_size_bio_answered_once sample_devices
              (caches st_A 1000) sdb sda1 9000 flush_write
              (fun b => if bi_private b =? 0 then -5 else 0))
    as (evs & Hrun & _ & _ & Hend & _).
  - vm_compute. discriminate.
  - reflexivity.
  - lia.
  - exists evs. split; [exact Hrun|exact Hend].
Defined.

(** ** Dispatch of a list of pages *)

Lemma dispatched_app (evs evs' : list dispatch_event) :
  dispatched (evs ++ evs') = dispatched evs ++ dispatched evs'.
Proof.
  induction evs as [|e evs IH]; [reflexivity|].
  destruct e as [n|io|[]|b]; simpl; rewrite ?IH; reflexivity.
Qed.

Lemma tracker_refs_app (evs evs' : list dispatch_event) :
  tracker_refs (evs ++ evs') = (tracker_refs evs + tracker_refs evs')%nat.
Proof.
  induction evs as [|e evs IH]; [reflexivity|].
  destruct e; simpl; rewrite IH; reflexivity.
Qed.

Lemma pages_needed_step (spp r : Z) :
  1 <= spp -> 0 < r ->
  pages_needed spp (r - Z.min spp r) = pages_needed spp r - 1
  /\ 1 <= pages_needed spp r.
Proof.
  intros Hs Hr. unfold pages_needed.
  destruct (Z.le_gt_cases spp r) as [Hle|Hgt].
  - rewrite Z.min_l by lia.
    replace (r - spp + spp - 1) with (r + spp - 1 + (-1) * spp) by lia.
    rewrite Z.div_add by lia. split; [lia|].
    assert (1 * spp <= r + spp - 1) by lia.
    assert (1 <= (r + spp - 1) / spp); [|lia].
    apply Z.div_le_lower_bound; lia.
  - rewrite Z.min_r by lia.
    replace (r - r + spp - 1) with (spp - 1) by lia.
    rewrite Z.div_small by lia.
    assert (E : (r + spp - 1) / spp = 1).
    { symmetry. apply (Z.div_unique _ _ 1 (r - 1)); lia. }
    rewrite E. lia.
Qed.

Lemma pages_needed_zero (spp : Z) : 1 <= spp -> pages_needed spp 0 = 0.
Proof. intros Hs. unfold pages_needed. apply Z.div_small. lia. Qed.

Lemma pages_needed_nonneg (spp r : Z) : 1 <= spp -> 0 <= r -> 0 <= pages_needed spp r.
Proof. intros Hs Hr. unfold pages_needed. apply Z.div_pos; lia. Qed.

Section DispatchPagesProperties.
Context {hdr : EioHeader} {pg : PageHeader} {blk : BlockLayer}.

Variables (dmc : cache_c) (where_ : eio_io_region) (op : req_op) (op_flags : Z).
Variables (pagelist : list Z) (io : Z) (hddio : bool) (spp : Z).

Hypothesis shift_nonneg : 0 <= SECTOR_SHIFT.
Hypothesis eio_to_sector_shift : forall x, eio_to_sector x = Z.shiftr x SECTOR_SHIFT.
Hypothesis to_bytes_shift : forall x, to_bytes x = Z.shiftl x SECTOR_SHIFT.
Hypothesis page_sectors : 1 <= spp /\ PAGE_SIZE = to_bytes spp /\ PAGE_SIZE < 2 ^ 64.
Hypothesis count_range : 0 <= rg_count where_ /\ to_bytes (rg_count where_) < 2 ^ 64.
Hypothesis nr_vecs_range : 1 <= EIO_BIO_GET_NR_VECS (rg_bdev where_) < 2 ^ 31.
Hypothesis empty_bio_takes_page :
  forall nr_vecs b page len,
    1 <= nr_vecs -> bi_vcnt b = 0%nat -> bio_add_page nr_vecs b page len 0 = true.

Lemma to_bytes_mul (x : Z) : to_bytes x = x * 2 ^ SECTOR_SHIFT.
Proof. rewrite to_bytes_shift. apply Z.shiftl_mul_pow2. exact shift_nonneg. Qed.

Lemma to_sector_bytes (x : Z) : eio_to_sector (to_bytes x) = x.
Proof.
  rewrite eio_to_sector_shift, to_bytes_mul, Z.shiftr_div_pow2 by exact shift_nonneg.
  apply Z.div_mul. apply Z.pow_nonzero; [lia|exact shift_nonneg].
Qed.

Lemma len_of_page (r : Z) :
  0 < r <= rg_count where_ ->
  Z.min (u64 PAGE_SIZE) (u64 (to_bytes r)) = to_bytes (Z.min spp r).
Proof.
  intros Hr. destruct page_sectors as (Hs & Hp & Hp64). destruct count_range as (Hc & Hc64).
  assert (Hpow : 0 < 2 ^ SECTOR_SHIFT) by (apply Z.pow_pos_nonneg; [lia|exact shift_nonneg]).
  assert (Hr64 : 0 <= to_bytes r < 2 ^ 64).
  { rewrite to_bytes_mul in *. nia. }
  assert (Hp0 : 0 <= PAGE_SIZE) by (rewrite Hp, to_bytes_mul; nia).
  unfold u64. rewrite !Z.mod_small by lia.
  rewrite Hp, !to_bytes_mul.
  destruct (Z.le_gt_cases spp r); [rewrite !Z.min_l by nia|rewrite !Z.min_r by nia];
    reflexivity.
Qed.

Lemma add_pages_spec (nr_vecs : Z) :
  forall (fuel : nat) (b : bio) (remaining : Z) (pindex : nat) (remaining_bvecs : Z),
    0 <= remaining <= rg_count where_ ->
    (Z.to_nat remaining <= fuel)%nat ->
    pages_needed spp remaining <= remaining_bvecs < 2 ^ 31 ->
    (pindex + Z.to_nat (pages_needed spp remaining) <= length pagelist)%nat ->
    exists b' remaining' pindex' remaining_bvecs',
      add_pages fuel nr_vecs b remaining pindex remaining_bvecs pagelist
      = Some (passed (b', remaining', pindex', remaining_bvecs'))
      /\ took_pages spp pagelist b remaining pindex remaining_bvecs
           b' remaining' pindex' remaining_bvecs'
      /\ (0 < remaining -> 1 <= nr_vecs -> bi_vcnt b = 0%nat -> remaining' < remaining).
Proof.
  destruct page_sectors as (Hs & Hp & Hp64).
  assert (Hstay : forall b r p rb, 0 <= r -> took_pages spp pagelist b r p rb b r p rb).
  { intros b r p rb Hr. unfold took_pages.
    rewrite !Z.sub_diag, Nat.sub_diag, to_bytes_mul. simpl. rewrite app_nil_r.
    repeat split; try reflexivity; lia. }
  induction fuel as [|fuel IH]; intros b r p rb Hr Hfuel Hrb Hlist.
  - assert (r = 0) by lia. subst r. simpl.
    exists b, 0, p, rb. split; [reflexivity|]. split; [apply Hstay; lia|lia].
  - cbn [add_pages]. destruct (Z.eqb_spec r 0) as [Hz|Hnz].
    { subst r. exists b, 0, p, rb. split; [reflexivity|]. split; [apply Hstay; lia|lia]. }
    assert (Hpos : 0 < r) by lia.
    assert (Hp_in : (p < length pagelist)%nat).
    { destruct (pages_needed_step spp r Hs Hpos) as [_ Hone]. lia. }
    rewrite (nth_error_nth' pagelist 0 Hp_in). cbv zeta.
    rewrite (len_of_page r) by lia. rewrite to_sector_bytes.
    destruct (bio_add_page nr_vecs b (nth p pagelist 0) (to_bytes (Z.min spp r)) 0) eqn:Hadd;
      cbn [negb].
    2:{ exists b, r, p, rb. split; [reflexivity|]. split; [apply Hstay; lia|].
        intros _ Hnr Hv. rewrite (empty_bio_takes_page _ _ _ _ Hnr Hv) in Hadd.
        discriminate. }
    destruct (pages_needed_step spp r Hs Hpos) as [Hstep Hone].
    assert (Hr1 : 0 <= r - Z.min spp r < r) by lia.
    assert (Hu : u64 (r - Z.min spp r) = r - Z.min spp r).
    { unfold u64. apply Z.mod_small. destruct count_range as (Hc & Hc64).
      assert (Hpow : 1 <= 2 ^ SECTOR_SHIFT)
        by (assert (0 < 2 ^ SECTOR_SHIFT)
              by (apply Z.pow_pos_nonneg; [lia|exact shift_nonneg]); lia).
      rewrite to_bytes_mul in Hc64. nia. }
    assert (Hs32 : s32 (rb - 1) = rb - 1).
    { unfold s32. rewrite Z.mod_small by lia. lia. }
    rewrite Hu, Hs32.
    destruct (IH (bio_with_page b (nth p pagelist 0) (to_bytes (Z.min spp r)) 0)
                (r - Z.min spp r) (S p) (rb - 1))
      as (b' & r' & p' & rb' & Hrun & Htook & _); [lia|lia|lia|lia|].
    exists b', r', p', rb'. split; [exact Hrun|]. split; [|intros; unfold took_pages in Htook; lia].
    unfold took_pages in *.
    destruct Htook as (T1 & T2 & T3 & T4 & T5 & T6 & T7 & T8 & T9 & T10 & T11 & T12).
    cbn [bio_with_page bi_size bi_io_vec bi_bdev bi_sector bi_op bi_op_flags
         bi_end_io bi_private] in *.
    split; [lia|]. split.
    { rewrite T2, !to_bytes_mul. lia. }
    split; [lia|]. split; [lia|]. split.
    { rewrite T5, map_app, <- app_assoc. f_equal. simpl.
      replace (p' - p)%nat with (S (p' - S p)) by lia. reflexivity. }
    repeat split; try assumption; lia.
Qed.

Lemma start_at_step (r r' : Z) : u64 (start_at dmc where_ hddio r + (r - r')) = start_at dmc where_ hddio r'.
Proof.
  unfold start_at. destruct hddio.
  - rewrite !u64_add_l.
    replace (u64 (rg_sector where_ + (rg_count where_ - r)) + dev_start_sect dmc + (r - r'))
      with (u64 (rg_sector where_ + (rg_count where_ - r)) + (dev_start_sect dmc + (r - r')))
      by lia.
    rewrite u64_add_l. f_equal. lia.
  - rewrite u64_add_l. f_equal. lia.
Qed.

Lemma dispatch_pages_loop_spec :
  forall (fuel : nat) (remaining : Z) (pindex : nat) (remaining_bvecs : Z),
    0 <= remaining <= rg_count where_ ->
    (Z.to_nat remaining < fuel)%nat ->
    pages_needed spp remaining <= remaining_bvecs < 2 ^ 31 ->
    (pindex + Z.to_nat (pages_needed spp remaining) <= length pagelist)%nat ->
    exists evs,
      dispatch_pages_loop fuel dmc where_ op op_flags pagelist io hddio
        remaining pindex remaining_bvecs
      = (evs, Some (passed (remaining_bvecs - pages_needed spp remaining)))
      /\ dispatched evs <> []
      /\ tracker_refs evs = length (dispatched evs)
      /\ contiguous (start_at dmc where_ hddio remaining) (dispatched evs)
      /\ bios_size (dispatched evs) = to_bytes remaining
      /\ map bv_page (flat_map bi_io_vec (dispatched evs))
         = map (fun i => nth i pagelist 0)
             (seq pindex (Z.to_nat (pages_needed spp remaining)))
      /\ Forall (fun b => bi_bdev b = rg_bdev where_ /\ bi_op b = op
                          /\ bi_op_flags b = op_flags
                          /\ bi_end_io b = eio_endio_fn /\ bi_private b = io)
           (dispatched evs).
Proof.
  destruct page_sectors as (Hs & Hp & Hp64).
  induction fuel as [|fuel IH]; intros r p rb Hr Hfuel Hrb Hlist; [lia|].
  cbn [dispatch_pages_loop].
  set (nr := Z.min (s32 (EIO_BIO_GET_NR_VECS (rg_bdev where_))) rb).
  set (b0 := {| bi_bdev := rg_bdev where_; bi_sector := _; bi_size := 0;
                bi_op := op; bi_op_flags := op_flags; bi_io_vec := [];
                bi_idx := 0%nat; bi_vcnt := 0%nat;
                bi_end_io := eio_endio_fn; bi_private := io |}).
  destruct (add_pages_spec nr (S fuel) b0 r p rb Hr ltac:(lia) Hrb Hlist)
    as (b' & r' & p' & rb' & Hrun & Htook & Hless).
  rewrite Hrun.
  unfold took_pages in Htook.
  destruct Htook as (T1 & T2 & T3 & T4 & T5 & T6 & T7 & T8 & T9 & T10 & T11 & T12).
  cbn [b0 bi_size bi_io_vec bi_bdev bi_sector bi_op bi_op_flags bi_end_io
       bi_private map app] in T2, T5, T6, T7, T8, T9, T10, T11.
  fold (start_at dmc where_ hddio r) in T7.
  set (first := [dp_bio_alloc nr; dp_atomic_inc io]
                  ++ (if hddio then map dp_hdd (hdd_make_request (origmfn dmc) b')
                      else [dp_submit_bio b'])).
  assert (Hfirst : dispatched first = [b'] /\ tracker_refs first = 1%nat).
  { subst first. unfold hdd_make_request.
    destruct hddio; [destruct (bd_queue (bi_bdev b') =? 0)|]; split; reflexivity. }
  destruct Hfirst as [Hd1 Ht1].
  assert (Hfields : bi_bdev b' = rg_bdev where_ /\ bi_op b' = op
                    /\ bi_op_flags b' = op_flags
                    /\ bi_end_io b' = eio_endio_fn /\ bi_private b' = io)
    by (repeat split; assumption).
  destruct (Z.eqb_spec r' 0) as [Hz|Hnz].
  - subst r'. exists first. split.
    { rewrite (pages_needed_zero spp Hs) in T3. rewrite T4, T3, Z.sub_0_r. reflexivity. }
    rewrite Hd1, Ht1. split; [discriminate|]. split; [reflexivity|].
    split; [simpl; split; [exact T7|exact I]|].
    split; [simpl; rewrite T2, Z.sub_0_r; lia|].
    split.
    { simpl. rewrite app_nil_r, T5. f_equal. f_equal.
      rewrite (pages_needed_zero spp Hs) in T3. lia. }
    constructor; [exact Hfields|constructor].
  - assert (Hlt : r' < r).
    { apply Hless; [lia| |reflexivity].
      subst nr. unfold s32. rewrite Z.mod_small by lia.
      destruct (pages_needed_step spp r Hs ltac:(lia)) as [_ Hone]. lia. }
    assert (Hn' : 0 <= pages_needed spp r') by (apply pages_needed_nonneg; lia).
    assert (Hn : 0 <= pages_needed spp r) by (apply pages_needed_nonneg; lia).
    destruct (IH r' p' rb') as (evs' & Hloop & Hne & Href & Hcont & Hsize & Hpages & Hall);
      [lia|lia|lia|lia|].
    rewrite Hloop. exists (first ++ evs'). split.
    { rewrite T4, T3. do 3 f_equal. lia. }
    rewrite dispatched_app, tracker_refs_app, Hd1, Ht1, Href.
    split; [discriminate|]. split; [reflexivity|].
    split.
    { simpl. split; [exact T7|].
      rewrite T2, Z.add_0_l, to_sector_bytes, start_at_step. exact Hcont. }
    split.
    { simpl. rewrite Hsize, T2, !to_bytes_mul. lia. }
    split.
    { simpl. rewrite map_app, Hpages, T5, <- map_app. f_equal.
      replace (Z.to_nat (pages_needed spp r))
        with ((p' - p) + Z.to_nat (pages_needed spp r'))%nat by lia.
      rewrite seq_app. f_equal. f_equal. lia. }
    constructor; [exact Hfields|exact Hall].
Qed.

(** eio_dispatch_io_pages covers the region, bio after bio, and wants
    its vectors used up.  For a region of [count] sectors, with pages of
    [spp] sectors, a list that has the pages the region takes and at
    least as many vectors, on a block layer whose empty bio takes a
    page, the loop ends within [count + 1] passes.  It hands on at least one bio (one with
    no page when [count] is zero), and takes one reference on the
    tracker for each.  The bios follow one another on the device from
    the first sector of the region (moved by the start of the partition
    for the source device), their sizes add up to the size of the
    region, and they carry the pages of the list in order, none left out
    and none twice.  Then the call returns 0 when [num_vecs] is the
    number of pages the region takes, and with a vector left over the
    assertion of line 715 stops it. *)
Theorem dispatch_pages_covers_region (num_vecs : Z) :
  pages_needed spp (rg_count where_) <= num_vecs < 2 ^ 31 ->
  pages_needed spp (rg_count where_) <= Z.of_nat (length pagelist) ->
  exists evs,
    eio_dispatch_io_pages (S (Z.to_nat (rg_count where_))) dmc where_ op op_flags
      pagelist io hddio num_vecs
    = (evs, Some (if num_vecs =? pages_needed spp (rg_count where_)
                  then passed 0 else stopped (assert_failed 715)))
    /\ dispatched evs <> []
    /\ tracker_refs evs = length (dispatched evs)
    /\ contiguous
         (if hddio then u64 (u64 (rg_sector where_) + dev_start_sect dmc)
          else u64 (rg_sector where_))
         (dispatched evs)
    /\ bios_size (dispatched evs) = to_bytes (rg_count where_)
    /\ map bv_page (flat_map bi_io_vec (dispatched evs))
       = map (fun i => nth i pagelist 0)
           (seq 0 (Z.to_nat (pages_needed spp (rg_count where_))))
    /\ Forall (fun b => bi_bdev b = rg_bdev where_ /\ bi_op b = op
                        /\ bi_op_flags b = op_flags
                        /\ bi_end_io b = eio_endio_fn /\ bi_private b = io)
         (dispatched evs).
Proof.
  intros Hvecs Hlist. destruct count_range as (Hc & _).
  destruct (dispatch_pages_loop_spec (S (Z.to_nat (rg_count where_)))
              (rg_count where_) 0 num_vecs)
    as (evs & Hloop & Hne & Href & Hcont & Hsize & Hpages & Hall);
    [lia|lia|exact Hvecs|lia|].
  exists evs. unfold eio_dispatch_io_pages. rewrite Hloop.
  split.
  { f_equal.
    destruct (Z.eqb_spec num_vecs (pages_needed spp (rg_count where_))) as [E|E].
    - rewrite E, Z.sub_diag. reflexivity.
    - replace (num_vecs - pages_needed spp (rg_count where_) =? 0) with false
        by (symmetry; apply Z.eqb_neq; lia).
      reflexivity. }
  split; [exact Hne|]. split; [exact Href|].
  split; [|split; [exact Hsize|split; [exact Hpages|exact Hall]]].
  unfold start_at in Hcont. rewrite Z.sub_diag, Z.add_0_r in Hcont. exact Hcont.
Qed.

(** What the inner loop does to a bio that takes no more pages than it
    was made for, on a list that has the pages of the region. *)
Lemma add_pages_bounded (nr_vecs : Z) :
  (forall nr b page len,
     nr <= Z.of_nat (bi_vcnt b) -> bio_add_page nr b page len 0 = false) ->
  forall (fuel : nat) (b : bio) (remaining : Z) (pindex : nat) (remaining_bvecs : Z)
         (res : checked (bio * Z * nat * Z)),
    add_pages fuel nr_vecs b remaining pindex remaining_bvecs pagelist = Some res ->
    0 <= remaining <= rg_count where_ ->
    remaining_bvecs < 2 ^ 31 ->
    nr_vecs <= remaining_bvecs + Z.of_nat (bi_vcnt b) ->
    (pindex + Z.to_nat (pages_needed spp remaining) <= length pagelist)%nat ->
    exists b' remaining' pindex' remaining_bvecs' (k : nat),
      res = passed (b', remaining', pindex', remaining_bvecs')
      /\ Z.of_nat (bi_vcnt b') = Z.of_nat (bi_vcnt b) + Z.of_nat k
      /\ length (bi_io_vec b') = (length (bi_io_vec b) + k)%nat
      /\ pindex' = (pindex + k)%nat
      /\ remaining_bvecs' = remaining_bvecs - Z.of_nat k
      /\ pages_needed spp remaining' = pages_needed spp remaining - Z.of_nat k
      /\ 0 <= remaining' <= remaining
      /\ ((0 < k)%nat -> Z.of_nat (bi_vcnt b') <= nr_vecs)
      /\ (k = 0%nat -> remaining' = remaining).
Proof.
  intros Hfull. destruct page_sectors as (Hs & Hp & Hp64).
  induction fuel as [|fuel IH]; intros b r p rb res H Hr Hrb Hcap Hlist.
  - simpl in H. destruct (r =? 0); [|discriminate].
    injection H as <-. exists b, r, p, rb, 0%nat. repeat split; lia.
  - cbn [add_pages] in H. destruct (Z.eqb_spec r 0) as [Hz|Hnz].
    { injection H as <-. exists b, r, p, rb, 0%nat. repeat split; lia. }
    assert (Hpos : 0 < r) by lia.
    destruct (pages_needed_step spp r Hs Hpos) as [Hstep Hone].
    assert (Hp_in : (p < length pagelist)%nat) by lia.
    rewrite (nth_error_nth' pagelist 0 Hp_in) in H. cbv zeta in H.
    rewrite (len_of_page r) in H by lia. rewrite to_sector_bytes in H.
    destruct (bio_add_page nr_vecs b (nth p pagelist 0) (to_bytes (Z.min spp r)) 0) eqn:Hadd;
      cbn [negb] in H.
    2:{ injection H as <-. exists b, r, p, rb, 0%nat. repeat split; lia. }
    assert (Hroom : Z.of_nat (bi_vcnt b) < nr_vecs).
    { destruct (Z.lt_ge_cases (Z.of_nat (bi_vcnt b)) nr_vecs) as [Hlt|Hge]; [exact Hlt|].
      rewrite (Hfull nr_vecs b (nth p pagelist 0) (to_bytes (Z.min spp r)) Hge) in Hadd.
      discriminate. }
    assert (Hu : u64 (r - Z.min spp r) = r - Z.min spp r).
    { unfold u64. apply Z.mod_small. destruct count_range as (Hc & Hc64).
      assert (Hpow : 1 <= 2 ^ SECTOR_SHIFT)
        by (assert (0 < 2 ^ SECTOR_SHIFT)
              by (apply Z.pow_pos_nonneg; [lia|exact shift_nonneg]); lia).
      rewrite to_bytes_mul in Hc64. nia. }
    assert (Hs32 : s32 (rb - 1) = rb - 1).
    { unfold s32. rewrite Z.mod_small by lia. lia. }
    rewrite Hu, Hs32 in H.
    destruct (IH _ _ _ _ _ H)
      as (b' & r' & p' & rb' & k & Hres & Hv & Hl & Hp' & Hrb' & Hneed & Hr' & Hle & _).
    + lia.
    + lia.
    + cbn [bio_with_page bi_vcnt]. lia.
    + lia.
    + cbn [bio_with_page bi_vcnt bi_io_vec] in Hv, Hl.
      rewrite length_app in Hl. cbn [length] in Hl.
      exists b', r', p', rb', (S k).
      split; [exact Hres|].
      split; [lia|]. split; [lia|]. split; [lia|]. split; [lia|]. split; [lia|].
      split; [lia|]. split; [|lia].
      intros _. destruct k as [|k]; [lia|apply Hle; lia].
Qed.

(** The inner loop ends within one pass more than the bio has room for
    vectors. *)
Lemma add_pages_ends (nr_vecs : Z) :
  (forall nr b page len,
     nr <= Z.of_nat (bi_vcnt b) -> bio_add_page nr b page len 0 = false) ->
  forall (fuel : nat) (b : bio) (remaining : Z) (pindex : nat) (remaining_bvecs : Z),
    (Z.to_nat (nr_vecs - Z.of_nat (bi_vcnt b)) < fuel)%nat ->
    add_pages fuel nr_vecs b remaining pindex remaining_bvecs pagelist <> None.
Proof.
  intros Hfull. induction fuel as [|fuel IH]; intros b r p rb Hfuel; [lia|].
  cbn [add_pages]. destruct (r =? 0); [discriminate|].
  destruct (nth_error pagelist p) as [page0|]; [cbv zeta|discriminate].
  match goal with
  | |- context [bio_add_page nr_vecs b ?page ?len 0] =>
      destruct (bio_add_page nr_vecs b page len 0) eqn:Hadd; cbn [negb];
        [|discriminate];
      assert (Hroom : Z.of_nat (bi_vcnt b) < nr_vecs)
        by (destruct (Z.lt_ge_cases (Z.of_nat (bi_vcnt b)) nr_vecs) as [Hlt|Hge];
              [exact Hlt|rewrite (Hfull nr_vecs b page len Hge) in Hadd; discriminate])
  end.
  apply IH. cbn [bio_with_page bi_vcnt]. lia.
Qed.

(** A bio handed on for each pass. *)
Lemma dispatched_pass (nr : Z) (b : bio) :
  let evs := [dp_bio_alloc nr; dp_atomic_inc io]
               ++ (if hddio then map dp_hdd (hdd_make_request (origmfn dmc) b)
                   else [dp_submit_bio b]) in
  dispatched evs = [b] /\ tracker_refs evs = 1%nat.
Proof.
  unfold hdd_make_request.
  destruct hddio; [destruct (bd_queue (bi_bdev b) =? 0)|]; split; reflexivity.
Qed.

Lemma dispatch_pages_loop_short :
  (forall nr b page len,
     nr <= Z.of_nat (bi_vcnt b) -> bio_add_page nr b page len 0 = false) ->
  forall (f : nat) (r : Z) (p : nat) (rb : Z),
    0 < r <= rg_count where_ ->
    rb < pages_needed spp r -> rb < 2 ^ 31 ->
    (p + Z.to_nat (pages_needed spp r) <= length pagelist)%nat ->
    let run := dispatch_pages_loop f dmc where_ op op_flags pagelist io hddio r p rb in
    snd run = None
    /\ tracker_refs (fst run) = length (dispatched (fst run))
    /\ (length (flat_map bi_io_vec (dispatched (fst run))) <= Z.to_nat rb)%nat
    /\ (forall k, (k + Z.to_nat rb <= f)%nat -> (k <= length (dispatched (fst run)))%nat).
Proof.
  intros Hfull. destruct page_sectors as (Hs & Hp & Hp64).
  induction f as [|f IH]; intros r p rb Hr Hrb H31 Hlist.
  { cbn. repeat split; try lia. }
  cbn [dispatch_pages_loop].
  set (nr := Z.min (s32 (EIO_BIO_GET_NR_VECS (rg_bdev where_))) rb).
  match goal with
  | |- context [add_pages (S f) nr ?b0 r p rb pagelist] =>
      pose proof (add_pages_ends nr Hfull (S f) b0 r p rb) as Hends;
      destruct (add_pages (S f) nr b0 r p rb pagelist) as [res|] eqn:Hrun;
        [destruct (add_pages_bounded nr Hfull _ _ _ _ _ _ Hrun)
           as (b' & r' & p' & rb' & j & -> & Hv & Hl & Hp' & Hrb' & Hneed & Hr'
               & Hle & Hstuck)|]
  end.
  - lia.
  - exact H31.
  - subst nr. cbn [bi_vcnt]. lia.
  - exact Hlist.
  - cbn [bi_vcnt bi_io_vec length] in Hv, Hl.
    assert (Hgo : 0 < r' /\ rb' < pages_needed spp r').
    { destruct j as [|j].
      - rewrite (Hstuck eq_refl). split; lia.
      - assert (Hk : Z.of_nat (S j) <= rb) by (specialize (Hle ltac:(lia)); subst nr; lia).
        assert (Hn : 0 < pages_needed spp r') by lia.
        split; [|lia].
        destruct (Z.eq_dec r' 0) as [E|E]; [|lia].
        rewrite E, (pages_needed_zero spp Hs) in Hn. lia. }
    destruct Hgo as [Hr0 Hrb0].
    assert (Hj : (j + Z.to_nat rb' <= Z.to_nat rb)%nat).
    { destruct j as [|j]; [lia|].
      assert (Z.of_nat (S j) <= rb) by (specialize (Hle ltac:(lia)); subst nr; lia).
      lia. }
    assert (Hn' : 0 <= pages_needed spp r') by (apply pages_needed_nonneg; lia).
    replace (r' =? 0) with false by (symmetry; apply Z.eqb_neq; lia).
    destruct (IH r' p' rb' ltac:(lia) Hrb0 ltac:(lia) ltac:(lia))
      as (Hnone & Href & Hpages & Hmany).
    destruct (dispatch_pages_loop f dmc where_ op op_flags pagelist io hddio r' p' rb')
      as [evs' over] eqn:Hrest.
    cbn [fst snd] in *.
    destruct (dispatched_pass nr b') as [Hd1 Ht1]. cbv zeta in Hd1, Ht1.
    rewrite tracker_refs_app, dispatched_app, Ht1, Hd1, Href.
    cbn [app length flat_map]. rewrite length_app.
    split; [exact Hnone|]. split; [reflexivity|]. split; [lia|].
    intros [|k] Hk; [lia|]. specialize (Hmany k ltac:(lia)). lia.
  - cbn [fst snd tracker_refs dispatched flat_map length].
    split; [reflexivity|]. split; [reflexivity|]. split; [lia|].
    intros [|k] Hk; [lia|]. exfalso. apply Hends; [|reflexivity].
    cbn [bi_vcnt]. subst nr. lia.
Qed.

(** With fewer vectors than the region takes pages, on a list that has
    these pages, the dispatch never returns.  Pass after pass it makes a bio, hands it on and takes a
    reference on the tracker, at least [k] times within [k + num_vecs]
    passes; all these bios together have no more than [num_vecs] pages,
    so that all but [num_vecs] of them at most are empty, and
    [remaining] never comes down to zero. *)
Theorem dispatch_pages_short_of_vectors (num_vecs : Z) :
  (forall nr b page len,
     nr <= Z.of_nat (bi_vcnt b) -> bio_add_page nr b page len 0 = false) ->
  0 < rg_count where_ ->
  num_vecs < pages_needed spp (rg_count where_) ->
  num_vecs < 2 ^ 31 ->
  pages_needed spp (rg_count where_) <= Z.of_nat (length pagelist) ->
  forall fuel,
    let run :=
      eio_dispatch_io_pages fuel dmc where_ op op_flags pagelist io hddio num_vecs in
    snd run = None
    /\ tracker_refs (fst run) = length (dispatched (fst run))
    /\ (length (flat_map bi_io_vec (dispatched (fst run))) <= Z.to_nat num_vecs)%nat
    /\ (forall k, (k + Z.to_nat num_vecs <= fuel)%nat ->
                  (k <= length (dispatched (fst run)))%nat).
Proof.
  intros Hfull Hcount Hshort Hint Hlist fuel.
  destruct (dispatch_pages_loop_short Hfull fuel (rg_count where_) 0 num_vecs
              ltac:(lia) Hshort Hint ltac:(lia)) as (Hnone & Href & Hpages & Hmany).
  unfold eio_dispatch_io_pages.
  destruct (dispatch_pages_loop fuel dmc where_ op op_flags pagelist io hddio
              (rg_count where_) 0 num_vecs) as [evs over].
  cbn [fst snd] in *. subst over.
  split; [reflexivity|]. split; [exact Href|]. split; [exact Hpages|exact Hmany].
Qed.

End DispatchPagesProperties.

(** Ten sectors at sector 40 of sda1, for the source device of A, with
    pages of eight sectors and bios of two vectors: one bio of 5120
    bytes at sector 140 of the disk, with the first two pages, and the
    call returns 0. *)
Lemma dispatch_pages_covers_region_witness :
  exists evs,
    @eio_dispatch_io_pages sample_header sample_pages sample_block_layer 11
      (caches st_A 1000) ten_sectors REQ_OP_WRITE 0 [71; 72; 73] 9000 true 2
    = (evs, Some (passed 0))
    /\ tracker_refs evs = length (dispatched evs)
    /\ bios_size (dispatched evs) = 5120
    /\ map bv_page (flat_map bi_io_vec (dispatched evs)) = [71; 72].
Proof.
  destruct (@dispatch_pages_covers_region sample_header sample_pages sample_block_layer
              (caches st_A 1000) ten_sectors REQ_OP_WRITE 0 [71; 72; 73] 9000 true 8)
    with (num_vecs := 2)
    as (evs & Hrun & _ & Href & _ & Hsize & Hpages & _).
  - vm_compute. discriminate.
  - reflexivity.
  - reflexivity.
  - vm_compute. repeat split; try reflexivity; discriminate.
  - vm_compute. split; [discriminate|reflexivity].
  - vm_compute. split; [discriminate|reflexivity].
  - intros nr_vecs b page len Hnr Hv. simpl. rewrite Hv. apply Z.ltb_lt. lia.
  - vm_compute. split; [discriminate|reflexivity].
  - vm_compute. discriminate.
  - exists evs. split; [exact Hrun|]. split; [exact Href|].
    split; [exact Hsize|exact Hpages].
Defined.

(** The same dispatch with three vectors for the two pages: the bio is
    handed on as before, and the assertion stops the call. *)
Example dispatch_pages_vector_left_over :
  exists evs,
    @eio_dispatch_io_pages sample_header sample_pages sample_block_layer 11
      (caches st_A 1000) ten_sectors REQ_OP_WRITE 0 [71; 72; 73] 9000 true 3
    = (evs, Some (stopped (assert_failed 715)))
    /\ map bv_page (flat_map bi_io_vec (dispatched evs)) = [71; 72].
Proof. eexists. split; vm_compute; reflexivity. Qed.

(** And with a list of one page for the two: the read of the second
    entry stops the call, no bio handed on. *)
Example dispatch_pages_list_too_short :
  @eio_dispatch_io_pages sample_header sample_pages sample_block_layer 11
    (caches st_A 1000) ten_sectors REQ_OP_WRITE 0 [71] 9000 true 2
  = ([dp_bio_alloc 2], Some (stopped (out_of_bounds 692))).
Proof. vm_compute. reflexivity. Qed.

(** Ten sectors take two pages of eight sectors; with one vector the
    dispatch has not returned after a hundred passes, in which it handed
    on ninety-nine bios or more that hold one page between them. *)
Lemma dispatch_pages_short_of_vectors_witness :
  let run :=
    @eio_dispatch_io_pages sample_header sample_pages sample_block_layer 100
      (caches st_A 1000) ten_sectors REQ_OP_WRITE 0 [71; 72; 73] 9000 true 1 in
  snd run = None
  /\ (99 <= length (dispatched (fst run)))%nat
  /\ (length (flat_map bi_io_vec (dispatched (fst run))) <= 1)%nat.
Proof.
  destruct (@dispatch_pages_short_of_vectors sample_header sample_pages
              sample_block_layer
              (caches st_A 1000) ten_sectors REQ_OP_WRITE 0 [71; 72; 73] 9000 true 8)
    with (num_vecs := 1) (fuel := 100%nat)
    as (Hnone & _ & Hpages & Hmany).
  - vm_compute. discriminate.
  - reflexivity.
  - reflexivity.
  - vm_compute. repeat split; try reflexivity; discriminate.
  - vm_compute. split; [discriminate|reflexivity].
  - intros nr b page len Hnr. simpl. apply Z.ltb_ge. exact Hnr.
  - reflexivity.
  - reflexivity.
  - reflexivity.
  - vm_compute. discriminate.
  - split; [exact Hnone|]. split; [|exact Hpages].
    apply (Hmany 99%nat). simpl. lia.
Defined.

(** ** Lookup after deactivation *)

Section DeactivateLookup.
Context {hdr : EioHeader} {ext : Collaborators}.

Lemma lookup_in_list_remove (st : ttc_state) (name : string) (a : Z) :
  forall l,
    (forall x, lookup_in_list st name l = Some x -> x <> a ->
               lookup_in_list st name (remove Z.eq_dec a l) = Some x)
    /\ (lookup_in_list st name l = None ->
        lookup_in_list st name (remove Z.eq_dec a l) = None).
Proof.
  induction l as [|y l [IH1 IH2]]; [split; [discriminate|reflexivity]|].
  cbn [lookup_in_list remove].
  destruct (Z.eq_dec a y) as [->|Hne].
  - destruct (String.eqb name (cache_name (caches st y))).
    + split; [intros x H; injection H as <-; congruence|discriminate].
    + split; assumption.
  - cbn [lookup_in_list].
    destruct (String.eqb name (cache_name (caches st y))).
    + split; [intros x H _; exact H|discriminate].
    + split; assumption.
Qed.

Lemma lookup_in_list_agree (st st' : ttc_state) (name : string) :
  forall l,
    (forall x, In x l -> cache_name (caches st' x) = cache_name (caches st x)) ->
    lookup_in_list st' name l = lookup_in_list st name l.
Proof.
  induction l as [|y l IH]; intros H; [reflexivity|].
  cbn [lookup_in_list]. rewrite (H y (or_introl eq_refl)), IH; [reflexivity|].
  intros x Hx. apply H. right. exact Hx.
Qed.

Lemma deactivate_caches (fuel : nat) (st : ttc_state) (a force : Z)
  (ret : Z) (st' : ttc_state) (evs : list event) :
  eio_ttc_deactivate fuel st a force = Some (ret, st', evs) ->
  forall x, x <> a -> caches st' x = caches st x.
Proof.
  assert (Htail : forall st0 bdev r0 evs0,
             (forall x, x <> a -> caches st0 x = caches st x) ->
             deactivate_tail fuel st0 a bdev r0 evs0 = Some (ret, st', evs) ->
             forall x, x <> a -> caches st' x = caches st x).
  { intros st0 bdev r0 evs0 H0. unfold deactivate_tail.
    match goal with
    | |- context [if ?c then set_rq _ _ _ else _] => destruct c
    end; cbn [set_list set_rq caches eio_ttc_list];
      (destruct (wait_nr_ios fuel _) as [d|]; [|discriminate]);
      intros H; injection H as <- <- <-; intros x Hx; simpl; unfold upd;
      apply Z.eqb_neq in Hx; rewrite Hx; apply H0; apply Z.eqb_neq; exact Hx. }
  unfold eio_ttc_deactivate.
  destruct (disk_dev (caches st a)) as [bdev|] eqn:Hdev; [|discriminate].
  destruct (negb (force =? 0)); [apply Htail; reflexivity|].
  destruct (mode (caches st a) =? CACHE_MODE_WB); [|apply Htail; reflexivity].
  destruct (negb (CACHE_FAILED_IS_SET (caches st a))); [|apply Htail; reflexivity].
  destruct (eio_finish_nrdirty fuel st a) as [[[r st1] evs1]|] eqn:Hf; [|discriminate].
  assert (H1 : forall x, x <> a -> caches st1 x = caches st x).
  { revert Hf. unfold eio_finish_nrdirty. rewrite Hdev.
    destruct (wait_nr_ios fuel (caches st a)); [|discriminate].
    destruct (clean_loop fuel _) as [[r' d3]|]; [|discriminate].
    intros H; injection H as _ <- _. intros x Hx. simpl. unfold upd.
    apply Z.eqb_neq in Hx. rewrite Hx. reflexivity. }
  destruct (negb (r =? 0)).
  - intros H; injection H as <- <- <-. exact H1.
  - apply Htail. exact H1.
Qed.

(** A structure that was deactivated is no longer found.  After a
    deactivation that returned 0, of a structure that no other shard
    links, eio_cache_lookup returns the structure under no name; a name
    that resolved to another structure resolves to it still, and a name
    that did not resolve does not. *)
Theorem deactivate_then_lookup (fuel : nat) (st : ttc_state) (a force : Z)
  (bdev : block_device) (st' : ttc_state) (evs : list event) :
  disk_dev (caches st a) = Some bdev ->
  (forall j, j <> EIO_HASH_BDEV (bd_contains bdev) -> ~ In a (eio_ttc_list st j)) ->
  eio_ttc_deactivate fuel st a force = Some (0, st', evs) ->
  (forall name, fst (eio_cache_lookup st' name) <> Some a)
  /\ (forall name x, x <> a ->
        fst (eio_cache_lookup st name) = Some x ->
        fst (eio_cache_lookup st' name) = Some x)
  /\ (forall name,
        fst (eio_cache_lookup st name) = None ->
        fst (eio_cache_lookup st' name) = None).
Proof.
  intros Hdev Hother Hde.
  pose proof (deactivate_caches _ _ _ _ _ _ _ Hde) as Hcaches.
  destruct (deactivate_lists fuel st a force bdev 0 st' evs Hdev Hde)
    as [(Hr & _)|(_ & Hl & Ho)]; [contradiction (Hr eq_refl)|].
  assert (Hlist : forall i, eio_ttc_list st' i = remove Z.eq_dec a (eio_ttc_list st i)).
  { intros i. destruct (Nat.eq_dec i (EIO_HASH_BDEV (bd_contains bdev))) as [->|Hne].
    - exact Hl.
    - rewrite (Ho i Hne). symmetry. apply notin_remove. apply Hother. exact Hne. }
  assert (Hat : forall name i,
             lookup_in_list st' name (eio_ttc_list st' i)
             = lookup_in_list st name (remove Z.eq_dec a (eio_ttc_list st i))).
  { intros name i. rewrite Hlist. apply lookup_in_list_agree.
    intros x Hx. rewrite Hcaches; [reflexivity|].
    intros ->. exact (remove_In Z.eq_dec _ _ Hx). }
  unfold eio_cache_lookup. split; [|split].
  - intros name Hfound.
    pose proof (lookup_shards_spec st' name (seq 0 EIO_HASHTBL_SIZE)) as Hspec.
    rewrite Hfound in Hspec.
    destruct Hspec as (before & i & after & pre & post & _ & Hli & _).
    assert (Hin : In a (eio_ttc_list st' i))
      by (rewrite Hli; apply in_or_app; right; left; reflexivity).
    rewrite Hlist in Hin. exact (remove_In Z.eq_dec _ _ Hin).
  - intros name x Hx. generalize (seq 0 EIO_HASHTBL_SIZE). intros shards.
    induction shards as [|i rest IH]; [discriminate|].
    rewrite !lookup_shards_fst, Hat.
    destruct (lookup_in_list_remove st name a (eio_ttc_list st i)) as [R1 R2].
    destruct (lookup_in_list st name (eio_ttc_list st i)) as [y|].
    + intros H; injection H as ->. rewrite (R1 x eq_refl Hx). reflexivity.
    + rewrite (R2 eq_refl). exact IH.
  - intros name. generalize (seq 0 EIO_HASHTBL_SIZE). intros shards.
    induction shards as [|i rest IH]; [reflexivity|].
    rewrite !lookup_shards_fst, Hat.
    destruct (lookup_in_list_remove st name a (eio_ttc_list st i)) as [R1 R2].
    destruct (lookup_in_list st name (eio_ttc_list st i)) as [y|]; [discriminate|].
    rewrite (R2 eq_refl). exact IH.
Qed.

End DeactivateLookup.

(** After the graceful deactivation of A from the table of A and B,
    the name of A resolves to nothing and B is found as before. *)
Lemma deactivate_then_lookup_witness :
  fst (@eio_cache_lookup sample_header st_B "A") <> Some 1000
  /\ fst (@eio_cache_lookup sample_header st_B "B") = Some 2000.
Proof.
  destruct (@eio_ttc_deactivate sample_header quiet 3 st_AB 1000 0)
    as [[[ret st'] evs]|] eqn:Hde; [|vm_compute in Hde; discriminate].
  assert (Hret : ret = 0) by (vm_compute in Hde; congruence).
  subst ret.
  assert (Hst : st' = st_B).
  { unfold st_B, deactivate_on. rewrite Hde. reflexivity. }
  destruct (@deactivate_then_lookup sample_header quiet 3 st_AB 1000 0 sda1 st' evs)
    as (Hgone & Hkept & _).
  - reflexivity.
  - intros j Hj Hin. vm_compute in Hj.
    destruct j as [|j]; [apply Hj; reflexivity|].
    vm_compute in Hin. exact Hin.
  - exact Hde.
  - rewrite <- Hst. split; [apply Hgone|].
    apply Hkept; [lia|reflexivity].
Defined.

(** ** The drain of dirty blocks *)

Section DrainProperties.
Context {hdr : EioHeader} {ext : Collaborators}.

Lemma clean_loop_outcome (fuel : nat) :
  forall d ret d',
    clean_loop fuel d = Some (ret, d') ->
    (ret = 0 \/ (ret = - ENODEV /\ CACHE_FAILED_IS_SET d' = true)).
Proof.
  induction fuel as [|f IH]; intros d ret d' H; simpl in H; [discriminate|].
  destruct (CACHE_FAILED_IS_SET d) eqn:Hfail.
  { injection H as <- <-. right. split; [reflexivity|exact Hfail]. }
  set (d1 := if sysctl_fast_remove d =? 0 then eio_clean_all d else d) in *.
  destruct ((sysctl_fast_remove d1 =? 0) && (0 <? nr_dirty d1)
            && negb (flag_set (cache_flags d1) CACHE_FLAGS_SHUTDOWN_INPROG)).
  - eapply IH; eassumption.
  - injection H as <- <-. left. reflexivity.
Qed.

Lemma wait_nr_ios_more (n : nat) :
  forall d d' m, wait_nr_ios n d = Some d' -> wait_nr_ios (n + m) d = Some d'.
Proof.
  induction n as [|n IH]; intros d d' m H; simpl in H.
  - destruct (nr_ios d =? 0) eqn:Hz; [|discriminate].
    destruct m; simpl; rewrite Hz; exact H.
  - simpl. destruct (nr_ios d =? 0); [exact H|]. apply IH. exact H.
Qed.

Lemma clean_loop_more (n : nat) :
  forall d r m, clean_loop n d = Some r -> clean_loop (n + m) d = Some r.
Proof.
  induction n as [|n IH]; intros d r m H; simpl in H; [discriminate|].
  simpl. destruct (CACHE_FAILED_IS_SET d); [exact H|].
  set (d1 := if sysctl_fast_remove d =? 0 then eio_clean_all d else d) in *.
  destruct ((sysctl_fast_remove d1 =? 0) && (0 <? nr_dirty d1)
            && negb (flag_set (cache_flags d1) CACHE_FLAGS_SHUTDOWN_INPROG));
    [apply IH; exact H|exact H].
Qed.

(** The loop of the drain ends once the cleaner has brought the dirty
    count to zero. *)
Lemma clean_loop_returns (k : nat) :
  forall d,
    nr_dirty (Nat.iter (S k) eio_clean_all d) <= 0 ->
    exists r, clean_loop (S k) d = Some r.
Proof.
  induction k as [|k IH]; intros d Hk.
  - simpl in Hk. simpl. destruct (CACHE_FAILED_IS_SET d); [eexists; reflexivity|].
    destruct (Z.eqb_spec (sysctl_fast_remove d) 0) as [Hf|Hf].
    + replace (0 <? nr_dirty (eio_clean_all d)) with false
        by (symmetry; apply Z.ltb_ge; exact Hk).
      rewrite andb_false_r. eexists; reflexivity.
    + apply Z.eqb_neq in Hf. rewrite Hf. eexists; reflexivity.
  - cbn [clean_loop]. destruct (CACHE_FAILED_IS_SET d); [eexists; reflexivity|].
    destruct (Z.eqb_spec (sysctl_fast_remove d) 0) as [Hf|Hf].
    + destruct (_ && _ && _); [|eexists; reflexivity].
      apply IH. rewrite <- Nat.iter_succ_r. exact Hk.
    + apply Z.eqb_neq in Hf. rewrite Hf. eexists; reflexivity.
Qed.

(** eio_finish_nrdirty, its outcomes.  A call that returns does so with
    0, -ENODEV or -EINVAL, EIO_CLEAN_START cleared, no lock held, and
    the lists, the entry points and the other structures as they were.
    It returns -EINVAL exactly when dirty blocks are left and a shutdown
    is in progress (the retry count, which the function never counts
    down, matters only if the constant is 0); -ENODEV only for a binding
    marked failed; 0 only with no dirty block left or fast_remove set.
    And the call does return once the I/O in flight has drained and the
    cleaner has brought the dirty count to zero. *)
Theorem finish_nrdirty_outcomes (st : ttc_state) (a : Z) (bdev : block_device) :
  disk_dev (caches st a) = Some bdev ->
  (forall fuel ret st1 evs,
     eio_finish_nrdirty fuel st a = Some (ret, st1, evs) ->
     let d := caches st1 a in
     (ret = 0 \/ ret = - ENODEV \/ ret = - EINVAL)
     /\ (ret = - EINVAL <->
         (flag_set (cache_flags d) CACHE_FLAGS_SHUTDOWN_INPROG = true
          \/ FINISH_NRDIRTY_RETRY_COUNT = 0) /\ 0 < nr_dirty d)
     /\ (ret = - ENODEV -> CACHE_FAILED_IS_SET d = true)
     /\ (ret = 0 -> nr_dirty d <= 0 \/ sysctl_fast_remove d <> 0)
     /\ flag_set (sysctl_do_clean d) EIO_CLEAN_START = false
     /\ held_locks [] evs = []
     /\ eio_ttc_list st1 = eio_ttc_list st
     /\ rq_make_request_fn st1 = rq_make_request_fn st
     /\ (forall x, x <> a -> caches st1 x = caches st x))
  /\ (forall n k d1,
        wait_nr_ios n (caches st a) = Some d1 ->
        nr_dirty (Nat.iter (S k) eio_clean_all
                    (set_do_clean
                       (Z.lor (sysctl_do_clean d1) (Z.lor EIO_CLEAN_KEEP EIO_CLEAN_START))
                       d1)) <= 0 ->
        exists ret st1 evs,
          eio_finish_nrdirty (n + S k) st a = Some (ret, st1, evs)).
Proof.
  intros Hdev. split.
  - intros fuel ret st1 evs Hfin d.
    pose proof (finish_nrdirty_no_lock fuel st a ret st1 evs [] Hfin) as Hlocks.
    assert (Hzero : ret = 0 -> nr_dirty d <= 0 \/ sysctl_fast_remove d <> 0).
    { intros ->. apply (finish_nrdirty_zero fuel st a st1 evs Hfin). }
    revert Hfin Hzero. subst d. unfold eio_finish_nrdirty. rewrite Hdev.
    destruct (wait_nr_ios fuel (caches st a)) as [d1|]; [|discriminate].
    destruct (clean_loop fuel _) as [[r d3]|] eqn:Hc; [|discriminate].
    pose proof (clean_loop_outcome _ _ _ _ Hc) as Hout.
    set (d4 := set_do_clean _ d3).
    intros H Hzero. injection H as <- <- <-.
    cbn [caches set_cache eio_ttc_list rq_make_request_fn]. unfold upd.
    rewrite Z.eqb_refl.
    assert (Hflags : cache_flags d4 = cache_flags d3) by reflexivity.
    assert (Hdirty : nr_dirty d4 = nr_dirty d3) by reflexivity.
    assert (Hfailed : CACHE_FAILED_IS_SET d4 = CACHE_FAILED_IS_SET d3) by reflexivity.
    simpl in Hzero. unfold upd in Hzero. rewrite Z.eqb_refl in Hzero.
    change (nr_dirty d4) with (nr_dirty d3) in *.
    change (cache_flags d4) with (cache_flags d3) in *.
    change (sysctl_fast_remove d4) with (sysctl_fast_remove d3) in *.
    change (CACHE_FAILED_IS_SET d4) with (CACHE_FAILED_IS_SET d3) in *.
    split; [|split; [|split; [|split; [|split; [|split; [|split; [|split]]]]]]].
    + destruct (_ && _); [right; right; reflexivity|].
      destruct Hout as [->|[-> _]]; [left|right; left]; reflexivity.
    + destruct (Z.ltb_spec 0 (nr_dirty d3)) as [Hnd|Hnd].
      * destruct (flag_set (cache_flags d3) CACHE_FLAGS_SHUTDOWN_INPROG) eqn:Hsh;
          cbn [orb andb].
        -- split; [intros _; split; [left; reflexivity|exact Hnd]|reflexivity].
        -- destruct (Z.eqb_spec FINISH_NRDIRTY_RETRY_COUNT 0) as [Hrc|Hrc]; cbn [andb].
           ++ split; [intros _; split; [right; exact Hrc|exact Hnd]|reflexivity].
           ++ split; [|intros [[Hx|Hx] _]; [discriminate|contradiction]].
              destruct Hout as [->|[-> _]]; unfold EINVAL, ENODEV; discriminate.
      * rewrite andb_false_r. split; [|intros [_ Hx]; lia].
        destruct Hout as [->|[-> _]]; unfold EINVAL, ENODEV; discriminate.
    + destruct (_ && _); [unfold EINVAL, ENODEV; discriminate|].
      destruct Hout as [->|[_ Hf]]; [unfold ENODEV; discriminate|].
      intros _. exact Hf.
    + exact Hzero.
    + apply flag_cleared.
    + exact Hlocks.
    + reflexivity.
    + reflexivity.
    + intros x Hx. apply Z.eqb_neq in Hx. rewrite Hx. reflexivity.
  - intros n k d1 Hwait Hclean.
    unfold eio_finish_nrdirty. rewrite Hdev.
    rewrite (wait_nr_ios_more n _ _ (S k) Hwait).
    destruct (clean_loop_returns k _ Hclean) as [[r d3] Hloop].
    replace (n + S k)%nat with (S k + n)%nat by lia.
    rewrite (clean_loop_more (S k) _ _ n Hloop).
    eexists _, _, _. reflexivity.
Qed.

End DrainProperties.

(** The drain of the five dirty blocks of A returns 0 after five passes
    of the cleaner. *)
Lemma finish_nrdirty_outcomes_witness :
  exists st1 evs,
    @eio_finish_nrdirty sample_header quiet 5 st_A_dirty 1000 = Some (0, st1, evs)
    /\ nr_dirty (caches st1 1000) = 0.
Proof.
  destruct (@finish_nrdirty_outcomes sample_header quiet st_A_dirty 1000 sda1 eq_refl)
    as (Hout & Hret).
  destruct (Hret 0%nat 4%nat (caches st_A_dirty 1000)) as (ret & st1 & evs & Hrun).
  - reflexivity.
  - vm_compute. discriminate.
  - assert (Hr : ret = 0) by (vm_compute in Hrun; congruence).
    subst ret. exists st1, evs. split; [exact Hrun|].
    vm_compute in Hrun. injection Hrun as <- _. reflexivity.
Defined.

(** ** The buffers of the sub-I/Os of a split *)

Section SplitBuffers.
Context {hdr : EioHeader} {ext : Collaborators}.

(** The sub-I/Os of a split carry the buffer of the original, piece by
    piece.  For an I/O whose [bi_vcnt] vectors each hold a whole number
    of sectors, the loop of eio_overlap_split_bio passes every check of
    eio_split_new_bio and makes [n] sub-I/Os whose single vectors are,
    in order, the first [n] one-sector pieces of the buffers of the
    original from its current vector on: the sub-I/O for the k-th sector
    points at the k-th sector of data, moving to the next vector when
    one is used up. *)
Theorem split_carries_buffer (b : bio) (bc : Z) (n : nat) (snum : Z) :
  (forall s, bio_alloc_split b s = true) ->
  0 < split_iosize ->
  bi_vcnt b = length (bi_io_vec b) ->
  Forall (sliceable split_iosize) (bi_io_vec b) ->
  (bi_idx b < length (bi_io_vec b))%nat ->
  (n <= length (slices_from split_iosize (bi_io_vec b) (bi_idx b) 0))%nat ->
  exists subs,
    split_loop n b bc (bi_idx b) 0 snum = passed (subs, true)
    /\ length subs = n
    /\ Forall (fun c => bi_vcnt c = 1%nat /\ length (bi_io_vec c) = 1%nat) subs
    /\ flat_map bi_io_vec subs
       = firstn n (slices_from split_iosize (bi_io_vec b) (bi_idx b) 0).
Proof.
  intros Halloc Hio Hvcnt Hall Hidx Hn.
  destruct (split_loop_slices b bc Hio Hvcnt Hall n (bi_idx b) 0 snum)
    as (subs & ok & Hrun & Hvecs & Hlen & Hok).
  - exact Hidx.
  - assert (Hs : sliceable split_iosize (nth (bi_idx b) (bi_io_vec b) bio_vec_zero)).
    { rewrite Forall_forall in Hall. apply Hall. apply nth_In. exact Hidx. }
    destruct Hs as [Hl _]. lia.
  - apply Z.mod_0_l. lia.
  - exact Hn.
  - rewrite (Hok Halloc) in Hrun, Hlen. specialize (Hlen eq_refl).
    exists subs. split; [exact Hrun|]. split; [exact Hlen|].
    split; [exact (split_loop_one_vector b bc _ _ _ _ _ _ Hrun)|].
    rewrite Hvecs, Hlen. reflexivity.
Qed.

End SplitBuffers.

(** The read over two vectors, split in five: three sub-I/Os on page 1
    at the offsets 1024, 1536 and 2048, then two on page 2. *)
Lemma split_carries_buffer_witness :
  exists subs,
    @split_loop sample_header quiet 5 (read_two_vecs 98) 8192 0 0 98
    = passed (subs, true)
    /\ map (fun v => (bv_page v, bv_offset v)) (flat_map bi_io_vec subs)
       = [(1, 1024); (1, 1536); (1, 2048); (2, 0); (2, 512)].
Proof.
  destruct (@split_carries_buffer sample_header quiet (read_two_vecs 98) 8192 5 98)
    as (subs & Hrun & _ & _ & Hvecs).
  - reflexivity.
  - reflexivity.
  - reflexivity.
  - repeat constructor; vm_compute; try reflexivity; discriminate.
  - simpl. lia.
  - vm_compute. lia.
  - exists subs. split; [exact Hrun|]. rewrite Hvecs. vm_compute. reflexivity.
Defined.

(** ** A split that stops *)

Section SplitStops.
Context {hdr : EioHeader} {ext : Collaborators}.



End SplitStops.


(** The same write with A active on [100, 199]: the scan classifies it
    as overlapping, and the splitter stops at the second sub-I/O, the
    one vector being used up: the assertion of line 1933 fails.  The
    call of eio_make_request_fn does not return, whatever the fuel. *)
Example split_stops_short_of_data :
  @route sample_header st_A (write_same_at 98 4) = ROUTE_SPLIT
  /\ (forall mrf,
        @eio_overlap_split_bio sample_header quiet mrf (write_same_at 98 4)
        = stopped (assert_failed 1933))
  /\ (forall fuel,
        @eio_make_request_fn sample_header quiet fuel st_A 500 (write_same_at 98 4)
        = None).
Proof.
  split; [vm_compute; reflexivity|].
  split; [intros mrf; vm_compute; reflexivity|].
  intros [|fuel]; [reflexivity|].
  rewrite make_request_unfold. vm_compute. reflexivity.
Qed.
